(* ===== verification/_CoqProject ===== *)
-Q . S2P
Prelude.v
GoStrings.v
GoPath.v
Errors.v
GoNet.v
Filesystem.v
Authorization.v
Limiter.v
Auth.v
BruteForce.v
Attempts.v
SftpLib.v
MemServer.v
SshDial.v
SftpClient.v
Sha256.v
Metrics.v
Observability.v
Config.v
Session.v
Transfer.v
UploadSpec.v
SftpClientSpec.v
TransferSpec.v
Interference.v
Concurrent.v
DownloadSpec.v
SftpClientProps.v
Gateway.v
Health.v
Cli.v
Driver.v
Trace.v
Triples.v
Accounting.v
System.v
Transparency.v
Quiet.v
Connections.v
SessionRace.v
DeadConnection.v
Admission.v
Confinement.v
Permissions.v
WellFormed.v
RoundTrip.v
Success.v
Service.v
Main.v
