(* ===== verification/Prelude.v ===== *)
(** * ftp2sftp: a verification library

    ftp2sftp is a gateway: it accepts FTP connections through the library
    ftpserverlib, authenticates them, and carries their file commands out on a
    remote SFTP server, one SFTP connection per FTP session.  This library
    models the Go code under [src/] as executable definitions and proves what
    makes it correct.  Each file opens with a comment of its own; this one is
    the map.

    ** The program, and where it is modelled

    Bottom up; a file only requires files above it in [_CoqProject].

    - Go itself.  [GoStrings] (packages strings, strconv, hex, fmt as used),
      [GoPath] (package path), [GoNet] (host and port), [Sha256]
      (crypto/sha256, executable).  An [int] or [int64] is a [Z] with
      [Prelude.wrap64] written at every addition that could overflow, a
      [uint64] uses [wrapu64]; strings are bytes; [error] is the tree
      [Errors.error], nil is [None]; maps are [gmap]s.
    - Leaf packages.  [Errors] (internal/errors), [Filesystem]
      (internal/filesystem/mapper.go), [Authorization]
      (internal/authorization: policy.go and, in module [Gate],
      concurrency.go), [Limiter] and [Auth] (internal/auth), [Metrics] and
      [Observability] (internal/observability), [Config] (internal/config).
    - The remote side.  [SftpLib] is the interface to pkg/sftp and the server:
      the class [SftpLib R] of operations on an abstract remote state [R] and
      the class [SftpLaws] of what they are relied on for; [MemServer] is an
      instance, a small file tree in memory.  [SshDial]
      (internal/sshclient/dial.go) has the class [SshLib] for x/crypto/ssh,
      the network and the local key files.  [SftpClient]
      (internal/sftpclient/client.go) is the confined client.
    - Transfers.  [Transfer] (internal/transfer): [RemoteFS] is Go's
      interface as a record of operations, [Upload] and [Download] the two
      handles.  The class [UploadSpec.RemoteFSLaws] is the contract the
      upload theorems are proved against, and [SftpClientSpec] and
      [SftpClientProps] discharge it for the SFTP client.
    - The gateway.  [Session] (internal/session), [Gateway]
      (internal/ftpserver/gateway.go and settings.go) with the record [World]
      of everything its callbacks act on, [Driver]
      (internal/ftpserver/clientdriver.go) with the handlers of the file
      commands.
    - The process.  [Health] (internal/health/server.go and the readiness
      probe of cmd/ftp2sftp/main.go), [Cli] (cmd/ftp2sftp/cli.go), [Main]
      (start and shutdown, cmd/ftp2sftp/main.go).

    Definitions keep the names of the code; where Go has a method of a type,
    the definition has the method's name in that type's file or module.
    Stateful code is in the state monad [Prelude.M] over the state it acts
    on, with [let*], [do*] and [try*] for sequencing and early returns; a
    component's state is lifted into the gateway's by [zoom].  What a call
    reads from outside (clock, random bytes) is an argument of it.

    ** How the parts run together

    [System.sys_step] performs one callback of the FTP library: connection,
    disconnection, login, any command, opening a transfer, any call on a
    transfer, shutdown; [System.reachable] closes the initial state under
    them, in any order and over any number of connections, sessions and
    transfers, subject to [System.allowed], which is what the library
    guarantees.  Invariants of reachable states are proved with the triples
    of [Triples] (what each handler keeps), [Accounting] (what transfers
    count in), [Quiet] (what transfers leave alone) and [Trace] (which paths
    are named to the server); [WellFormed] puts their results together.
    [Transparency] has the equivalence of worlds that differ in log and
    metrics, under which every callback is [Proper].

    Callbacks are atomic in [System].  Where the interleaving inside them
    matters it is modelled on its own: [Admission] cuts connecting and
    disconnecting at their atomic operations, [Attempts] cuts a login at the
    critical sections of the limiter, [SessionRace] cuts the calls on
    sessions at the operations of their mutex, [Concurrent] cuts uploads at
    their SFTP requests, [Main] interleaves the goroutines of shutdown with
    the callbacks.

    Most theorems say what a successful or failing run has done.  [Success]
    and [Service] say when a run succeeds: the triples there are total, from
    the name the client sends to the file at its place, for a server in
    working order.  [DeadConnection] is about a server that is gone.

    ** What the theorems show

    - Transfers.  An upload is atomic at its final name ([upload_atomic]),
      within its size limit ([upload_size_limit]), reported exactly, SHA-256
      included, whether it succeeds or fails ([upload_report]) and once
      ([close_reports_once]), over a temporary name nobody shares
      ([TempPath_private]).  A download, broken off or not, delivers and
      reports the file's bytes ([download_report]) and comes to its end
      ([download_terminates]).  Uploads that run at once never show a part
      of a file ([concurrent_uploads]).  Through all layers, what one
      session stores another retrieves ([stored_is_retrieved]).
    - Service.  What is permitted is carried out: on a server in working
      order a permitted upload ends with the data in place
      ([permitted_upload_served]), a permitted download with the whole file
      delivered ([permitted_download_served]).  On a session whose connection
      is lost nothing is, and nothing repairs it ([dead_connection_kept]).
    - Confinement.  Mapper and path arithmetic ([resolve_to_remote_confined],
      [ResolveVirtual_exact]), the symbolic-link guard ([symlink_guard_exact]; also
      [guard_refusal_stops], [ReadDir_hides_escapes]), and for the whole
      gateway that every path named to a server is below the user's root,
      but for the temporary name of an upload onto the root itself
      ([gateway_confined]) and that what the policy forbids is refused before
      anything is named ([policy_enforced]).
    - The SFTP client implements the contract of the transfer layer
      ([client_refines_RemoteFS]), refuses to overwrite
      what it can stat ([no_overwrite_refuses]), classifies errors
      ([translateError_classifies]) and owns its connection
      ([session_no_leak]); dialling verifies the server
      ([Dial_verifies_server]).
    - Authentication.  Its outcomes ([Authenticate_exact]), no user
      enumeration ([no_user_enumeration]), how many wrong passwords get
      through, one at a time ([brute_force_bound]) and at once
      ([concurrent_guess_bound]), more with each login that succeeds; the
      limiter's sweep is unobservable ([sweep_unobservable]).
    - Accounting.  Transfer slots and gauges ([transfer_accounting]),
      connections, SFTP connections and the wait group
      ([connection_accounting]), admission under interleaving
      ([admission_bound]); when calls on a session overlap, exactly how far
      off the SFTP gauge is ([gauge_under_interleaving]).  Every reachable
      state is well formed ([state_well_formed]).
    - Commands.  Up to what they log and count all file commands are one
      pipeline ([commands_refine]), and what is logged and counted changes
      no answer and nothing else ([observability_transparent]).
    - The process.  Configuration ([Validate_exact], [Load_sound]), health
      ([readyz_exact]), operator commands ([check_connectivity_exact]),
      shutdown ends and is orderly ([shutdown_completes]), logs
      ([Handle_hides_password], [NewCorrelationID_unique]), metrics
      ([WriteText_renders]).

    ** Hypotheses

    [gateway_confined] and [TempPath_private] are for a configured temporary
    suffix without a slash, which validation does not require.

    [SftpLaws]: an SFTP operation that succeeds has its documented effect,
    one that fails may have had it or not, none touches a path it does not
    name; it is weak on purpose, and [MemServer] satisfies it.
    [RoundTrip.ConnectLaws] and [RoundTrip.ServesFiles] add, for the round
    trip alone, that connecting changes no file and that reading gives the
    contents in order; [Concurrent.IsolationLaws], for uploads at once, that
    a request disturbs no file or open handle it does not name; and
    [DownloadSpec.Responsive], for termination, that a read of an open file
    brings bytes or the end of file.  [Success.TakesUploads] and
    [Success.GivesDownloads], for the service theorems, say request by request
    that the server does what is asked when nothing is in the way.  The
    in-memory server satisfies them all.  [DeadConnection.Dead] says that the
    requests on a connection fail with one error, as those of [GoneLib] do.
    [Named]: the remote state records the paths it is asked for, and a listing
    holds names without a slash; [Trace.traced] makes any library such a one.
    The upload theorems take path names as the server resolves them; except
    for [concurrent_uploads] no other client changes the two names while the
    upload runs.  bcrypt, YAML, duration parsing, the quoting verb, the terminal, files and environment are
    function parameters about which nothing is assumed.  [shutdown_completes]
    assumes a scheduler that does not starve the goroutines of [shutdown].

    ** Bounds and fuel

    Recursion is structural nearly everywhere, on the string, the list or
    the blocks.  Fuel is used in three places: [GoStrings.hex_digits] has 16
    digits, all that a 64-bit value needs; [Observability.trim_left] has the
    length of the string, and every step removes a byte
    ([TrimLeftSpace_spec]); [MemServer.follow], which no theorem about the
    program uses, gives up after eight links.  Overflow is written out rather
    than excluded; theorems that need its absence bound the quantity
    ([max_int64] connections, 10^9 login attempts in flight).

    ** Not modelled

    The text that slog, fmt and net/http write (the records and lines are
    values; their formatting is not), HTTP routing, the socket handling of
    ftpserverlib and of net, the YAML decoder, bcrypt and the SSH protocol;
    [fmt.Print] errors; the bytes of [printConfigUsage].  File commands other
    than uploads are not cut below the callback: each works on its own
    session, on atomic counters and gates, and sends one operation; where
    calls share a session, [SessionRace] cuts them.  Tests
    and test utilities ([src/tests], the [_test.go] files) are not modelled. *)
From stdpp Require Export base tactics option list numbers strings gmap functions relations.
From Stdlib Require Export ZArith Lia.

#[export] Set Default Goal Selector "!".

(** ** Effects

    Go code that touches state shared with the outside (the remote server,
    the metrics registry, the concurrency gates, the log) is modelled in a
    state monad over an arbitrary world [W]; Go's multiple return values are
    ordinary pairs, and a [(T, error)] return is a [result E T]. *)

Definition M (W A : Type) : Type := W -> A * W.

Definition ret {W A} (a : A) : M W A := fun w => (a, w).

Definition bind {W A B} (m : M W A) (k : A -> M W B) : M W B :=
  fun w => let '(a, w') := m w in k a w'.

Definition get {W} : M W W := fun w => (w, w).
Definition modify {W} (f : W -> W) : M W unit := fun w => (tt, f w).

Inductive result (E A : Type) : Type :=
  | Ok (a : A)
  | Err (e : E).
Arguments Ok {E A} a.
Arguments Err {E A} e.

Definition is_ok {E A} (r : result E A) : bool :=
  match r with Ok _ => true | Err _ => false end.

(** [if err != nil { return err }] on a pure call and on an effectful one. *)
Definition rbind {E A B} (r : result E A) (k : A -> result E B) : result E B :=
  match r with Ok a => k a | Err e => Err e end.

Definition bindE {W E A B} (m : M W (result E A)) (k : A -> M W (result E B))
  : M W (result E B) :=
  bind m (fun r => match r with Ok a => k a | Err e => ret (Err e) end).

Declare Scope go_scope.
Delimit Scope go_scope with go.
Notation "'let*' x ':=' m 'in' k" := (bind m (fun x => k))
  (at level 10, x pattern, m at level 100, k at level 200, format "'let*'  x  ':='  m  'in' '//' k") : go_scope.
Notation "'try*' x ':=' m 'in' k" := (bindE m (fun x => k))
  (at level 10, x pattern, m at level 100, k at level 200, format "'try*'  x  ':='  m  'in' '//' k") : go_scope.
Notation "'try' x ':=' r 'in' k" := (rbind r (fun x => k))
  (at level 10, x pattern, r at level 100, k at level 200, format "'try'  x  ':='  r  'in' '//' k") : go_scope.
Notation "'do*' m 'in' k" := (bind m (fun _ => k))
  (at level 10, m at level 100, k at level 200, format "'do*'  m  'in' '//' k") : go_scope.
Open Scope go_scope.

(** A decidable fact, by evaluating its decision. *)
Ltac decided := apply (bool_decide_unpack _); vm_compute; exact I.

(** A computation on a component [S] of a world [W] (a struct field). *)
Definition zoom {W S A} (get_ : W -> S) (set_ : S -> W -> W) (m : M S A) : M W A :=
  fun w => let '(a, s) := m (get_ w) in (a, set_ s w).

(** The monad laws hold up to pointwise equality. *)
Lemma bind_ret_l {W A B} (a : A) (k : A -> M W B) w : bind (ret a) k w = k a w.
Proof. reflexivity. Qed.

Lemma bind_run {W A B} (m : M W A) (k : A -> M W B) w a w' :
  m w = (a, w') -> bind m k w = k a w'.
Proof. unfold bind. by intros ->. Qed.

Lemma bind_inv {W A B} (m : M W A) (k : A -> M W B) w b w2 :
  bind m k w = (b, w2) -> exists a w1, m w = (a, w1) /\ k a w1 = (b, w2).
Proof. unfold bind. destruct (m w) as [a w1]. eauto. Qed.

Lemma bindE_inv_ok {W E A B} (m : M W (result E A)) (k : A -> M W (result E B)) w b w2 :
  bindE m k w = (Ok b, w2) -> exists a w1, m w = (Ok a, w1) /\ k a w1 = (Ok b, w2).
Proof.
  unfold bindE, bind. destruct (m w) as [[a|e] w1]; [eauto|].
  intros [=].
Qed.

Lemma bindE_ok {W E A B} (m : M W (result E A)) (k : A -> M W (result E B)) w a w' :
  m w = (Ok a, w') -> bindE m k w = k a w'.
Proof. unfold bindE, bind. by intros ->. Qed.

Lemma bindE_err {W E A B} (m : M W (result E A)) (k : A -> M W (result E B)) w e w' :
  m w = (Err e, w') -> bindE m k w = (Err e, w').
Proof. unfold bindE, bind. by intros ->. Qed.

Lemma rbind_inv_ok {E A B} (r : result E A) (k : A -> result E B) b :
  rbind r k = Ok b -> exists a, r = Ok a /\ k a = Ok b.
Proof. destruct r; [eauto|intros [=]]. Qed.

(** ** Machine integers

    [int] and [int64] are 64-bit two's complement ([int] on the supported
    platforms), [uint64] is unsigned. *)
Open Scope Z_scope.

Definition two64 : Z := 18446744073709551616.
Definition max_int64 : Z := 9223372036854775807.
Definition min_int64 : Z := -9223372036854775808.

Definition wrap64 (z : Z) : Z := (z + 9223372036854775808) mod two64 - 9223372036854775808.
Definition wrapu64 (z : Z) : Z := z mod two64.

Definition in_int64 (z : Z) : Prop := min_int64 <= z <= max_int64.

Lemma wrap64_id z : in_int64 z -> wrap64 z = z.
Proof.
  unfold in_int64, wrap64, min_int64, max_int64, two64. intros [H1 H2].
  rewrite Z.mod_small by lia. lia.
Qed.

Lemma wrap64_range z : in_int64 (wrap64 z).
Proof.
  unfold in_int64, wrap64, min_int64, max_int64, two64.
  pose proof (Z.mod_pos_bound (z + 9223372036854775808) 18446744073709551616 ltac:(lia)).
  lia.
Qed.

Lemma wrapu64_id z : 0 <= z < two64 -> wrapu64 z = z.
Proof. intros. unfold wrapu64. by apply Z.mod_small. Qed.

Lemma wrapu64_range z : 0 <= wrapu64 z < two64.
Proof. unfold wrapu64. apply Z.mod_pos_bound. done. Qed.

(** Adding one and then removing it is the identity even across the wrap. *)
Lemma wrap64_add_sub a b : wrap64 (wrap64 (a + b) - b) = wrap64 a.
Proof.
  unfold wrap64, two64.
  replace ((a + b + 9223372036854775808) mod 18446744073709551616
             - 9223372036854775808 - b + 9223372036854775808)
    with ((a + b + 9223372036854775808) mod 18446744073709551616 - b) by lia.
  rewrite Zminus_mod_idemp_l. do 2 f_equal. lia.
Qed.

Lemma wrap64_idemp z : wrap64 (wrap64 z) = wrap64 z.
Proof. apply wrap64_id, wrap64_range. Qed.

Lemma wrap64_add_l a b : wrap64 (wrap64 a + b) = wrap64 (a + b).
Proof.
  unfold wrap64, two64.
  replace ((a + 9223372036854775808) mod 18446744073709551616 - 9223372036854775808 + b
           + 9223372036854775808)
    with ((a + 9223372036854775808) mod 18446744073709551616 + b) by lia.
  rewrite Z.add_mod_idemp_l by lia. do 2 f_equal. lia.
Qed.

Lemma wrap64_sub_l a b : wrap64 (wrap64 a - b) = wrap64 (a - b).
Proof. rewrite <- !Z.add_opp_r. apply wrap64_add_l. Qed.

(** ** Counting the entries of a map *)
Definition bit (b : bool) : Z := if b then 1 else 0.

Section count.
Context `{Countable K} {V : Type} (P : V -> bool).

Definition tally (m : gmap K V) : Z := Z.of_nat (size (filter (fun kv => P kv.2 = true) m)).

Lemma tally_empty : tally ∅ = 0.
Proof. unfold tally. by rewrite map_filter_empty, map_size_empty. Qed.

Lemma tally_nonneg m : 0 <= tally m.
Proof. unfold tally. lia. Qed.

Lemma tally_fresh k x m : m !! k = None -> tally (<[k := x]> m) = tally m + bit (P x).
Proof.
  intros Hk. unfold tally. destruct (P x) eqn:E; simpl.
  - rewrite map_filter_insert_True, map_size_insert_None by (simpl; rewrite ?map_lookup_filter, ?Hk; done).
    lia.
  - rewrite map_filter_insert_not', ?Z.add_0_r; simpl; [done|congruence|].
    intros y Hy. rewrite Hk in Hy. done.
Qed.

Lemma tally_delete k x m : m !! k = Some x -> tally (delete k m) = tally m - bit (P x).
Proof.
  intros Hk. rewrite <- (insert_delete_id m k x Hk) at 2.
  rewrite tally_fresh by apply lookup_delete_eq. lia.
Qed.

Lemma tally_insert k x y m : m !! k = Some x -> tally (<[k := y]> m) = tally m - bit (P x) + bit (P y).
Proof.
  intros Hk. rewrite <- insert_delete_eq, tally_fresh by apply lookup_delete_eq.
  by rewrite (tally_delete k x).
Qed.

Lemma tally_pos k x m : m !! k = Some x -> P x = true -> 1 <= tally m.
Proof.
  intros Hk HP. pose proof (tally_delete k x m Hk) as Hd. pose proof (tally_nonneg (delete k m)).
  rewrite HP in Hd. simpl in Hd. lia.
Qed.
End count.

Lemma tally_ext `{Countable K} {V} (P Q : V -> bool) (m : gmap K V) : (forall x, P x = Q x) -> tally P m = tally Q m.
Proof. intros HPQ. unfold tally. do 2 f_equal. apply map_filter_ext. intros k x _. by rewrite HPQ. Qed.

Lemma tally_le_lookup `{Countable K} {V} (P Q : V -> bool) (m : gmap K V) :
  (forall k x, m !! k = Some x -> P x = true -> Q x = true) -> tally P m <= tally Q m.
Proof.
  induction m as [|k x m Hk IH] using map_ind; intros HPQ; [by rewrite !tally_empty|].
  rewrite !tally_fresh by done. pose proof (HPQ k x (lookup_insert_eq _ _ _)) as Hx.
  assert (tally P m <= tally Q m) as Hm.
  { apply IH. intros k' x' H'. apply (HPQ k'). rewrite lookup_insert_ne; [done|]. intros <-. congruence. }
  destruct (P x); [rewrite Hx by done|]; simpl; destruct (Q x); simpl; lia.
Qed.

Lemma tally_le `{Countable K} {V} (P Q : V -> bool) (m : gmap K V) :
  (forall x, P x = true -> Q x = true) -> tally P m <= tally Q m.
Proof. intros HPQ. apply tally_le_lookup. eauto. Qed.

Lemma tally_size `{Countable K} {V} (P : V -> bool) (m : gmap K V) : tally P m <= Z.of_nat (size m).
Proof.
  induction m as [|k x m Hk IH] using map_ind; [by rewrite tally_empty|].
  rewrite tally_fresh, map_size_insert_None by done. destruct (P x); simpl; lia.
Qed.

Lemma tally_omap `{Countable K} {V U} (f : V -> option U) (P : U -> bool) (m : gmap K V) :
  tally P (omap f m) = tally (fun x => if f x is Some y then P y else false) m.
Proof.
  induction m as [|k x m Hk IH] using map_ind; [by rewrite omap_empty, !tally_empty|].
  rewrite (tally_fresh _ k x) by done.
  assert (omap f m !! k = None) as Hn by (by rewrite lookup_omap, Hk).
  destruct (f x) as [y|] eqn:E; simpl.
  - rewrite (omap_insert_Some f m k x y), tally_fresh by done. by rewrite IH.
  - rewrite (omap_insert_None f m k x), delete_id, Z.add_0_r by done. done.
Qed.

(** ** Automation shared by the development *)

(** Decompose the equations a run of monadic code leaves behind. *)
Ltac inv_pair :=
  repeat match goal with
  | H : (_, _) = (_, _) |- _ => injection H as H; subst
  | H : Ok _ = Ok _ |- _ => injection H as H; subst
  | H : Err _ = Err _ |- _ => injection H as H; subst
  | H : Ok _ = Err _ |- _ => discriminate H
  | H : Err _ = Ok _ |- _ => discriminate H
  | H : Some _ = Some _ |- _ => injection H as H; subst
  | H : Some _ = None |- _ => discriminate H
  | H : None = Some _ |- _ => discriminate H
  end.

(** Case on every [match] or [if] scrutinee the goal (or a hypothesis) shows,
    remembering its value. *)
Ltac split_match :=
  match goal with
  | |- context [match ?x with _ => _ end] => destruct x eqn:?
  end.

Ltac split_match_in H :=
  match type of H with
  | context [match ?x with _ => _ end] => destruct x eqn:?
  end.

(** Turn boolean tests into propositions. *)
Ltac bool_to_prop :=
  repeat match goal with
  | H : (_ && _)%bool = true |- _ => apply andb_prop in H as [? ?]
  | H : (_ || _)%bool = false |- _ => apply orb_false_elim in H as [? ?]
  | H : negb _ = true |- _ => apply negb_true_iff in H
  | H : negb _ = false |- _ => apply negb_false_iff in H
  | H : (_ <? _) = true |- _ => apply Z.ltb_lt in H
  | H : (_ <? _) = false |- _ => apply Z.ltb_ge in H
  | H : (_ <=? _) = true |- _ => apply Z.leb_le in H
  | H : (_ <=? _) = false |- _ => apply Z.leb_gt in H
  | H : (_ >? _) = true |- _ => apply Z.gtb_lt in H
  | H : (_ >? _) = false |- _ => rewrite Z.gtb_ltb in H; apply Z.ltb_ge in H
  | H : (_ >=? _) = true |- _ => rewrite Z.geb_leb in H; apply Z.leb_le in H
  | H : (_ >=? _) = false |- _ => rewrite Z.geb_leb in H; apply Z.leb_gt in H
  | H : (_ =? _) = true |- _ => apply Z.eqb_eq in H
  | H : (_ =? _) = false |- _ => apply Z.eqb_neq in H
  | H : bool_decide _ = true |- _ => apply bool_decide_eq_true in H
  | H : bool_decide _ = false |- _ => apply bool_decide_eq_false in H
  | H : String.eqb _ _ = true |- _ => apply String.eqb_eq in H
  | H : String.eqb _ _ = false |- _ => apply String.eqb_neq in H
  end.

Create HintDb go.
Create Rewrite HintDb go.
#[export] Hint Resolve wrap64_range wrapu64_range : go.
