(* ===== verification/GoStrings.v ===== *)
(** * Go strings

    Go strings are byte strings: [String.string] is used as it is (one
    [ascii] per byte, UTF-8 literals byte by byte).  This file holds what the
    program uses of the packages [strings], [strconv], [encoding/hex] and
    [fmt] (the verbs [%d] and [%x]), and the lemmas on them. *)
From S2P Require Import Prelude.
From stdpp Require Import pretty.
From Stdlib Require Import Ascii.
Open Scope string_scope.
Open Scope list_scope.
Open Scope Z_scope.

(** ** Bytes *)

Definition byte_of (z : Z) : ascii := Ascii.ascii_of_N (Z.to_N (z mod 256)).
Definition nul : ascii := "000"%char.
Definition slash : ascii := "/"%char.
Definition dash : ascii := "-"%char.
Definition newline : ascii := "010"%char.

(** ** Package strings *)

Definition HasPrefix (s p : string) : bool := String.prefix p s.
#[global] Arguments HasPrefix : simpl never.

Fixpoint drop_bytes (n : nat) (s : string) : string :=
  match n, s with
  | O, _ => s
  | S n, String _ t => drop_bytes n t
  | S _, EmptyString => EmptyString
  end.

Definition TrimPrefix (s p : string) : string :=
  if HasPrefix s p then drop_bytes (String.length p) s else s.

Fixpoint Contains (s sub : string) : bool :=
  HasPrefix s sub ||
  match s with
  | EmptyString => false
  | String _ t => Contains t sub
  end.

(** [strings.ContainsRune(s, r)] for [r < 0x80]: a byte search. *)
Fixpoint ContainsByte (s : string) (c : ascii) : bool :=
  match s with
  | EmptyString => false
  | String a t => Ascii.eqb a c || ContainsByte t c
  end.

(** Split at every occurrence of a one-byte separator, and the inverse. *)
Fixpoint Split (s : string) (c : ascii) : list string :=
  match s with
  | EmptyString => [""]
  | String a t =>
      if Ascii.eqb a c then "" :: Split t c
      else match Split t c with
           | [] => [String a ""]
           | w :: ws => String a w :: ws
           end
  end.

Fixpoint Join (l : list string) (sep : string) : string :=
  match l with
  | [] => ""
  | [w] => w
  | w :: ws => w +:+ sep +:+ Join ws sep
  end.

(** ** Decimal and hexadecimal text *)

Definition hex_digit (d : Z) : ascii :=
  if d <? 10 then byte_of (48 + d) else byte_of (87 + d).

(** [hex.EncodeToString]: two lower-case digits per byte. *)
Definition hex_byte (b : ascii) : string :=
  let n := Z.of_N (Ascii.N_of_ascii b) in
  String (hex_digit (n / 16)) (String (hex_digit (n mod 16)) "").

Fixpoint hex_EncodeToString (bs : list ascii) : string :=
  match bs with
  | [] => ""
  | b :: t => hex_byte b +:+ hex_EncodeToString t
  end.

(** [%x] of a non-negative integer below [16^fuel]: digits without leading
    zeros, ["0"] for zero. *)
Fixpoint hex_digits (fuel : nat) (n : Z) (acc : string) : string :=
  match fuel with
  | O => acc
  | S fuel =>
      let acc := String (hex_digit (n mod 16)) acc in
      if n / 16 =? 0 then acc else hex_digits fuel (n / 16) acc
  end.
Definition fmt_x (n : Z) : string := hex_digits 16 n "".

(** [%d] (and [strconv.Itoa]). *)
Definition fmt_d (n : Z) : string := pretty n.

#[global] Arguments String.append !s1 s2 : simpl nomatch.

Definition dquote : string := String "034"%char "".

(** ** Lemmas: append, prefixes *)

Lemma str_app_nil_r s : s +:+ "" = s.
Proof. induction s as [|a s IH]; simpl; [done|by rewrite IH]. Qed.

Lemma str_app_nil_l s : "" +:+ s = s.
Proof. done. Qed.

Lemma str_app_assoc s t u : s +:+ (t +:+ u) = (s +:+ t) +:+ u.
Proof. induction s as [|a s IH]; simpl; [done|by rewrite IH]. Qed.

Lemma str_app_cons a s t : String a s +:+ t = String a (s +:+ t).
Proof. done. Qed.

Lemma str_length_app s t :
  String.length (s +:+ t) = (String.length s + String.length t)%nat.
Proof. induction s as [|a s IH]; simpl; [done|by rewrite IH]. Qed.

Lemma str_app_inv_head s t u : s +:+ t = s +:+ u -> t = u.
Proof. induction s as [|a s IH]; simpl; [done|]. intros [=]. auto. Qed.

Lemma str_app_inj_length s1 s2 t1 t2 :
  String.length s1 = String.length s2 -> s1 +:+ t1 = s2 +:+ t2 -> s1 = s2 /\ t1 = t2.
Proof.
  revert s2. induction s1 as [|a s1 IH]; intros [|b s2]; simpl; try done.
  intros [= Hl] [= -> H]. destruct (IH s2 Hl H) as [-> ->]. done.
Qed.

Lemma str_app_inj_length_r s1 s2 t1 t2 :
  String.length t1 = String.length t2 -> s1 +:+ t1 = s2 +:+ t2 -> s1 = s2 /\ t1 = t2.
Proof.
  intros Hl H. apply str_app_inj_length; [|done].
  apply (f_equal String.length) in H. rewrite !str_length_app in H. lia.
Qed.

Lemma HasPrefix_spec s p : HasPrefix s p = true <-> exists t, s = p +:+ t.
Proof.
  unfold HasPrefix. revert s. induction p as [|a p IH]; intros s; simpl.
  - split; [eauto|]. intros _. by destruct s.
  - destruct s as [|b s].
    + split; [done|]. by intros [t [=]].
    + simpl. destruct (ascii_dec a b) as [->|Hne].
      * rewrite IH. split; intros [t Ht]; exists t; [by rewrite Ht|by injection Ht].
      * split; [done|]. intros [t [=]]. congruence.
Qed.

Lemma HasPrefix_app p t : HasPrefix (p +:+ t) p = true.
Proof. apply HasPrefix_spec. eauto. Qed.

Lemma drop_bytes_app p t : drop_bytes (String.length p) (p +:+ t) = t.
Proof. by induction p. Qed.

Lemma TrimPrefix_app p t : TrimPrefix (p +:+ t) p = t.
Proof. unfold TrimPrefix. rewrite HasPrefix_app. apply drop_bytes_app. Qed.

Lemma TrimPrefix_none s p : HasPrefix s p = false -> TrimPrefix s p = s.
Proof. unfold TrimPrefix. by intros ->. Qed.

Lemma Contains_spec s sub :
  Contains s sub = true <-> exists a b, s = a +:+ sub +:+ b.
Proof.
  induction s as [|c s IH]; simpl.
  - rewrite orb_false_r, HasPrefix_spec. split.
    + intros [t Ht]. by exists "", t.
    + intros ([|? ?] & b & H); [by exists b|discriminate].
  - rewrite orb_true_iff, HasPrefix_spec, IH. split.
    + intros [[t Ht]|(a & b & ->)]; [by exists "", t|by exists (String c a), b].
    + intros ([|d a] & b & H); [left; by exists b|].
      injection H as -> ->. right. eauto.
Qed.

Lemma ContainsByte_app s t c :
  ContainsByte (s +:+ t) c = ContainsByte s c || ContainsByte t c.
Proof. induction s as [|a s IH]; simpl; [done|]. by rewrite IH, orb_assoc. Qed.

(** ** Lemmas: split and join *)

Lemma Split_cons_exists s c : exists w ws, Split s c = w :: ws.
Proof.
  induction s as [|a s (w & ws & IH)]; simpl; [eauto|].
  destruct (Ascii.eqb a c); [eauto|]. rewrite IH. eauto.
Qed.

Lemma Split_app_sep s t c : Split (s +:+ String c t) c = Split s c ++ Split t c.
Proof.
  induction s as [|a s IH]; simpl; [by rewrite Ascii.eqb_refl|].
  destruct (Ascii.eqb a c); [by rewrite IH|].
  rewrite IH. destruct (Split_cons_exists s c) as (w & ws & ->). done.
Qed.

Lemma Split_nosep s c : ContainsByte s c = false -> Split s c = [s].
Proof.
  induction s as [|a s IH]; simpl; [done|].
  intros [-> H]%orb_false_elim. by rewrite IH.
Qed.

Lemma Split_Forall_nosep s c : Forall (fun w => ContainsByte w c = false) (Split s c).
Proof.
  induction s as [|a s IH]; simpl; [by constructor|].
  destruct (Ascii.eqb a c) eqn:E; [by constructor|].
  destruct (Split s c) as [|w ws]; simpl.
  - constructor; [|done]. simpl. by rewrite E.
  - inversion IH; subst. constructor; [|done]. simpl. by rewrite E.
Qed.

Lemma Join_cons w ws sep : ws <> [] -> Join (w :: ws) sep = w +:+ sep +:+ Join ws sep.
Proof. by destruct ws. Qed.

Lemma Join_app l1 l2 sep :
  l1 <> [] -> l2 <> [] -> Join (l1 ++ l2) sep = Join l1 sep +:+ sep +:+ Join l2 sep.
Proof.
  intros H1 H2. induction l1 as [|w l1 IH]; [done|].
  destruct l1 as [|w' l1].
  - simpl app. by rewrite Join_cons.
  - rewrite <- app_comm_cons, !Join_cons by done.
    rewrite IH by done. by rewrite <- !str_app_assoc.
Qed.

Lemma Split_Join l c :
  l <> [] -> Forall (fun w => ContainsByte w c = false) l ->
  Split (Join l (String c "")) c = l.
Proof.
  intros Hne Hl. induction Hl as [|w l Hw Hl IH]; [done|].
  destruct l as [|w' l].
  - by apply Split_nosep.
  - rewrite Join_cons, str_app_cons, str_app_nil_l, Split_app_sep, (Split_nosep w) by done.
    by rewrite IH.
Qed.

Lemma Join_Split s c : Join (Split s c) (String c "") = s.
Proof.
  induction s as [|a s IH]; simpl; [done|].
  destruct (Ascii.eqb a c) eqn:E.
  - apply Ascii.eqb_eq in E as ->.
    destruct (Split_cons_exists s c) as (w & ws & Hs). rewrite Hs in *.
    rewrite Join_cons by done. by rewrite IH.
  - destruct (Split s c) as [|w [|w' ws]]; simpl in *; by rewrite <- IH.
Qed.

Lemma Join_nil_inv l c :
  l <> [] -> Forall (fun w => w <> "") l -> Join l (String c "") <> "".
Proof.
  intros Hne Hl. destruct Hl as [|w l Hw Hl]; [done|].
  destruct l; simpl; [done|]. by destruct w.
Qed.

(** ** Lemmas: hexadecimal *)

Lemma hex_digit_inj d1 d2 :
  0 <= d1 < 16 -> 0 <= d2 < 16 -> hex_digit d1 = hex_digit d2 -> d1 = d2.
Proof.
  intros H1 H2 H.
  assert (forall a b, 0 <= a < 16 -> 0 <= b < 16 -> hex_digit a = hex_digit b -> a = b) as Hall.
  { clear. intros a b Ha Hb.
    assert (Z.to_nat a < 16)%nat by lia. assert (Z.to_nat b < 16)%nat by lia.
    rewrite <- (Z2Nat.id a), <- (Z2Nat.id b) by lia.
    generalize dependent (Z.to_nat a). generalize dependent (Z.to_nat b).
    intros n Hn m Hm. 
    do 16 (destruct n as [|n]; [do 16 (destruct m as [|m]; [vm_compute; congruence|]); lia|]). lia. }
  by apply Hall.
Qed.

#[export] Hint Resolve HasPrefix_app TrimPrefix_app Split_Forall_nosep : go.
