(* ===== verification/GoPath.v ===== *)
(** * Package path

    Slash-separated paths, as Go's [path] package defines them: [Clean],
    [Join] (of two elements, the only use the program makes of it), [Dir],
    [Base] and [IsAbs], executable on strings.

    The algebra the other files use is in the second half: a clean absolute
    path is [abs_path cs] for exactly one list [cs] of proper components, and
    [Clean], [Join], [Dir] and [Base] are computed on that list. *)
From S2P Require Import Prelude GoStrings.
From Stdlib Require Import Ascii.
Open Scope string_scope.
Open Scope list_scope.
Open Scope Z_scope.

Definition IsAbs (p : string) : bool := HasPrefix p "/".

(** One component of the input against the output so far (in reverse):
    empty and "." components vanish, ".." removes the last real component,
    is dropped at the root of a rooted path and kept at the front of a
    relative one. *)
Definition clean_step (rooted : bool) (out : list string) (w : string) : list string :=
  if (w =? "")%string || (w =? ".")%string then out
  else if (w =? "..")%string then
    match out with
    | [] => if rooted then [] else [".."]
    | x :: rest => if (x =? "..")%string then ".." :: out else rest
    end
  else w :: out.

Definition clean_comps (rooted : bool) (ws : list string) : list string :=
  reverse (foldl (clean_step rooted) [] ws).

Definition Clean (p : string) : string :=
  let out := Join (clean_comps (IsAbs p) (Split p slash)) "/" in
  if IsAbs p then "/" +:+ out
  else if (out =? "")%string then "." else out.

(** [path.Join(a, b)]: empty leading elements are skipped. *)
Definition Join2 (a b : string) : string :=
  match a, b with
  | "", "" => ""
  | "", _ => Clean b
  | _, _ => Clean (a +:+ "/" +:+ b)
  end.

Fixpoint TrimRightByte (s : string) (c : ascii) : string :=
  match s with
  | EmptyString => EmptyString
  | String a t =>
      let t' := TrimRightByte t c in
      if (t' =? "")%string && Ascii.eqb a c then "" else String a t'
  end.

Definition Base (p : string) : string :=
  if (p =? "")%string then "."
  else
    let w := default "" (last (Split (TrimRightByte p slash) slash)) in
    if (w =? "")%string then "/" else w.

Definition Dir (p : string) : string :=
  match reverse (Split p slash) with
  | _ :: ((_ :: _) as ws) => Clean (Join (reverse ws) "/" +:+ "/")
  | _ => Clean ""
  end.

Example Clean_examples :
  map Clean [""; "/"; "a//b/"; "/../a"; "a/../.."; "/a/./b/../c"; "../../x"] =
  ["."; "/"; "a/b"; "/a"; ".."; "/a/c"; "../../x"].
Proof. reflexivity. Qed.
Example Base_Dir_examples :
  map Base [""; "/"; "/a/b"; "a//"; "a"] = ["."; "/"; "b"; "a"; "a"] /\
  map Dir [""; "/"; "/a"; "/a/b"; "a"; "/a/b/"] = ["."; "/"; "/"; "/a"; "."; "/a/b"].
Proof. split; reflexivity. Qed.

(** ** Proper components and clean absolute paths *)

Definition good_comp (w : string) : Prop :=
  w <> "" /\ w <> "." /\ w <> ".." /\ ContainsByte w slash = false.

#[export] Instance good_comp_dec w : Decision (good_comp w).
Proof. unfold good_comp. apply _. Defined.

Definition abs_path (cs : list string) : string := "/" +:+ Join cs "/".

(** What a clean absolute path is: the paths [Clean] leaves alone. *)
Definition clean_abs (p : string) : Prop :=
  exists cs, Forall good_comp cs /\ p = abs_path cs.

#[global] Arguments Clean : simpl never.
#[global] Arguments Join2 : simpl never.
#[global] Arguments Dir : simpl never.
#[global] Arguments Base : simpl never.
#[global] Arguments abs_path : simpl never.

Lemma IsAbs_spec p : IsAbs p = true <-> exists t, p = String slash t.
Proof. unfold IsAbs. rewrite HasPrefix_spec. done. Qed.

Lemma IsAbs_abs_path cs : IsAbs (abs_path cs) = true.
Proof. apply HasPrefix_app. Qed.

Lemma IsAbs_abs_path_app cs t : IsAbs (abs_path cs +:+ t) = true.
Proof. exact (HasPrefix_app "/" (Join cs "/" +:+ t)). Qed.

Lemma good_comp_nosep cs :
  Forall good_comp cs -> Forall (fun w => ContainsByte w slash = false) cs.
Proof. intros H. apply (Forall_impl _ _ _ H). by intros w (_ & _ & _ & ?). Qed.

Lemma Split_abs_path cs :
  Forall good_comp cs -> Split (abs_path cs) slash = "" :: match cs with [] => [""] | _ => cs end.
Proof.
  intros Hcs. unfold abs_path. rewrite str_app_cons, str_app_nil_l.
  change (String "/" ?t) with ("" +:+ String slash t).
  rewrite Split_app_sep. destruct cs as [|w cs]; [done|].
  rewrite Split_Join; [done|done|by apply good_comp_nosep].
Qed.

Lemma abs_path_inj cs1 cs2 :
  Forall good_comp cs1 -> Forall good_comp cs2 -> abs_path cs1 = abs_path cs2 -> cs1 = cs2.
Proof.
  intros H1 H2 H. apply (f_equal (fun s => Split s slash)) in H.
  rewrite !Split_abs_path in H by done. injection H as H.
  destruct cs1 as [|w1 cs1], cs2 as [|w2 cs2]; try done.
  - injection H as <- <-. by inversion H2 as [|? ? [? _]].
  - injection H as -> ->. by inversion H1 as [|? ? [? _]].
Qed.

(** ** [Clean] on components *)

Lemma clean_step_good rooted out w :
  good_comp w -> clean_step rooted out w = w :: out.
Proof.
  intros (H1 & H2 & H3 & _). unfold clean_step.
  apply String.eqb_neq in H1 as ->. apply String.eqb_neq in H2 as ->.
  by apply String.eqb_neq in H3 as ->.
Qed.

Lemma foldl_clean_good rooted out ws :
  Forall good_comp ws -> foldl (clean_step rooted) out ws = reverse ws ++ out.
Proof.
  intros H. revert out. induction H as [|w ws Hw Hws IH]; intros out; simpl; [done|].
  by rewrite clean_step_good, IH, reverse_cons, <- (assoc_L app).
Qed.

Lemma clean_step_rooted_good out w :
  Forall good_comp out -> ContainsByte w slash = false ->
  Forall good_comp (clean_step true out w).
Proof.
  intros Hout Hw. unfold clean_step.
  destruct (w =? "")%string eqn:E1; [done|]. destruct (w =? ".")%string eqn:E2; [done|]. simpl.
  destruct (w =? "..")%string eqn:E3.
  - destruct Hout as [|x out Hx Hout]; [done|].
    destruct (x =? "..")%string eqn:E4; [|done].
    apply String.eqb_eq in E4. destruct Hx as (_ & _ & ? & _). done.
  - bool_to_prop. by constructor.
Qed.

Lemma foldl_clean_rooted_good out ws :
  Forall good_comp out -> Forall (fun w => ContainsByte w slash = false) ws ->
  Forall good_comp (foldl (clean_step true) out ws).
Proof.
  intros Hout Hws. revert out Hout.
  induction Hws as [|w ws Hw Hws IH]; intros out Hout; simpl; [done|].
  by apply IH, clean_step_rooted_good.
Qed.

Lemma clean_comps_good ws :
  Forall (fun w => ContainsByte w slash = false) ws -> Forall good_comp (clean_comps true ws).
Proof. intros H. apply Forall_reverse. by apply foldl_clean_rooted_good. Qed.

Lemma Clean_abs p :
  IsAbs p = true -> Clean p = abs_path (clean_comps true (Split p slash)).
Proof. intros H. unfold Clean. by rewrite H. Qed.

Lemma Clean_abs_clean p : IsAbs p = true -> clean_abs (Clean p).
Proof.
  intros H. rewrite Clean_abs by done. eexists. split; [|done].
  apply clean_comps_good, Split_Forall_nosep.
Qed.

Lemma clean_comps_app rooted l ws :
  Forall good_comp l ->
  clean_comps rooted (l ++ ws) = reverse (foldl (clean_step rooted) (reverse l) ws).
Proof.
  intros H. unfold clean_comps. rewrite foldl_app, (foldl_clean_good _ _ l) by done.
  by rewrite app_nil_r.
Qed.

Lemma clean_comps_id rooted l : Forall good_comp l -> clean_comps rooted l = l.
Proof.
  intros H. rewrite <- (app_nil_r l), clean_comps_app by done. simpl.
  rewrite app_nil_r. apply reverse_involutive.
Qed.

Lemma Clean_abs_path cs : Forall good_comp cs -> Clean (abs_path cs) = abs_path cs.
Proof.
  intros H. rewrite Clean_abs, Split_abs_path by auto using IsAbs_abs_path.
  destruct cs as [|w cs]; [done|].
  change (clean_comps true ("" :: ?l)) with (clean_comps true l).
  by rewrite clean_comps_id.
Qed.

Lemma Clean_clean_abs p : clean_abs p -> Clean p = p.
Proof. intros (cs & H & ->). by apply Clean_abs_path. Qed.

(** [Clean] is idempotent on every absolute path. *)
Lemma Clean_idemp p : IsAbs p = true -> Clean (Clean p) = Clean p.
Proof. intros H. by apply Clean_clean_abs, Clean_abs_clean. Qed.

(** A second leading slash is harmless. *)
Lemma Clean_slash p : IsAbs p = true -> Clean ("/" +:+ p) = Clean p.
Proof.
  intros H. rewrite !Clean_abs by (done || apply HasPrefix_app).
  change ("/" +:+ p) with ("" +:+ String slash p). by rewrite Split_app_sep.
Qed.

(** Appending to a clean absolute path under a separator works on components. *)
Lemma Clean_app cs rel :
  Forall good_comp cs ->
  Clean (abs_path cs +:+ "/" +:+ rel) =
  abs_path (reverse (foldl (clean_step true) (reverse cs) (Split rel slash))).
Proof.
  intros H. rewrite Clean_abs by apply IsAbs_abs_path_app.
  change ("/" +:+ rel) with (String slash rel).
  rewrite Split_app_sep, Split_abs_path by done.
  destruct cs as [|w cs].
  - done.
  - change (("" :: w :: cs) ++ ?l) with ("" :: ((w :: cs) ++ l)).
    change (clean_comps true ("" :: ?l)) with (clean_comps true l).
    by rewrite clean_comps_app.
Qed.

Lemma Split_Join_good s :
  Forall good_comp s -> Split (Join s "/") slash = match s with [] => [""] | _ => s end.
Proof.
  intros H. destruct s; [done|]. apply Split_Join; [done|by apply good_comp_nosep].
Qed.

Lemma Clean_app_good cs s :
  Forall good_comp cs -> Forall good_comp s ->
  Clean (abs_path cs +:+ "/" +:+ Join s "/") = abs_path (cs ++ s).
Proof.
  intros Hc Hs. rewrite Clean_app, Split_Join_good by done. f_equal.
  destruct s as [|w s].
  - change (foldl _ ?o [""]) with o. by rewrite reverse_involutive, app_nil_r.
  - rewrite foldl_clean_good by done. by rewrite reverse_app, !reverse_involutive.
Qed.

Lemma Join2_abs_path cs rel :
  Join2 (abs_path cs) rel = Clean (abs_path cs +:+ "/" +:+ rel).
Proof. unfold Join2. destruct (abs_path cs) eqn:E; [|done]. by destruct cs. Qed.

Lemma Join2_good cs s :
  Forall good_comp cs -> Forall good_comp s ->
  Join2 (abs_path cs) (Join s "/") = abs_path (cs ++ s).
Proof. intros. rewrite Join2_abs_path. by apply Clean_app_good. Qed.

(** The result of joining onto a clean absolute path is clean and absolute. *)
Lemma Join2_clean cs rel : Forall good_comp cs -> clean_abs (Join2 (abs_path cs) rel).
Proof.
  intros H. rewrite Join2_abs_path. apply Clean_abs_clean, IsAbs_abs_path_app.
Qed.

Lemma clean_abs_IsAbs p : clean_abs p -> IsAbs p = true.
Proof. intros (cs & _ & ->). apply IsAbs_abs_path. Qed.

Lemma abs_path_snoc cs w :
  abs_path (cs ++ [w]) = (match cs with [] => "" | _ => abs_path cs end) +:+ "/" +:+ w.
Proof.
  destruct cs as [|x cs]; [done|].
  unfold abs_path. rewrite Join_app by done. by rewrite !str_app_assoc.
Qed.

(** ** [Dir] and [Base] of a clean absolute path *)

Lemma Dir_Split p l w :
  Split p slash = l ++ [w] -> l <> [] -> Dir p = Clean (Join l "/" +:+ "/").
Proof.
  intros H Hne. unfold Dir. rewrite H, reverse_snoc.
  destruct (reverse l) as [|x xs] eqn:E.
  - apply (f_equal reverse) in E. by rewrite reverse_involutive in E.
  - by rewrite <- E, reverse_involutive.
Qed.

Lemma Dir_abs_path cs w :
  Forall good_comp (cs ++ [w]) -> Dir (abs_path (cs ++ [w])) = abs_path cs.
Proof.
  intros H. pose proof H as [Hcs Hw]%Forall_app.
  rewrite (Dir_Split _ ("" :: cs) w); [|rewrite Split_abs_path by done; by destruct cs|done].
  destruct cs as [|y cs]; [done|].
  change (Join ("" :: y :: cs) "/") with (abs_path (y :: cs)).
  rewrite <- (str_app_nil_r "/"), (Clean_app_good _ []) by done. by rewrite app_nil_r.
Qed.

Lemma TrimRightByte_id s c t :
  ContainsByte t c = false -> t <> "" -> TrimRightByte (s +:+ t) c = s +:+ t.
Proof.
  intros Ht Hne. induction s as [|a s IH]; simpl.
  - revert Hne. induction t as [|b t IH]; [done|]. intros _. simpl in *.
    apply orb_false_elim in Ht as [Hb Ht].
    destruct t as [|b' t]; [by rewrite Hb|].
    rewrite IH by done. by rewrite andb_false_l.
  - rewrite IH. destruct (s +:+ t =? "")%string eqn:E; [|done].
    apply String.eqb_eq in E. destruct s; [done|discriminate].
Qed.

Lemma Base_abs_path cs w :
  Forall good_comp (cs ++ [w]) -> Base (abs_path (cs ++ [w])) = w.
Proof.
  intros H. pose proof H as [Hcs Hw]%Forall_app. apply Forall_singleton in Hw as (Hw & _ & _ & Hs).
  unfold Base. destruct (abs_path (cs ++ [w]) =? "")%string eqn:E.
  { apply String.eqb_eq in E. by destruct cs. }
  rewrite abs_path_snoc, str_app_assoc, TrimRightByte_id, <- str_app_assoc by done.
  rewrite <- abs_path_snoc, Split_abs_path by done.
  replace (match cs ++ [w] with [] => [""] | _ => cs ++ [w] end) with (cs ++ [w])
    by by destruct cs.
  rewrite app_comm_cons, last_snoc. simpl. by apply String.eqb_neq in Hw as ->.
Qed.

#[export] Hint Resolve IsAbs_abs_path Clean_abs_clean Join2_clean clean_abs_IsAbs
  clean_comps_good : go.
