(* ===== verification/Errors.v ===== *)
(** * Domain errors ([internal/errors])

    A Go [error] value is a tree of the shapes the program creates or
    inspects: the domain error [*errors.Error], the standard sentinels it
    compares with [errors.Is], foreign errors it recognises with [errors.As]
    (a [Timeout() bool] method, a [*knownhosts.KeyError]), errors wrapped by
    [fmt.Errorf("%w")], and opaque foreign errors.  A nil [error] is [None]. *)
From S2P Require Import Prelude GoStrings.
Open Scope string_scope.
Open Scope list_scope.
Open Scope Z_scope.

Inductive Kind : Set :=
  | KindConfig | KindAuthentication | KindAuthorization | KindInvalidPath
  | KindUnsupportedCommand | KindConflict | KindNotFound | KindSSHConnection
  | KindHostKeyMismatch | KindSFTPAuthentication | KindTimeout | KindDisconnected
  | KindPartialWrite | KindRemoteStorageFull | KindRemotePermissionDenied
  | KindRateLimited | KindInternal.

#[export] Instance Kind_eq_dec : EqDecision Kind.
Proof. solve_decision. Defined.

Definition kind_string (k : Kind) : string :=
  match k with
  | KindConfig => "config"
  | KindAuthentication => "authentication"
  | KindAuthorization => "authorization"
  | KindInvalidPath => "invalid_path"
  | KindUnsupportedCommand => "unsupported_command"
  | KindConflict => "conflict"
  | KindNotFound => "not_found"
  | KindSSHConnection => "ssh_connection"
  | KindHostKeyMismatch => "host_key_mismatch"
  | KindSFTPAuthentication => "sftp_authentication"
  | KindTimeout => "timeout"
  | KindDisconnected => "disconnected"
  | KindPartialWrite => "partial_write"
  | KindRemoteStorageFull => "remote_storage_full"
  | KindRemotePermissionDenied => "remote_permission_denied"
  | KindRateLimited => "rate_limited"
  | KindInternal => "internal"
  end.

(** [io.EOF], [os.ErrNotExist], [os.ErrPermission], [context.DeadlineExceeded],
    [http.ErrServerClosed]. *)
Inductive sentinel : Set := EOF | ErrNotExist | ErrPermission | DeadlineExceeded | ErrServerClosed.

#[export] Instance sentinel_eq_dec : EqDecision sentinel.
Proof. solve_decision. Defined.

#[warnings="-register-all"]
Inductive error : Set :=
  | EDomain (kind : Kind) (op message : string) (cause : option error)
  | ESentinel (s : sentinel)
  | ENet (timeout : bool) (text : string)
  | EKey (text : string)
  | EWrap (text : string) (inner : error)
  | EOther (text : string).

Abbreviation res := (result error).

(** [New] and [Wrap]. *)
Definition New (kind : Kind) (op message : string) : error := EDomain kind op message None.
Definition Wrap (kind : Kind) (op message : string) (cause : error) : error :=
  EDomain kind op message (Some cause).

(** The [Error()] method: for a domain error the wire-safe message only. *)
Definition Error (e : error) : string :=
  match e with
  | EDomain kind _ message _ => if (message =? "")%string then kind_string kind else message
  | ESentinel EOF => "EOF"
  | ESentinel ErrNotExist => "file does not exist"
  | ESentinel ErrPermission => "permission denied"
  | ESentinel DeadlineExceeded => "context deadline exceeded"
  | ESentinel ErrServerClosed => "http: Server closed"
  | ENet _ text | EKey text | EWrap text _ | EOther text => text
  end.

Definition Unwrap (e : error) : option error :=
  match e with
  | EDomain _ _ _ cause => cause
  | EWrap _ inner => Some inner
  | _ => None
  end.

(** The unwrap chain [errors.Is] and [errors.As] walk, outermost first. *)
Fixpoint chain (e : error) : list error :=
  e :: match e with
       | EDomain _ _ _ (Some c) => chain c
       | EWrap _ c => chain c
       | _ => []
       end.

(** [errors.Is(err, s)] for a sentinel [s]; a domain error's [Is] method only
    matches domain targets. *)
Definition errors_Is (e : error) (s : sentinel) : bool :=
  existsb (fun x => match x with ESentinel s' => bool_decide (s = s') | _ => false end) (chain e).

(** [errors.As] at the types the program asks for. *)
Definition first_map {A B} (f : A -> option B) : list A -> option B :=
  fix go l := match l with
              | [] => None
              | x :: t => match f x with Some y => Some y | None => go t end
              end.

Definition As_Error (e : error) : option Kind :=
  first_map (fun x => match x with EDomain k _ _ _ => Some k | _ => None end) (chain e).
Definition As_Timeout (e : error) : option bool :=
  first_map (fun x => match x with
                      | ENet t _ => Some t
                      | ESentinel DeadlineExceeded => Some true
                      | _ => None end) (chain e).
Definition As_KeyError (e : error) : bool :=
  existsb (fun x => match x with EKey _ => true | _ => false end) (chain e).

(** The [Is] method of [*Error]: compares the kinds. *)
Definition Is_method (k : Kind) (target : error) : bool :=
  match As_Error target with
  | None => false
  | Some t => bool_decide (t = k)
  end.

Definition KindOf (e : error) : Kind :=
  match As_Error e with
  | Some k => k
  | None => KindInternal
  end.

Definition Is (e : error) (kind : Kind) : bool := bool_decide (KindOf e = kind).

(** The [LogValue] method, for logs only; [%q] is the parameter [Quote]. *)
Definition LogValue (Quote : string -> string) (kind : Kind) (op message : string)
  (cause : option error) : string :=
  let head := "op=" +:+ op +:+ " kind=" +:+ kind_string kind +:+ " message=" +:+ Quote message in
  match cause with
  | Some c => head +:+ " cause=" +:+ Quote (Error c)
  | None => head
  end.

(** [KindOf(err)] where [err] may be nil: nil is not a [*Error]. *)
Definition err_of {A} (r : res A) : option error :=
  match r with Ok _ => None | Err e => Some e end.

Lemma KindOf_domain k op m c : KindOf (EDomain k op m c) = k.
Proof. done. Qed.

Lemma KindOf_wrap t e : KindOf (EWrap t e) = KindOf e.
Proof. done. Qed.

Lemma Is_spec e k : Is e k = true <-> KindOf e = k.
Proof. unfold Is. apply bool_decide_eq_true. Qed.

Lemma Is_false e k : Is e k = false <-> KindOf e <> k.
Proof. unfold Is. apply bool_decide_eq_false. Qed.

(** The kinds' names are pairwise distinct, so comparing the Go strings is
    comparing the constructors. *)
Lemma kind_string_inj : Inj (=) (=) kind_string.
Proof. intros [] [] H; try done; discriminate H. Qed.

(** The wire message of a domain error does not depend on its cause. *)
Lemma Error_cause_independent k op op' m c c' :
  Error (EDomain k op m c) = Error (EDomain k op' m c').
Proof. done. Qed.

#[export] Hint Rewrite KindOf_domain KindOf_wrap : go.
