(* ===== verification/GoNet.v ===== *)
(** * Addresses (package net)

    [SplitHostPort] and [JoinHostPort], executable, and that the first undoes
    the second. *)
From S2P Require Import Prelude GoStrings Errors.
From Stdlib Require Import Ascii.
Open Scope string_scope.
Open Scope list_scope.
Open Scope Z_scope.

Definition colon : ascii := ":".
Definition lbracket : ascii := "[".
Definition rbracket : ascii := "]".

Definition JoinHostPort (host port : string) : string :=
  if ContainsByte host colon then "[" +:+ host +:+ "]:" +:+ port else host +:+ ":" +:+ port.

(** [IndexByteString] and [LastIndexByteString]; [None] is -1. *)
Fixpoint IndexByte (s : string) (c : ascii) : option nat :=
  match s with
  | EmptyString => None
  | String a t => if Ascii.eqb a c then Some 0%nat else S <$> IndexByte t c
  end.

Fixpoint LastIndexByte (s : string) (c : ascii) : option nat :=
  match s with
  | EmptyString => None
  | String a t =>
      match LastIndexByte t c with
      | Some i => Some (S i)
      | None => if Ascii.eqb a c then Some 0%nat else None
      end
  end.

Definition addrErr (addr why : string) : error := EOther ("address " +:+ addr +:+ ": " +:+ why).

(** [s\[:n\]]. *)
Definition take_bytes (n : nat) (s : string) : string := String.substring 0 n s.

Definition SplitHostPort (hostport : string) : res (string * string) :=
  match LastIndexByte hostport colon with
  | None => Err (addrErr hostport "missing port in address")
  | Some i =>
      (** the host, and where a bracket may no longer occur *)
      try hjk :=
        (if HasPrefix hostport "[" then
           match IndexByte hostport rbracket with
           | None => Err (addrErr hostport "missing ']' in address")
           | Some end_ =>
               if (S end_ =? String.length hostport)%nat
               then Err (addrErr hostport "missing port in address")
               else if (S end_ =? i)%nat
               then Ok (drop_bytes 1 (take_bytes end_ hostport), 1%nat, S end_)
               else if HasPrefix (drop_bytes (S end_) hostport) ":"
               then Err (addrErr hostport "too many colons in address")
               else Err (addrErr hostport "missing port in address")
           end
         else
           let host := take_bytes i hostport in
           if ContainsByte host colon
           then Err (addrErr hostport "too many colons in address")
           else Ok (host, 0%nat, 0%nat)) in
      let '(host, j, k) := hjk in
      if ContainsByte (drop_bytes j hostport) lbracket
      then Err (addrErr hostport "unexpected '[' in address")
      else if ContainsByte (drop_bytes k hostport) rbracket
      then Err (addrErr hostport "unexpected ']' in address")
      else Ok (host, drop_bytes (S i) hostport)
  end.

(** ** Splitting undoes joining *)

Lemma LastIndexByte_none s c : ContainsByte s c = false -> LastIndexByte s c = None.
Proof.
  induction s as [|a s IH]; simpl; [done|]. intros [-> Hs]%orb_false_elim. by rewrite IH.
Qed.

Lemma LastIndexByte_app s t c :
  ContainsByte t c = false -> LastIndexByte (s +:+ String c t) c = Some (String.length s).
Proof.
  intros Ht. induction s as [|a s IH]; simpl; [|by rewrite IH].
  by rewrite LastIndexByte_none, Ascii.eqb_refl.
Qed.

Lemma IndexByte_app s t c :
  ContainsByte s c = false -> IndexByte (s +:+ String c t) c = Some (String.length s).
Proof.
  induction s as [|a s IH]; simpl; [by rewrite Ascii.eqb_refl|].
  intros [-> Hs]%orb_false_elim. by rewrite IH.
Qed.

Lemma take_bytes_app s t : take_bytes (String.length s) (s +:+ t) = s.
Proof.
  unfold take_bytes. induction s as [|a s IH]; simpl; [by destruct t|]. by rewrite IH.
Qed.

(** A text without colons or brackets, or a host with colons only. *)
Definition plain (s : string) : Prop :=
  ContainsByte s lbracket = false /\ ContainsByte s rbracket = false.

Lemma HasPrefix_head s c : ContainsByte s c = false -> HasPrefix s (String c "") = false.
Proof.
  destruct s as [|a s]; [done|]. simpl. intros [Ha _]%orb_false_elim.
  apply not_true_iff_false. intros [t Ht]%HasPrefix_spec. injection Ht as -> _.
  by rewrite Ascii.eqb_refl in Ha.
Qed.

Lemma SplitHostPort_Join host port :
  plain host -> plain port -> ContainsByte port colon = false ->
  SplitHostPort (JoinHostPort host port) = Ok (host, port).
Proof.
  intros [Hl Hr] [Hpl Hpr] Hp. unfold JoinHostPort, SplitHostPort.
  destruct (ContainsByte host colon) eqn:Hc.
  - assert ("[" +:+ host +:+ "]:" +:+ port = ("[" +:+ host +:+ "]") +:+ String colon port) as ->.
    { by rewrite <- !str_app_assoc. }
    rewrite LastIndexByte_app by done.
    assert (("[" +:+ host +:+ "]") +:+ String colon port
            = ("[" +:+ host) +:+ String rbracket (String colon port)) as E
      by by rewrite <- !str_app_assoc.
    rewrite E, IndexByte_app by (by rewrite ContainsByte_app, Hr).
    rewrite <- (str_app_assoc "[" host (String rbracket _)), HasPrefix_app.
    rewrite (str_app_assoc "[" host (String rbracket _)), take_bytes_app, !str_length_app.
    rewrite (proj2 (Nat.eqb_neq _ _)) by (simpl; lia).
    rewrite (proj2 (Nat.eqb_eq _ _)) by (simpl; lia).
    cbn [rbind]. change (drop_bytes 1 ("[" +:+ host)) with host.
    change (drop_bytes 1 (("[" +:+ host) +:+ String rbracket (String colon port)))
      with (host +:+ String rbracket (String colon port)).
    rewrite ContainsByte_app, Hl. simpl (ContainsByte _ lbracket). rewrite Hpl. cbn [orb].
    replace (S (String.length "[" + String.length host))
      with (String.length (("[" +:+ host) +:+ "]")) by (rewrite !str_length_app; simpl; lia).
    replace (S (String.length "[" + (String.length host + String.length "]")))
      with (String.length (("[" +:+ host) +:+ "]:")) by (rewrite !str_length_app; simpl; lia).
    change (String rbracket (String colon port)) with ("]" +:+ String colon port).
    rewrite str_app_assoc, drop_bytes_app. simpl (ContainsByte _ rbracket). rewrite Hpr.
    assert ((("[" +:+ host) +:+ "]") +:+ String colon port = (("[" +:+ host) +:+ "]:") +:+ port) as ->
      by by rewrite <- !str_app_assoc.
    by rewrite drop_bytes_app.
  - change (host +:+ ":" +:+ port) with (host +:+ String colon port).
    rewrite LastIndexByte_app by done.
    assert (HasPrefix (host +:+ String colon port) "[" = false) as ->.
    { apply (HasPrefix_head _ lbracket). by rewrite ContainsByte_app, Hl. }
    rewrite take_bytes_app, Hc. cbn [rbind]. change (drop_bytes 0 ?x) with x.
    rewrite !ContainsByte_app, Hl, Hr. simpl (ContainsByte (String _ _) _). rewrite Hpl, Hpr. cbn [orb].
    assert (host +:+ String colon port = (host +:+ ":") +:+ port) as -> by by rewrite <- str_app_assoc.
    replace (S (String.length host)) with (String.length (host +:+ ":"))
      by (rewrite str_length_app; simpl; lia).
    by rewrite drop_bytes_app.
Qed.
