(* ===== verification/Filesystem.v ===== *)
(** * Path confinement ([internal/filesystem])

    [Mapper] confines one FTP user to a virtual root and translates virtual
    paths to remote ones.  Everything is a pure function on strings.  The
    theorems are about the component lists behind the strings
    ([GoPath.abs_path]): being within a root means having the root's
    components as a prefix, so no ".." or look-alike sibling directory
    ([/data] and [/data-old]) can slip through a string-prefix test. *)
From S2P Require Import Prelude GoStrings GoPath Errors.
From Stdlib Require Import Ascii.
Open Scope string_scope.
Open Scope list_scope.
Open Scope Z_scope.

Record Mapper := MkMapper { virtualRoot : string; remoteRoot : string }.

Definition cleanRoot (p : string) : string :=
  let p := if (p =? "")%string then "/" else p in
  Clean ("/" +:+ p).

Definition NewMapper (virtualRoot remoteRoot : string) : Mapper :=
  MkMapper (cleanRoot virtualRoot) (cleanRoot remoteRoot).

Definition WithinRoot (root p : string) : bool :=
  if (root =? "/")%string then IsAbs p
  else if (p =? root)%string then true
  else HasPrefix p (root +:+ "/").

Definition withinVirtualRoot (m : Mapper) (p : string) : bool := WithinRoot (virtualRoot m) p.
Definition withinRemoteRoot (m : Mapper) (p : string) : bool := WithinRoot (remoteRoot m) p.

Definition ResolveVirtual (m : Mapper) (cwd arg : string) : res string :=
  let op := "filesystem.ResolveVirtual" in
  if ContainsByte arg nul then Err (New KindInvalidPath op "ruta inválida")
  else
    let cwd := if (cwd =? "")%string then virtualRoot m else cwd in
    let joined := if IsAbs arg then arg else Join2 cwd arg in
    let resolved := Clean ("/" +:+ joined) in
    if negb (withinVirtualRoot m resolved)
    then Err (New KindInvalidPath op "ruta fuera de la raíz permitida")
    else Ok resolved.

Definition ToRemote (m : Mapper) (virtualPath : string) : res string :=
  let op := "filesystem.ToRemote" in
  if negb (withinVirtualRoot m virtualPath)
  then Err (New KindInvalidPath op "ruta fuera de la raíz permitida")
  else
    let rel := TrimPrefix virtualPath (virtualRoot m) in
    let rel := TrimPrefix rel "/" in
    let remote := Clean (Join2 (remoteRoot m) rel) in
    if negb (withinRemoteRoot m remote)
    then Err (New KindInvalidPath op "ruta remota fuera de la raíz permitida")
    else Ok remote.

Definition ToVirtual (m : Mapper) (remotePath : string) : res string :=
  let op := "filesystem.ToVirtual" in
  let cleaned := Clean ("/" +:+ remotePath) in
  if negb (withinRemoteRoot m cleaned)
  then Err (New KindInvalidPath op "ruta remota fuera de la raíz permitida")
  else
    let rel := TrimPrefix cleaned (remoteRoot m) in
    let rel := TrimPrefix rel "/" in
    Ok (Clean (Join2 (virtualRoot m) rel)).

(** [VirtualRoot] and [RemoteRoot], the accessors. *)
Definition VirtualRoot (m : Mapper) : string := virtualRoot m.
Definition RemoteRoot (m : Mapper) : string := remoteRoot m.

(** ** Confinement, on components *)

(** [p] is [root] or a descendant of it: the specification of [WithinRoot]. *)
Definition under (root p : string) : Prop :=
  exists rs s, Forall good_comp rs /\ Forall good_comp s /\
    root = abs_path rs /\ p = abs_path (rs ++ s).

(** A mapper [NewMapper] can have built. *)
Definition mapper_ok (m : Mapper) : Prop :=
  clean_abs (virtualRoot m) /\ clean_abs (remoteRoot m).

Lemma cleanRoot_clean p : clean_abs (cleanRoot p).
Proof. apply Clean_abs_clean, HasPrefix_app. Qed.

Lemma NewMapper_ok v r : mapper_ok (NewMapper v r).
Proof. split; apply cleanRoot_clean. Qed.

Lemma abs_path_root cs : Forall good_comp cs -> abs_path cs = "/" <-> cs = [].
Proof.
  intros H. split; [|by intros ->].
  intros E. by apply (abs_path_inj cs []).
Qed.

(** The string test of [WithinRoot] decides the prefix order on components. *)
Lemma WithinRoot_prefix rs ps :
  Forall good_comp rs -> Forall good_comp ps ->
  WithinRoot (abs_path rs) (abs_path ps) = true <-> rs `prefix_of` ps.
Proof.
  intros Hr Hp. unfold WithinRoot.
  destruct (abs_path rs =? "/")%string eqn:E1; bool_to_prop.
  { apply abs_path_root in E1 as ->; [|done]. rewrite IsAbs_abs_path.
    split; [intros _; apply prefix_nil|done]. }
  destruct (abs_path ps =? abs_path rs)%string eqn:E2; bool_to_prop.
  { apply abs_path_inj in E2 as ->; [|done..]. done. }
  rewrite HasPrefix_spec. split.
  - intros [t Ht]. apply (f_equal (fun s => Split s slash)) in Ht.
    rewrite <- str_app_assoc in Ht. change ("/" +:+ t) with (String slash t) in Ht.
    rewrite Split_app_sep, !Split_abs_path in Ht by done.
    destruct rs as [|r rs]; [done|]. injection Ht as Ht.
    destruct ps as [|p ps].
    + injection Ht as <- Ht. by destruct rs.
    + exists (Split t slash). done.
  - intros [s ->]. destruct rs as [|r rs]; [done|].
    destruct s as [|w s]; [by rewrite app_nil_r in E2|].
    exists (Join (w :: s) "/"). unfold abs_path. rewrite Join_app by done.
    by rewrite !str_app_assoc.
Qed.

Lemma WithinRoot_under root p :
  clean_abs root -> clean_abs p -> WithinRoot root p = true <-> under root p.
Proof.
  intros (rs & Hr & ->) (ps & Hp & ->). rewrite WithinRoot_prefix by done. split.
  - intros [s ->]. apply Forall_app in Hp as [_ Hs]. by exists rs, s.
  - intros (rs' & s & Hrs' & Hs & E1 & E2).
    apply abs_path_inj in E1 as ->; [|done..].
    apply abs_path_inj in E2 as ->; [|done|by apply Forall_app].
    by exists s.
Qed.

Lemma under_clean root p : under root p -> clean_abs root /\ clean_abs p.
Proof.
  intros (rs & s & Hrs & Hs & -> & ->). split; eexists; (split; [|done]); [done|].
  by apply Forall_app.
Qed.

(** Trimming a root and its separator off a descendant leaves the relative path. *)
Lemma trim_root rs s :
  Forall good_comp rs -> Forall good_comp s ->
  TrimPrefix (TrimPrefix (abs_path (rs ++ s)) (abs_path rs)) "/" = Join s "/".
Proof.
  intros Hr Hs.
  assert (TrimPrefix (Join s "/") "/" = Join s "/") as Htrim.
  { apply TrimPrefix_none. destruct (HasPrefix (Join s "/") "/") eqn:E; [|done].
    apply HasPrefix_spec in E as [t Ht]. change ("/" +:+ t) with ("" +:+ String slash t) in Ht.
    apply (f_equal (fun x => Split x slash)) in Ht.
    rewrite Split_app_sep, Split_Join_good in Ht by done.
    destruct s as [|w s]; simpl in Ht.
    - destruct (Split_cons_exists t slash) as (? & ? & E'). by rewrite E' in Ht.
    - injection Ht as -> _. by inversion Hs as [|? ? [? _]]. }
  destruct rs as [|r rs].
  - rewrite app_nil_l. unfold abs_path at 1.
    change (abs_path []) with "/". by rewrite TrimPrefix_app.
  - destruct s as [|w s].
    + rewrite app_nil_r. rewrite <- (str_app_nil_r (abs_path (r :: rs))) at 1.
      by rewrite TrimPrefix_app.
    + unfold abs_path. rewrite Join_app, str_app_assoc, TrimPrefix_app by done.
      by rewrite TrimPrefix_app.
Qed.

(** ** The two translations on components *)

Section translation.
Context (m : Mapper) (vs rs : list string).
Hypothesis Hv : Forall good_comp vs.
Hypothesis Hr : Forall good_comp rs.
Hypothesis Hm : m = MkMapper (abs_path vs) (abs_path rs).

Lemma ToRemote_comps s :
  Forall good_comp s -> ToRemote m (abs_path (vs ++ s)) = Ok (abs_path (rs ++ s)).
Proof using Hv Hr Hm.
  intros Hs. unfold ToRemote, withinVirtualRoot, withinRemoteRoot. rewrite Hm. cbn [virtualRoot remoteRoot].
  assert (Forall good_comp (vs ++ s)) by by apply Forall_app.
  assert (Forall good_comp (rs ++ s)) by by apply Forall_app.
  rewrite (proj2 (WithinRoot_prefix vs (vs ++ s) Hv ltac:(done))) by by apply prefix_app_r.
  cbn [negb]. rewrite trim_root, Join2_good, Clean_abs_path by done.
  by rewrite (proj2 (WithinRoot_prefix rs (rs ++ s) Hr ltac:(done))) by by apply prefix_app_r.
Qed.

Lemma ToVirtual_comps s :
  Forall good_comp s -> ToVirtual m (abs_path (rs ++ s)) = Ok (abs_path (vs ++ s)).
Proof using Hv Hr Hm.
  intros Hs. unfold ToVirtual, withinRemoteRoot. rewrite Hm. cbn [virtualRoot remoteRoot].
  assert (Forall good_comp (vs ++ s)) by by apply Forall_app.
  assert (Forall good_comp (rs ++ s)) by by apply Forall_app.
  rewrite Clean_slash, Clean_abs_path by auto using IsAbs_abs_path.
  rewrite (proj2 (WithinRoot_prefix rs (rs ++ s) Hr ltac:(done))) by by apply prefix_app_r.
  cbn [negb]. by rewrite trim_root, Join2_good, Clean_abs_path.
Qed.
End translation.

Lemma mapper_ok_comps m :
  mapper_ok m -> exists vs rs, Forall good_comp vs /\ Forall good_comp rs /\
    m = MkMapper (abs_path vs) (abs_path rs).
Proof.
  destruct m as [v r]. intros [(vs & Hv & Ev) (rs & Hr & Er)]. simpl in *.
  exists vs, rs. by rewrite Ev, Er.
Qed.

Lemma under_comps vs p :
  Forall good_comp vs -> under (abs_path vs) p ->
  exists s, Forall good_comp s /\ p = abs_path (vs ++ s).
Proof.
  intros Hv (rs & s & Hrs & Hs & E & ->). apply abs_path_inj in E as ->; [|done..]. eauto.
Qed.

(** [ResolveVirtual] succeeds exactly on the NUL-free arguments whose
    resolution is under the root, and returns that resolution. *)
Definition resolution (m : Mapper) (cwd arg : string) : string :=
  Clean ("/" +:+ (if IsAbs arg then arg
                  else Join2 (if (cwd =? "")%string then virtualRoot m else cwd) arg)).

Lemma resolution_clean m cwd arg : clean_abs (resolution m cwd arg).
Proof. apply Clean_abs_clean, HasPrefix_app. Qed.

Lemma ResolveVirtual_ok m cwd arg v :
  mapper_ok m ->
  ResolveVirtual m cwd arg = Ok v <->
  ContainsByte arg nul = false /\ v = resolution m cwd arg /\ under (virtualRoot m) v.
Proof.
  intros [Hv _]. unfold ResolveVirtual. fold (resolution m cwd arg).
  pose proof (WithinRoot_under _ _ Hv (resolution_clean m cwd arg)) as Hu.
  unfold withinVirtualRoot.
  destruct (ContainsByte arg nul); [by split; [|intros [? _]]|].
  destruct (WithinRoot (virtualRoot m) (resolution m cwd arg)); simpl; split.
  - intros [= <-]. split_and!; [done..|]. by apply Hu.
  - by intros (_ & -> & _).
  - done.
  - intros (_ & -> & H). by apply Hu in H.
Qed.

Lemma ResolveVirtual_err m cwd arg e :
  ResolveVirtual m cwd arg = Err e -> KindOf e = KindInvalidPath.
Proof.
  unfold ResolveVirtual. intros H. repeat case_match; inv_pair; done.
Qed.

Lemma ToRemote_total m v :
  mapper_ok m -> under (virtualRoot m) v ->
  exists r, ToRemote m v = Ok r /\ under (remoteRoot m) r.
Proof.
  intros (vs & rs & Hv & Hr & ->)%mapper_ok_comps Hu.
  apply under_comps in Hu as (s & Hs & ->); [|done].
  rewrite (ToRemote_comps _ vs rs) by done. eexists. split; [done|]. by exists rs, s.
Qed.

Lemma ToRemote_confined m v r :
  mapper_ok m -> ToRemote m v = Ok r -> under (remoteRoot m) r.
Proof.
  intros [_ Hr]. unfold ToRemote, withinRemoteRoot. intros H.
  case_match; [done|]. case_match; [done|]. inv_pair.
  apply WithinRoot_under; [done| |by bool_to_prop].
  destruct Hr as (rs & Hrs & ->). apply Clean_abs_clean.
  by apply clean_abs_IsAbs, Join2_clean.
Qed.

#[export] Hint Resolve cleanRoot_clean NewMapper_ok resolution_clean : go.

(** ** Properties *)

(** C2. Confinement end to end: whatever the client sends, if
    [ResolveVirtual] accepts it then the virtual path is a descendant of the
    user's virtual root, [ToRemote] cannot fail on it, and the remote path is
    the descendant of the remote root with the same relative components. *)
Theorem resolve_to_remote_confined v r cwd arg vp :
  ResolveVirtual (NewMapper v r) cwd arg = Ok vp ->
  exists vs rs s, Forall good_comp vs /\ Forall good_comp rs /\ Forall good_comp s /\
    cleanRoot v = abs_path vs /\ cleanRoot r = abs_path rs /\
    vp = abs_path (vs ++ s) /\
    ToRemote (NewMapper v r) vp = Ok (abs_path (rs ++ s)).
Proof.
  intros (_ & _ & Hu)%ResolveVirtual_ok; [|apply NewMapper_ok].
  destruct (NewMapper_ok v r) as [(vs & Hvs & Ev) (rs & Hrs & Er)].
  rewrite Ev in Hu. apply under_comps in Hu as (s & Hs & ->); [|done].
  exists vs, rs, s. split_and!; try done.
  apply ToRemote_comps; try done. unfold NewMapper in *. simpl in *. by rewrite Ev, Er.
Qed.

Lemma resolve_to_remote_confined_witness :
  exists vs rs s, Forall good_comp vs /\ Forall good_comp rs /\ Forall good_comp s /\
    cleanRoot "/data" = abs_path vs /\ cleanRoot "srv//ftp/" = abs_path rs /\
    "/data/in/f.xml" = abs_path (vs ++ s) /\
    ToRemote (NewMapper "/data" "srv//ftp/") "/data/in/f.xml" = Ok (abs_path (rs ++ s)).
Proof.
  apply (resolve_to_remote_confined "/data" "srv//ftp/" "/data/tmp" "../in/./f.xml").
  vm_compute. reflexivity.
Defined.

(** On clean absolute paths the string test [WithinRoot] decides
    component-wise containment: siblings sharing a name prefix are outside,
    the root itself and all its descendants are inside. *)
Theorem WithinRoot_decides_containment root p :
  clean_abs root -> clean_abs p -> WithinRoot root p = true <-> under root p.
Proof. apply WithinRoot_under. Qed.

Lemma WithinRoot_decides_containment_witness :
  (WithinRoot "/data" "/data-old/x" = true <-> under "/data" "/data-old/x") /\
  WithinRoot "/data" "/data-old/x" = false /\ WithinRoot "/data" "/data/x" = true.
Proof.
  split; [|split; reflexivity].
  apply (WithinRoot_decides_containment "/data" "/data-old/x").
  - exists ["data"]. split; [|done]. repeat constructor; done.
  - exists ["data-old"; "x"]. split; [|done]. repeat constructor; done.
Defined.

(** [ToVirtual] inverts [ToRemote] on clean virtual paths, so a listing
    shows a client exactly the names it can address. *)
Theorem ToVirtual_ToRemote v r vp rp :
  clean_abs vp -> ToRemote (NewMapper v r) vp = Ok rp ->
  ToVirtual (NewMapper v r) rp = Ok vp.
Proof.
  intros Hvp H. destruct (NewMapper_ok v r) as [Hv Hr].
  assert (under (virtualRoot (NewMapper v r)) vp) as Hu.
  { apply WithinRoot_under; [done..|]. unfold ToRemote, withinVirtualRoot in H.
    case_match; [done|]. by bool_to_prop. }
  destruct (mapper_ok_comps _ (conj Hv Hr)) as (vs & rs & Hvs & Hrs & E). rewrite E in *.
  simpl in Hu. apply under_comps in Hu as (s & Hs & ->); [|done].
  rewrite (ToRemote_comps _ vs rs) in H by done. inv_pair.
  by apply ToVirtual_comps.
Qed.

Lemma ToVirtual_ToRemote_witness :
  ToVirtual (NewMapper "/in" "/srv") "/srv/a/b" = Ok "/in/a/b".
Proof.
  apply (ToVirtual_ToRemote "/in" "/srv" "/in/a/b" "/srv/a/b"); [|reflexivity].
  exists ["in"; "a"; "b"]. split; [|done]. repeat constructor; done.
Defined.

(** Containment does not rest on the caller: [ToRemote] never returns a
    path outside the remote root, whatever (unclean, relative, "..")
    string it is given. *)
Theorem ToRemote_never_escapes v r p rp :
  ToRemote (NewMapper v r) p = Ok rp -> under (cleanRoot r) rp.
Proof. apply ToRemote_confined, NewMapper_ok. Qed.

Lemma ToRemote_never_escapes_witness :
  under (cleanRoot "/srv") "/srv/b" /\
  is_ok (ToRemote (NewMapper "/in" "/srv") "/in/../../etc") = false.
Proof.
  split; [|vm_compute; reflexivity].
  apply (ToRemote_never_escapes "/in" "/srv" "/in/a/../b" "/srv/b"). vm_compute. reflexivity.
Defined.

(** C38. [ResolveVirtual] is exact: it accepts an argument if and only if it
    holds no NUL byte and its resolution stays under the virtual root, and
    then it returns exactly that resolution. *)
Theorem ResolveVirtual_exact v r cwd arg vp :
  ResolveVirtual (NewMapper v r) cwd arg = Ok vp <->
  ContainsByte arg nul = false /\ vp = resolution (NewMapper v r) cwd arg /\
  under (cleanRoot v) vp.
Proof. apply ResolveVirtual_ok, NewMapper_ok. Qed.
