(* ===== verification/Authorization.v ===== *)
(** * Authorization ([internal/authorization])

    [Policy] holds the permissions and limits of one FTP user; the checks
    are pure.  [ConcurrencyGate] is a buffered channel of empty structs used
    as a non-blocking semaphore: its only observable state is how many slots
    are taken. *)
From S2P Require Import Prelude GoStrings Errors.
Open Scope string_scope.
Open Scope list_scope.
Open Scope Z_scope.

Record Policy := MkPolicy {
  AllowUpload : bool;
  AllowDownload : bool;
  AllowDelete : bool;
  AllowMkdir : bool;
  AllowRename : bool;
  AllowOverwrite : bool;
  MaxFileSize : Z;
}.

Definition opDenied : string := "authorization.check".

Definition CheckUpload (p : Policy) : option error :=
  if negb (AllowUpload p)
  then Some (New KindAuthorization opDenied "subida no autorizada") else None.
Definition CheckDownload (p : Policy) : option error :=
  if negb (AllowDownload p)
  then Some (New KindAuthorization opDenied "descarga no autorizada") else None.
Definition CheckDelete (p : Policy) : option error :=
  if negb (AllowDelete p)
  then Some (New KindAuthorization opDenied "eliminación no autorizada") else None.
Definition CheckMkdir (p : Policy) : option error :=
  if negb (AllowMkdir p)
  then Some (New KindAuthorization opDenied "creación de directorio no autorizada") else None.
Definition CheckRename (p : Policy) : option error :=
  if negb (AllowRename p)
  then Some (New KindAuthorization opDenied "renombrado no autorizado") else None.
Definition CheckOverwrite (p : Policy) : option error :=
  if negb (AllowOverwrite p)
  then Some (New KindConflict opDenied "el archivo destino ya existe") else None.
Definition CheckFileSize (p : Policy) (size : Z) : option error :=
  if size <? 0 then None
  else if size >? MaxFileSize p
  then Some (New KindAuthorization opDenied
         ("el archivo excede el tamaño máximo permitido (" +:+ fmt_d (MaxFileSize p) +:+ " bytes)"))
  else None.

(** The zero value of the struct. *)
Definition zero_Policy : Policy := MkPolicy false false false false false false 0.

(** ** The gate *)

Module Gate.

(** [cap(slots)] and [len(slots)]. *)
Record ConcurrencyGate := MkGate { capacity : Z; used : Z }.

(** [make(chan struct{}, max)] panics for a negative [max]; configuration
    validation keeps it positive. *)
Definition NewConcurrencyGate (max : Z) : ConcurrencyGate := MkGate max 0.

(** A send that would block takes the [default] branch. *)
Definition TryAcquire (g : ConcurrencyGate) : bool * ConcurrencyGate :=
  if used g <? capacity g then (true, MkGate (capacity g) (used g + 1)) else (false, g).

(** A receive from an empty channel takes the [default] branch. *)
Definition Release (g : ConcurrencyGate) : ConcurrencyGate :=
  if 0 <? used g then MkGate (capacity g) (used g - 1) else g.

Definition InUse (g : ConcurrencyGate) : Z := used g.

Definition gate_ok (g : ConcurrencyGate) : Prop := 0 <= used g <= capacity g.

Lemma New_ok max : 0 <= max -> gate_ok (NewConcurrencyGate max).
Proof. unfold gate_ok. simpl. lia. Qed.

Lemma TryAcquire_spec g b g' :
  TryAcquire g = (b, g') ->
  capacity g' = capacity g /\
  (b = true -> used g < capacity g /\ used g' = used g + 1) /\
  (b = false -> capacity g <= used g /\ g' = g).
Proof. unfold TryAcquire. intros H. case_match; inv_pair; bool_to_prop; simpl; naive_solver. Qed.

Lemma TryAcquire_ok g : gate_ok g -> gate_ok (TryAcquire g).2.
Proof. unfold gate_ok, TryAcquire. intros. case_match; bool_to_prop; simpl; lia. Qed.

Lemma Release_ok g : gate_ok g -> gate_ok (Release g).
Proof. unfold gate_ok, Release. intros. case_match; bool_to_prop; simpl; lia. Qed.

Lemma Release_used g : 0 < used g -> used (Release g) = used g - 1.
Proof. unfold Release. intros H. apply Z.ltb_lt in H. by rewrite H. Qed.

Lemma Release_capacity g : capacity (Release g) = capacity g.
Proof. unfold Release. by case_match. Qed.

(** ** Any interleaving of gate operations

    Channel operations are atomic, so what concurrent sessions do to a gate
    is a sequence of operations. *)
Inductive gate_op := OpTryAcquire | OpRelease.

Definition gate_step (g : ConcurrencyGate) (o : gate_op) : ConcurrencyGate :=
  match o with OpTryAcquire => (TryAcquire g).2 | OpRelease => Release g end.

Definition gate_run (g : ConcurrencyGate) (os : list gate_op) : ConcurrencyGate :=
  foldl gate_step g os.

Lemma gate_run_ok g os : gate_ok g -> gate_ok (gate_run g os).
Proof.
  revert g. induction os as [|o os IH]; intros g H; simpl; [done|].
  apply IH. destruct o; [by apply TryAcquire_ok|by apply Release_ok].
Qed.

Lemma gate_run_capacity g os : capacity (gate_run g os) = capacity g.
Proof.
  revert g. induction os as [|o os IH]; intros g; simpl; [done|]. rewrite IH.
  destruct o; simpl; [|apply Release_capacity].
  destruct (TryAcquire g) as [b g'] eqn:E. by apply TryAcquire_spec in E as [E _].
Qed.

#[export] Hint Resolve New_ok TryAcquire_ok Release_ok gate_run_ok : go.
End Gate.

(** ** Properties *)

(** Whatever interleaving of acquisitions and releases the sessions of a
    user perform, including releases nobody owed, the number of slots in use
    stays between zero and the configured maximum, and a further acquisition
    succeeds exactly when a slot is free. *)
Theorem gate_never_over_limit max os :
  0 <= max ->
  let g := Gate.gate_run (Gate.NewConcurrencyGate max) os in
  0 <= Gate.InUse g <= max /\
  ((Gate.TryAcquire g).1 = true <-> Gate.InUse g < max).
Proof.
  intros Hmax g.
  assert (Gate.gate_ok g) as Hok by by apply Gate.gate_run_ok, Gate.New_ok.
  assert (Gate.capacity g = max) as Hcap by apply Gate.gate_run_capacity.
  unfold Gate.gate_ok, Gate.InUse, Gate.TryAcquire in *. rewrite Hcap in *.
  split; [lia|]. case_match; bool_to_prop; simpl; split; (done || lia).
Qed.

Lemma gate_never_over_limit_witness :
  let os := [Gate.OpRelease; Gate.OpTryAcquire; Gate.OpTryAcquire; Gate.OpTryAcquire] in
  let g := Gate.gate_run (Gate.NewConcurrencyGate 2) os in
  0 <= Gate.InUse g <= 2 /\ ((Gate.TryAcquire g).1 = true <-> Gate.InUse g < 2).
Proof. intros os. apply (gate_never_over_limit 2 os). lia. Defined.
