(* ===== verification/Limiter.v ===== *)
(** * Brute-force limiter ([internal/auth/limiter.go])

    A [time.Time] is the number of nanoseconds since its zero value
    (January 1, year 1 UTC), so [IsZero] is a comparison with 0; a
    [time.Duration] is an [int64] number of nanoseconds.  Every [time.Now()]
    the code executes is an explicit reading: [Allow] takes the reading of
    its own test, and those the sweep makes (one for the cutoff and one per
    visited key, whatever order the map iteration has). *)
From S2P Require Import Prelude GoStrings.
Open Scope string_scope.
Open Scope list_scope.
Open Scope Z_scope.

Record attemptState := MkAttempt {
  failures : Z;
  windowStart : Z;
  lockedUntil : Z;
  lastActivity : Z;
}.

Record Limiter := MkLimiter {
  state : gmap string attemptState;
  maxFailures : Z;
  window : Z;
  lockout : Z;
  calls : Z;
}.

Definition NewLimiter (maxFailures window lockout : Z) : Limiter :=
  MkLimiter ∅ maxFailures window lockout 0.

Definition set_state (st : gmap string attemptState) (l : Limiter) : Limiter :=
  MkLimiter st (maxFailures l) (window l) (lockout l) (calls l).
Definition set_calls (n : Z) (l : Limiter) : Limiter :=
  MkLimiter (state l) (maxFailures l) (window l) (lockout l) n.

(** [t.Sub(u)] saturates at the range of [Duration]. *)
Definition Sub (t u : Z) : Z := Z.max min_int64 (Z.min max_int64 (t - u)).
Definition IsZero (t : Z) : bool := t =? 0.

Record Readings := MkReadings {
  now_cutoff : Z;
  now_visit : string -> Z;
  now_test : Z;
}.

Definition cutoff (l : Limiter) (now : Z) : Z :=
  now + wrap64 (- wrap64 (window l + wrap64 (lockout l * 32))).

Definition swept (l : Limiter) (r : Readings) (k : string) (s : attemptState) : bool :=
  (lastActivity s <? cutoff l (now_cutoff r)) && (lockedUntil s <? now_visit r k).

Definition sweepOccasionally (l : Limiter) (r : Readings) : Limiter :=
  let n := wrapu64 (calls l + 1) in
  let l := set_calls n l in
  if negb (n mod 256 =? 0) then l
  else set_state (filter (fun '(k, s) => swept l r k s = false) (state l)) l.

Definition Allow (l : Limiter) (r : Readings) (key : string) : bool * Limiter :=
  let l := sweepOccasionally l r in
  match state l !! key with
  | None => (true, l)
  | Some s =>
      if negb (IsZero (lockedUntil s)) && (now_test r <? lockedUntil s)
      then (false, l) else (true, l)
  end.

(** The entry [RecordFailure] leaves behind, from the one it found. *)
Definition fail_entry (l : Limiter) (now : Z) (found : option attemptState) : attemptState :=
  let s := match found with
           | Some s => if Sub now (windowStart s) >? window l
                       then MkAttempt 0 now 0 0 else s
           | None => MkAttempt 0 now 0 0
           end in
  let s := MkAttempt (wrap64 (failures s + 1)) (windowStart s) (lockedUntil s) now in
  if failures s >=? maxFailures l then
    let multiplier := wrap64 (failures s - maxFailures l + 1) in
    let multiplier := if multiplier >? 32 then 32 else multiplier in
    MkAttempt (failures s) (windowStart s) (now + wrap64 (lockout l * multiplier)) now
  else s.

Definition RecordFailure (l : Limiter) (now : Z) (key : string) : Limiter :=
  set_state (<[key := fail_entry l now (state l !! key)]> (state l)) l.

Definition RecordSuccess (l : Limiter) (key : string) : Limiter :=
  set_state (delete key (state l)) l.

(** Exactly one call in 256 sweeps, also across the wrap of the counter. *)
Lemma sweep_period l r :
  0 <= calls l < two64 ->
  calls (sweepOccasionally l r) = wrapu64 (calls l + 1) /\
  ((calls l + 1) mod 256 <> 0 -> state (sweepOccasionally l r) = state l).
Proof.
  intros H. unfold sweepOccasionally. split; [by case_match|].
  intros Hm. assert (wrapu64 (calls l + 1) mod 256 = (calls l + 1) mod 256) as ->.
  { unfold wrapu64, two64. apply Z.mod_mod_divide. by exists 72057594037927936. }
  by apply Z.eqb_neq in Hm as ->.
Qed.

Lemma state_sweep l r :
  state (sweepOccasionally l r) = state l \/
  state (sweepOccasionally l r) =
    filter (fun '(k, s) => swept l r k s = false) (state l).
Proof. unfold sweepOccasionally. case_match; [by left|by right]. Qed.

(** What the sweep does to one key. *)
Lemma sweep_lookup l r k :
  state (sweepOccasionally l r) !! k = state l !! k \/
  exists s, state l !! k = Some s /\ swept l r k s = true /\
            state (sweepOccasionally l r) !! k = None.
Proof.
  destruct (state_sweep l r) as [->| ->]; [by left|].
  rewrite map_lookup_filter. destruct (state l !! k) as [s|]; simpl; [|by left].
  destruct (swept l r k s) eqn:E.
  - right. exists s. split_and!; [done..|]. by rewrite option_guard_False by congruence.
  - left. by rewrite option_guard_True.
Qed.

Lemma sweep_params l r :
  maxFailures (sweepOccasionally l r) = maxFailures l /\
  window (sweepOccasionally l r) = window l /\ lockout (sweepOccasionally l r) = lockout l.
Proof. unfold sweepOccasionally. by case_match. Qed.

Lemma Allow_limiter l r k : (Allow l r k).2 = sweepOccasionally l r.
Proof. unfold Allow. repeat case_match; done. Qed.

(** [locked s now]: the entry refuses an attempt made at [now]. *)
Definition locked (s : attemptState) (now : Z) : bool :=
  negb (IsZero (lockedUntil s)) && (now <? lockedUntil s).

Lemma Allow_result l r k :
  (Allow l r k).1 = match state (sweepOccasionally l r) !! k with
                    | Some s => negb (locked s (now_test r))
                    | None => true
                    end.
Proof.
  unfold Allow. destruct (state _ !! k) as [s|]; [|done]. unfold locked.
  by destruct (negb _ && _).
Qed.

(** ** Sane parameters and clocks *)

(** Durations that do not overflow when scaled by the 32x cap. *)
Definition params_ok (l : Limiter) : Prop :=
  0 <= window l /\ 0 <= lockout l /\ window l + lockout l * 32 < max_int64.

Lemma cutoff_exact l now :
  params_ok l -> cutoff l now = now - (window l + lockout l * 32).
Proof.
  unfold params_ok, cutoff, max_int64. intros (Hw & Hl & Hb).
  rewrite (wrap64_id (lockout l * 32)) by (unfold in_int64, min_int64, max_int64; lia).
  rewrite (wrap64_id (window l + _)) by (unfold in_int64, min_int64, max_int64; lia).
  rewrite wrap64_id by (unfold in_int64, min_int64, max_int64; lia). lia.
Qed.

(** The readings of one call, made in program order from time [t] on. *)
Definition readings_from (t : Z) (r : Readings) : Prop :=
  t <= now_cutoff r /\ (forall k, now_cutoff r <= now_visit r k <= now_test r).

Lemma readings_test t r : readings_from t r -> t <= now_test r.
Proof. intros [H1 H2]. specialize (H2 ""). lia. Qed.

Lemma Sub_window now ws w :
  0 <= w < max_int64 -> (Sub now ws >? w) = (now - ws >? w).
Proof.
  unfold Sub, min_int64, max_int64. intros H. rewrite !Z.gtb_ltb.
  apply eq_true_iff_eq. rewrite !Z.ltb_lt. lia.
Qed.

(** ** The sweep is unobservable

    The specification keeps every entry for ever.  [sim] relates a limiter to
    it: a key's entry is the same, or was swept when it was already stale,
    that is neither locked nor within its window. *)

Inductive op :=
  | OAllow (key : string) (r : Readings)
  | OFail (key : string) (now : Z)
  | OSuccess (key : string).

Definition op_step (l : Limiter) (o : op) : option bool * Limiter :=
  match o with
  | OAllow k r => let '(b, l) := Allow l r k in (Some b, l)
  | OFail k now => (None, RecordFailure l now k)
  | OSuccess k => (None, RecordSuccess l k)
  end.

Definition spec_step (l : Limiter) (m : gmap string attemptState) (o : op)
  : option bool * gmap string attemptState :=
  match o with
  | OAllow k r => (Some match m !! k with
                        | Some s => negb (locked s (now_test r))
                        | None => true
                        end, m)
  | OFail k now => (None, <[k := fail_entry l now (m !! k)]> m)
  | OSuccess k => (None, delete k m)
  end.

Fixpoint run (l : Limiter) (os : list op) : list (option bool) :=
  match os with
  | [] => []
  | o :: os => let '(b, l) := op_step l o in b :: run l os
  end.

Fixpoint spec_run (l : Limiter) (m : gmap string attemptState) (os : list op)
  : list (option bool) :=
  match os with
  | [] => []
  | o :: os => let '(b, m) := spec_step l m o in b :: spec_run l m os
  end.

(** Clock readings never go back. *)
Definition op_from (t : Z) (o : op) : Prop :=
  match o with
  | OAllow _ r => readings_from t r
  | OFail _ now => t <= now
  | OSuccess _ => True
  end.
Definition op_end (t : Z) (o : op) : Z :=
  match o with OAllow _ r => now_test r | OFail _ now => now | OSuccess _ => t end.
Fixpoint ops_from (t : Z) (os : list op) : Prop :=
  match os with [] => True | o :: os => op_from t o /\ ops_from (op_end t o) os end.

Definition stale (l : Limiter) (T : Z) (s : attemptState) : Prop :=
  T - windowStart s > window l /\ lockedUntil s < T.

Definition entries_ok (T : Z) (l : Limiter) : Prop :=
  forall k s, state l !! k = Some s -> windowStart s <= lastActivity s <= T.

Definition same_params (l l' : Limiter) : Prop :=
  maxFailures l' = maxFailures l /\ window l' = window l /\ lockout l' = lockout l.

Definition sim (l : Limiter) (T : Z) (m : gmap string attemptState) : Prop :=
  forall k, state l !! k = m !! k \/
            (state l !! k = None /\ exists s, m !! k = Some s /\ stale l T s).

Lemma fail_entry_params l l' now s :
  same_params l l' -> fail_entry l' now s = fail_entry l now s.
Proof. intros (H1 & H2 & H3). unfold fail_entry. by rewrite H1, H2, H3. Qed.

Lemma swept_stale l r t k s :
  params_ok l -> readings_from t r -> windowStart s <= lastActivity s ->
  swept l r k s = true -> stale l (now_test r) s.
Proof.
  intros Hp [_ Hr] Hs Hsw. unfold swept in Hsw. bool_to_prop.
  rewrite cutoff_exact in * by done. specialize (Hr k).
  unfold params_ok, stale in *. lia.
Qed.

Lemma sim_sweep l r t m :
  params_ok l -> readings_from t r -> entries_ok t l -> sim l t m ->
  sim (sweepOccasionally l r) (now_test r) m /\
  entries_ok (now_test r) (sweepOccasionally l r).
Proof.
  intros Hp Hr He Hs. pose proof (readings_test _ _ Hr) as Ht.
  pose proof (sweep_params l r) as (_ & Hw & _).
  split; intros k.
  - destruct (sweep_lookup l r k) as [->|(s & Hk & Hsw & ->)].
    + destruct (Hs k) as [?|(? & s & ? & ?)]; [by left|right].
      split; [done|]. exists s. split; [done|]. unfold stale in *. rewrite Hw. lia.
    + right. split; [done|]. destruct (Hs k) as [E|(E & _)]; [|congruence].
      exists s. split; [congruence|].
      assert (stale l (now_test r) s) as [? ?] by (eapply swept_stale; [done..|by eapply He|done]).
      unfold stale. by rewrite Hw.
  - intros s. destruct (sweep_lookup l r k) as [->|(s' & _ & _ & ->)]; [|done].
    intros H%He. lia.
Qed.

Lemma fail_entry_times l now o :
  (forall s, o = Some s -> windowStart s <= now) ->
  windowStart (fail_entry l now o) <= now /\ lastActivity (fail_entry l now o) = now.
Proof.
  intros H. unfold fail_entry. destruct o as [s|].
  - specialize (H s eq_refl). destruct (_ >? window l); simpl; case_match; simpl; lia.
  - simpl. case_match; simpl; lia.
Qed.

(** A stale entry counts as no entry. *)
Lemma fail_entry_stale l T now s :
  params_ok l -> T <= now -> stale l T s -> fail_entry l now (Some s) = fail_entry l now None.
Proof.
  intros Hp Ht [H1 H2]. unfold fail_entry.
  rewrite Sub_window by (unfold params_ok in Hp; lia).
  destruct (now - windowStart s >? window l) eqn:E; [done|]. bool_to_prop. lia.
Qed.

Lemma sim_step l m t o :
  params_ok l -> entries_ok t l -> sim l t m -> op_from t o ->
  (op_step l o).1 = (spec_step l m o).1 /\
  sim (op_step l o).2 (op_end t o) (spec_step l m o).2 /\
  entries_ok (op_end t o) (op_step l o).2 /\ same_params l (op_step l o).2.
Proof.
  intros Hp He Hs Ho. destruct o as [k r|k now|k]; simpl in *.
  - destruct (sim_sweep _ _ _ _ Hp Ho He Hs) as [Hs' He'].
    pose proof (Allow_result l r k) as Hb. pose proof (Allow_limiter l r k) as Hl.
    destruct (Allow l r k) as [b l']; simpl in *. subst b l'.
    split_and!; [|done..|apply sweep_params].
    f_equal. destruct (Hs' k) as [->|(-> & s & -> & _ & Hlk)]; [done|].
    unfold locked. apply Z.lt_le_incl, Z.ltb_ge in Hlk as ->. by rewrite andb_false_r.
  - split_and!; [done| | |done].
    + intros k'. unfold RecordFailure. simpl. destruct (decide (k = k')) as [<-|Hne].
      * rewrite !lookup_insert_eq. left. f_equal.
        destruct (Hs k) as [->|(-> & s & -> & Hst)]; [done|].
        symmetry. by eapply fail_entry_stale.
      * rewrite !lookup_insert_ne by done.
        destruct (Hs k') as [?|(? & s & ? & Hst)]; [by left|right].
        split; [done|]. exists s. split; [done|]. unfold stale in *. simpl. lia.
    + intros k' s. unfold RecordFailure. simpl. destruct (decide (k = k')) as [<-|Hne].
      * rewrite lookup_insert_eq. intros [= <-].
        destruct (fail_entry_times l now (state l !! k)) as [H1 H2]; [|lia].
        intros s Hs'%He. lia.
      * rewrite lookup_insert_ne by done. intros H%He. lia.
  - split_and!; [done| | |done].
    + intros k'. unfold RecordSuccess. simpl. destruct (decide (k = k')) as [<-|Hne].
      * rewrite !lookup_delete_eq. by left.
      * rewrite !lookup_delete_ne by done. apply Hs.
    + intros k' s. unfold RecordSuccess. simpl. destruct (decide (k = k')) as [<-|Hne].
      * by rewrite lookup_delete_eq.
      * rewrite lookup_delete_ne by done. apply He.
Qed.

Lemma params_ok_same l l' : same_params l l' -> params_ok l -> params_ok l'.
Proof. intros (H1 & H2 & H3). unfold params_ok. by rewrite H2, H3. Qed.

Lemma spec_step_params l l' m o : same_params l l' -> spec_step l' m o = spec_step l m o.
Proof. intros H. destruct o; simpl; [done| |done]. by rewrite (fail_entry_params l l'). Qed.

Lemma spec_run_params l l' m os : same_params l l' -> spec_run l' m os = spec_run l m os.
Proof.
  intros H. revert m. induction os as [|o os IH]; intros m; simpl; [done|].
  rewrite (spec_step_params l l') by done. destruct (spec_step l m o). by rewrite IH.
Qed.

Lemma run_sim l m t os :
  params_ok l -> entries_ok t l -> sim l t m -> ops_from t os -> run l os = spec_run l m os.
Proof.
  revert l m t. induction os as [|o os IH]; intros l m t Hp He Hs Ho; simpl; [done|].
  destruct Ho as [Ho Hos]. destruct (sim_step l m t o Hp He Hs Ho) as (H1 & H2 & H3 & H4).
  destruct (op_step l o) as [b l'], (spec_step l m o) as [b' m']. simpl in *. subst b'. f_equal.
  rewrite <- (spec_run_params l l') by done. eapply IH; try done. by eapply params_ok_same.
Qed.

(** C35. The occasional sweep that bounds the map is unobservable: for any
    sequence of operations on any keys with a clock that does not go back,
    every answer of [Allow] is the one a limiter that never forgets an entry
    gives. *)
Theorem sweep_unobservable maxF w lo t os :
  0 <= w -> 0 <= lo -> w + lo * 32 < max_int64 -> ops_from t os ->
  run (NewLimiter maxF w lo) os = spec_run (NewLimiter maxF w lo) ∅ os.
Proof.
  intros Hw Hl Hb Ho. eapply run_sim; [done| | |done].
  - intros k s. simpl. by rewrite lookup_empty.
  - intros k. by left.
Qed.

Lemma sweep_unobservable_witness :
  let l := NewLimiter 2 60 10 in
  let r t := MkReadings t (fun _ => t) t in
  let os := [OFail "a" 1; OFail "a" 2; OAllow "a" (r 3); OAllow "b" (r 4); OAllow "a" (r 12)] in
  run l os = spec_run l ∅ os /\
  run l os = [None; None; Some false; Some true; Some true].
Proof.
  intros l r os. split; [|vm_compute; reflexivity].
  apply (sweep_unobservable 2 60 10 0 os); [done|done|reflexivity|].
  simpl. unfold readings_from. simpl. repeat split; lia.
Defined.

(** ** The lockout schedule *)

(** The entry a failure at [now] continues, if its window is still open. *)
Definition live (l : Limiter) (now : Z) (found : option attemptState) : option attemptState :=
  match found with
  | Some s => if now - windowStart s >? window l then None else Some s
  | None => None
  end.

Definition fresh (now : Z) : attemptState := MkAttempt 0 now 0 0.

(** [fail_entry] without wrap-around: the durations and counts of a limiter
    with sane parameters never overflow. *)
Lemma fail_entry_eq l now found :
  params_ok l -> 1 <= maxFailures l ->
  (forall s, found = Some s -> 0 <= failures s < max_int64) ->
  let b := default (fresh now) (live l now found) in
  let n := failures b + 1 in
  fail_entry l now found =
    MkAttempt n (windowStart b)
      (if n <? maxFailures l then lockedUntil b
       else now + lockout l * Z.min 32 (n - maxFailures l + 1)) now.
Proof.
  intros Hp HF Hf b n.
  assert (0 <= failures b < max_int64) as Hb.
  { unfold b, live. destruct found as [s|]; [|done]. case_match; [done|]. by apply Hf. }
  assert (wrap64 (failures b + 1) = n) as Hw
    by (apply wrap64_id; unfold in_int64, min_int64, max_int64 in *; lia).
  assert (match found with
          | Some s => if Sub now (windowStart s) >? window l then fresh now else s
          | None => fresh now end = b) as E.
  { unfold b, live. destruct found as [s|]; [|done].
    rewrite Sub_window by (unfold params_ok in Hp; lia). by case_match. }
  unfold fail_entry. fold (fresh now). rewrite E. cbn [failures windowStart lockedUntil].
  rewrite Hw, Z.geb_leb, Z.leb_antisym.
  destruct (n <? maxFailures l) eqn:En; simpl; [done|]. bool_to_prop. f_equal.
  assert (n = failures b + 1) as Hn by done. clearbody n b.
  rewrite (wrap64_id (n - maxFailures l + 1))
    by (unfold in_int64, min_int64, max_int64 in *; lia).
  rewrite Z.gtb_ltb. unfold params_ok, max_int64 in Hp.
  replace (if 32 <? n - maxFailures l + 1 then 32 else n - maxFailures l + 1)
    with (Z.min 32 (n - maxFailures l + 1))
    by (destruct (32 <? n - maxFailures l + 1) eqn:?; bool_to_prop; lia).
  rewrite wrap64_id; [done|]. unfold in_int64, min_int64, max_int64. nia.
Qed.

(** The effect of a recorded failure on the key's lock, branch by branch:
    a key whose window has expired starts afresh; below the threshold the
    failure leaves the lock as it was; from the threshold on the key refuses
    attempts for [lockout] times the number of failures past the threshold,
    at most 32 times, and admits them again afterwards.  Other keys are
    untouched. *)
Theorem RecordFailure_lockout l key now :
  params_ok l -> 1 <= maxFailures l -> 0 < now ->
  (forall s, state l !! key = Some s -> 0 <= failures s < max_int64) ->
  let b := default (fresh now) (live l now (state l !! key)) in
  let n := failures b + 1 in
  exists s', state (RecordFailure l now key) !! key = Some s' /\
    failures s' = n /\ windowStart s' = windowStart b /\ lastActivity s' = now /\
    (n < maxFailures l -> lockedUntil s' = lockedUntil b) /\
    (maxFailures l <= n -> forall t, now <= t ->
       locked s' t = (t <? now + lockout l * Z.min 32 (n - maxFailures l + 1))) /\
    (forall key', key' <> key -> state (RecordFailure l now key) !! key' = state l !! key').
Proof.
  intros Hp HF Hnow Hf b n. eexists. unfold RecordFailure. simpl.
  rewrite lookup_insert_eq. split; [done|].
  rewrite fail_entry_eq by done. fold b. fold n. simpl. split_and!; try done.
  - by intros ->%Z.ltb_lt.
  - intros Hle t Ht. rewrite (proj2 (Z.ltb_ge _ _) Hle). unfold locked, IsZero. simpl.
    set (d := lockout l * _). set (u := now + d).
    assert (0 <= d) by (apply Z.mul_nonneg_nonneg; unfold params_ok in Hp; lia).
    by replace (u =? 0) with false by (symmetry; apply Z.eqb_neq; lia).
  - intros key' Hne. by rewrite lookup_insert_ne.
Qed.

Lemma RecordFailure_lockout_witness :
  let l := MkLimiter {["k" := MkAttempt 4 100 0 105]} 5 60 10 0 in
  params_ok l /\
  exists s', state (RecordFailure l 110 "k") !! "k" = Some s' /\ failures s' = 5 /\
    locked s' 119 = true /\ locked s' 120 = false.
Proof.
  intros l. assert (params_ok l) as Hp by (vm_compute; split_and!; congruence).
  split; [done|].
  destruct (RecordFailure_lockout l "k" 110 Hp) as (s' & H1 & H2 & _ & _ & _ & H3 & _).
  - vm_compute; congruence.
  - lia.
  - intros s Hs. assert (s = MkAttempt 4 100 0 105) as -> by (vm_compute in Hs; congruence).
    vm_compute. split; congruence.
  - exists s'. split_and!; [exact H1|exact H2| |].
    + rewrite H3; vm_compute; congruence.
    + rewrite H3; vm_compute; congruence.
Defined.
