(* ===== verification/Auth.v ===== *)
(** * Authentication ([internal/auth])

    [Store] is the read-only map of configured users; [Authenticate] checks a
    password with bcrypt under two limiters, one keyed by client address and
    one by user name.  bcrypt is third-party code: [CompareHashAndPassword]
    and the precomputed [dummyHash] are parameters. *)
From S2P Require Import Prelude GoStrings Errors Limiter.
Open Scope string_scope.
Open Scope list_scope.
Open Scope Z_scope.

Record UserRecord := MkUserRecord { Username : string; PasswordHash : string }.

Record Store := MkStore { users : gmap string UserRecord }.

(** Later records win over earlier ones with the same name. *)
Definition NewStore (records : list UserRecord) : Store :=
  MkStore (foldl (fun m r => <[Username r := r]> m) ∅ records).

Definition Lookup (s : Store) (username : string) : option UserRecord := users s !! username.

Definition ErrInvalidCredentials : error :=
  New KindAuthentication "auth.Authenticate" "credenciales inválidas".
Definition ErrRateLimited : error :=
  New KindRateLimited "auth.Authenticate" "demasiados intentos fallidos, intente más tarde".

Record Authenticator := MkAuthenticator { store : Store; byIP : Limiter; byUser : Limiter }.

Definition NewAuthenticator (s : Store) (byIP byUser : Limiter) : Authenticator :=
  MkAuthenticator s byIP byUser.

(** The clock readings of one [Authenticate], in program order. *)
Record AuthReadings := MkAuthReadings {
  ask_ip : Readings; ask_user : Readings; fail_ip : Z; fail_user : Z;
}.

(** The dummy hash is computed once, when the package is initialised; an
    error there is a panic. *)
Definition mustHash (GenerateFromPassword : string -> res string) (s : string) : res string :=
  match GenerateFromPassword s with
  | Err err => Err (EWrap ("auth: failed to precompute dummy hash: " +:+ Error err) err)
  | Ok h => Ok h
  end.
Definition init_dummyHash (GenerateFromPassword : string -> res string) : res string :=
  mustHash GenerateFromPassword "ftp2sftp-dummy-comparison-only".

Section authenticate.
(** [bcrypt.CompareHashAndPassword(hash, password)]: nil or an error. *)
Context (CompareHashAndPassword : string -> string -> option error).
Context (dummyHash : string).

Definition Authenticate (a : Authenticator) (r : AuthReadings)
  (clientIP username password : string) : option error * Authenticator :=
  let '(ok, ip) := Allow (byIP a) (ask_ip r) clientIP in
  let a := MkAuthenticator (store a) ip (byUser a) in
  if negb ok then (Some ErrRateLimited, a)
  else
    let '(ok, us) := Allow (byUser a) (ask_user r) username in
    let a := MkAuthenticator (store a) (byIP a) us in
    if negb ok then (Some ErrRateLimited, a)
    else
      let found := Lookup (store a) username in
      let hash := match found with Some rec => PasswordHash rec | None => dummyHash end in
      let err := CompareHashAndPassword hash password in
      if negb (bool_decide (is_Some found)) || bool_decide (is_Some err) then
        (Some ErrInvalidCredentials,
         MkAuthenticator (store a) (RecordFailure (byIP a) (fail_ip r) clientIP)
           (RecordFailure (byUser a) (fail_user r) username))
      else
        (None, MkAuthenticator (store a) (RecordSuccess (byIP a) clientIP)
           (RecordSuccess (byUser a) username)).

(** The password check itself, without limits. *)
Definition password_ok (s : Store) (username password : string) : bool :=
  match Lookup s username with
  | Some rec => bool_decide (CompareHashAndPassword (PasswordHash rec) password = None)
  | None => false
  end.

(** Both limiters admit an attempt. *)
Definition permitted (a : Authenticator) (r : AuthReadings) (clientIP username : string) : bool :=
  (Allow (byIP a) (ask_ip r) clientIP).1 && (Allow (byUser a) (ask_user r) username).1.

(** [Authenticate] in one equation: its three outcomes, with the limiters
    each leaves behind. *)
Lemma Authenticate_eq a r ip u pw :
  Authenticate a r ip u pw =
  let l1 := (Allow (byIP a) (ask_ip r) ip).2 in
  let l2 := if (Allow (byIP a) (ask_ip r) ip).1
            then (Allow (byUser a) (ask_user r) u).2 else byUser a in
  if permitted a r ip u then
    if password_ok (store a) u pw then
      (None, MkAuthenticator (store a) (RecordSuccess l1 ip) (RecordSuccess l2 u))
    else
      (Some ErrInvalidCredentials,
       MkAuthenticator (store a) (RecordFailure l1 (fail_ip r) ip)
         (RecordFailure l2 (fail_user r) u))
  else (Some ErrRateLimited, MkAuthenticator (store a) l1 l2).
Proof.
  unfold Authenticate, permitted, password_ok.
  destruct (Allow (byIP a) (ask_ip r) ip) as [[] l1]; simpl; [|done].
  destruct (Allow (byUser a) (ask_user r) u) as [[] l2]; simpl; [|done].
  destruct (Lookup (store a) u) as [rec|]; simpl; [|done].
  by destruct (CompareHashAndPassword (PasswordHash rec) pw).
Qed.

(** C3. Authentication is sound and complete, and counts what it refuses:
    [nil] is returned exactly when neither limiter refuses the attempt, the
    user is configured and bcrypt accepts the password, and then the failures
    of the address and of the name are forgotten; every refusal by a limiter
    is [ErrRateLimited] and records nothing, in the second limiter not even
    its occasional sweep if the first refused; every other failure is
    [ErrInvalidCredentials], recorded once against the address and once
    against the name.  No other key changes but by the sweep. *)
Theorem Authenticate_exact a r ip u pw :
  let ip1 := sweepOccasionally (byIP a) (ask_ip r) in
  let us1 := sweepOccasionally (byUser a) (ask_user r) in
  let '(err, a') := Authenticate a r ip u pw in
  (err = None <-> permitted a r ip u = true /\ exists rec, Lookup (store a) u = Some rec /\
                  CompareHashAndPassword (PasswordHash rec) pw = None) /\
  (err = Some ErrRateLimited <-> permitted a r ip u = false) /\
  (err = None \/ err = Some ErrRateLimited \/ err = Some ErrInvalidCredentials) /\
  (err = None -> state (byIP a') = delete ip (state ip1) /\
                 state (byUser a') = delete u (state us1)) /\
  (err = Some ErrInvalidCredentials ->
     state (byIP a') = <[ip := fail_entry ip1 (fail_ip r) (state ip1 !! ip)]> (state ip1) /\
     state (byUser a') = <[u := fail_entry us1 (fail_user r) (state us1 !! u)]> (state us1)) /\
  (err = Some ErrRateLimited ->
     byIP a' = ip1 /\
     byUser a' = if (Allow (byIP a) (ask_ip r) ip).1 then us1 else byUser a) /\
  store a' = store a.
Proof.
  intros ip1 us1. rewrite Authenticate_eq, !Allow_limiter. fold ip1 us1. unfold password_ok.
  destruct (permitted a r ip u) eqn:Hp; [|naive_solver].
  apply andb_prop in Hp as [Hip _]. rewrite Hip.
  destruct (Lookup (store a) u) as [rec|]; simpl; [|naive_solver].
  case_bool_decide; simpl; naive_solver.
Qed.

(** What a limiter is told of an attempt, from its result. *)
Inductive verdict : Set := Welcome | Wrong | Refused.

Definition verdict_of (err : option error) : verdict :=
  match err with
  | None => Welcome
  | Some e => if Is e KindRateLimited then Refused else Wrong
  end.

Definition settle (l : Limiter) (key : string) (now : Z) (v : verdict) : Limiter :=
  match v with
  | Welcome => RecordSuccess l key
  | Wrong => RecordFailure l now key
  | Refused => l
  end.

(** Each limiter sees an attempt as a question and, unless one of the two
    refused, its verdict. *)
Lemma Authenticate_settles a r ip u pw :
  let '(err, a') := Authenticate a r ip u pw in
  byIP a' = settle (sweepOccasionally (byIP a) (ask_ip r)) ip (fail_ip r) (verdict_of err) /\
  byUser a' = (if (Allow (byIP a) (ask_ip r) ip).1
               then settle (sweepOccasionally (byUser a) (ask_user r)) u (fail_user r) (verdict_of err)
               else byUser a) /\
  (verdict_of err <> Refused ->
     (Allow (byIP a) (ask_ip r) ip).1 = true /\ (Allow (byUser a) (ask_user r) u).1 = true) /\
  ((Allow (byIP a) (ask_ip r) ip).1 = false -> verdict_of err = Refused).
Proof.
  rewrite Authenticate_eq, !Allow_limiter. unfold permitted.
  destruct (Allow (byIP a) (ask_ip r) ip).1, (Allow (byUser a) (ask_user r) u).1; simpl;
    try destruct (password_ok (store a) u pw); simpl; split_and!; done.
Qed.

(** C34. No user enumeration: an attempt against an unknown user name and
    an attempt with a wrong password against a configured one give the same
    error and leave the same limiter states behind. *)
Theorem no_user_enumeration s1 s2 ip1 us1 r ip u pw :
  Lookup s1 u = None -> is_Some (Lookup s2 u) -> password_ok s2 u pw = false ->
  let '(e1, a1) := Authenticate (MkAuthenticator s1 ip1 us1) r ip u pw in
  let '(e2, a2) := Authenticate (MkAuthenticator s2 ip1 us1) r ip u pw in
  e1 = e2 /\ byIP a1 = byIP a2 /\ byUser a1 = byUser a2.
Proof.
  intros H1 H2 Hpw. rewrite !Authenticate_eq. simpl. rewrite Hpw.
  assert (password_ok s1 u pw = false) as -> by (unfold password_ok; by rewrite H1).
  change (permitted (MkAuthenticator s2 ip1 us1) r ip u)
    with (permitted (MkAuthenticator s1 ip1 us1) r ip u).
  by destruct (permitted _ r ip u).
Qed.
End authenticate.

(** A toy password scheme for the witnesses: the hash is the password. *)
Definition plain_compare (hash password : string) : option error :=
  if (hash =? password)%string then None else Some (EOther "mismatch").
Definition readings_at (t : Z) : AuthReadings :=
  let r := MkReadings t (fun _ => t) t in MkAuthReadings r r t t.

Lemma no_user_enumeration_witness :
  let l := NewLimiter 5 60 10 in
  let s2 := NewStore [MkUserRecord "ax" "pw"] in
  let '(e1, a1) := Authenticate plain_compare "dummy"
                     (MkAuthenticator (NewStore []) l l) (readings_at 9) "ip" "ax" "no" in
  let '(e2, a2) := Authenticate plain_compare "dummy"
                     (MkAuthenticator s2 l l) (readings_at 9) "ip" "ax" "no" in
  e1 = e2 /\ byIP a1 = byIP a2 /\ byUser a1 = byUser a2.
Proof.
  intros l s2.
  apply (no_user_enumeration plain_compare "dummy" (NewStore []) s2 l l (readings_at 9)
           "ip" "ax" "no"); [reflexivity|by eexists|reflexivity].
Defined.

(** ** What a success forgives

    A successful login clears the failures of its address, whoever they were
    against. *)

(** The errors of attempts made one after the other at one instant. *)
Fixpoint attempts_at (t : Z) (a : Authenticator) (ip : string) (us : list (string * string))
  : list (option error) :=
  match us with
  | [] => []
  | (u, pw) :: us =>
      let '(err, a) := Authenticate plain_compare "dummy" a (readings_at t) ip u pw in
      err :: attempts_at t a ip us
  end.

(** One valid account lifts the limit of its address: four wrong guesses at
    other users, a login of one's own, and again.  None of the 24 guesses of
    one instant is refused for its rate, though five in a row would lock the
    address for 10 seconds. *)
Example login_forgives_address :
  let guesses (n : string) := map (fun u => (u +:+ n, "guess")) ["a"; "b"; "c"; "d"] in
  let round n := guesses n ++ [("eve", "pw")] in
  let l := NewLimiter 5 60000000000 10000000000 in
  let a := MkAuthenticator (NewStore [MkUserRecord "eve" "pw"]) l l in
  attempts_at 9 a "10.0.0.9" (concat (map round ["1"; "2"; "3"; "4"; "5"; "6"]))
    = concat (repeat (repeat (Some ErrInvalidCredentials) 4 ++ [None]) 6) /\
  attempts_at 9 a "10.0.0.9" (guesses "1" ++ guesses "2")
    = repeat (Some ErrInvalidCredentials) 5 ++ repeat (Some ErrRateLimited) 3.
Proof. vm_compute. done. Qed.

(** ** The store *)

Lemma NewStore_snoc rs r : users (NewStore (rs ++ [r])) = <[Username r := r]> (users (NewStore rs)).
Proof. unfold NewStore. simpl. by rewrite foldl_app. Qed.

Lemma Lookup_NewStore_Some rs u rec :
  Lookup (NewStore rs) u = Some rec -> rec ∈ rs /\ Username rec = u.
Proof.
  unfold Lookup. induction rs as [|r rs IH] using rev_ind; [done|].
  rewrite NewStore_snoc, lookup_insert. case_decide as E.
  - intros [= ->]. split; [set_solver|done].
  - intros [? ?]%IH. set_solver.
Qed.

Lemma Lookup_NewStore rs rec :
  NoDup (Username <$> rs) -> rec ∈ rs -> Lookup (NewStore rs) (Username rec) = Some rec.
Proof.
  unfold Lookup. induction rs as [|r rs IH] using rev_ind; [by intros _ ?%not_elem_of_nil|].
  rewrite fmap_app, NoDup_app. intros (Hnd & Hnot & _) Hin.
  rewrite NewStore_snoc, lookup_insert. case_decide as E.
  - apply elem_of_app in Hin as [Hin|Hin]; [|set_solver].
    exfalso. apply (Hnot (Username rec)); [|set_solver]. apply list_elem_of_fmap. eauto.
  - apply elem_of_app in Hin as [Hin|Hin]; [by apply IH|set_solver].
Qed.
