(* ===== verification/BruteForce.v ===== *)
(** * How many guesses the limiters admit

    The gateway's thresholds ([internal/ftpserver/gateway.go]) and the bound
    they give for attempts made one after the other: one client address, or
    one user name, gets at most 8 wrong passwords compared per started minute,
    plus 8 for each login that succeeds and makes the limiter forget.  The
    lock is a brake: 10 s, 20 s, 30 s and 40 s after the fifth to eighth
    failure, so the ninth of a window would come after it.  [Attempts] has
    the bound for attempts made at once. *)
From S2P Require Import Prelude GoStrings Errors Limiter Auth.
Open Scope string_scope.
Open Scope list_scope.
Open Scope Z_scope.

Definition second : Z := 1000000000.
Definition authMaxFailures : Z := 5.
Definition authWindow : Z := 60 * second.
Definition authLockout : Z := 10 * second.

Definition auth_limiter (l : Limiter) : Prop :=
  maxFailures l = authMaxFailures /\ window l = authWindow /\ lockout l = authLockout.

(** ** Runs of [Authenticate] *)

Record attempt := MkTry { a_readings : AuthReadings; a_ip : string; a_user : string; a_pw : string }.

(** The clock does not go back: between attempts, nor within one. *)
Fixpoint attempts_from (t : Z) (ats : list attempt) : Prop :=
  match ats with
  | [] => True
  | x :: ats =>
      let r := a_readings x in
      readings_from t (ask_ip r) /\ readings_from (now_test (ask_ip r)) (ask_user r) /\
      now_test (ask_user r) <= fail_ip r /\ fail_ip r <= fail_user r /\
      attempts_from (fail_user r) ats
  end.

Fixpoint last_attempt (t : Z) (ats : list attempt) : Z :=
  match ats with [] => t | x :: ats => last_attempt (fail_user (a_readings x)) ats end.

Section attempts.
Context (CompareHashAndPassword : string -> string -> option error) (dummyHash : string).

Fixpoint verdicts (a : Authenticator) (ats : list attempt) : list (attempt * verdict) :=
  match ats with
  | [] => []
  | x :: ats =>
      let '(err, a) := Authenticate CompareHashAndPassword dummyHash a
                         (a_readings x) (a_ip x) (a_user x) (a_pw x) in
      (x, verdict_of err) :: verdicts a ats
  end.
End attempts.

#[export] Instance verdict_eq_dec : EqDecision verdict.
Proof. solve_decision. Defined.

(** How many attempts of a run had a verdict, of those keyed [k]. *)
Definition got (v : verdict) (key : attempt -> string) (k : string) (xs : list (attempt * verdict)) : Z :=
  Z.of_nat (length (filter (fun x => key x.1 = k /\ x.2 = v) xs)).

Lemma got_cons v key k x xs :
  got v key k (x :: xs) = bit (bool_decide (x.2 = v) && (key x.1 =? k)%string) + got v key k xs.
Proof.
  unfold got. rewrite filter_cons. case_decide as E.
  - destruct E as [E1 E2]. rewrite bool_decide_true by done. apply String.eqb_eq in E1. rewrite E1.
    simpl. lia.
  - case_bool_decide as E2; [|done]. destruct (key x.1 =? k)%string eqn:E1; [|done].
    apply String.eqb_eq in E1. tauto.
Qed.

(** ** The invariant of a key

    Since [t0] the key had [N] wrong passwords compared and [S] logins
    admitted.  [f] failures of an open window lock it until at least
    [1 + 2 + ... + (f - 4)] lockouts after the window's start. *)
Definition budget (t0 T N S : Z) (found : option attemptState) : Prop :=
  t0 <= T /\
  match found with
  | None => N <= 8 * ((T - t0) / authWindow + S)
  | Some s =>
      1 <= failures s <= 8 /\ t0 <= windowStart s <= lastActivity s /\ lastActivity s <= T /\
      N <= 8 * ((windowStart s - t0) / authWindow + S) + failures s /\
      (failures s < authMaxFailures -> lockedUntil s = 0) /\
      (authMaxFailures <= failures s ->
         2 * (lockedUntil s - windowStart s) >=
         authLockout * ((failures s - 4) * (failures s - 3)))
  end.

Lemma window_pos : 0 < authWindow.
Proof. done. Qed.

Lemma periods_mono a b : a <= b -> a / authWindow <= b / authWindow.
Proof. intros. by apply Z.div_le_mono. Qed.

Lemma periods_next a b : a + authWindow <= b -> a / authWindow + 1 <= b / authWindow.
Proof.
  intros H. rewrite <- (Z.div_add a 1 authWindow) by done. apply periods_mono. lia.
Qed.

Lemma auth_params_ok l : auth_limiter l -> params_ok l.
Proof. intros (_ & Hw & Hl). unfold params_ok. rewrite Hw, Hl. done. Qed.

(** Time passing and sweeping keep the budget. *)
Lemma budget_later t0 T T' N S o : T <= T' -> budget t0 T N S o -> budget t0 T' N S o.
Proof.
  intros HT [H0 H]. split; [lia|]. destruct o as [s|].
  { destruct H as (? & ? & ? & ? & ? & ?). split_and!; done || lia. }
  pose proof (periods_mono (T - t0) (T' - t0)). lia.
Qed.

Lemma budget_sweep t0 T N S l r k :
  auth_limiter l -> readings_from T r -> budget t0 T N S (state l !! k) ->
  budget t0 (now_test r) N S (state (sweepOccasionally l r) !! k).
Proof.
  intros Hl Hr Hb. pose proof (readings_test _ _ Hr).
  destruct (sweep_lookup l r k) as [->|(s & Hk & Hsw & ->)]; [by eapply budget_later|].
  rewrite Hk in Hb. destruct Hb as [H0 (Hf & Hws & _ & HN & _)]. split; [lia|].
  eapply swept_stale in Hsw; [|by apply auth_params_ok|done|lia].
  destruct Hsw as [Hst _]. destruct Hl as (_ & Hw & _). rewrite Hw in Hst.
  pose proof (periods_next (windowStart s - t0) (now_test r - t0)). lia.
Qed.

(** A login makes the limiter forget the key. *)
Lemma budget_forget t0 T N S o : 0 <= t0 -> budget t0 T N S o -> budget t0 T N (S + 1) None.
Proof.
  intros H0 [Ht Hb]. split; [done|]. destruct o as [s|]; [|lia].
  destruct Hb as (Hf & Hws & HT & HN & _).
  pose proof (periods_mono (windowStart s - t0) (T - t0)). lia.
Qed.

(** A failure admitted at [now] is within budget. *)
Lemma budget_fail t0 T N S l now o :
  auth_limiter l -> 0 <= t0 -> T <= now -> budget t0 T N S o ->
  (forall s, o = Some s -> locked s T = false) ->
  budget t0 now (N + 1) S (Some (fail_entry l now o)).
Proof.
  intros Hl H0 HT [Ht0 Hb] Hlk. split; [lia|].
  rewrite fail_entry_eq;
    [|by apply auth_params_ok|by destruct Hl as (-> & _)|].
  2:{ intros s ->. destruct Hb as (Hf & _). unfold max_int64. lia. }
  assert (0 <= (now - t0) / authWindow) as Hpos by (apply Z.div_pos; [lia|done]).
  destruct Hl as (HF & HW & HL). unfold live. rewrite HF, HL, HW.
  destruct o as [s|]; [destruct (now - windowStart s >? authWindow) eqn:E|];
    bool_to_prop; simpl.
  - destruct Hb as (Hf & Hws & _ & HN & _).
    pose proof (periods_next (windowStart s - t0) (now - t0)).
    unfold authMaxFailures, authLockout in *. split_and!; lia.
  - destruct Hb as (Hf & Hws & HT' & HN & Hlow & Hhigh). specialize (Hlk s eq_refl).
    unfold locked, IsZero in Hlk. rewrite andb_false_iff in Hlk.
    assert (authMaxFailures <= failures s -> windowStart s + 0 < lockedUntil s) as Hlu.
    { intros H. specialize (Hhigh H). unfold authMaxFailures, authLockout, second in *. nia. }
    assert (authMaxFailures <= failures s -> lockedUntil s <= now) as Hopen.
    { intros H. specialize (Hlu H). destruct Hlk as [Hlk|Hlk]; bool_to_prop; lia. }
    clear Hlk. unfold authMaxFailures, authLockout, authWindow, second in *.
    assert (failures s = 1 \/ failures s = 2 \/ failures s = 3 \/ failures s = 4 \/
            failures s = 5 \/ failures s = 6 \/ failures s = 7 \/ failures s = 8) as Hc by lia.
    repeat destruct Hc as [Hc|Hc]; rewrite Hc in *; simpl in *; split_and!; lia.
  - unfold authMaxFailures, authLockout in *. pose proof (periods_mono (T - t0) (now - t0)).
    split_and!; lia.
Qed.

Lemma auth_sweep l r : auth_limiter l -> auth_limiter (sweepOccasionally l r).
Proof. intros Hl. unfold auth_limiter. by destruct (sweep_params l r) as (-> & -> & ->). Qed.

Lemma auth_settle l key now v : auth_limiter l -> auth_limiter (settle l key now v).
Proof. by destruct v. Qed.

(** What one attempt does to the budget of a key of one limiter. *)
Lemma budget_settle t0 T N S l r key now v k :
  auth_limiter l -> 0 <= t0 -> readings_from T r -> now_test r <= now ->
  (v <> Refused -> (Allow l r key).1 = true) ->
  budget t0 T N S (state l !! k) ->
  budget t0 now (N + bit (bool_decide (v = Wrong) && (key =? k)%string))
    (S + bit (bool_decide (v = Welcome) && (key =? k)%string))
    (state (settle (sweepOccasionally l r) key now v) !! k).
Proof.
  intros Hl H0 Hr Hnow Hok Hb. pose proof (budget_sweep _ _ _ _ _ _ _ Hl Hr Hb) as Hb'.
  pose proof (auth_sweep l r Hl) as Hl'. rewrite Allow_result in Hok.
  destruct v; simpl; rewrite ?Z.add_0_r; [| |by eapply budget_later];
    (destruct (key =? k)%string eqn:E; bool_to_prop; simpl; rewrite ?Z.add_0_r;
     [subst|by rewrite ?lookup_delete_ne, ?lookup_insert_ne by done; eapply budget_later]).
  - rewrite lookup_delete_eq. eapply budget_forget; [done|]. by eapply budget_later.
  - rewrite lookup_insert_eq. eapply budget_fail; [done..|].
    intros s Hs. specialize (Hok ltac:(done)). rewrite Hs in Hok.
    by destruct (locked s (now_test r)).
Qed.

Lemma budget_end t0 T N S o : budget t0 T N S o -> N <= 8 * ((T - t0) / authWindow + 1 + S).
Proof.
  intros [Ht Hb]. destruct o as [s|]; [|lia]. destruct Hb as (Hf & Hws & HT & HN & _).
  pose proof (periods_mono (windowStart s - t0) (T - t0)). lia.
Qed.

Section runs.
Context (CompareHashAndPassword : string -> string -> option error) (dummyHash : string).
Context (t0 : Z) (Ht0 : 0 <= t0).
Abbreviation run := (verdicts CompareHashAndPassword dummyHash).

Lemma address_bound T N S a ats k :
  auth_limiter (byIP a) -> attempts_from T ats -> budget t0 T N S (state (byIP a) !! k) ->
  N + got Wrong a_ip k (run a ats)
    <= 8 * ((last_attempt T ats - t0) / authWindow + 1 + (S + got Welcome a_ip k (run a ats))).
Proof.
  revert T N S a. induction ats as [|x ats IH]; intros T N S a Hl Hats Hb; simpl.
  { rewrite !Z.add_0_r. by eapply budget_end. }
  destruct Hats as (Hr & Hr2 & Hf1 & Hf2 & Hats). pose proof (readings_test _ _ Hr2).
  pose proof (Authenticate_settles CompareHashAndPassword dummyHash a (a_readings x) (a_ip x)
                (a_user x) (a_pw x)) as Hs.
  destruct (Authenticate _ _ _ _ _ _ _) as [err a']. destruct Hs as (Hip & _ & Hv & _).
  rewrite !got_cons. simpl.
  assert (auth_limiter (byIP a')) as Hl' by (rewrite Hip; by apply auth_settle, auth_sweep).
  enough (budget t0 (fail_user (a_readings x)) (N + bit (bool_decide (verdict_of err = Wrong) && (a_ip x =? k)%string))
            (S + bit (bool_decide (verdict_of err = Welcome) && (a_ip x =? k)%string)) (state (byIP a') !! k)) as Hb'
    by (specialize (IH _ _ _ _ Hl' Hats Hb'); lia).
  rewrite Hip. eapply budget_later; [exact Hf2|].
  eapply (budget_settle t0 T); [done..|lia| |done]. intros Hne. by apply Hv.
Qed.

Lemma name_bound T N S a ats k :
  auth_limiter (byUser a) -> attempts_from T ats -> budget t0 T N S (state (byUser a) !! k) ->
  N + got Wrong a_user k (run a ats)
    <= 8 * ((last_attempt T ats - t0) / authWindow + 1 + (S + got Welcome a_user k (run a ats))).
Proof.
  revert T N S a. induction ats as [|x ats IH]; intros T N S a Hl Hats Hb; simpl.
  { rewrite !Z.add_0_r. by eapply budget_end. }
  destruct Hats as (Hr & Hr2 & Hf1 & Hf2 & Hats).
  pose proof (readings_test _ _ Hr). pose proof (readings_test _ _ Hr2).
  pose proof (Authenticate_settles CompareHashAndPassword dummyHash a (a_readings x) (a_ip x)
                (a_user x) (a_pw x)) as Hs.
  destruct (Authenticate _ _ _ _ _ _ _) as [err a']. destruct Hs as (_ & Hus & Hv & Href).
  rewrite !got_cons. simpl.
  assert (auth_limiter (byUser a')) as Hl'
    by (rewrite Hus; destruct (Allow _ _ _).1; [by apply auth_settle, auth_sweep|done]).
  enough (budget t0 (fail_user (a_readings x)) (N + bit (bool_decide (verdict_of err = Wrong) && (a_user x =? k)%string))
            (S + bit (bool_decide (verdict_of err = Welcome) && (a_user x =? k)%string)) (state (byUser a') !! k)) as Hb'
    by (specialize (IH _ _ _ _ Hl' Hats Hb'); lia).
  rewrite Hus. destruct (Allow (byIP a) _ _).1 eqn:Ha.
  - apply (budget_settle t0 (now_test (ask_ip (a_readings x)))); [done..|lia| |].
    + intros Hne. by apply Hv.
    + eapply budget_later; [|done]. lia.
  - rewrite Href by done. simpl. rewrite !Z.add_0_r. eapply budget_later; [|done]. lia.
Qed.

Lemma budget_start : budget t0 t0 0 0 None.
Proof. split; [lia|]. by rewrite Z.sub_diag. Qed.
End runs.

(** C4. Brute force is bounded.  Against fresh limiters with the gateway's
    thresholds, in any sequence of attempts made one after the other (right
    or wrong, from any addresses, for any names, over a clock that does not
    go back), each single address and each single name has at most 8 wrong
    passwords compared per started minute, and at most 8 more per login that
    succeeded from that address, or as that name. *)
Theorem brute_force_bound CompareHashAndPassword dummyHash s t0 ats k :
  0 <= t0 -> attempts_from t0 ats ->
  let l := NewLimiter authMaxFailures authWindow authLockout in
  let xs := verdicts CompareHashAndPassword dummyHash (NewAuthenticator s l l) ats in
  let minutes := (last_attempt t0 ats - t0) / authWindow + 1 in
  got Wrong a_ip k xs <= 8 * (minutes + got Welcome a_ip k xs) /\
  got Wrong a_user k xs <= 8 * (minutes + got Welcome a_user k xs).
Proof.
  intros H0 Hats l xs minutes. subst l xs minutes.
  pose proof (budget_start t0) as Hb. split.
  - by apply (address_bound CompareHashAndPassword dummyHash t0 H0 t0 0 0).
  - by apply (name_bound CompareHashAndPassword dummyHash t0 H0 t0 0 0).
Qed.

Definition try_at (u pw : string) (t : Z) : attempt :=
  MkTry (readings_at t) "10.0.0.9" u pw.

(** Guesses at one name over a minute, of which the lock lets through 8, and
    one login of one's own in between. *)
Definition demo_tries : list attempt :=
  (try_at "eve" "guess" <$> [1; 2; 3; 4]) ++ [try_at "ax" "pw" 5] ++
  (try_at "eve" "guess" <$> [5; 6; 7; 10 * second + 5; 10 * second + 6; 10 * second + 7; 30 * second + 7; 60 * second]).

Lemma brute_force_bound_witness :
  let l := NewLimiter authMaxFailures authWindow authLockout in
  let xs := verdicts plain_compare "" (NewAuthenticator (NewStore [MkUserRecord "ax" "pw"]) l l) demo_tries in
  got Wrong a_ip "10.0.0.9" xs = 7 /\ got Welcome a_ip "10.0.0.9" xs = 1 /\
  got Wrong a_ip "10.0.0.9" xs <= 8 * ((60 * second - 0) / authWindow + 1 + got Welcome a_ip "10.0.0.9" xs).
Proof.
  intros l xs. split_and!; [vm_compute; reflexivity..|].
  refine (proj1 (brute_force_bound plain_compare "" (NewStore [MkUserRecord "ax" "pw"]) 0 demo_tries "10.0.0.9" _ _)).
  - lia.
  - vm_compute. repeat split; congruence.
Defined.
