(* ===== verification/Attempts.v ===== *)
(** * Attempts made at once ([internal/auth], under concurrency)

    [Authenticate] asks the limiters, compares the password, which takes bcrypt
    a while, and only then records the failure or the success.  Attempts of
    different connections interleave between these steps, so a limiter admits
    attempts it would refuse had it seen the failures of those in flight.
    Here the critical sections of a limiter (sweep, test, record a failure,
    record a success) are separate events, as is an attempt it admitted being
    refused by the other limiter, and any interleaving of them is a run. *)
From S2P Require Import Prelude GoStrings Errors Limiter BruteForce Auth.
Open Scope string_scope.
Open Scope list_scope.
Open Scope Z_scope.

(** The second critical section of [Allow]. *)
Definition test (l : Limiter) (now : Z) (key : string) : bool :=
  match state l !! key with
  | None => true
  | Some s => negb (locked s now)
  end.

Lemma Allow_sections l r key :
  Allow l r key = (test (sweepOccasionally l r) (now_test r) key, sweepOccasionally l r).
Proof. rewrite (surjective_pairing (Allow l r key)), Allow_result, Allow_limiter. done. Qed.

(** The limiter, and the attempts it admitted that have not recorded their
    outcome yet, with their keys. *)
Record Race := MkRace { lim : Limiter; flying : gmap Z string }.

Inductive event :=
  | ESweep (r : Readings)
  | EAsk (a : Z) (key : string) (now : Z)
  | EFail (a : Z) (now : Z)
  | EPass (a : Z)
  | ELeave (a : Z).

Definition land (s : Race) (a : Z) (record : string -> Limiter) : option string * Race :=
  match flying s !! a with
  | Some key => (Some key, MkRace (record key) (delete a (flying s)))
  | None => (None, s)
  end.

(** The key an outcome was recorded for, if any, and the state after. *)
Definition race_step (s : Race) (e : event) : option string * Race :=
  match e with
  | ESweep r => (None, MkRace (sweepOccasionally (lim s) r) (flying s))
  | EAsk a key now =>
      if test (lim s) now key then (None, MkRace (lim s) (<[a := key]> (flying s))) else (None, s)
  | EFail a now => land s a (RecordFailure (lim s) now)
  | EPass a => land s a (RecordSuccess (lim s))
  | ELeave a => land s a (fun _ => lim s)
  end.

(** The time an event is sure to have passed. *)
Definition event_end (t : Z) (e : event) : Z :=
  match e with ESweep r => now_test r | EAsk _ _ now | EFail _ now => now | EPass _ | ELeave _ => t end.

(** The clock does not go back; an attempt in flight is not started again. *)
Definition event_ok (t : Z) (s : Race) (e : event) : Prop :=
  match e with
  | ESweep r => readings_from t r
  | EAsk a _ now => t <= now /\ flying s !! a = None
  | EFail _ now => t <= now
  | EPass _ | ELeave _ => True
  end.

Definition in_flight (k : string) (s : Race) : Z := tally (fun key => (key =? k)%string) (flying s).

(** At no point more than [c] attempts against [k] are in flight. *)
Fixpoint race_ok (c : Z) (k : string) (t : Z) (s : Race) (es : list event) : Prop :=
  match es with
  | [] => True
  | e :: es =>
      event_ok t s e /\ in_flight k (race_step s e).2 <= c /\
      race_ok c k (event_end t e) (race_step s e).2 es
  end.

Definition is_fail (e : event) : bool := match e with EFail _ _ => true | _ => false end.
Definition is_pass (e : event) : bool := match e with EPass _ => true | _ => false end.

(** How many outcomes of a kind a run records for [k]. *)
Fixpoint recorded (kind : event -> bool) (k : string) (s : Race) (es : list event) : Z :=
  match es with
  | [] => 0
  | e :: es =>
      bit (bool_decide ((race_step s e).1 = Some k) && kind e) + recorded kind k (race_step s e).2 es
  end.

Definition race_run (s : Race) (es : list event) : Race :=
  foldl (fun s e => (race_step s e).2) s es.

Fixpoint last_event (t : Z) (es : list event) : Z :=
  match es with [] => t | e :: es => last_event (event_end t e) es end.

(** ** The invariant of a key

    Since [t0] the key had [N] failures and [S] successes recorded, and [i]
    attempts are in flight.  [f] failures of an open window lock the key until
    [f - 4] lockouts after the window's start, so with more than 10 of them
    nothing is admitted before the window is over. *)
Section bound.
Context (c : Z) (Hc : 1 <= c < 1000000000) (t0 : Z) (Ht0 : 0 <= t0).

Definition race_budget (T N S i : Z) (found : option attemptState) : Prop :=
  t0 <= T /\ 0 <= i <= c /\
  match found with
  | None => N <= (10 + c) * ((T - t0) / authWindow + S)
  | Some s =>
      1 <= failures s <= 10 + c /\ t0 <= windowStart s <= lastActivity s /\ lastActivity s <= T /\
      N <= (10 + c) * ((windowStart s - t0) / authWindow + S) + failures s /\
      (T - windowStart s <= authWindow -> failures s + i <= 10 + c) /\
      (authMaxFailures <= failures s ->
         windowStart s + authLockout * Z.min 32 (failures s - 4) <= lockedUntil s)
  end.

Lemma race_later T T' N S i o : T <= T' -> race_budget T N S i o -> race_budget T' N S i o.
Proof.
  intros HT (H0 & Hi & H). split; [lia|]. split; [done|]. destruct o as [s|].
  - destruct H as (? & ? & ? & ? & ? & ?). split_and!; try done; lia.
  - pose proof (periods_mono (T - t0) (T' - t0)). nia.
Qed.

Lemma race_sweep T N S i l r k :
  auth_limiter l -> readings_from T r -> race_budget T N S i (state l !! k) ->
  race_budget (now_test r) N S i (state (sweepOccasionally l r) !! k).
Proof.
  intros Hl Hr Hb. pose proof (readings_test _ _ Hr).
  destruct (sweep_lookup l r k) as [->|(s & Hk & Hsw & ->)]; [by eapply race_later|].
  rewrite Hk in Hb. destruct Hb as (H0 & Hi & Hf & Hws & _ & HN & _).
  split; [lia|]. split; [done|].
  eapply swept_stale in Hsw; [|by apply auth_params_ok|done|lia].
  destruct Hsw as [Hst _]. destruct Hl as (_ & Hw & _). rewrite Hw in Hst.
  pose proof (periods_next (windowStart s - t0) (now_test r - t0)). nia.
Qed.

(** Admitting one more. *)
Lemma race_ask T N S i l now k :
  T <= now -> i + 1 <= c -> test l now k = true ->
  race_budget T N S i (state l !! k) -> race_budget now N S (i + 1) (state l !! k).
Proof.
  intros HT Hi1 Htest Hb. apply (race_later _ now) in Hb as (H0 & Hi & Hb); [|done].
  split; [done|]. split; [lia|]. unfold test in Htest.
  destruct (state l !! k) as [s|]; [|done].
  destruct Hb as (Hf & Hws & HT' & HN & Hopen & Hlock). split_and!; try done; try lia.
  intros Hw. unfold locked, IsZero in Htest. rewrite negb_true_iff, andb_false_iff in Htest.
  unfold authMaxFailures, authLockout, authWindow, second in *.
  destruct (decide (failures s <= 10)) as [|Hgt]; [lia|]. specialize (Hlock ltac:(lia)).
  destruct Htest as [Hz|Hz]; bool_to_prop; lia.
Qed.

(** One in flight lands: refused by the other limiter, right, or wrong. *)
Lemma race_leave T N S i o : 1 <= i -> race_budget T N S i o -> race_budget T N S (i - 1) o.
Proof.
  intros Hi1 (H0 & Hi & Hb). split; [done|]. split; [lia|]. destruct o as [s|]; [|done].
  destruct Hb as (? & ? & ? & ? & Hopen & ?). split_and!; try done; lia.
Qed.

Lemma race_pass T N S i o : 1 <= i -> race_budget T N S i o -> race_budget T N (S + 1) (i - 1) None.
Proof.
  intros Hi1 (H0 & Hi & Hb). split; [done|]. split; [lia|]. destruct o as [s|]; [|nia].
  destruct Hb as (Hf & Hws & HT & HN & _). pose proof (periods_mono (windowStart s - t0) (T - t0)). nia.
Qed.

Lemma race_fail T N S i l now o :
  auth_limiter l -> T <= now -> 1 <= i -> race_budget T N S i o ->
  race_budget now (N + 1) S (i - 1) (Some (fail_entry l now o)).
Proof.
  intros Hl HT Hi1 (Hb0 & Hi & Hb). split; [lia|]. split; [lia|].
  rewrite fail_entry_eq;
    [|by apply auth_params_ok|by destruct Hl as (-> & _)|].
  2:{ intros s ->. destruct Hb as (Hf & _). unfold max_int64. lia. }
  destruct Hl as (HF & HW & HL). unfold live. rewrite HF, HL, HW.
  destruct o as [s|]; [destruct (now - windowStart s >? authWindow) eqn:E|]; bool_to_prop; simpl.
  - destruct Hb as (Hf & Hws & _ & HN & _).
    pose proof (periods_next (windowStart s - t0) (now - t0)).
    unfold authMaxFailures, authLockout in *. split_and!; try lia; nia.
  - destruct Hb as (Hf & Hws & HT' & HN & Hopen & Hlock). specialize (Hopen ltac:(lia)).
    unfold authMaxFailures, authLockout, second in *.
    split_and!; try lia. intros H. destruct (failures s + 1 <? 5) eqn:E5; bool_to_prop; lia.
  - unfold authMaxFailures, authLockout in *. pose proof (periods_mono (T - t0) (now - t0)).
    split_and!; try lia; nia.
Qed.

Lemma race_step_params s e : auth_limiter (lim s) -> auth_limiter (lim (race_step s e).2).
Proof.
  intros Hl. destruct e as [r|a key now|a now|a|a]; simpl; unfold land.
  - by apply auth_sweep.
  - by destruct (test _ _ _).
  - by destruct (flying s !! a).
  - by destruct (flying s !! a).
  - by destruct (flying s !! a).
Qed.

(** An attempt of another key lands and changes nothing for [k]. *)
Lemma in_flight_land s a key k lim' :
  flying s !! a = Some key ->
  in_flight k (MkRace lim' (delete a (flying s))) = in_flight k s - bit (key =? k)%string /\
  ((key =? k)%string = true -> 1 <= in_flight k s).
Proof.
  intros Ha. unfold in_flight. simpl. split; [by rewrite (tally_delete _ a key)|].
  intros E. pose proof (tally_pos (fun key => (key =? k)%string) a key (flying s) Ha E). lia.
Qed.

Lemma race_step_budget T N S s e k :
  auth_limiter (lim s) -> event_ok T s e -> in_flight k (race_step s e).2 <= c ->
  race_budget T N S (in_flight k s) (state (lim s) !! k) ->
  race_budget (event_end T e) (N + bit (bool_decide ((race_step s e).1 = Some k) && is_fail e))
    (S + bit (bool_decide ((race_step s e).1 = Some k) && is_pass e))
    (in_flight k (race_step s e).2) (state (lim (race_step s e).2) !! k).
Proof.
  intros Hl He Hcap Hb. destruct e as [r|a key now|a now|a|a]; simpl in *.
  - rewrite !Z.add_0_r. by eapply race_sweep.
  - destruct He as [HT Ha]. destruct (test (lim s) now key) eqn:Ht; simpl in *; rewrite !Z.add_0_r;
      [|by eapply race_later].
    unfold in_flight in *. simpl in *. rewrite tally_fresh in Hcap |- * by done.
    destruct (key =? k)%string eqn:E; bool_to_prop; simpl in *.
    + subst. by eapply race_ask.
    + rewrite !Z.add_0_r. by eapply race_later.
  - unfold land in *. destruct (flying s !! a) as [key|] eqn:Ha; simpl in *; rewrite ?Z.add_0_r;
      [|by eapply race_later].
    destruct (in_flight_land s a key k (RecordFailure (lim s) now key) Ha) as [-> Hpos].
    destruct (key =? k)%string eqn:E; bool_to_prop; simpl.
    + subst. rewrite bool_decide_true, andb_false_r by done. simpl. rewrite Z.add_0_r, lookup_insert_eq.
      apply (race_fail T); auto.
    + rewrite bool_decide_false by congruence. simpl. rewrite !Z.add_0_r, Z.sub_0_r, lookup_insert_ne by done.
      by eapply race_later.
  - unfold land in *. destruct (flying s !! a) as [key|] eqn:Ha; simpl in *; rewrite ?Z.add_0_r; [|done].
    destruct (in_flight_land s a key k (RecordSuccess (lim s) key) Ha) as [-> Hpos].
    destruct (key =? k)%string eqn:E; bool_to_prop; simpl.
    + subst. rewrite bool_decide_true, andb_false_r by done. simpl. rewrite Z.add_0_r, lookup_delete_eq.
      eapply race_pass; [|done]. auto.
    + rewrite bool_decide_false by congruence. simpl. by rewrite !Z.add_0_r, Z.sub_0_r, lookup_delete_ne by done.
  - unfold land in *. destruct (flying s !! a) as [key|] eqn:Ha; simpl in *; rewrite ?andb_false_r; simpl;
      rewrite ?Z.add_0_r; [|done].
    destruct (in_flight_land s a key k (lim s) Ha) as [-> Hpos].
    destruct (key =? k)%string eqn:E; bool_to_prop; simpl; [by apply race_leave; auto|by rewrite Z.sub_0_r].
Qed.

Lemma recorded_bound T N S s es k :
  auth_limiter (lim s) -> race_ok c k T s es ->
  race_budget T N S (in_flight k s) (state (lim s) !! k) ->
  N + recorded is_fail k s es + in_flight k (race_run s es)
    <= (10 + c) * ((last_event T es - t0) / authWindow + 1 + (S + recorded is_pass k s es)).
Proof.
  revert T N S s. induction es as [|e es IH]; intros T N S s Hl Hok Hb; simpl in *.
  - destruct Hb as (Ht & Hi & Hb). rewrite !Z.add_0_r. destruct (state (lim s) !! k) as [x|]; [|nia].
    destruct Hb as (Hf & Hws & HT & HN & Hopen & _).
    destruct (decide (T - windowStart x <= authWindow)) as [Hw|Hw].
    + specialize (Hopen Hw). pose proof (periods_mono (windowStart x - t0) (T - t0)). nia.
    + pose proof (periods_next (windowStart x - t0) (T - t0)). nia.
  - destruct Hok as (He & Hcap & Hok). pose proof (race_step_budget _ _ _ _ _ _ Hl He Hcap Hb) as Hb'.
    specialize (IH _ _ _ _ (race_step_params s e Hl) Hok Hb'). unfold race_run in *. simpl in *.
    rewrite !Z.add_assoc in *. lia.
Qed.
End bound.

(** ** The attempts are those of [Authenticate] *)

(** One attempt without interruption, by its verdict; the test refuses it, or
    lets it fly and it lands. *)
Definition attempt_events (r : Readings) (key : string) (now : Z) (v : verdict) : list event :=
  [ESweep r; EAsk 0 key (now_test r);
   match v with Welcome => EPass 0 | Wrong => EFail 0 now | Refused => ELeave 0 end].

Lemma attempt_run l r key now v :
  (v <> Refused -> (Allow l r key).1 = true) ->
  race_run (MkRace l ∅) (attempt_events r key now v) = MkRace (settle (sweepOccasionally l r) key now v) ∅.
Proof.
  rewrite Allow_sections. unfold race_run, attempt_events. simpl. intros Hv.
  destruct (test _ _ _); simpl.
  - destruct v; simpl; unfold land; simpl; by rewrite lookup_insert_eq, delete_insert_id.
  - destruct v; simpl; [by specialize (Hv ltac:(done))..|]. unfold land. simpl. by rewrite lookup_empty.
Qed.

Lemma Authenticate_run compare dummy a r ip u pw :
  let '(err, a') := Authenticate compare dummy a r ip u pw in
  race_run (MkRace (byIP a) ∅) (attempt_events (ask_ip r) ip (fail_ip r) (verdict_of err)) = MkRace (byIP a') ∅ /\
  race_run (MkRace (byUser a) ∅)
    (if (Allow (byIP a) (ask_ip r) ip).1
     then attempt_events (ask_user r) u (fail_user r) (verdict_of err) else []) = MkRace (byUser a') ∅.
Proof.
  pose proof (Authenticate_settles compare dummy a r ip u pw) as Hs.
  destruct (Authenticate _ _ _ _ _ _ _) as [err a']. destruct Hs as (-> & -> & Hv & _).
  split; [apply attempt_run; intros Hne; by apply Hv|].
  destruct (Allow (byIP a) (ask_ip r) ip).1; [|done]. apply attempt_run. intros Hne. by apply Hv.
Qed.

Definition fresh_race : Race := MkRace (NewLimiter authMaxFailures authWindow authLockout) ∅.

(** C15. Attempts from many connections at once are bounded too, less
    tightly.  However the critical sections of concurrent attempts (right,
    wrong, or refused by the other limiter) interleave, if at most [c]
    attempts against a key of a limiter are in flight at any time (one per
    connection, so at most [maxConnections]), then the wrong ones recorded
    for the key and those still in flight are at most [10 + c] per started
    minute, and [10 + c] more per success recorded for it.  An attempt of
    [Authenticate] without interruption acts on each of its two limiters as
    such events. *)
Theorem concurrent_guess_bound c t0 es k :
  1 <= c < 1000000000 -> 0 <= t0 -> race_ok c k t0 fresh_race es ->
  recorded is_fail k fresh_race es + in_flight k (race_run fresh_race es)
    <= (10 + c) * ((last_event t0 es - t0) / authWindow + 1 + recorded is_pass k fresh_race es) /\
  (forall compare dummy a r ip u pw,
     let '(err, a') := Authenticate compare dummy a r ip u pw in
     race_run (MkRace (byIP a) ∅) (attempt_events (ask_ip r) ip (fail_ip r) (verdict_of err))
       = MkRace (byIP a') ∅ /\
     race_run (MkRace (byUser a) ∅)
       (if (Allow (byIP a) (ask_ip r) ip).1
        then attempt_events (ask_user r) u (fail_user r) (verdict_of err) else [])
       = MkRace (byUser a') ∅).
Proof.
  intros Hc H0 Hok. split; [|apply Authenticate_run].
  assert (in_flight k fresh_race = 0) as Hfl by (unfold in_flight; simpl; apply tally_empty).
  assert (race_budget c t0 t0 0 0 (in_flight k fresh_race) (state (lim fresh_race) !! k)) as Hb.
  { rewrite Hfl. split; [lia|]. split; [lia|]. simpl.
    rewrite lookup_empty, Z.sub_diag. change (0 / authWindow) with 0. lia. }
  pose proof (recorded_bound c Hc t0 H0 t0 0 0 fresh_race es k ltac:(done) Hok Hb). lia.
Qed.

(** Four guesses in sequence, then [n] at once, then a login of one's own and
    four more guesses, all at the same instant. *)
Definition one_by_one : list event := concat ((fun a => [EAsk a "u" 1; EFail a 1]) <$> [1; 2; 3; 4]).
Definition burst (n : nat) : list event :=
  one_by_one ++
  ((fun a => EAsk (100 + Z.of_nat a) "u" 1) <$> seq 0 n) ++
  ((fun a => EFail (100 + Z.of_nat a) 1) <$> seq 0 (n - 1)) ++
  [EPass (100 + Z.of_nat (n - 1))] ++ one_by_one.

Lemma concurrent_guess_bound_witness :
  recorded is_fail "u" fresh_race (burst 10) = 17 /\ recorded is_pass "u" fresh_race (burst 10) = 1 /\
  recorded is_fail "u" fresh_race (burst 10) + in_flight "u" (race_run fresh_race (burst 10))
    <= (10 + 10) * ((last_event 0 (burst 10) - 0) / authWindow + 1 + recorded is_pass "u" fresh_race (burst 10)).
Proof.
  split_and!; [by vm_compute..|]. apply (concurrent_guess_bound 10 0 (burst 10) "u"); [lia..|].
  vm_compute. repeat split; discriminate.
Defined.
