(* ===== verification/SftpLib.v ===== *)
(** * The SFTP library and the remote server (interface)

    [github.com/pkg/sftp], the SSH connection under it and the remote server
    are not part of the repository: they are the parameter [SftpLib R], the
    operations the program calls on them as state transformers of an abstract
    remote state [R].  [SftpLaws] is what the theorems about file contents
    rely on.  It is weak on purpose: an operation that reports an error may
    have taken effect (the reply was lost), a failed write may have stored
    any part of its data; only operations that report success have their
    documented effect, and no operation touches paths it does not name. *)
From S2P Require Import Prelude GoStrings GoPath Errors.
Open Scope string_scope.
Open Scope list_scope.
Open Scope Z_scope.

Abbreviation bytes := (list Ascii.ascii).

(** [os.FileInfo] (the methods the program calls) and the bits of
    [os.FileMode] it tests. *)
Record FileInfo := MkFileInfo { Name : string; Size : Z; Mode : Z }.

Definition ModeSymlink : Z := 134217728.
Definition ModeDir : Z := 2147483648.
Definition is_symlink (fi : FileInfo) : bool := negb (Z.land (Mode fi) ModeSymlink =? 0).

(** Open flags ([os], on Linux) and [io.SeekStart]. *)
Definition O_RDONLY : Z := 0.
Definition O_WRONLY : Z := 1.
Definition O_CREATE : Z := 64.
Definition O_TRUNC : Z := 512.
Definition O_APPEND : Z := 1024.
Definition SeekStart : Z := 0.

(** Methods are called on a possibly nil pointer. *)
Class SftpLib (R : Type) := {
  SshClient : Type;
  SftpConn : Type;
  SftpFile : Type;
  sftp_NewClient : SshClient -> M R (res SftpConn);
  ssh_Close : SshClient -> M R (res unit);
  sftp_Close : SftpConn -> M R (res unit);
  sftp_HasExtension : option SftpConn -> string -> bool;
  sftp_Stat : option SftpConn -> string -> M R (res FileInfo);
  sftp_Lstat : option SftpConn -> string -> M R (res FileInfo);
  sftp_ReadLink : option SftpConn -> string -> M R (res string);
  (** [ReadDirContext] under [context.WithTimeout(timeout)]. *)
  sftp_ReadDirContext : option SftpConn -> Z -> string -> M R (res (list FileInfo));
  sftp_OpenFile : option SftpConn -> string -> Z -> M R (res SftpFile);
  sftp_Remove : option SftpConn -> string -> M R (res unit);
  sftp_RemoveDirectory : option SftpConn -> string -> M R (res unit);
  sftp_Mkdir : option SftpConn -> string -> M R (res unit);
  sftp_Rename : option SftpConn -> string -> string -> M R (res unit);
  sftp_PosixRename : option SftpConn -> string -> string -> M R (res unit);
  (** [io.Reader] into a buffer of the given length: the bytes, and an error. *)
  file_Read : SftpFile -> Z -> M R (bytes * option error);
  file_Write : SftpFile -> bytes -> M R (Z * option error);
  file_Seek : SftpFile -> Z -> Z -> M R (Z * option error);
  file_Close : SftpFile -> M R (res unit);
}.

(** What can be observed of a remote tree: the bytes of the regular file at a
    path, whether a path names a symbolic link, and which path a handle
    opened for writing appends to. *)
Class Observe (W F : Type) := {
  content : W -> string -> option bytes;
  is_link : W -> string -> Prop;
  writer_at : W -> F -> option string;
}.

Section observations.
Context {W F : Type} `{Observe W F}.

(** Only the paths in [ps] may have changed. *)
Definition frame (ps : list string) (w w' : W) : Prop :=
  forall p, p ∉ ps -> content w' p = content w p.

Definition same_writers (w w' : W) : Prop := forall h, writer_at w' h = writer_at w h.

Definition no_new_links (w w' : W) : Prop := forall p, is_link w' p -> is_link w p.

(** A computation that leaves files, links and open writers alone. *)
Definition quiet {A} (m : M W A) : Prop :=
  forall w, frame [] w (m w).2 /\ same_writers w (m w).2 /\ no_new_links w (m w).2.

Lemma frame_refl ps w : frame ps w w.
Proof. by intros p _. Qed.

Lemma frame_trans ps w1 w2 w3 : frame ps w1 w2 -> frame ps w2 w3 -> frame ps w1 w3.
Proof. intros H1 H2 p Hp. rewrite H2, H1; done. Qed.

Lemma frame_mono ps qs w w' : frame ps w w' -> ps ⊆ qs -> frame qs w w'.
Proof. intros H1 H2 p Hp. apply H1. set_solver. Qed.

Lemma frame_any ps w w' : frame [] w w' -> frame ps w w'.
Proof. intros H1. eapply frame_mono; [done|set_solver]. Qed.

Lemma frame_l a b w w' : frame [a] w w' -> frame [a; b] w w'.
Proof. intros H1. eapply frame_mono; [done|set_solver]. Qed.

Lemma frame_r a b w w' : frame [b] w w' -> frame [a; b] w w'.
Proof. intros H1. eapply frame_mono; [done|set_solver]. Qed.

Lemma frame_nil w w' p : frame [] w w' -> content w' p = content w p.
Proof. intros H1. apply H1. set_solver. Qed.

Lemma same_writers_refl w : same_writers w w.
Proof. done. Qed.

Lemma same_writers_trans w1 w2 w3 :
  same_writers w1 w2 -> same_writers w2 w3 -> same_writers w1 w3.
Proof. intros H1 H2 h. by rewrite H2, H1. Qed.

Lemma quiet_ret {A} (a : A) : quiet (ret a).
Proof. intros w. split_and!; [apply frame_refl|done|by intros p]. Qed.

Lemma quiet_bind {A B} (m : M W A) (k : A -> M W B) :
  quiet m -> (forall a, quiet (k a)) -> quiet (bind m k).
Proof.
  intros Hm Hk w. unfold bind. specialize (Hm w). destruct (m w) as [a w1]. simpl in *.
  specialize (Hk a w1). destruct Hm as (? & ? & Hl1), Hk as (? & ? & Hl2).
  split_and!; [by eapply frame_trans|by eapply same_writers_trans|].
  intros p Hp. by apply Hl1, Hl2.
Qed.

Lemma quiet_bindE {E A B} (m : M W (result E A)) (k : A -> M W (result E B)) :
  quiet m -> (forall a, quiet (k a)) -> quiet (bindE m k).
Proof.
  intros Hm Hk. apply quiet_bind; [done|]. intros [a|e]; [done|apply quiet_ret].
Qed.

Lemma quiet_run {A} (m : M W A) w a w' :
  quiet m -> m w = (a, w') -> frame [] w w' /\ same_writers w w' /\ no_new_links w w'.
Proof. intros Hq E. specialize (Hq w). by rewrite E in Hq. Qed.

(** The effect of a successful rename. *)
Definition moved (a b : string) (w w' : W) : Prop :=
  content w' b = content w a /\ content w' a = None.
End observations.

#[export] Hint Resolve frame_refl same_writers_refl quiet_ret quiet_bind quiet_bindE : go.

Class SftpLaws (R : Type) `{SftpLib R} `{Observe R SftpFile} : Prop := {
  law_Stat c p : quiet (sftp_Stat c p);
  law_Lstat c p : quiet (sftp_Lstat c p);
  law_ReadLink c p : quiet (sftp_ReadLink c p);
  law_OpenTrunc c p w r w' :
    ~ is_link w p ->
    sftp_OpenFile c p (Z.lor O_WRONLY (Z.lor O_CREATE O_TRUNC)) w = (r, w') ->
    frame [p] w w' /\
    forall h, r = Ok h -> content w' p = Some [] /\ writer_at w' h = Some p;
  law_Write h bs w n e w' p :
    file_Write h bs w = ((n, e), w') -> writer_at w h = Some p ->
    frame [p] w w' /\ same_writers w w' /\ 0 <= n <= Z.of_nat (length bs) /\
    (e = None -> n = Z.of_nat (length bs) /\
                 forall old, content w p = Some old -> content w' p = Some (old ++ bs));
  law_Close h w r w' : file_Close h w = (r, w') -> frame [] w w';
  law_Remove c p w r w' :
    sftp_Remove c p w = (r, w') ->
    frame [p] w w' /\ (content w' p = content w p \/ content w' p = None) /\
    (is_ok r = true -> content w' p = None);
  law_Rename c a b w r w' :
    a <> b -> sftp_Rename c a b w = (r, w') ->
    frame [a; b] w w' /\ (is_ok r = true -> moved a b w w') /\
    (is_ok r = false -> frame [] w w' \/ moved a b w w');
  law_PosixRename c a b w r w' :
    a <> b -> sftp_PosixRename c a b w = (r, w') ->
    frame [a; b] w w' /\ (is_ok r = true -> moved a b w w') /\
    (is_ok r = false -> frame [] w w' \/ moved a b w w');
}.

#[export] Hint Resolve law_Stat law_Lstat law_ReadLink : go.
