(* ===== verification/MemServer.v ===== *)
(** * An in-memory SFTP server

    A concrete [SftpLib]: a tree of files, directories and symbolic links,
    with open handles.  It shows that [SftpLaws] can hold and gives the
    witnesses something to run on; no theorem about the program depends on
    it.  Links are followed by [Stat] and [OpenFile], not by [Lstat]. *)
From S2P Require Import Prelude GoStrings GoPath Errors SftpLib.
Open Scope string_scope.
Open Scope list_scope.
Open Scope Z_scope.

Inductive node := NFile (bs : bytes) | NDir | NLink (target : string).

Record MemFS := MkMemFS {
  files : gmap string node;
  handles : gmap nat (string * nat);
  next : nat;
}.

Definition mem_of (l : list (string * node)) : MemFS := MkMemFS (list_to_map l) ∅ 0.

Definition set_files (f : gmap string node) (w : MemFS) : MemFS :=
  MkMemFS f (handles w) (next w).

Definition info (p : string) (n : node) : FileInfo :=
  match n with
  | NFile bs => MkFileInfo (Base p) (Z.of_nat (length bs)) 420
  | NDir => MkFileInfo (Base p) 0 ModeDir
  | NLink _ => MkFileInfo (Base p) 0 ModeSymlink
  end.

(** The path a name stands for once links are followed. *)
Fixpoint follow (fuel : nat) (w : MemFS) (p : string) : string :=
  match fuel, files w !! p with
  | S fuel, Some (NLink t) => follow fuel w (Clean (if IsAbs t then t else Join2 (Dir p) t))
  | _, _ => p
  end.

Definition mem_lstat (p : string) : M MemFS (res FileInfo) := fun w =>
  (match files w !! p with
   | Some n => Ok (info p n)
   | None => Err (ESentinel ErrNotExist)
   end, w).

Definition mem_stat (p : string) : M MemFS (res FileInfo) := fun w =>
  mem_lstat (follow 8 w p) w.

Definition mem_readlink (p : string) : M MemFS (res string) := fun w =>
  (match files w !! p with
   | Some (NLink t) => Ok t
   | _ => Err (EOther "not a link")
   end, w).

Definition mem_readdir (p : string) : M MemFS (res (list FileInfo)) := fun w =>
  (Ok (omap (fun '(q, n) => if bool_decide (Dir q = p /\ q <> p) then Some (info q n) else None)
         (map_to_list (files w))), w).

Definition mem_open (p : string) (flags : Z) : M MemFS (res nat) := fun w =>
  let p := follow 8 w p in
  let opened f :=
    match handles w !! next w with
    | Some _ => (Err (EOther "no free handle"), w)
    | None => (Ok (next w), MkMemFS f (<[next w := (p, 0%nat)]> (handles w)) (S (next w)))
    end in
  if Z.land flags O_WRONLY =? 0 then
    match files w !! p with
    | Some (NFile _) => opened (files w)
    | Some _ => (Err (EOther "not a regular file"), w)
    | None => (Err (ESentinel ErrNotExist), w)
    end
  else
    match files w !! p with
    | Some NDir | Some (NLink _) => (Err (EOther "not a regular file"), w)
    | _ => opened (<[p := NFile []]> (files w))
    end.

Definition mem_remove (p : string) : M MemFS (res unit) := fun w =>
  match files w !! p with
  | Some NDir | None => (Err (ESentinel ErrNotExist), w)
  | Some _ => (Ok tt, set_files (delete p (files w)) w)
  end.

Definition mem_rmdir (p : string) : M MemFS (res unit) := fun w =>
  match files w !! p with
  | Some NDir => (Ok tt, set_files (delete p (files w)) w)
  | _ => (Err (ESentinel ErrNotExist), w)
  end.

Definition mem_mkdir (p : string) : M MemFS (res unit) := fun w =>
  match files w !! p with
  | None => (Ok tt, set_files (<[p := NDir]> (files w)) w)
  | Some _ => (Err (EOther "exists"), w)
  end.

Definition mem_rename (replace : bool) (a b : string) : M MemFS (res unit) := fun w =>
  match files w !! a with
  | None => (Err (ESentinel ErrNotExist), w)
  | Some n =>
      if negb replace && bool_decide (is_Some (files w !! b)) then (Err (EOther "exists"), w)
      else (Ok tt, set_files (<[b := n]> (delete a (files w))) w)
  end.

Definition mem_read (h : nat) (len : Z) : M MemFS (bytes * option error) := fun w =>
  match handles w !! h with
  | Some (p, off) =>
      match files w !! p with
      | Some (NFile bs) =>
          match drop off bs with
          | [] => (([], Some (ESentinel EOF)), w)
          | rest =>
              let out := take (Z.to_nat len) rest in
              ((out, None),
               MkMemFS (files w) (<[h := (p, (off + length out)%nat)]> (handles w)) (next w))
          end
      | _ => (([], Some (EOther "bad file")), w)
      end
  | None => (([], Some (EOther "bad handle")), w)
  end.

Definition mem_write (h : nat) (bs : bytes) : M MemFS (Z * option error) := fun w =>
  match handles w !! h with
  | Some (p, _) =>
      match files w !! p with
      | Some (NFile old) =>
          ((Z.of_nat (length bs), None), set_files (<[p := NFile (old ++ bs)]> (files w)) w)
      | _ => ((0, Some (EOther "bad file")), w)
      end
  | None => ((0, Some (EOther "bad handle")), w)
  end.

Definition mem_seek (h : nat) (off whence : Z) : M MemFS (Z * option error) := fun w =>
  match handles w !! h with
  | Some (p, _) =>
      ((off, None), MkMemFS (files w) (<[h := (p, Z.to_nat off)]> (handles w)) (next w))
  | None => ((0, Some (EOther "bad handle")), w)
  end.

(** The connection value says whether the server has posix-rename. *)
#[export] Instance MemLib : SftpLib MemFS := {
  SshClient := bool;
  SftpConn := bool;
  SftpFile := nat;
  sftp_NewClient b := ret (Ok b);
  ssh_Close _ := ret (Ok tt);
  sftp_Close _ := ret (Ok tt);
  sftp_HasExtension c _ := default false c;
  sftp_Stat _ := mem_stat;
  sftp_Lstat _ := mem_lstat;
  sftp_ReadLink _ := mem_readlink;
  sftp_ReadDirContext _ _ := mem_readdir;
  sftp_OpenFile _ := mem_open;
  sftp_Remove _ := mem_remove;
  sftp_RemoveDirectory _ := mem_rmdir;
  sftp_Mkdir _ := mem_mkdir;
  sftp_Rename _ := mem_rename false;
  sftp_PosixRename _ := mem_rename true;
  file_Read := mem_read;
  file_Write := mem_write;
  file_Seek := mem_seek;
  file_Close _ := ret (Ok tt);
}.

#[export] Instance MemObserve : Observe MemFS nat := {
  content w p := match files w !! p with Some (NFile bs) => Some bs | _ => None end;
  is_link w p := exists t, files w !! p = Some (NLink t);
  writer_at w h := fst <$> handles w !! h;
}.

Lemma mem_readonly_quiet {A} (m : M MemFS A) : (forall w, (m w).2 = w) -> quiet m.
Proof. intros H w. rewrite H. split_and!; [apply frame_refl|done|by intros p]. Qed.

Lemma mem_lstat_readonly p w : (mem_lstat p w).2 = w.
Proof. done. Qed.

Lemma follow_nolink w p : ~ is_link w p -> follow 8 w p = p.
Proof. simpl. intros H. destruct (files w !! p) as [[]|]; try done. exfalso. eauto. Qed.

Lemma mem_frame_insert w p n h : frame [p] w (MkMemFS (<[p := n]> (files w)) h (next w)).
Proof. intros q Hq. simpl. rewrite lookup_insert_ne; [done|set_solver]. Qed.

Lemma mem_rename_law replace (a b : string) w r w' :
  a <> b -> mem_rename replace a b w = (r, w') ->
  frame [a; b] w w' /\ (is_ok r = true -> moved a b w w') /\
  (is_ok r = false -> frame [] w w' \/ moved a b w w').
Proof.
  intros Hne. unfold mem_rename. destruct (files w !! a) as [n|] eqn:Ha.
  2:{ intros [= <- <-]. split_and!; [apply frame_refl|done|by left; apply frame_refl]. }
  case_match; intros [= <- <-].
  { split_and!; [apply frame_refl|done|by left; apply frame_refl]. }
  assert (moved a b w (set_files (<[b:=n]> (delete a (files w))) w)) as Hm.
  { split; simpl; [by rewrite lookup_insert_eq, Ha|].
    by rewrite lookup_insert_ne, lookup_delete_eq. }
  split_and!; [|done|by right].
  intros q Hq. simpl. rewrite lookup_insert_ne, lookup_delete_ne; [done|set_solver..].
Qed.

#[export] Instance MemLaws : SftpLaws MemFS.
Proof.
  split.
  - intros c p. by apply mem_readonly_quiet.
  - intros c p. by apply mem_readonly_quiet.
  - intros c p. by apply mem_readonly_quiet.
  - intros c p w r w' Hl. simpl. unfold mem_open. rewrite follow_nolink by done.
    change (Z.land _ O_WRONLY =? 0) with false. cbv iota.
    assert (frame [p] w (MkMemFS (<[p:=NFile []]> (files w))
              (<[next w:=(p, 0%nat)]> (handles w)) (S (next w))) /\
            forall h, @Ok error nat (next w) = Ok h ->
              Some ([] : bytes) = Some [] /\ fst <$> <[next w:=(p, 0%nat)]> (handles w) !! h = Some p)
      as [Hfr Hh].
    { split; [intros q Hq; simpl; rewrite lookup_insert_ne; [done|set_solver]|].
      intros h [= <-]. by rewrite lookup_insert_eq. }
    destruct (handles w !! next w), (files w !! p) as [[]|]; intros [= <- <-]; (split; [try done; apply frame_refl|]);
      intros h Hok; try done; simpl; rewrite lookup_insert_eq; by apply Hh.
  - intros h bs w n e w' p Hw Hh. simpl in *. unfold mem_write in Hw.
    destruct (handles w !! h) as [[q off]|]; [|done]. injection Hh as ->.
    destruct (files w !! p) as [[old| |]|] eqn:Hp; injection Hw as <- <- <-;
      (split_and!; [first [apply frame_refl|apply mem_frame_insert]|done|lia|lia|]); try done.
    intros _. split; [done|]. intros old' [= <-]. simpl. by rewrite lookup_insert_eq.
  - intros h w r w'. simpl. intros [= <- <-]. apply frame_refl.
  - intros c p w r w'. simpl. unfold mem_remove.
    assert (frame [p] w (set_files (delete p (files w)) w) /\
            content (set_files (delete p (files w)) w) p = None) as [Hf Hn].
    { split; [intros q Hq; simpl; rewrite lookup_delete_ne; [done|set_solver]|].
      simpl. by rewrite lookup_delete_eq. }
    destruct (files w !! p) as [[old| |]|] eqn:Hp; intros [= <- <-];
      (split_and!; [first [exact Hf|apply frame_refl]
                   |first [right; exact Hn|left; by rewrite Hp]
                   |intros [=]; try exact Hn]).
  - intros c. apply mem_rename_law.
  - intros c. apply mem_rename_law.
Qed.
