(* ===== verification/SshDial.v ===== *)
(** * Dialling the SFTP server ([internal/sshclient])

    [Dial] with its key loading.  The SSH library, the network and the local
    files are the parameter [SshLib]: operations on the same outside world
    [R] the SFTP library acts on. *)
From S2P Require Import Prelude GoStrings Errors GoNet SftpLib MemServer.
From Stdlib Require Import Ascii.
Open Scope string_scope.
Open Scope list_scope.
Open Scope Z_scope.

Record Config := MkConfig {
  Host : string;
  Port : Z;
  Username : string;
  PrivateKeyFile : string;
  PrivateKeyPassphraseFile : string;
  Password : string;
  KnownHostsFile : string;
  ConnectTimeout : Z;
}.

(** [ssh.ClientConfig], with the two kinds of [ssh.AuthMethod] used. *)
Inductive AuthMethod (Signer : Type) := PublicKeys (signer : Signer) | PasswordAuth (pw : string).
Arguments PublicKeys {Signer}. Arguments PasswordAuth {Signer}.

Record ClientConfig (HostKeyCallback Signer : Type) := MkClientConfig {
  cc_User : string;
  cc_Auth : list (AuthMethod Signer);
  cc_HostKeyCallback : HostKeyCallback;
  cc_Timeout : Z;
}.
Arguments MkClientConfig {HostKeyCallback Signer}.
Arguments cc_User {HostKeyCallback Signer}. Arguments cc_Auth {HostKeyCallback Signer}.
Arguments cc_HostKeyCallback {HostKeyCallback Signer}.

Class SshLib (R : Type) `{SftpLib R} := {
  HostKeyCallback : Type;
  Signer : Type;
  NetConn : Type;
  knownhosts_New : string -> M R (res HostKeyCallback);
  os_ReadFile : string -> M R (res string);
  ssh_ParsePrivateKey : string -> res Signer;
  ssh_ParsePrivateKeyWithPassphrase : string -> string -> res Signer;
  net_Dial : Z -> string -> M R (res NetConn);
  (** [Some d]: [d] from now; [None]: the zero time, no deadline. *)
  conn_SetDeadline : NetConn -> option Z -> M R unit;
  conn_Close : NetConn -> M R unit;
  (** [ssh.NewClientConn] followed by [ssh.NewClient]. *)
  ssh_NewClientConn :
    NetConn -> string -> ClientConfig HostKeyCallback Signer -> M R (res SshClient);
}.

Definition is_newline (c : ascii) : bool := Ascii.eqb c newline || Ascii.eqb c "013".

(** The loop drops newlines from the end. *)
Fixpoint trimNewline (b : string) : string :=
  match b with
  | EmptyString => EmptyString
  | String c t =>
      match trimNewline t with
      | EmptyString => if is_newline c then EmptyString else String c EmptyString
      | t' => String c t'
      end
  end.

Section dial.
Context {R : Type} `{Ssh : SshLib R}.

Definition loadSigner (keyFile passphraseFile : string) : M R (res Signer) :=
  let op := "sshclient.loadSigner" in
  let* r := os_ReadFile keyFile in
  match r with
  | Err err => ret (Err (Wrap KindConfig op "no se pudo leer la llave privada SFTP" err))
  | Ok keyBytes =>
      if (passphraseFile =? "")%string then
        ret (match ssh_ParsePrivateKey keyBytes with
             | Err err => Err (Wrap KindConfig op "la llave privada SFTP no es válida" err)
             | Ok signer => Ok signer
             end)
      else
        let* r := os_ReadFile passphraseFile in
        ret (match r with
             | Err err =>
                 Err (Wrap KindConfig op
                   "no se pudo leer la passphrase de la llave privada SFTP" err)
             | Ok passphrase =>
                 match ssh_ParsePrivateKeyWithPassphrase keyBytes (trimNewline passphrase) with
                 | Err err =>
                     Err (Wrap KindConfig op
                       "la llave privada SFTP no es válida o la passphrase es incorrecta" err)
                 | Ok signer => Ok signer
                 end
             end)
  end.

Definition buildAuthMethods (cfg : Config) : M R (res (list (AuthMethod Signer))) :=
  if negb (PrivateKeyFile cfg =? "")%string then
    try* signer := loadSigner (PrivateKeyFile cfg) (PrivateKeyPassphraseFile cfg) in
    ret (Ok [PublicKeys signer])
  else if negb (Password cfg =? "")%string then ret (Ok [PasswordAuth (Password cfg)])
  else ret (Err (New KindConfig "sshclient.buildAuthMethods"
                   "no se configuró ningún mecanismo de autenticación SFTP")).

Definition dial_timeout (cfg : Config) : Z :=
  if ConnectTimeout cfg <=? 0 then 10 * 1000000000 else ConnectTimeout cfg.

Definition dial_addr (cfg : Config) : string := JoinHostPort (Host cfg) (fmt_d (Port cfg)).

Definition Dial (cfg : Config) : M R (res SshClient) :=
  let op := "sshclient.Dial" in
  let* r := knownhosts_New (KnownHostsFile cfg) in
  match r with
  | Err err => ret (Err (Wrap KindConfig op "no se pudo cargar el archivo known_hosts" err))
  | Ok hostKeyCallback =>
      try* authMethods := buildAuthMethods cfg in
      let timeout := dial_timeout cfg in
      let clientConfig := MkClientConfig (Username cfg) authMethods hostKeyCallback timeout in
      let addr := dial_addr cfg in
      let* r := net_Dial timeout addr in
      match r with
      | Err err =>
          ret (Err (Wrap KindSSHConnection op "no se pudo conectar al servidor SFTP remoto" err))
      | Ok conn =>
          do* conn_SetDeadline conn (Some timeout) in
          let* r := ssh_NewClientConn conn addr clientConfig in
          match r with
          | Err err =>
              do* conn_Close conn in
              ret (Err (if As_KeyError err
                        then Wrap KindHostKeyMismatch op
                               "la identidad del servidor SFTP remoto no coincide con known_hosts" err
                        else Wrap KindSFTPAuthentication op
                               "falló la autenticación o el handshake SSH con el servidor remoto" err))
          | Ok client =>
              do* conn_SetDeadline conn None in
              ret (Ok client)
          end
      end
  end.

(** [phrase] is the text without the newlines at its end. *)
Fixpoint newlines (s : string) : bool :=
  match s with EmptyString => true | String c s => is_newline c && newlines s end.

Definition chomped (text phrase : string) : Prop :=
  (exists tail, text = phrase +:+ tail /\ newlines tail = true) /\
  (forall s c, phrase = s +:+ String c "" -> is_newline c = false).

Lemma trimNewline_chomped text : chomped text (trimNewline text).
Proof.
  induction text as [|c t [(tail & Ht & Hn) Hend]].
  { split; [by exists ""|]. intros s c Hs. by destruct s. }
  simpl. destruct (trimNewline t) as [|c1 t1]; simpl in Ht.
  - subst tail. destruct (is_newline c) eqn:Hc; split.
    + exists (String c t). simpl. by rewrite Hc.
    + intros s c2 Hs. by destruct s.
    + by exists t.
    + intros s c2 Hs. destruct s as [|c3 s]; simpl in Hs; injection Hs; [by intros <-|by destruct s].
  - split; [exists tail; simpl; by rewrite Ht|].
    intros s c2 Hs. destruct s as [|c3 s]; simpl in Hs; [done|].
    injection Hs as _ Hs. by apply (Hend s).
Qed.

(** The one way to authenticate that the configuration asks for, loaded in
    [w] and leaving [w']: the key in the configured file, decrypted with the
    configured passphrase if there is one, or else the configured password. *)
Definition credential (cfg : Config) (auth : list (AuthMethod Signer)) (w w' : R) : Prop :=
  if (PrivateKeyFile cfg =? "")%string
  then Password cfg <> "" /\ auth = [PasswordAuth (Password cfg)] /\ w' = w
  else exists key signer w1,
    os_ReadFile (PrivateKeyFile cfg) w = (Ok key, w1) /\ auth = [PublicKeys signer] /\
    if (PrivateKeyPassphraseFile cfg =? "")%string
    then ssh_ParsePrivateKey key = Ok signer /\ w' = w1
    else exists text phrase,
      os_ReadFile (PrivateKeyPassphraseFile cfg) w1 = (Ok text, w') /\ chomped text phrase /\
      ssh_ParsePrivateKeyWithPassphrase key phrase = Ok signer.

Lemma buildAuthMethods_spec cfg w r w' :
  buildAuthMethods cfg w = (r, w') ->
  match r with
  | Ok auth => credential cfg auth w w'
  | Err e => KindOf e = KindConfig
  end.
Proof.
  unfold buildAuthMethods, credential. destruct (PrivateKeyFile cfg =? "")%string; simpl.
  { destruct (_ =? "")%string eqn:E; bool_to_prop; by intros [= <- <-]. }
  intros ([s|e] & w1 & H1 & H2)%bind_inv; injection H2 as <- <-;
    unfold loadSigner in H1; apply bind_inv in H1 as ([b|e0] & w2 & Hk & H1).
  2,4: unfold ret in H1; by simplify_eq.
  - exists b, s, w2. split_and!; [done..|]. destruct (_ =? "")%string.
    { injection H1 as H1 <-. by destruct (ssh_ParsePrivateKey b); simplify_eq. }
    apply bind_inv in H1 as ([p|e0] & w3 & Hp & H1); unfold ret in H1; [|done].
    injection H1 as H1 <-.
    exists p, (trimNewline p). split_and!; [done|apply trimNewline_chomped|].
    by destruct (ssh_ParsePrivateKeyWithPassphrase _ _); simplify_eq.
  - destruct (_ =? "")%string.
    { injection H1 as H1 <-. destruct (ssh_ParsePrivateKey b); by simplify_eq. }
    apply bind_inv in H1 as ([p|e0] & w3 & _ & H1); [|by injection H1 as <- <-].
    injection H1 as H1 <-. destruct (ssh_ParsePrivateKeyWithPassphrase _ _); by simplify_eq.
Qed.

End dial.

(** An SSH side for the in-memory server: a known_hosts file called
    "changed" stands for one whose keys do not match. *)
#[export] Instance MemSsh : SshLib MemFS := {
  HostKeyCallback := string;
  Signer := string;
  NetConn := unit;
  knownhosts_New f := ret (Ok f);
  os_ReadFile f := ret (Ok f);
  ssh_ParsePrivateKey := Ok;
  ssh_ParsePrivateKeyWithPassphrase k _ := Ok k;
  net_Dial _ _ := ret (Ok tt);
  conn_SetDeadline _ _ := ret tt;
  conn_Close _ := ret tt;
  ssh_NewClientConn _ _ c :=
    ret (if (cc_HostKeyCallback c =? "changed")%string then Err (EWrap "ssh: handshake" (EKey "key"))
         else Ok true);
}.

