(* ===== verification/SftpClient.v ===== *)
(** * The confined SFTP client ([internal/sftpclient])

    [Client] wraps the SFTP library with error translation and the defence
    against symbolic links that resolve outside the confined root. *)
From S2P Require Import Prelude GoStrings GoPath Errors Filesystem SftpLib.
Open Scope string_scope.
Open Scope list_scope.
Open Scope Z_scope.

Definition posixRenameExtension : string := "posix-rename@openssh.com".

(** [translateError] on a non-nil error (every caller has tested it). *)
Definition translateError (op : string) (err : error) : error :=
  if errors_Is err EOF then err
  else if errors_Is err DeadlineExceeded
  then Wrap KindTimeout op "tiempo de espera agotado en la operación SFTP remota" err
  else if errors_Is err ErrNotExist
  then Wrap KindNotFound op "ruta remota no encontrada" err
  else if errors_Is err ErrPermission
  then Wrap KindRemotePermissionDenied op "permiso denegado en el servidor remoto" err
  else match As_Timeout err with
       | Some true => Wrap KindTimeout op "tiempo de espera agotado en el servidor remoto" err
       | _ => Wrap KindInternal op "error en la operación SFTP remota" err
       end.

Section client.
Context {R : Type} `{Lib : SftpLib R}.

Record Client := MkClient {
  c_ssh : option SshClient;
  c_sftp : option SftpConn;
  c_root : string;
}.

(** [New] takes ownership of the SSH connection. *)
Definition New (sshClient : SshClient) (root : string) : M R (res Client) :=
  let* r := sftp_NewClient sshClient in
  match r with
  | Err err =>
      let* _ := ssh_Close sshClient in
      ret (Err (Wrap KindSSHConnection "sftpclient.New" "no se pudo abrir el canal SFTP" err))
  | Ok raw => ret (Ok (MkClient (Some sshClient) (Some raw) (Clean ("/" +:+ root))))
  end.

Definition Close (c : Client) : M R (res unit) :=
  let* sftpErr := match c_sftp c with Some s => sftp_Close s | None => ret (Ok tt) end in
  let* sshErr := match c_ssh c with Some s => ssh_Close s | None => ret (Ok tt) end in
  ret (match sftpErr with Err e => Err e | Ok _ => sshErr end).

Definition HasPosixRename (c : Client) : bool :=
  sftp_HasExtension (c_sftp c) posixRenameExtension.

(** [if err != nil { return translateError(op, err) }]. *)
Definition translated {A} (op : string) (m : M R (res A)) : M R (res A) :=
  let* r := m in
  ret (match r with Err e => Err (translateError op e) | Ok a => Ok a end).

(** Where a link found at [remotePath] points, lexically. *)
Definition link_target (remotePath target : string) : string :=
  Clean (if IsAbs target then target else Join2 (Dir remotePath) target).

Definition checkNoEscapingSymlink (c : Client) (remotePath : string) : M R (res unit) :=
  let op := "sftpclient.checkNoEscapingSymlink" in
  let* r := sftp_Lstat (c_sftp c) remotePath in
  match r with
  | Err err =>
      if errors_Is err ErrNotExist then ret (Ok tt)
      else ret (Err (translateError op err))
  | Ok lstat =>
      if negb (is_symlink lstat) then ret (Ok tt)
      else
        try* target := translated op (sftp_ReadLink (c_sftp c) remotePath) in
        if negb (WithinRoot (c_root c) (link_target remotePath target))
        then ret (Err (Errors.New KindInvalidPath op
                         "la ruta remota es un enlace simbólico fuera de la raíz permitida"))
        else ret (Ok tt)
  end.

Definition Stat (c : Client) (remotePath : string) : M R (res FileInfo) :=
  try* _ := checkNoEscapingSymlink c remotePath in
  translated "sftpclient.Stat" (sftp_Stat (c_sftp c) remotePath).

(** The loop of [ReadDir] over the entries. *)
Fixpoint safe_entries (c : Client) (remotePath : string) (entries : list FileInfo)
  : M R (list FileInfo) :=
  match entries with
  | [] => ret []
  | entry :: rest =>
      let* keep :=
        if is_symlink entry
        then let* r := checkNoEscapingSymlink c (Join2 remotePath (Name entry)) in
             ret (is_ok r)
        else ret true in
      let* safe := safe_entries c remotePath rest in
      ret (if keep then entry :: safe else safe)
  end.

Definition ReadDir (c : Client) (remotePath : string) (timeout : Z)
  : M R (res (list FileInfo)) :=
  try* _ := checkNoEscapingSymlink c remotePath in
  try* entries := translated "sftpclient.ReadDir"
                    (sftp_ReadDirContext (c_sftp c) timeout remotePath) in
  let* safe := safe_entries c remotePath entries in
  ret (Ok safe).

Definition OpenRead (c : Client) (remotePath : string) : M R (res SftpFile) :=
  try* _ := checkNoEscapingSymlink c remotePath in
  translated "sftpclient.OpenRead" (sftp_OpenFile (c_sftp c) remotePath O_RDONLY).

Definition CreateTemp (c : Client) (remotePath : string) : M R (res SftpFile) :=
  translated "sftpclient.CreateTemp"
    (sftp_OpenFile (c_sftp c) remotePath (Z.lor O_WRONLY (Z.lor O_CREATE O_TRUNC))).

(** Any [Stat] failure counts as "does not exist". *)
Definition rejectIfExists (c : Client) (remotePath : string) : M R (res unit) :=
  let* r := sftp_Stat (c_sftp c) remotePath in
  ret (if is_ok r
       then Err (Errors.New KindConflict "sftpclient.Commit" "el archivo destino ya existe")
       else Ok tt).

Definition Commit (c : Client) (tempPath finalPath : string) (overwrite : bool)
  : M R (res unit) :=
  let op := "sftpclient.Commit" in
  try* _ := checkNoEscapingSymlink c finalPath in
  if HasPosixRename c then
    try* _ := if negb overwrite then rejectIfExists c finalPath else ret (Ok tt) in
    translated op (sftp_PosixRename (c_sftp c) tempPath finalPath)
  else
    let* st := sftp_Stat (c_sftp c) finalPath in
    let exists_ := is_ok st in
    if exists_ && negb overwrite
    then ret (Err (Errors.New KindConflict op "el archivo destino ya existe"))
    else
      try* _ := if exists_ then translated op (sftp_Remove (c_sftp c) finalPath)
                else ret (Ok tt) in
      translated op (sftp_Rename (c_sftp c) tempPath finalPath).

Definition Remove (c : Client) (remotePath : string) : M R (res unit) :=
  try* _ := checkNoEscapingSymlink c remotePath in
  translated "sftpclient.Remove" (sftp_Remove (c_sftp c) remotePath).

Definition RemoveDirectory (c : Client) (remotePath : string) : M R (res unit) :=
  try* _ := checkNoEscapingSymlink c remotePath in
  translated "sftpclient.RemoveDirectory" (sftp_RemoveDirectory (c_sftp c) remotePath).

Definition Mkdir (c : Client) (remotePath : string) : M R (res unit) :=
  translated "sftpclient.Mkdir" (sftp_Mkdir (c_sftp c) remotePath).

Definition Rename (c : Client) (oldPath newPath : string) (overwrite : bool)
  : M R (res unit) :=
  let op := "sftpclient.Rename" in
  try* _ := checkNoEscapingSymlink c oldPath in
  try* _ := checkNoEscapingSymlink c newPath in
  if HasPosixRename c then
    try* _ := if negb overwrite then rejectIfExists c newPath else ret (Ok tt) in
    translated op (sftp_PosixRename (c_sftp c) oldPath newPath)
  else
    let* st := sftp_Stat (c_sftp c) newPath in
    try* _ := if is_ok st then
                if negb overwrite
                then ret (Err (Errors.New KindConflict op "el destino del renombrado ya existe"))
                else translated op (sftp_Remove (c_sftp c) newPath)
              else ret (Ok tt) in
    translated op (sftp_Rename (c_sftp c) oldPath newPath).

Definition Ping (c : Client) : M R (res FileInfo) := sftp_Stat (c_sftp c) (c_root c).
End client.
Arguments Client R {Lib}.
