(* ===== verification/Sha256.v ===== *)
(** * SHA-256 (package crypto/sha256)

    The digest the transfers report, executable on lists of bytes (FIPS 180-4
    on 32-bit words kept as [Z]).  A [hash.Hash] is the list of bytes written
    to it so far; [Sum] hashes that list. *)
From S2P Require Import Prelude GoStrings.
From Stdlib Require Import Ascii.
Open Scope string_scope.
Open Scope list_scope.
Open Scope Z_scope.

Module Sha256.

Definition w32 (z : Z) : Z := z mod 4294967296.
Definition add32 (a b : Z) : Z := w32 (a + b).
Definition not32 (a : Z) : Z := Z.lxor a 4294967295.
Definition rotr (n x : Z) : Z :=
  w32 (Z.lor (Z.shiftr x n) (Z.shiftl x (32 - n))).
Definition shr (n x : Z) : Z := Z.shiftr x n.

Definition Ch x y z := Z.lxor (Z.land x y) (Z.land (not32 x) z).
Definition Maj x y z := Z.lxor (Z.lxor (Z.land x y) (Z.land x z)) (Z.land y z).
Definition Sigma0 x := Z.lxor (Z.lxor (rotr 2 x) (rotr 13 x)) (rotr 22 x).
Definition Sigma1 x := Z.lxor (Z.lxor (rotr 6 x) (rotr 11 x)) (rotr 25 x).
Definition sigma0 x := Z.lxor (Z.lxor (rotr 7 x) (rotr 18 x)) (shr 3 x).
Definition sigma1 x := Z.lxor (Z.lxor (rotr 17 x) (rotr 19 x)) (shr 10 x).

(** The constants are the first 32 bits of the fractional parts of the cube
    roots of the first 64 primes, and of the square roots of the first 8. *)
Definition is_prime (n : Z) : bool :=
  forallb (fun d => negb (n mod Z.of_nat d =? 0)) (seq 2 (Z.to_nat (Z.sqrt n) - 1)).
Definition primes : list Z := filter (fun n => is_prime n = true) (Z.of_nat <$> seq 2 310).

(** Integer cube root, bit by bit. *)
Fixpoint cube_root (bits : nat) (n acc : Z) : Z :=
  match bits with
  | O => acc
  | S bits =>
      let acc' := acc + 2 ^ Z.of_nat bits in
      cube_root bits n (if acc' * acc' * acc' <=? n then acc' else acc)
  end.

Definition K : list Z :=
  Eval vm_compute in (fun p => w32 (cube_root 36 (p * 2 ^ 96) 0)) <$> primes.
Definition H0 : list Z :=
  Eval vm_compute in (fun p => w32 (Z.sqrt (p * 2 ^ 64))) <$> take 8 primes.

Definition nth_w (l : list Z) (i : nat) : Z := nth i l 0.

(** The message schedule, newest word first. *)
Fixpoint schedule (n : nat) (ws : list Z) : list Z :=
  match n with
  | O => ws
  | S n =>
      schedule n
        (add32 (add32 (sigma1 (nth_w ws 1)) (nth_w ws 6))
               (add32 (sigma0 (nth_w ws 14)) (nth_w ws 15)) :: ws)
  end.

Definition round (st : list Z) (kw : Z * Z) : list Z :=
  match st with
  | [a; b; c; d; e; f; g; h] =>
      let t1 := add32 (add32 (add32 h (Sigma1 e)) (add32 (Ch e f g) kw.1)) kw.2 in
      let t2 := add32 (Sigma0 a) (Maj a b c) in
      [add32 t1 t2; a; b; c; add32 d t1; e; f; g]
  | _ => st
  end.

Definition compress (st ws : list Z) : list Z :=
  let ws := reverse (schedule 48 (reverse ws)) in
  zip_with add32 st (foldl round st (zip K ws)).

Fixpoint words_of (fuel : nat) (bs : list Z) : list Z :=
  match fuel, bs with
  | S fuel, a :: b :: c :: d :: rest =>
      (a * 16777216 + b * 65536 + c * 256 + d) :: words_of fuel rest
  | _, _ => []
  end.

Fixpoint blocks (fuel : nat) (st ws : list Z) : list Z :=
  match fuel with
  | O => st
  | S fuel =>
      match ws with
      | [] => st
      | _ => blocks fuel (compress st (take 16 ws)) (drop 16 ws)
      end
  end.

Definition be_bytes (n : nat) (z : Z) : list Z :=
  map (fun i => Z.shiftr z (8 * Z.of_nat i) mod 256) (reverse (seq 0 n)).

Definition pad (bs : list Z) : list Z :=
  let len := Z.of_nat (length bs) in
  bs ++ [128] ++ repeat 0 (Z.to_nat ((55 - len) mod 64)) ++ be_bytes 8 (len * 8).

Definition digest (bs : list ascii) : list Z :=
  let p := pad (map (fun a => Z.of_N (N_of_ascii a)) bs) in
  let ws := words_of (length p) p in
  concat (map (be_bytes 4) (blocks (length ws) H0 ws)).

(** [hex.EncodeToString(hasher.Sum(nil))]. *)
Definition sum_hex (bs : list ascii) : string :=
  hex_EncodeToString (map byte_of (digest bs)).

End Sha256.

(** The test vectors of FIPS 180-4. *)
Example sha256_empty :
  Sha256.sum_hex [] = "e3b0c44298fc1c149afbf4c8996fb92427ae41e4649b934ca495991b7852b855".
Proof. vm_compute. reflexivity. Qed.
Example sha256_abc :
  Sha256.sum_hex (String.list_ascii_of_string "abc") =
  "ba7816bf8f01cfea414140de5dae2223b00361a396177a9cb410ff61f20015ad".
Proof. vm_compute. reflexivity. Qed.
Example sha256_two_blocks :
  Sha256.sum_hex (String.list_ascii_of_string
    "abcdbcdecdefdefgefghfghighijhijkijkljklmklmnlmnomnopnopq") =
  "248d6a61d20638b8e5c026930c3e6039a33ce45964ff2167f6ecedd419db06c1".
Proof. vm_compute. reflexivity. Qed.
