(* ===== verification/Metrics.v ===== *)
(** * The metrics registry ([internal/observability/metrics.go])

    A fixed set of 64-bit atomic counters and gauges, rendered in the
    Prometheus text format.  A field of the Go struct is a constructor here;
    the registry maps each to its value.  [float64] arithmetic in the
    rendering of durations is done exactly on integers. *)
From S2P Require Import Prelude GoStrings Errors.
Open Scope string_scope.
Open Scope list_scope.
Open Scope Z_scope.

Inductive counter : Set :=
  | FTPConnectionsTotal | FTPAuthAttemptsTotal | FTPAuthFailuresTotal | FTPCommandsTotal
  | FTPSessionDurationMillisSum | FTPSessionDurationCount
  | TransferTotal | TransferBytesTotal | TransferFailuresTotal
  | TransferDurationMillisSum | TransferDurationCount
  | SFTPConnectionFailuresTotal
  | SFTPOperationDurationMillisSum | SFTPOperationDurationCount
  | RateLimitRejectionsTotal.

Inductive gauge : Set :=
  | FTPConnectionsActive | TransferActive | SFTPConnectionsActive | TemporaryFilesPending.

#[export] Instance counter_eq_dec : EqDecision counter.
Proof. solve_decision. Defined.
#[export] Instance gauge_eq_dec : EqDecision gauge.
Proof. solve_decision. Defined.

(** Counters hold a [uint64], gauges an [int64]. *)
Record Metrics := MkMetrics { cval : counter -> Z; gval : gauge -> Z }.

Definition NewMetrics : Metrics := MkMetrics (fun _ => 0) (fun _ => 0).

(** [Counter.Add] and [Inc]; [Gauge.Set], [Inc] and [Dec]. *)
Definition Counter_Add (c : counter) (n : Z) (m : Metrics) : Metrics :=
  MkMetrics (fun c' => if decide (c' = c) then wrapu64 (cval m c + n) else cval m c') (gval m).
Definition Counter_Inc (c : counter) : Metrics -> Metrics := Counter_Add c 1.
Definition Gauge_Set (g : gauge) (n : Z) (m : Metrics) : Metrics :=
  MkMetrics (cval m) (fun g' => if decide (g' = g) then n else gval m g').
Definition Gauge_Inc (g : gauge) (m : Metrics) : Metrics := Gauge_Set g (wrap64 (gval m g + 1)) m.
Definition Gauge_Dec (g : gauge) (m : Metrics) : Metrics := Gauge_Set g (wrap64 (gval m g - 1)) m.

(** ** Rendering *)

(** Division rounded to the nearest integer, ties to even. *)
Definition div_even (a b : Z) : Z :=
  let q := a / b in
  let r := a mod b in
  if 2 * r <? b then q
  else if b <? 2 * r then q + 1
  else if Z.even q then q else q + 1.

(** The [float64] nearest to [a/b] for positive [a] and [b], as a pair
    [(m, e)] standing for [m * 2^e]: 53 bits of precision, ties to even. *)
Definition float_div (a b : Z) : Z * Z :=
  let e := Z.log2 a - Z.log2 b - 53 in
  let scaled e := if 0 <=? e then div_even a (b * 2 ^ e) else div_even (a * 2 ^ (- e)) b in
  let e := if scaled e <? 2 ^ 53 then e else e + 1 in
  (scaled e, e).

(** [fmt.Sprintf("%.3f", x)] for a non-negative [x = m * 2^e]: thousandths,
    rounded to even, and their decimal digits. *)
Definition thousandths (x : Z * Z) : Z :=
  let '(m, e) := x in
  if 0 <=? e then m * 2 ^ e * 1000 else div_even (m * 1000) (2 ^ (- e)).

Definition fmt_3f (t : Z) : string :=
  let frac := fmt_d (t mod 1000) in
  let pad := if t mod 1000 <? 10 then "00" else if t mod 1000 <? 100 then "0" else "" in
  fmt_d (t / 1000) +:+ "." +:+ pad +:+ frac.

(** [float64(millis)/1000.0]: the conversion rounds, then the division. *)
Definition millisToSeconds (millis : Z) : string :=
  if millis =? 0 then "0.000"
  else
    let '(m, e) := float_div millis 1 in
    fmt_3f (thousandths (if 0 <=? e then float_div (m * 2 ^ e) 1000
                         else float_div m (1000 * 2 ^ (- e)))).

Record line := MkLine { l_name : string; l_help : string; l_typ : string; l_value : string }.

Definition lines (m : Metrics) : list line :=
  let u c := fmt_d (cval m c) in
  let i g := fmt_d (gval m g) in
  let ms c := millisToSeconds (cval m c) in
  [ MkLine "ftp_connections_total" "Total FTP control connections accepted." "counter" (u FTPConnectionsTotal);
    MkLine "ftp_connections_active" "FTP control connections currently open." "gauge" (i FTPConnectionsActive);
    MkLine "ftp_auth_attempts_total" "Total FTP authentication attempts." "counter" (u FTPAuthAttemptsTotal);
    MkLine "ftp_auth_failures_total" "Total failed FTP authentication attempts." "counter" (u FTPAuthFailuresTotal);
    MkLine "ftp_commands_total" "Total FTP commands processed." "counter" (u FTPCommandsTotal);
    MkLine "ftp_sessions_duration_seconds_sum" "Sum of FTP session durations." "counter" (ms FTPSessionDurationMillisSum);
    MkLine "ftp_sessions_duration_seconds_count" "Count of completed FTP sessions." "counter" (u FTPSessionDurationCount);
    MkLine "transfer_total" "Total transfers attempted (STOR+RETR)." "counter" (u TransferTotal);
    MkLine "transfer_active" "Transfers currently in flight." "gauge" (i TransferActive);
    MkLine "transfer_bytes_total" "Total bytes transferred." "counter" (u TransferBytesTotal);
    MkLine "transfer_duration_seconds_sum" "Sum of transfer durations." "counter" (ms TransferDurationMillisSum);
    MkLine "transfer_duration_seconds_count" "Count of completed transfers." "counter" (u TransferDurationCount);
    MkLine "transfer_failures_total" "Total failed transfers." "counter" (u TransferFailuresTotal);
    MkLine "sftp_connections_active" "SFTP/SSH connections currently open." "gauge" (i SFTPConnectionsActive);
    MkLine "sftp_connection_failures_total" "Total failed SFTP/SSH connection attempts." "counter" (u SFTPConnectionFailuresTotal);
    MkLine "sftp_operation_duration_seconds_sum" "Sum of SFTP operation durations." "counter" (ms SFTPOperationDurationMillisSum);
    MkLine "sftp_operation_duration_seconds_count" "Count of completed SFTP operations." "counter" (u SFTPOperationDurationCount);
    MkLine "temporary_files_pending" "Temporary upload files not yet committed or cleaned up." "gauge" (i TemporaryFilesPending);
    MkLine "rate_limit_rejections_total" "Total authentication attempts rejected by rate limiting." "counter" (u RateLimitRejectionsTotal) ].

Definition nl : string := String newline "".

Definition format (l : line) : string :=
  "# HELP " +:+ l_name l +:+ " " +:+ l_help l +:+ nl +:+
  "# TYPE " +:+ l_name l +:+ " " +:+ l_typ l +:+ nl +:+
  l_name l +:+ " " +:+ l_value l +:+ nl.

Section write.
(** The [io.Writer]: one [Write] per line, which may fail. *)
Context {W : Type} (write : string -> M W (option error)).

Fixpoint write_lines (ls : list line) : M W (option error) :=
  match ls with
  | [] => ret None
  | l :: ls =>
      let* err := write (format l) in
      match err with Some e => ret (Some e) | None => write_lines ls end
  end.

Definition WriteText (m : Metrics) : M W (option error) := write_lines (lines m).
End write.

Example millis_1500 : millisToSeconds 1500 = "1.500".
Proof. reflexivity. Qed.
Example millis_huge : millisToSeconds 18446744073709551615 = "18446744073709552.000".
Proof. reflexivity. Qed.

(** ** Durations are rendered exactly *)

Lemma div_even_spec a b : 0 < b -> Z.abs (2 * (div_even a b * b - a)) <= b.
Proof.
  intros Hb. unfold div_even. pose proof (Z.div_mod a b ltac:(lia)).
  pose proof (Z.mod_pos_bound a b Hb).
  destruct (2 * (a mod b) <? b) eqn:E1; bool_to_prop; [nia|].
  destruct (b <? 2 * (a mod b)) eqn:E2; bool_to_prop; [nia|].
  destruct (Z.even (a / b)); nia.
Qed.

Lemma div_even_near a b n : 0 < b -> Z.abs (2 * (n * b - a)) < b -> div_even a b = n.
Proof.
  intros Hb Hn. pose proof (div_even_spec a b Hb) as Hd.
  set (q := div_even a b) in *. clearbody q.
  assert (Z.abs ((q - n) * b) < b) as H by lia. rewrite Z.abs_mul in H. nia.
Qed.

Lemma div_even_exact a b : 0 < b -> div_even (a * b) b = a.
Proof. intros Hb. apply div_even_near; [done|]. rewrite Z.sub_diag. lia. Qed.

(** [float_div] below one: the error bound and the exponent. *)
Lemma float_div_spec a b m e :
  0 < a -> 0 < b -> Z.log2 a - Z.log2 b <= 41 -> float_div a b = (m, e) ->
  e <= -11 /\ Z.abs (2 * (m * b - a * 2 ^ (- e))) <= b.
Proof.
  intros Ha Hb Hl. unfold float_div. set (e0 := Z.log2 a - Z.log2 b - 53).
  assert (forall e', e' <= -11 ->
    Z.abs (2 * ((if 0 <=? e' then div_even a (b * 2 ^ e') else div_even (a * 2 ^ (- e')) b) * b
                - a * 2 ^ (- e'))) <= b) as Hs.
  { intros e' He'. destruct (0 <=? e') eqn:E; bool_to_prop; [lia|]. by apply div_even_spec. }
  assert (e0 + 1 <= -11) by (subst e0; lia).
  destruct (_ <? 2 ^ 53); intros [= <- <-]; (split; [lia|]); apply Hs; lia.
Qed.

Lemma thousandths_spec a b n m e :
  0 < b -> 0 < a -> a * 1000 = n * b -> Z.log2 a - Z.log2 b <= 41 -> float_div a b = (m, e) ->
  thousandths (m, e) = n.
Proof.
  intros Hb Ha Hn Hl Hf. destruct (float_div_spec a b m e Ha Hb Hl Hf) as [He Hm].
  unfold thousandths. destruct (0 <=? e) eqn:E; bool_to_prop; [lia|].
  assert (2 ^ 11 <= 2 ^ (- e)) as H2 by (apply Z.pow_le_mono_r; lia).
  change (2 ^ 11) with 2048 in H2.
  assert (Z.abs (2 * (n * 2 ^ (- e) - m * 1000)) <= 1000) as Hfin.
  { set (p := 2 ^ (- e)) in *. clearbody p. clear E Hf Hl He.
    assert (Z.abs (2 * (n * p - m * 1000)) * b <= 1000 * b); [|nia].
    rewrite <- (Z.abs_eq b) at 1 by lia. rewrite <- Z.abs_mul.
    replace (2 * (n * p - m * 1000) * b) with (- (1000 * (2 * (m * b - a * p)))); [lia|].
    replace (2 * (n * p - m * 1000) * b) with (2 * (n * b) * p - 2 * m * 1000 * b) by ring.
    rewrite <- Hn. ring. }
  apply div_even_near; lia.
Qed.

(** The exposition of a duration is exact: below 2^50 milliseconds the
    two float roundings of [float64(millis)/1000.0] and the rounding of
    [%.3f] never show: the seconds, a point, and three digits of
    milliseconds are printed. *)
Theorem millisToSeconds_exact n : 0 <= n < 2 ^ 50 -> millisToSeconds n = fmt_3f n.
Proof.
  intros [H0 Hn]. unfold millisToSeconds. destruct (n =? 0) eqn:E; bool_to_prop; [by subst|].
  assert (Z.log2 n < 50) as Hl by (apply Z.log2_lt_pow2; lia).
  assert (exists k, 0 < k /\ float_div n 1 = (n * 2 ^ k, - k)) as (k & Hk & ->).
  { unfold float_div. change (Z.log2 1) with 0. set (e0 := Z.log2 n - 0 - 53).
    assert (forall e', e' < 0 ->
      (if 0 <=? e' then div_even n (1 * 2 ^ e') else div_even (n * 2 ^ (- e')) 1) = n * 2 ^ (- e')) as Hs.
    { intros e' He'. destruct (0 <=? e') eqn:E'; bool_to_prop; [lia|].
      rewrite <- (Z.mul_1_r (n * 2 ^ (- e'))) at 1. by apply div_even_exact. }
    assert (e0 + 1 < 0) by (subst e0; lia).
    destruct (_ <? 2 ^ 53); rewrite Hs by lia.
    - exists (- e0). rewrite Z.opp_involutive. split; [lia|done].
    - exists (- (e0 + 1)). rewrite Z.opp_involutive. split; [lia|done]. }
  assert (0 < 2 ^ k) as Hp by (apply Z.pow_pos_nonneg; lia).
  destruct (0 <=? - k) eqn:E'; bool_to_prop; [lia|]. rewrite Z.opp_involutive.
  destruct (float_div (n * 2 ^ k) (1000 * 2 ^ k)) as [m e] eqn:Hf. f_equal.
  eapply (thousandths_spec (n * 2 ^ k) (1000 * 2 ^ k)); [nia|nia|ring| |exact Hf].
  rewrite !Z.log2_mul_pow2 by lia. change (Z.log2 1000) with 9. lia.
Qed.

Lemma millisToSeconds_exact_witness : millisToSeconds 90061 = "90.061".
Proof. rewrite (millisToSeconds_exact 90061); [reflexivity|lia]. Defined.

(** [WriteText] writes every metric once, under its own name, in order,
    and stops at the first failure of the writer: whatever the writer does
    with each line, it is given a prefix of the lines, all of them if none
    fails, and the error returned is the writer's. *)
Theorem WriteText_renders {W} (write : string -> M W (option error)) (out : W -> list string) m w :
  (forall s w, out (write s w).2 = out w ++ [s]) ->
  NoDup (l_name <$> lines m) /\
  exists k, out (WriteText write m w).2 = out w ++ take k (format <$> lines m) /\
    ((WriteText write m w).1 = None -> k = length (lines m)) /\
    (forall e, (WriteText write m w).1 = Some e ->
       (k <= length (lines m))%nat /\ exists s w1, (write s w1).1 = Some e).
Proof.
  intros Hout. split; [decided|].
  unfold WriteText. generalize (lines m) as ls. intros ls. revert w.
  induction ls as [|l ls IH]; intros w; simpl.
  { exists 0%nat. simpl. by rewrite app_nil_r. }
  unfold bind. pose proof (Hout (format l) w) as Ho.
  destruct (write (format l) w) as [[e|] w1] eqn:E; simpl in *.
  - exists 1%nat. simpl. rewrite take_0. split_and!; [done|done|].
    intros e' [= <-]. split; [lia|]. exists (format l), w. by rewrite E.
  - destruct (IH w1) as (k & H1 & H2 & H3). exists (S k). simpl.
    rewrite H1, Ho, <- (assoc_L app). split_and!; [done|naive_solver|].
    intros e' He'. destruct (H3 e' He'). split; [lia|done].
Qed.

Lemma WriteText_renders_witness :
  NoDup (l_name <$> lines NewMetrics) /\
  (WriteText (fun s w => (None, w ++ [s])) NewMetrics []).2 = format <$> lines NewMetrics.
Proof.
  destruct (WriteText_renders (fun s (w : list string) => (@None error, w ++ [s])) id NewMetrics []
              ltac:(done)) as (Hnd & k & Hk & Hn & _).
  split; [exact Hnd|].
  rewrite (Hn ltac:(vm_compute; reflexivity)) in Hk. exact Hk.
Defined.
