(* ===== verification/Observability.v ===== *)
(** * Correlation identifiers and the logs ([internal/observability])

    [NewCorrelationID] (id.go), the loggers (logger.go) and the redaction of
    FTP command lines (protocol_logger.go).  Of [log/slog] there are records,
    levels and handlers with the attributes and groups given to them; how a
    handler formats a record is not modelled. *)
From S2P Require Import Prelude GoStrings Errors.
From Stdlib Require Import Ascii.
Open Scope string_scope.
Open Scope list_scope.
Open Scope Z_scope.

(** ** id.go *)

(** What one call reads: eight bytes of [crypto/rand], or nothing if it
    fails, and then the clock. *)
Record Entropy := MkEntropy { rand_Read : option (list ascii); UnixNano : Z }.

(** [fmt.Sprintf("%x", n)] of an [int64]. *)
Definition fmt_hex (n : Z) : string := if n <? 0 then "-" +:+ fmt_x (- n) else fmt_x n.

(** The state is [fallbackCounter], an [atomic.Uint64]. *)
Definition NewCorrelationID (e : Entropy) : M Z string := fun counter =>
  match rand_Read e with
  | Some buf => (hex_EncodeToString buf, counter)
  | None =>
      let counter := wrapu64 (counter + 1) in
      ("f" +:+ fmt_hex (UnixNano e) +:+ fmt_x counter, counter)
  end.

(** ** logger.go *)

Inductive Level : Set := LevelDebug | LevelInfo | LevelWarn | LevelError.

Definition parseLevel (level : string) : Level :=
  if (level =? "debug")%string then LevelDebug
  else if (level =? "warn")%string then LevelWarn
  else if (level =? "error")%string then LevelError
  else LevelInfo.

(** The attribute values the program logs. *)
Inductive Value := VString (s : string) | VInt (n : Z).

Record LogRecord := MkRecord { Lvl : Level; Message : string; Attrs : list (string * Value) }.

(** ** protocol_logger.go *)

Definition sensitiveCommands : list string := ["PASS"].

(** [strings.EqualFold(s, t)] where [t] is ASCII: besides the letters, the
    long s (C5 BF) folds to "s" and the Kelvin sign (E2 84 AA) to "k". *)
Definition fold_ascii (c : ascii) : ascii :=
  let n := Z.of_N (N_of_ascii c) in
  if (65 <=? n) && (n <=? 90) then byte_of (n + 32) else c.

Fixpoint EqualFold (s t : string) : bool :=
  match t, s with
  | EmptyString, EmptyString => true
  | String c t, String a s =>
      (Ascii.eqb (fold_ascii a) (fold_ascii c) && EqualFold s t) ||
      (Ascii.eqb (fold_ascii c) "s" && Ascii.eqb a (byte_of 197) &&
       match s with String b s => Ascii.eqb b (byte_of 191) && EqualFold s t | _ => false end) ||
      (Ascii.eqb (fold_ascii c) "k" && Ascii.eqb a (byte_of 226) &&
       match s with
       | String b (String d s) => Ascii.eqb b (byte_of 132) && Ascii.eqb d (byte_of 170) && EqualFold s t
       | _ => false
       end)
  | _, _ => false
  end.

(** [unicode.IsSpace], as the UTF-8 encodings of the spaces. *)
Definition space_codes : list (list Z) :=
  [[9]; [10]; [11]; [12]; [13]; [32]; [194; 133]; [194; 160]; [225; 154; 128]] ++
  ((fun b => [226; 128; b]) <$> [128; 129; 130; 131; 132; 133; 134; 135; 136; 137; 138; 168; 169; 175]) ++
  [[226; 129; 159]; [227; 128; 128]].

Definition bytes_string (l : list Z) : string := String.string_of_list_ascii (byte_of <$> l).
Definition spaces : list string := bytes_string <$> space_codes.

Definition rev_string (s : string) : string :=
  String.string_of_list_ascii (reverse (String.list_ascii_of_string s)).

(** [strings.TrimSpace]: encodings are self-delimiting, so the spaces at the
    end are those of the reversed string with the codes reversed. *)
Fixpoint trim_left (fuel : nat) (codes : list string) (s : string) : string :=
  match fuel with
  | O => s
  | S fuel =>
      match filter (fun p => HasPrefix s p = true) codes with
      | p :: _ => trim_left fuel codes (TrimPrefix s p)
      | [] => s
      end
  end.

Definition TrimLeftSpace (s : string) : string := trim_left (String.length s) spaces s.
Definition TrimRightSpace (s : string) : string :=
  rev_string (trim_left (String.length s) (rev_string <$> spaces) (rev_string s)).
Definition TrimSpace (s : string) : string := TrimRightSpace (TrimLeftSpace s).

Fixpoint redact_loop (cmds : list string) (line trimmed : string) : string :=
  match cmds with
  | [] => line
  | cmd :: cmds =>
      if EqualFold trimmed cmd then cmd
      else
        let prefix := cmd +:+ " " in
        if (Z.of_nat (String.length prefix) <? Z.of_nat (String.length trimmed)) &&
           EqualFold (String.substring 0 (String.length prefix) trimmed) prefix
        then cmd +:+ " ***REDACTED***"
        else redact_loop cmds line trimmed
  end.

Definition redactIfSensitive (line : string) : string :=
  redact_loop sensitiveCommands line (TrimSpace line).

(** [a.Value.String()]. *)
Definition Value_String (v : Value) : string :=
  match v with VString s => s | VInt n => fmt_d n end.

Definition redactLineAttr (r : LogRecord) : LogRecord :=
  MkRecord (Lvl r) (Message r)
    ((fun a => if (fst a =? "line")%string
               then ("line", VString (redactIfSensitive (Value_String (snd a)))) else a) <$> Attrs r).

(** [redactingHandler.Handle]: what is passed to the next handler. *)
Definition Handle (r : LogRecord) : LogRecord :=
  if (Message r =? "Received line")%string || (Message r =? "Sending answer")%string
  then redactLineAttr r else r.

(** *** Handlers

    A handler of [slog]: the one a logger is built on, with its level, its
    format, and the attributes and groups given to it beforehand, or the
    redacting wrapper around another. *)
Inductive Handler :=
  | Base (min : Level) (text : bool) (given : list (list string * (string * Value))) (groups : list string)
  | Redacting (next : Handler).

Definition level_rank (l : Level) : Z :=
  match l with LevelDebug => -4 | LevelInfo => 0 | LevelWarn => 4 | LevelError => 8 end.

Fixpoint Enabled (h : Handler) (lvl : Level) : bool :=
  match h with
  | Base min _ _ _ => level_rank min <=? level_rank lvl
  | Redacting next => Enabled next lvl
  end.

(** What is formatted and written out. *)
Record Output := MkOutput {
  as_text : bool; given_attrs : list (list string * (string * Value)); in_groups : list string;
  record : LogRecord;
}.

Fixpoint handle (h : Handler) (r : LogRecord) : Output :=
  match h with
  | Base _ text given groups => MkOutput text given groups r
  | Redacting next => handle next (Handle r)
  end.

Fixpoint WithAttrs (h : Handler) (attrs : list (string * Value)) : Handler :=
  match h with
  | Base min text given groups => Base min text (given ++ (pair groups <$> attrs)) groups
  | Redacting next => Redacting (WithAttrs next attrs)
  end.

Fixpoint WithGroup (h : Handler) (name : string) : Handler :=
  match h with
  | Base min text given groups => Base min text given (groups ++ [name])
  | Redacting next => Redacting (WithGroup next name)
  end.

Definition WrapRedacting (next : Handler) : Handler := Redacting next.

Definition NewLogger (logFormat logLevel : string) : Handler :=
  Base (parseLevel logLevel) (logFormat =? "text")%string [] [].
Definition NewProtocolLogger (logFormat logLevel : string) : Handler :=
  WrapRedacting (NewLogger logFormat logLevel).

(** A logging call: nothing if the level is off. *)
Definition Log (h : Handler) (lvl : Level) (msg : string) (attrs : list (string * Value)) : list Output :=
  if Enabled h lvl then [handle h (MkRecord lvl msg attrs)] else [].

(** The loggers the FTP library can derive from the one it is given. *)
Inductive derived (h : Handler) : Handler -> Prop :=
  | derived_here : derived h h
  | derived_attrs h' attrs : derived h h' -> derived h (WithAttrs h' attrs)
  | derived_group h' name : derived h h' -> derived h (WithGroup h' name).

Lemma derived_redacting next h :
  derived (Redacting next) h -> exists next', h = Redacting next' /\ derived next next'.
Proof.
  induction 1 as [|h' attrs _ (n & -> & Hn)|h' name _ (n & -> & Hn)].
  - exists next. split; [done|constructor].
  - eexists. split; [done|by constructor].
  - eexists. split; [done|by constructor].
Qed.

Example redact_1 : redactIfSensitive "  pAss hunter2 " = "PASS ***REDACTED***".
Proof. vm_compute. reflexivity. Qed.
Example redact_2 : redactIfSensitive "STOR pass word" = "STOR pass word".
Proof. vm_compute. reflexivity. Qed.

(** Only a blank ends the command word: after a tab the line is printed. *)
Example redact_tab : redactIfSensitive ("PASS" +:+ String "009" "secret") = "PASS" +:+ String "009" "secret".
Proof. vm_compute. reflexivity. Qed.

(** ** Redaction hides the password *)

Lemma trim_left_nil fuel codes s :
  Forall (fun p => HasPrefix s p = false) codes -> trim_left fuel codes s = s.
Proof.
  intros H. destruct fuel; simpl; [done|].
  destruct (filter _ codes) as [|p ps] eqn:E; [done|]. exfalso.
  assert (p ∈ filter (fun p => HasPrefix s p = true) codes) as Hp by (rewrite E; set_solver).
  apply list_elem_of_filter in Hp as [Hp Hin]. rewrite Forall_forall in H.
  by rewrite (H p Hin) in Hp.
Qed.

(** Codes of which none is a proper prefix of another. *)
Definition prefix_free (codes : list string) : bool :=
  forallb (fun p => negb (p =? "")%string &&
                    forallb (fun q => negb (HasPrefix p q) || (p =? q)%string) codes) codes.

Lemma HasPrefix_either s p q :
  HasPrefix s p = true -> HasPrefix s q = true -> HasPrefix p q = true \/ HasPrefix q p = true.
Proof.
  intros [t ->]%HasPrefix_spec [u Hu]%HasPrefix_spec. revert q Hu.
  induction p as [|a p IH]; intros q Hu; [right; by apply HasPrefix_spec; eexists|].
  destruct q as [|b q]; [left; by apply HasPrefix_spec; eexists|].
  simpl in Hu. injection Hu as <- Hu. destruct (IH q Hu) as [(x & ->)%HasPrefix_spec|(x & ->)%HasPrefix_spec].
  - left. apply HasPrefix_spec. by exists x.
  - right. apply HasPrefix_spec. by exists x.
Qed.

Lemma trim_left_code fuel codes p s :
  prefix_free codes = true -> p ∈ codes ->
  trim_left (S fuel) codes (p +:+ s) = trim_left fuel codes s.
Proof.
  intros Hpf Hp. simpl. unfold prefix_free in Hpf. rewrite forallb_forall in Hpf.
  destruct (filter _ codes) as [|q qs] eqn:E.
  { exfalso. apply (not_elem_of_nil p). rewrite <- E. apply list_elem_of_filter.
    by rewrite HasPrefix_app. }
  assert (q ∈ filter (fun q => HasPrefix (p +:+ s) q = true) codes) as Hq by (rewrite E; set_solver).
  apply list_elem_of_filter in Hq as [Hpre Hq].
  assert (forall x y, x ∈ codes -> y ∈ codes -> HasPrefix x y = true -> x = y) as Huniq.
  { intros x y Hx Hy Hxy. apply list_elem_of_In in Hx. specialize (Hpf x Hx).
    apply andb_prop in Hpf as [_ Hpf]. rewrite forallb_forall in Hpf.
    apply list_elem_of_In in Hy. specialize (Hpf y Hy). rewrite Hxy in Hpf. by apply String.eqb_eq in Hpf. }
  assert (q = p) as ->.
  { destruct (HasPrefix_either _ _ _ Hpre (HasPrefix_app p s)); [|symmetry]; by apply Huniq. }
  by rewrite TrimPrefix_app.
Qed.

Lemma spaces_prefix_free : prefix_free spaces = true.
Proof. by vm_compute. Qed.
Lemma rev_spaces_prefix_free : prefix_free (rev_string <$> spaces) = true.
Proof. by vm_compute. Qed.

Definition starts_with_space (codes : list string) (s : string) : bool :=
  existsb (HasPrefix s) codes.

Lemma starts_false codes s :
  starts_with_space codes s = false -> Forall (fun p => HasPrefix s p = false) codes.
Proof.
  intros H. apply Forall_forall. intros p Hp. apply not_true_iff_false. intros Ht.
  apply not_true_iff_false in H. apply H, existsb_exists. exists p.
  by rewrite <- list_elem_of_In.
Qed.

Definition concat_str (l : list string) : string := foldr String.append "" l.

(** Leading spaces go. *)
Lemma TrimLeftSpace_spec lead s :
  Forall (fun p => p ∈ spaces) lead -> starts_with_space spaces s = false ->
  TrimLeftSpace (concat_str lead +:+ s) = s.
Proof.
  intros Hl Hs. unfold TrimLeftSpace.
  assert (length lead <= String.length (concat_str lead +:+ s))%nat as Hf.
  { rewrite str_length_app. clear Hs. induction Hl as [|p lead Hp Hl IH]; simpl; [lia|].
    rewrite str_length_app. assert (p <> ""); [|by destruct p; simpl; [done|lia]].
    pose proof spaces_prefix_free as Hall. unfold prefix_free in Hall.
    rewrite forallb_forall in Hall. apply list_elem_of_In in Hp.
    specialize (Hall p Hp). by bool_to_prop. }
  revert Hf. generalize (String.length (concat_str lead +:+ s)) as fuel.
  induction Hl as [|p lead Hp Hl IH]; intros fuel Hf; simpl in *.
  { by apply trim_left_nil, starts_false. }
  destruct fuel as [|fuel]; [lia|]. rewrite <- str_app_assoc.
  rewrite trim_left_code; [|apply spaces_prefix_free|done]. apply IH. lia.
Qed.

Lemma list_ascii_app s t :
  String.list_ascii_of_string (s +:+ t)
  = String.list_ascii_of_string s ++ String.list_ascii_of_string t.
Proof. induction s as [|a s IH]; simpl; [done|by rewrite IH]. Qed.

Lemma string_of_list_app l k :
  String.string_of_list_ascii (l ++ k)
  = String.string_of_list_ascii l +:+ String.string_of_list_ascii k.
Proof. induction l as [|a l IH]; simpl; [done|by rewrite IH]. Qed.

Lemma rev_string_app s t : rev_string (s +:+ t) = rev_string t +:+ rev_string s.
Proof. unfold rev_string. by rewrite list_ascii_app, reverse_app, string_of_list_app. Qed.

Lemma rev_string_involutive s : rev_string (rev_string s) = s.
Proof.
  unfold rev_string. rewrite String.list_ascii_of_string_of_list_ascii, reverse_involutive.
  apply String.string_of_list_ascii_of_string.
Qed.

Lemma rev_string_nil_inv s : rev_string s = "" -> s = "".
Proof. intros H. rewrite <- (rev_string_involutive s), H. done. Qed.

Lemma length_rev_string s : String.length (rev_string s) = String.length s.
Proof.
  unfold rev_string. rewrite <- (String.string_of_list_ascii_of_string s) at 2.
  assert (forall l, String.length (String.string_of_list_ascii l) = length l) as H.
  { induction l as [|a l IH]; simpl; congruence. }
  by rewrite !H, length_reverse.
Qed.

Lemma HasPrefix_before_sep p Y c X :
  ContainsByte p c = false -> HasPrefix (Y +:+ String c X) p = true -> HasPrefix Y p = true.
Proof.
  intros Hc [t H]%HasPrefix_spec. revert Y H.
  induction p as [|a p IH]; intros Y H; [by apply (HasPrefix_app "")|].
  simpl in Hc. apply orb_false_elim in Hc as [Ha Hc]. destruct Y as [|b Y]; simpl in H.
  - injection H as -> _. by rewrite Ascii.eqb_refl in Ha.
  - injection H as -> H. apply (IH Hc) in H as (u & ->)%HasPrefix_spec.
    apply HasPrefix_spec. by exists u.
Qed.

(** The only space encoded with a blank byte is the blank. *)
Lemma rev_spaces_blank :
  Forall (fun p => p = " " \/ ContainsByte p " " = false) (rev_string <$> spaces).
Proof.
  assert (forallb (fun p => (p =? " ")%string || negb (ContainsByte p " "))
            (rev_string <$> spaces) = true) as H by by vm_compute.
  rewrite forallb_forall in H. apply Forall_forall. intros p Hp. apply list_elem_of_In in Hp.
  apply H, orb_prop in Hp as [Hp|Hp]; bool_to_prop; auto.
Qed.

Lemma trim_tail fuel Y X :
  starts_with_space (rev_string <$> spaces) X = false ->
  (String.length Y < fuel)%nat ->
  trim_left fuel (rev_string <$> spaces) (Y +:+ String " " X) = X \/
  exists Y', Y' <> "" /\ trim_left fuel (rev_string <$> spaces) (Y +:+ String " " X) = Y' +:+ String " " X.
Proof.
  intros HX. revert Y. induction fuel as [|fuel IH]; intros Y Hf; [lia|].
  destruct (starts_with_space (rev_string <$> spaces) (Y +:+ String " " X)) eqn:E.
  2:{ right. exists Y. split; [|by apply trim_left_nil, starts_false].
      intros ->. revert E. unfold starts_with_space. apply not_false_iff_true.
      apply existsb_exists. exists " ". split; [by vm_compute; tauto|by apply (HasPrefix_app " ")]. }
  apply existsb_exists in E as (p & Hin & Hp). apply list_elem_of_In in Hin.
  pose proof rev_spaces_blank as Hb. rewrite Forall_forall in Hb.
  assert (Y = "" /\ p = " " \/ exists Y2, Y = p +:+ Y2) as [[-> ->]|[Y2 ->]].
  { destruct (Hb p Hin) as [->|Hnb].
    - destruct Y as [|a Y]; [by left|]. right. apply HasPrefix_spec in Hp as [t Hp].
      injection Hp as -> _. by exists Y.
    - right. apply HasPrefix_before_sep, HasPrefix_spec in Hp; done. }
  - left. change ("" +:+ String " " X) with (" " +:+ X).
    rewrite trim_left_code; [|apply rev_spaces_prefix_free|done].
    by apply trim_left_nil, starts_false.
  - rewrite <- str_app_assoc, trim_left_code; [|apply rev_spaces_prefix_free|done].
    apply IH. rewrite str_length_app in Hf.
    assert (p <> "") as Hne.
    { intros ->. pose proof rev_spaces_prefix_free as Hpf. unfold prefix_free in Hpf.
      rewrite forallb_forall in Hpf. apply list_elem_of_In in Hin.
      by specialize (Hpf "" Hin). }
    destruct p; [done|]. simpl in Hf. lia.
Qed.

(** A command word that FTP reads as PASS. *)
Definition is_pass (cmd : string) : Prop := String.length cmd = 4%nat /\ EqualFold cmd "PASS" = true.

Lemma is_pass_chars cmd :
  is_pass cmd -> exists a b c d, cmd = String a (String b (String c (String d ""))) /\
    fold_ascii a = "p"%char /\ fold_ascii b = "a"%char /\
    fold_ascii c = "s"%char /\ fold_ascii d = "s"%char.
Proof.
  intros [Hl He]. do 4 (destruct cmd as [|? cmd]; [done|]). destruct cmd; [|done].
  do 4 eexists. split; [done|]. simpl in He.
  repeat match goal with
  | H : context [Ascii.eqb ?x ?y] |- _ => destruct (Ascii.eqb_spec x y); simpl in H; try discriminate H
  end; done.
Qed.

Lemma fold_ascii_inv a :
  (fold_ascii a = "p"%char -> a = "p"%char \/ a = "P"%char) /\
  (fold_ascii a = "s"%char -> a = "s"%char \/ a = "S"%char).
Proof.
  destruct a as [[] [] [] [] [] [] [] []]; vm_compute; split; intros H;
    first [discriminate H|by left|by right].
Qed.

(** No letter of PASS starts a space, or ends one. *)
Lemma is_pass_no_space cmd rest :
  is_pass cmd ->
  starts_with_space spaces (cmd +:+ rest) = false /\
  starts_with_space (rev_string <$> spaces) (rev_string cmd) = false.
Proof.
  intros (a & b & c & d & -> & Ha & _ & _ & Hd)%is_pass_chars.
  apply fold_ascii_inv in Ha, Hd. split.
  - destruct Ha as [-> | ->]; by vm_compute.
  - unfold rev_string. simpl. destruct Hd as [-> | ->]; by vm_compute.
Qed.

Lemma EqualFold_pass cmd t :
  is_pass cmd -> EqualFold (cmd +:+ t) "PASS" = (t =? "")%string /\
                 EqualFold (cmd +:+ t) "PASS " = EqualFold t " ".
Proof.
  intros (a & b & c & d & -> & Ha & Hb & Hc & Hd)%is_pass_chars. simpl.
  rewrite Ha, Hb, Hc, Hd. simpl.
  assert (forall x y, fold_ascii x = y -> y <> byte_of 226 -> y <> byte_of 197 ->
            Ascii.eqb x (byte_of 197) = false) as Hn.
  { intros x y <- _ H. apply Ascii.eqb_neq. intros ->. by apply H. }
  rewrite (Hn c _ Hc), (Hn d _ Hd) by done. simpl. rewrite !orb_false_r. by destruct t.
Qed.

(** What trimming leaves of a PASS line. *)
Lemma TrimSpace_pass lead cmd pw :
  Forall (fun p => p ∈ spaces) lead -> is_pass cmd ->
  exists t, TrimSpace (concat_str lead +:+ cmd +:+ " " +:+ pw) = cmd +:+ t /\
            (t = "" \/ exists u, u <> "" /\ t = " " +:+ u).
Proof.
  intros Hlead Hcmd.
  destruct (is_pass_no_space cmd (" " +:+ pw) Hcmd) as [Hs _].
  destruct (is_pass_no_space cmd "" Hcmd) as [_ Hr].
  unfold TrimSpace. rewrite TrimLeftSpace_spec by done. unfold TrimRightSpace.
  rewrite !rev_string_app, <- str_app_assoc.
  change (rev_string " " +:+ rev_string cmd) with (String " " (rev_string cmd)).
  destruct (trim_tail (String.length (cmd +:+ " " +:+ pw)) (rev_string pw) (rev_string cmd) Hr)
    as [->|(Y & HY & ->)].
  - rewrite !str_length_app, length_rev_string. simpl. lia.
  - exists "". rewrite rev_string_involutive, str_app_nil_r. auto.
  - exists (" " +:+ rev_string Y). split.
    + change (String " " (rev_string cmd)) with (" " +:+ rev_string cmd).
      rewrite !rev_string_app, rev_string_involutive. by rewrite <- str_app_assoc.
    + right. exists (rev_string Y). split; [|done]. by intros H%rev_string_nil_inv.
Qed.

Lemma redact_pass lead cmd pw :
  Forall (fun p => p ∈ spaces) lead -> is_pass cmd ->
  redactIfSensitive (concat_str lead +:+ cmd +:+ " " +:+ pw) ∈ ["PASS"; "PASS ***REDACTED***"].
Proof.
  intros Hlead Hcmd. destruct (TrimSpace_pass lead cmd pw Hlead Hcmd) as (t & Ht & Hcase).
  unfold redactIfSensitive. rewrite Ht. simpl. destruct (EqualFold_pass cmd t Hcmd) as [-> _].
  destruct Hcase as [->|(u & Hu & ->)]; [simpl; by left|]. simpl.
  assert (String.length cmd = 4%nat) as Hlen by apply Hcmd.
  replace (5 <? _) with true.
  2:{ symmetry. apply Z.ltb_lt. rewrite !str_length_app, Hlen. destruct u; [done|]. simpl. lia. }
  replace (String.substring 0 5 (cmd +:+ String " " u)) with (cmd +:+ " ").
  2:{ do 4 (destruct cmd as [|? cmd]; [done|]). destruct cmd; [|done]. simpl. by destruct u. }
  simpl. destruct (EqualFold_pass cmd " " Hcmd) as [_ ->]. right. by left.
Qed.

(** The redacting handler rewrites the line attribute and nothing else. *)
Lemma Handle_line lvl msg pre post line :
  msg ∈ ["Received line"; "Sending answer"] ->
  Forall (fun a => fst a <> "line") pre -> Forall (fun a => fst a <> "line") post ->
  Handle (MkRecord lvl msg (pre ++ ("line", VString line) :: post)) =
    MkRecord lvl msg (pre ++ ("line", VString (redactIfSensitive line)) :: post).
Proof.
  intros Hmsg Hpre Hpost.
  assert (forall l : list (string * Value), Forall (fun a => fst a <> "line") l ->
    (fun a => if (fst a =? "line")%string
              then ("line", VString (redactIfSensitive (Value_String (snd a)))) else a) <$> l = l) as Hid.
  { intros l. induction 1 as [|x l Hx Hl IH]; [done|].
    rewrite fmap_cons, IH. apply String.eqb_neq in Hx. by rewrite Hx. }
  unfold Handle. rewrite (proj2 (orb_true_iff _ _)).
  2:{ simpl. apply list_elem_of_In in Hmsg. by destruct Hmsg as [<-|[<-|[]]]; [left|right]. }
  unfold redactLineAttr. simpl. rewrite fmap_app. simpl. by rewrite !Hid.
Qed.

(** C29. The password of a PASS command does not reach the protocol log.
    The logger given to the FTP library, and every logger it derives from it,
    prints for a line that is any white space, the word PASS however it is
    capitalised, a blank and any argument, exactly what the underlying
    handler prints for one of two fixed texts in its place. *)
Theorem Handle_hides_password format level h lvl msg pre lead cmd pw post :
  derived (NewProtocolLogger format level) h ->
  msg ∈ ["Received line"; "Sending answer"] ->
  Forall (fun a => fst a <> "line") pre -> Forall (fun a => fst a <> "line") post ->
  Forall (fun p => p ∈ spaces) lead -> is_pass cmd ->
  exists next shown,
    h = Redacting next /\ derived (NewLogger format level) next /\
    shown ∈ ["PASS"; "PASS ***REDACTED***"] /\
    Log h lvl msg (pre ++ ("line", VString (concat_str lead +:+ cmd +:+ " " +:+ pw)) :: post)
    = Log next lvl msg (pre ++ ("line", VString shown) :: post).
Proof.
  intros (next & -> & Hn)%derived_redacting Hmsg Hpre Hpost Hlead Hcmd.
  exists next, (redactIfSensitive (concat_str lead +:+ cmd +:+ " " +:+ pw)).
  split_and!; [done..|by apply redact_pass|]. unfold Log. simpl. by rewrite Handle_line.
Qed.

Lemma Handle_hides_password_witness :
  Log (WithGroup (NewProtocolLogger "json" "debug") "ftp") LevelDebug "Received line"
    [("line", VString " PaSs hunter2")]
  = [MkOutput false [] ["ftp"]
       (MkRecord LevelDebug "Received line" [("line", VString "PASS ***REDACTED***")])] /\
  exists next shown,
    WithGroup (NewProtocolLogger "json" "debug") "ftp" = Redacting next /\
    derived (NewLogger "json" "debug") next /\
    shown ∈ ["PASS"; "PASS ***REDACTED***"] /\
    Log (WithGroup (NewProtocolLogger "json" "debug") "ftp") LevelDebug "Received line"
      [("line", VString " PaSs hunter2")]
    = Log next LevelDebug "Received line" [("line", VString shown)].
Proof.
  split; [by vm_compute|].
  apply (Handle_hides_password "json" "debug" (WithGroup (NewProtocolLogger "json" "debug") "ftp")
    LevelDebug "Received line" [] [" "] "PaSs" "hunter2" []).
  - apply derived_group, derived_here.
  - by left.
  - constructor.
  - constructor.
  - apply Forall_singleton. apply list_elem_of_In. vm_compute. tauto.
  - by vm_compute.
Defined.

(** ** Identifiers are unique and safe in file names *)

Definition is_hex (c : ascii) : bool :=
  let n := Z.of_N (N_of_ascii c) in ((48 <=? n) && (n <=? 57)) || ((97 <=? n) && (n <=? 102)).

Fixpoint all_hex (s : string) : bool :=
  match s with EmptyString => true | String c t => is_hex c && all_hex t end.

Definition digit_value (c : ascii) : Z :=
  let n := Z.of_N (N_of_ascii c) in if n <=? 57 then n - 48 else n - 87.

(** The number a string of hexadecimal digits continues [v] to. *)
Fixpoint hex_value (v : Z) (s : string) : Z :=
  match s with EmptyString => v | String c t => hex_value (16 * v + digit_value c) t end.

Lemma hex_digit_ok d :
  0 <= d < 16 -> is_hex (hex_digit d) = true /\ digit_value (hex_digit d) = d.
Proof.
  intros Hd. rewrite <- (Z2Nat.id d) by lia. assert (Z.to_nat d < 16)%nat by lia.
  generalize dependent (Z.to_nat d). intros n Hn.
  do 16 (destruct n as [|n]; [by vm_compute|]). lia.
Qed.

Lemma all_hex_app s t : all_hex (s +:+ t) = all_hex s && all_hex t.
Proof. induction s as [|a s IH]; simpl; [done|]. by rewrite IH, andb_assoc. Qed.

Lemma all_hex_safe s : all_hex s = true -> ContainsByte s slash = false /\ ContainsByte s dash = false.
Proof.
  induction s as [|a s IH]; simpl; [done|]. intros [Ha Hs]%andb_prop.
  destruct (IH Hs) as [-> ->]. rewrite !orb_false_r.
  split; apply Ascii.eqb_neq; intros ->; by vm_compute in Ha.
Qed.

Lemma ascii_range a : 0 <= Z.of_N (N_of_ascii a) < 256.
Proof. pose proof (N_ascii_bounded a). lia. Qed.

Lemma hex_byte_ok b :
  all_hex (hex_byte b) = true /\ hex_value 0 (hex_byte b) = Z.of_N (N_of_ascii b).
Proof.
  pose proof (ascii_range b). unfold hex_byte. set (n := Z.of_N (N_of_ascii b)) in *.
  destruct (hex_digit_ok (n / 16)) as [H1 H2]; [split; [by apply Z.div_pos; lia|apply Z.div_lt_upper_bound; lia]|].
  destruct (hex_digit_ok (n mod 16)) as [H3 H4]; [by apply Z.mod_pos_bound|].
  simpl. rewrite H1, H3, H2, H4. split; [done|]. pose proof (Z.div_mod n 16). lia.
Qed.

Lemma hex_Encode_ok bs :
  all_hex (hex_EncodeToString bs) = true /\
  String.length (hex_EncodeToString bs) = (2 * length bs)%nat.
Proof.
  induction bs as [|b bs [IH1 IH2]]; [done|]. destruct (hex_byte_ok b) as [Hb _].
  cbn [hex_EncodeToString]. rewrite all_hex_app, Hb, IH1, str_length_app, IH2.
  split; [done|]. simpl. lia.
Qed.

Lemma hex_Encode_inj bs1 bs2 :
  hex_EncodeToString bs1 = hex_EncodeToString bs2 -> bs1 = bs2.
Proof.
  revert bs2. induction bs1 as [|b bs1 IH]; intros [|c bs2]; [done..|].
  cbn [hex_EncodeToString]. intros [Hb Hs]%str_app_inj_length; [|done].
  apply (f_equal (hex_value 0)) in Hb. rewrite !(proj2 (hex_byte_ok _)) in Hb.
  apply N2Z.inj in Hb. f_equal; [|by apply IH].
  by rewrite <- (ascii_N_embedding b), Hb, ascii_N_embedding.
Qed.

Lemma hex_digits_ok fuel n acc :
  0 <= n < 16 ^ Z.of_nat fuel -> all_hex acc = true -> fuel <> 0%nat ->
  all_hex (hex_digits fuel n acc) = true /\
  hex_value 0 (hex_digits fuel n acc) = hex_value n acc.
Proof.
  revert n acc. induction fuel as [|fuel IH]; intros n acc Hn Hacc Hf; [done|].
  cbn [hex_digits]. destruct (hex_digit_ok (n mod 16)) as [H1 H2]; [by apply Z.mod_pos_bound|].
  pose proof (Z.div_mod n 16 ltac:(lia)) as Hdm.
  assert (all_hex (String (hex_digit (n mod 16)) acc) = true) as Hacc' by (simpl; by rewrite H1).
  assert (hex_value (n / 16) (String (hex_digit (n mod 16)) acc) = hex_value n acc) as Hv.
  { simpl. rewrite H2. f_equal. lia. }
  destruct (n / 16 =? 0) eqn:E; bool_to_prop.
  - split; [done|]. by rewrite <- Hv, E.
  - rewrite <- Hv. rewrite Nat2Z.inj_succ, Z.pow_succ_r in Hn by lia.
    apply IH; [|done|].
    + split; [apply Z.div_pos; lia|]. apply Z.div_lt_upper_bound; lia.
    + intros ->. simpl in Hn. apply E, Z.div_small. lia.
Qed.

Lemma fmt_x_ok n :
  0 <= n < two64 -> all_hex (fmt_x n) = true /\ hex_value 0 (fmt_x n) = n.
Proof. intros Hn. by apply (hex_digits_ok 16 n ""). Qed.

Lemma hex_digits_length fuel n acc k :
  16 ^ Z.of_nat k <= n < 16 ^ Z.of_nat (S k) -> (k < fuel)%nat ->
  String.length (hex_digits fuel n acc) = (S k + String.length acc)%nat.
Proof.
  revert n acc k. induction fuel as [|fuel IH]; intros n acc k Hn Hf; [lia|].
  cbn [hex_digits]. destruct k as [|k].
  - assert (n / 16 = 0) as -> by (apply Z.div_small; simpl in Hn; lia). done.
  - rewrite !Nat2Z.inj_succ, !Z.pow_succ_r in Hn by lia.
    assert (16 ^ Z.of_nat k <= n / 16 < 16 ^ Z.of_nat (S k)) as Hd.
    { rewrite Nat2Z.inj_succ, Z.pow_succ_r by lia.
      split; [apply Z.div_le_lower_bound; lia|apply Z.div_lt_upper_bound; lia]. }
    assert (0 < 16 ^ Z.of_nat k) by (apply Z.pow_pos_nonneg; lia).
    destruct (n / 16 =? 0) eqn:E; bool_to_prop; [lia|].
    rewrite (IH _ _ k Hd ltac:(lia)). simpl. lia.
Qed.

Lemma hex_digits_hex fuel n acc : all_hex acc = true -> all_hex (hex_digits fuel n acc) = true.
Proof.
  revert n acc. induction fuel as [|fuel IH]; intros n acc Hacc; [done|]. cbn [hex_digits].
  destruct (hex_digit_ok (n mod 16)) as [H1 _]; [by apply Z.mod_pos_bound|].
  destruct (n / 16 =? 0); [|apply IH]; simpl; by rewrite H1.
Qed.

(** Whatever the clock and the random source say, no identifier has a "/". *)
Lemma NewCorrelationID_no_slash e c : ContainsByte (NewCorrelationID e c).1 slash = false.
Proof.
  unfold NewCorrelationID. destruct (rand_Read e) as [buf|]; simpl.
  - by apply all_hex_safe, hex_Encode_ok.
  - assert (forall n, ContainsByte (fmt_x n) slash = false) as Hx
      by (intros n; by apply all_hex_safe, hex_digits_hex).
    rewrite ContainsByte_app, Hx, orb_false_r. unfold fmt_hex.
    destruct (UnixNano e <? 0); [rewrite ContainsByte_app|]; by rewrite Hx.
Qed.

(** Correlation identifiers are safe as a file-name suffix and unique.
    An identifier is a non-empty word of letters and digits: it has no "/"
    and no "-".  Identifiers from the random source are equal only for equal
    random bytes; fallback identifiers, for any clock readings of the years
    2006 to 2262, are equal only for the same reading and the same value of
    the process-wide counter; and the two kinds never coincide. *)
Theorem NewCorrelationID_unique e1 e2 c1 c2 :
  (forall e buf, e = e1 \/ e = e2 -> rand_Read e = Some buf -> length buf = 8%nat) ->
  2 ^ 60 <= UnixNano e1 < 2 ^ 63 -> 2 ^ 60 <= UnixNano e2 < 2 ^ 63 ->
  let id1 := (NewCorrelationID e1 c1).1 in
  let id2 := (NewCorrelationID e2 c2).1 in
  (id1 <> "" /\ ContainsByte id1 slash = false /\ ContainsByte id1 dash = false) /\
  (id1 = id2 ->
     rand_Read e1 = rand_Read e2 /\
     (rand_Read e1 = None -> UnixNano e1 = UnixNano e2 /\ wrapu64 (c1 + 1) = wrapu64 (c2 + 1))).
Proof.
  intros Hbuf Hn1 Hn2. unfold NewCorrelationID, fmt_hex.
  rewrite !(proj2 (Z.ltb_ge (UnixNano _) 0)) by lia.
  pose proof (wrapu64_range (c1 + 1)) as Hc1. pose proof (wrapu64_range (c2 + 1)) as Hc2.
  assert (forall n, 2 ^ 60 <= n < 2 ^ 63 -> String.length (fmt_x n) = 16%nat) as Hlen.
  { intros n Hn. apply (hex_digits_length 16 n "" 15); simpl; lia. }
  destruct (fmt_x_ok (UnixNano e1)) as [Hh1 Hv1]; [unfold two64; lia|].
  destruct (fmt_x_ok (UnixNano e2)) as [Hh2 Hv2]; [unfold two64; lia|].
  destruct (fmt_x_ok _ Hc1) as [Hh3 Hv3]. destruct (fmt_x_ok _ Hc2) as [Hh4 Hv4].
  split.
  - destruct (rand_Read e1) as [buf|] eqn:E1; simpl.
    + destruct (hex_Encode_ok buf) as [Hhex Hl]. rewrite (Hbuf e1 buf) in Hl by auto.
      split; [|by apply all_hex_safe]. intros H. by rewrite H in Hl.
    + split; [done|].
      apply (all_hex_safe ("f" +:+ fmt_x (UnixNano e1) +:+ fmt_x (wrapu64 (c1 + 1)))).
      rewrite !all_hex_app, Hh1. by rewrite Hh3.
  - destruct (rand_Read e1) as [b1|] eqn:E1, (rand_Read e2) as [b2|] eqn:E2; simpl.
    + intros H%hex_Encode_inj. by subst.
    + intros H%(f_equal String.length). exfalso.
      rewrite (proj2 (hex_Encode_ok b1)), (Hbuf e1 b1) in H by auto.
      simpl in H. rewrite str_length_app, Hlen in H by done. simpl in H. lia.
    + intros H%(f_equal String.length). exfalso.
      rewrite (proj2 (hex_Encode_ok b2)), (Hbuf e2 b2) in H by auto.
      simpl in H. rewrite str_length_app, Hlen in H by done. simpl in H. lia.
    + intros H. injection H as H. split; [done|]. intros _.
      apply str_app_inj_length in H as [Ha Hb]; [|by rewrite !Hlen].
      rewrite <- Hv1, <- Hv2, <- Hv3, <- Hv4, Ha, Hb. done.
Qed.

Definition entropy_at (n : Z) : Entropy := MkEntropy None n.

Lemma NewCorrelationID_unique_witness :
  (NewCorrelationID (entropy_at (2 ^ 60)) 0).1 <> (NewCorrelationID (entropy_at (2 ^ 60)) 1).1.
Proof.
  intros H.
  destruct (NewCorrelationID_unique (entropy_at (2 ^ 60)) (entropy_at (2 ^ 60)) 0 1) as [_ Hu].
  - by intros e buf [-> | ->].
  - by vm_compute.
  - by vm_compute.
  - destruct (Hu H) as [_ [_ Hc]]; [reflexivity|]. discriminate Hc.
Defined.
