(* ===== verification/Config.v ===== *)
(** * Configuration ([internal/config])

    The schema as records, [applyDefaults], [Validate] with the list of
    problems it reports, and [Load].  What lies outside is a parameter: the
    file system ([os.Stat], [os.ReadFile]), the YAML decoder, [bcrypt.Cost],
    [time.ParseDuration] and the quoting verb [%q].  A struct's fields live in
    a module of its name, as the same field name occurs in several. *)
From S2P Require Import Prelude GoStrings Errors.
Open Scope string_scope.
Open Scope list_scope.
Open Scope Z_scope.

(** A [Duration] is a number of nanoseconds. *)
Definition Second : Z := 1000000000.
Definition Minute : Z := 60 * Second.

Module ServerConfig.
Record t := Mk {
  ListenAddress : string;
  ControlPort : Z;
  PassiveAddress : string;
  PassivePortStart : Z;
  PassivePortEnd : Z;
  MaxConnections : Z;
  IdleTimeout : Z;
  DataConnectionTimeout : Z;
  ShutdownTimeout : Z;
}.
End ServerConfig.

Module PermissionsConfig.
Record t := Mk {
  AllowUpload : bool;
  AllowDownload : bool;
  AllowDelete : bool;
  AllowMkdir : bool;
  AllowRename : bool;
  AllowOverwrite : bool;
}.
End PermissionsConfig.

Module SFTPTargetConfig.
Record t := Mk {
  Host : string;
  Port : Z;
  Username : string;
  PrivateKeyFile : string;
  PrivateKeyPassphraseFile : string;
  Password : string;
  KnownHostsFile : string;
  RootPath : string;
  ConnectTimeout : Z;
  ReadDirTimeout : Z;
}.
End SFTPTargetConfig.

Module UserConfig.
Record t := Mk {
  Username : string;
  PasswordHash : string;
  VirtualRoot : string;
  SFTP : SFTPTargetConfig.t;
  Permissions : PermissionsConfig.t;
  MaxFileSize : Z;
  MaxConcurrentTransfers : Z;
}.
End UserConfig.

Module TransferConfig.
Record t := Mk { BufferSize : Z; TemporarySuffix : string; CalculateSHA256 : bool }.
End TransferConfig.

Module ObservabilityConfig.
Record t := Mk { LogLevel : string; LogFormat : string }.
End ObservabilityConfig.

Module HealthConfig.
Record t := Mk { ListenAddress : string; ReadinessRequiresSFTP : bool }.
End HealthConfig.

Record Config := MkConfig {
  Server : ServerConfig.t;
  Users : list UserConfig.t;
  Transfer : TransferConfig.t;
  Observability : ObservabilityConfig.t;
  Health : HealthConfig.t;
}.

(** ** load.go *)

(** [if x == zero { x = d }]. *)
Definition orZ (x d : Z) : Z := if x =? 0 then d else x.
Definition orS (x d : string) : string := if (x =? "")%string then d else x.

Definition default_server (s : ServerConfig.t) : ServerConfig.t :=
  ServerConfig.Mk (ServerConfig.ListenAddress s) (ServerConfig.ControlPort s)
    (ServerConfig.PassiveAddress s) (ServerConfig.PassivePortStart s)
    (ServerConfig.PassivePortEnd s) (ServerConfig.MaxConnections s)
    (orZ (ServerConfig.IdleTimeout s) (5 * Minute))
    (orZ (ServerConfig.DataConnectionTimeout s) (30 * Second))
    (orZ (ServerConfig.ShutdownTimeout s) (15 * Second)).

Definition default_sftp (s : SFTPTargetConfig.t) : SFTPTargetConfig.t :=
  SFTPTargetConfig.Mk (SFTPTargetConfig.Host s) (orZ (SFTPTargetConfig.Port s) 22)
    (SFTPTargetConfig.Username s) (SFTPTargetConfig.PrivateKeyFile s)
    (SFTPTargetConfig.PrivateKeyPassphraseFile s) (SFTPTargetConfig.Password s)
    (SFTPTargetConfig.KnownHostsFile s) (SFTPTargetConfig.RootPath s)
    (orZ (SFTPTargetConfig.ConnectTimeout s) (10 * Second))
    (orZ (SFTPTargetConfig.ReadDirTimeout s) (60 * Second)).

Definition default_user (u : UserConfig.t) : UserConfig.t :=
  UserConfig.Mk (UserConfig.Username u) (UserConfig.PasswordHash u)
    (orS (UserConfig.VirtualRoot u) "/") (default_sftp (UserConfig.SFTP u))
    (UserConfig.Permissions u) (UserConfig.MaxFileSize u)
    (orZ (UserConfig.MaxConcurrentTransfers u) 4).

Definition default_transfer (t : TransferConfig.t) : TransferConfig.t :=
  TransferConfig.Mk (orZ (TransferConfig.BufferSize t) (64 * 1024))
    (orS (TransferConfig.TemporarySuffix t) ".part") (TransferConfig.CalculateSHA256 t).

Definition default_observability (o : ObservabilityConfig.t) : ObservabilityConfig.t :=
  ObservabilityConfig.Mk (orS (ObservabilityConfig.LogLevel o) "info")
    (orS (ObservabilityConfig.LogFormat o) "json").

Definition default_health (h : HealthConfig.t) : HealthConfig.t :=
  HealthConfig.Mk (orS (HealthConfig.ListenAddress h) ":8080")
    (HealthConfig.ReadinessRequiresSFTP h).

Definition applyDefaults (cfg : Config) : Config :=
  MkConfig (default_server (Server cfg)) (default_user <$> Users cfg)
    (default_transfer (Transfer cfg)) (default_observability (Observability cfg))
    (default_health (Health cfg)).

(** ** validate.go *)

(** [if c { problems = append(problems, msg) }]. *)
Definition problem (c : bool) (msg : string) : list string := if c then [msg] else [].

Definition validateServer (s : ServerConfig.t) : list string :=
  let start := ServerConfig.PassivePortStart s in
  let end_ := ServerConfig.PassivePortEnd s in
  let max := ServerConfig.MaxConnections s in
  problem (ServerConfig.ListenAddress s =? "")%string "server.listenAddress: es obligatorio" ++
  problem ((ServerConfig.ControlPort s <? 1) || (ServerConfig.ControlPort s >? 65535))
    "server.controlPort: debe estar entre 1 y 65535" ++
  problem (ServerConfig.PassiveAddress s =? "")%string
    "server.passiveAddress: es obligatorio (dirección anunciada en PASV/EPSV)" ++
  problem ((start <? 1) || (start >? 65535)) "server.passivePortStart: debe estar entre 1 y 65535" ++
  problem ((end_ <? 1) || (end_ >? 65535)) "server.passivePortEnd: debe estar entre 1 y 65535" ++
  (if (start >? 0) && (end_ >? 0) then
     if end_ <=? start then ["server.passivePortEnd: debe ser mayor que passivePortStart"]
     else
       let rangeSize := wrap64 (wrap64 (end_ - start) + 1) in
       problem (rangeSize <? max)
         ("server: el rango pasivo (" +:+ fmt_d rangeSize +:+ " puertos) es menor que maxConnections ("
          +:+ fmt_d max +:+ "); transferencias concurrentes fallarían por falta de puertos libres")
   else []) ++
  problem (max <? 1) "server.maxConnections: debe ser mayor que 0".

Definition validateTransfer (t : TransferConfig.t) : list string :=
  problem (TransferConfig.BufferSize t <? 4096)
    "transfer.bufferSize: debe ser de al menos 4096 bytes" ++
  problem (TransferConfig.TemporarySuffix t =? "")%string
    "transfer.temporarySuffix: no puede estar vacío".

Definition one_of (s : string) (l : list string) : bool := existsb (String.eqb s) l.

Section validate.
(** [fmt]'s [%q], [bcrypt.Cost] (nil or an error), and [os.Stat] with its
    [IsDir]. *)
Context (Quote : string -> string).
Context (bcrypt_Cost : string -> option error).
Context (os_Stat : string -> res bool).

Definition validateObservability (o : ObservabilityConfig.t) : list string :=
  problem (negb (one_of (ObservabilityConfig.LogFormat o) ["json"; "text"]))
    ("observability.logFormat: valor no soportado " +:+ Quote (ObservabilityConfig.LogFormat o)
     +:+ " (use json o text)") ++
  problem (negb (one_of (ObservabilityConfig.LogLevel o) ["debug"; "info"; "warn"; "error"]))
    ("observability.logLevel: valor no soportado " +:+ Quote (ObservabilityConfig.LogLevel o)
     +:+ " (use debug, info, warn o error)").

Definition validateSFTPTarget (prefix : string) (s : SFTPTargetConfig.t) : list string :=
  let kh := SFTPTargetConfig.KnownHostsFile s in
  let key := SFTPTargetConfig.PrivateKeyFile s in
  let hasKey := negb (key =? "")%string in
  let hasPassword := negb (SFTPTargetConfig.Password s =? "")%string in
  problem (SFTPTargetConfig.Host s =? "")%string (prefix +:+ ": sftp.host es obligatorio") ++
  problem ((SFTPTargetConfig.Port s <? 1) || (SFTPTargetConfig.Port s >? 65535))
    (prefix +:+ ": sftp.port debe estar entre 1 y 65535") ++
  problem (SFTPTargetConfig.Username s =? "")%string
    (prefix +:+ ": sftp.username es obligatorio") ++
  problem (negb (HasPrefix (SFTPTargetConfig.RootPath s) "/"))
    (prefix +:+ ": sftp.rootPath debe ser una ruta absoluta") ++
  (if (kh =? "")%string
   then [prefix +:+ ": sftp.knownHostsFile es obligatorio; está prohibido aceptar cualquier host key"]
   else match os_Stat kh with
        | Err err => [prefix +:+ ": sftp.knownHostsFile no accesible: " +:+ Error err]
        | Ok isDir => problem isDir (prefix +:+ ": sftp.knownHostsFile apunta a un directorio")
        end) ++
  (if negb hasKey && negb hasPassword
   then [prefix +:+ ": debe configurarse sftp.privateKeyFile o sftp.password"]
   else if hasKey && hasPassword
   then [prefix +:+ ": configure sftp.privateKeyFile o sftp.password, no ambos"]
   else if hasKey then
     match os_Stat key with
     | Err err => [prefix +:+ ": sftp.privateKeyFile no accesible: " +:+ Error err]
     | Ok isDir => problem isDir (prefix +:+ ": sftp.privateKeyFile apunta a un directorio")
     end
   else []).

Definition validateUser (i : Z) (u : UserConfig.t) : list string :=
  let prefix := "users[" +:+ fmt_d i +:+ "] (" +:+ UserConfig.Username u +:+ ")" in
  let hash := UserConfig.PasswordHash u in
  problem (UserConfig.Username u =? "")%string
    ("users[" +:+ fmt_d i +:+ "]: username es obligatorio") ++
  (if (hash =? "")%string then [prefix +:+ ": passwordHash es obligatorio"]
   else problem (bool_decide (is_Some (bcrypt_Cost hash)))
          (prefix +:+ ": passwordHash no es un hash bcrypt válido")) ++
  problem (negb (HasPrefix (UserConfig.VirtualRoot u) "/"))
    (prefix +:+ ": virtualRoot debe ser una ruta absoluta") ++
  problem (Contains (UserConfig.VirtualRoot u) "..")
    (prefix +:+ ": virtualRoot no puede contener '..'") ++
  problem (UserConfig.MaxFileSize u <=? 0) (prefix +:+ ": maxFileSize debe ser mayor que 0") ++
  problem (UserConfig.MaxConcurrentTransfers u <=? 0)
    (prefix +:+ ": maxConcurrentTransfers debe ser mayor que 0") ++
  validateSFTPTarget prefix (UserConfig.SFTP u).

(** The loop over the users, with the names seen so far. *)
Fixpoint validateUsers (i : Z) (seen : gset string) (us : list UserConfig.t) : list string :=
  match us with
  | [] => []
  | u :: us =>
      problem (bool_decide (UserConfig.Username u ∈ seen))
        ("users[" +:+ fmt_d i +:+ "]: usuario duplicado " +:+ Quote (UserConfig.Username u)) ++
      validateUser i u ++
      validateUsers (i + 1) ({[ UserConfig.Username u ]} ∪ seen) us
  end.

Definition problems (cfg : Config) : list string :=
  validateServer (Server cfg) ++ validateTransfer (Transfer cfg) ++
  validateObservability (Observability cfg) ++
  problem (Z.of_nat (length (Users cfg)) =? 0) "users: debe existir al menos un usuario FTP" ++
  validateUsers 0 ∅ (Users cfg).

Definition Validate (cfg : Config) : option error :=
  match problems cfg with
  | [] => None
  | ps => Some (EOther ("configuración inválida:" +:+ String newline "  - " +:+
                        Join ps (String newline "  - ")))
  end.

(** [os.ReadFile] and [yaml.Unmarshal] (into a zero [Config]). *)
Context (os_ReadFile : string -> res string).
Context (yaml_Unmarshal : string -> res Config).

Definition Load (path : string) : res Config :=
  match os_ReadFile path with
  | Err err => Err (EWrap ("leyendo archivo de configuración " +:+ Quote path +:+ ": " +:+ Error err) err)
  | Ok raw =>
      match yaml_Unmarshal raw with
      | Err err => Err (EWrap ("parseando configuración " +:+ Quote path +:+ ": " +:+ Error err) err)
      | Ok cfg =>
          let cfg := applyDefaults cfg in
          match Validate cfg with
          | Some err => Err err
          | None => Ok cfg
          end
      end
  end.

(** [Duration.UnmarshalYAML]: the decoder's callback yields a string. *)
Context (ParseDuration : string -> res Z).

Definition UnmarshalYAML (unmarshal : res string) : res Z :=
  try s := unmarshal in
  match ParseDuration s with
  | Err err => Err (EWrap ("duración inválida " +:+ Quote s +:+ ": " +:+ Error err) err)
  | Ok parsed => Ok parsed
  end.
End validate.

(** ** What validation accepts *)

Definition port_ok (p : Z) : Prop := 1 <= p <= 65535.

Record valid_server (s : ServerConfig.t) : Prop := {
  vs_listen : ServerConfig.ListenAddress s <> "";
  vs_control : port_ok (ServerConfig.ControlPort s);
  vs_passive : ServerConfig.PassiveAddress s <> "";
  vs_start : port_ok (ServerConfig.PassivePortStart s);
  vs_end : port_ok (ServerConfig.PassivePortEnd s);
  vs_range : ServerConfig.PassivePortStart s < ServerConfig.PassivePortEnd s;
  vs_max : 1 <= ServerConfig.MaxConnections s <=
           ServerConfig.PassivePortEnd s - ServerConfig.PassivePortStart s + 1;
}.

Section valid.
Context (Quote : string -> string).
Context (bcrypt_Cost : string -> option error).
Context (os_Stat : string -> res bool).

(** A regular file (or anything but a directory) is there. *)
Definition file_ok (f : string) : Prop := f <> "" /\ os_Stat f = Ok false.

Record valid_target (s : SFTPTargetConfig.t) : Prop := {
  vt_host : SFTPTargetConfig.Host s <> "";
  vt_port : port_ok (SFTPTargetConfig.Port s);
  vt_user : SFTPTargetConfig.Username s <> "";
  vt_root : HasPrefix (SFTPTargetConfig.RootPath s) "/" = true;
  vt_known : file_ok (SFTPTargetConfig.KnownHostsFile s);
  (** Exactly one way to authenticate. *)
  vt_auth : file_ok (SFTPTargetConfig.PrivateKeyFile s) /\ SFTPTargetConfig.Password s = "" \/
            SFTPTargetConfig.PrivateKeyFile s = "" /\ SFTPTargetConfig.Password s <> "";
}.

Record valid_user (u : UserConfig.t) : Prop := {
  vu_name : UserConfig.Username u <> "";
  vu_hash : UserConfig.PasswordHash u <> "" /\ bcrypt_Cost (UserConfig.PasswordHash u) = None;
  vu_root : HasPrefix (UserConfig.VirtualRoot u) "/" = true;
  vu_dots : Contains (UserConfig.VirtualRoot u) ".." = false;
  vu_size : 0 < UserConfig.MaxFileSize u;
  vu_transfers : 0 < UserConfig.MaxConcurrentTransfers u;
  vu_target : valid_target (UserConfig.SFTP u);
}.

Record valid (cfg : Config) : Prop := {
  v_server : valid_server (Server cfg);
  v_buffer : 4096 <= TransferConfig.BufferSize (Transfer cfg);
  v_suffix : TransferConfig.TemporarySuffix (Transfer cfg) <> "";
  v_format : ObservabilityConfig.LogFormat (Observability cfg) ∈ ["json"; "text"];
  v_level : ObservabilityConfig.LogLevel (Observability cfg) ∈ ["debug"; "info"; "warn"; "error"];
  v_users : Users cfg <> [];
  v_each : Forall valid_user (Users cfg);
  v_names : NoDup (UserConfig.Username <$> Users cfg);
}.

Lemma problem_nil c msg : problem c msg = [] <-> c = false.
Proof. by destruct c. Qed.

Lemma eqb_empty s : (s =? "")%string = false <-> s <> "".
Proof. apply String.eqb_neq. Qed.

Lemma port_range p : (p <? 1) || (p >? 65535) = false <-> port_ok p.
Proof.
  unfold port_ok. rewrite orb_false_iff, Z.ltb_ge, Z.gtb_ltb, Z.ltb_ge. lia.
Qed.

Lemma one_of_spec s l : one_of s l = true <-> s ∈ l.
Proof.
  unfold one_of. rewrite existsb_exists, list_elem_of_In. split.
  - intros (x & Hx & ->%String.eqb_eq). done.
  - intros H. exists s. by rewrite String.eqb_refl.
Qed.

Lemma validateServer_spec s : validateServer s = [] <-> valid_server s.
Proof.
  unfold validateServer. rewrite !app_nil, !problem_nil, !eqb_empty, !port_range, Z.ltb_ge.
  split.
  - intros (H1 & H2 & H3 & H4 & H5 & H6 & H7). pose proof H4 as [? ?]. pose proof H5 as [? ?].
    rewrite !(proj2 (Z.gtb_lt _ _)) in H6 by lia. simpl in H6.
    destruct (_ <=? _) eqn:E; bool_to_prop; [done|]. apply problem_nil in H6.
    rewrite !wrap64_id in H6 by (unfold in_int64, min_int64, max_int64; (rewrite ?wrap64_id);
      unfold in_int64, min_int64, max_int64; lia).
    bool_to_prop. split; auto; lia.
  - intros [H1 H2 H3 H4 H5 H6 [H7 H8]]. pose proof H4 as [? ?]. pose proof H5 as [? ?].
    split_and!; try done.
    rewrite !(proj2 (Z.gtb_lt _ _)) by lia. simpl.
    rewrite (proj2 (Z.leb_gt _ _)) by lia. apply problem_nil, Z.ltb_ge.
    rewrite !wrap64_id by (unfold in_int64, min_int64, max_int64; (rewrite ?wrap64_id);
      unfold in_int64, min_int64, max_int64; lia). lia.
Qed.

Lemma file_problem f (e1 e3 : string) (e2 : error -> string) :
  (if (f =? "")%string then [e1]
   else match os_Stat f with Err err => [e2 err] | Ok isDir => problem isDir e3 end) = []
  <-> file_ok f.
Proof.
  unfold file_ok. destruct (f =? "")%string eqn:E; bool_to_prop; [naive_solver|].
  destruct (os_Stat f) as [[]|]; simpl; naive_solver.
Qed.

Lemma validateSFTPTarget_spec prefix s : validateSFTPTarget os_Stat prefix s = [] <-> valid_target s.
Proof.
  unfold validateSFTPTarget.
  rewrite !app_nil, !problem_nil, !eqb_empty, port_range, negb_false_iff, file_problem.
  assert (forall X Y, (if negb (negb (SFTPTargetConfig.PrivateKeyFile s =? "")%string) &&
              negb (negb (SFTPTargetConfig.Password s =? "")%string) then [X]
           else if negb (SFTPTargetConfig.PrivateKeyFile s =? "")%string &&
                   negb (SFTPTargetConfig.Password s =? "")%string then [Y]
           else if negb (SFTPTargetConfig.PrivateKeyFile s =? "")%string then
             match os_Stat (SFTPTargetConfig.PrivateKeyFile s) with
             | Err err => [prefix +:+ ": sftp.privateKeyFile no accesible: " +:+ Error err]
             | Ok isDir => problem isDir (prefix +:+ ": sftp.privateKeyFile apunta a un directorio")
             end
           else []) = [] <->
    (file_ok (SFTPTargetConfig.PrivateKeyFile s) /\ SFTPTargetConfig.Password s = "" \/
     SFTPTargetConfig.PrivateKeyFile s = "" /\ SFTPTargetConfig.Password s <> "")) as ->.
  { intros X Y. unfold file_ok.
    destruct (SFTPTargetConfig.PrivateKeyFile s =? "")%string eqn:E1,
      (SFTPTargetConfig.Password s =? "")%string eqn:E2; bool_to_prop; simpl;
      try destruct (os_Stat _) as [[]|]; naive_solver. }
  split.
  - intros (?&?&?&?&?&?). by split.
  - intros []. by split_and!.
Qed.

Lemma validateUser_spec i u : validateUser bcrypt_Cost os_Stat i u = [] <-> valid_user u.
Proof.
  unfold validateUser.
  rewrite !app_nil, !problem_nil, !eqb_empty, negb_false_iff, !Z.leb_gt, validateSFTPTarget_spec.
  assert (forall X Y, (if (UserConfig.PasswordHash u =? "")%string then [X]
             else problem (bool_decide (is_Some (bcrypt_Cost (UserConfig.PasswordHash u)))) Y) = []
          <-> UserConfig.PasswordHash u <> "" /\ bcrypt_Cost (UserConfig.PasswordHash u) = None) as ->.
  { intros X Y. destruct (UserConfig.PasswordHash u =? "")%string eqn:E; bool_to_prop; [naive_solver|].
    rewrite problem_nil, bool_decide_eq_false, <- eq_None_not_Some. naive_solver. }
  split.
  - intros (?&?&?&?&?&?&?). by split.
  - intros []. tauto.
Qed.

Lemma validateUsers_spec i seen us :
  validateUsers Quote bcrypt_Cost os_Stat i seen us = [] <->
  Forall valid_user us /\ NoDup (UserConfig.Username <$> us) /\
  Forall (fun u => UserConfig.Username u ∉ seen) us.
Proof.
  revert i seen. induction us as [|u us IH]; intros i seen; simpl.
  { split; [|done]. intros _. split_and!; constructor. }
  rewrite !app_nil, problem_nil, bool_decide_eq_false, validateUser_spec, IH.
  rewrite !Forall_cons, NoDup_cons, !Forall_forall, list_elem_of_fmap. set_solver.
Qed.

Lemma valid_spec_none cfg : Validate Quote bcrypt_Cost os_Stat cfg = None <-> valid cfg.
Proof.
  assert (Validate Quote bcrypt_Cost os_Stat cfg = None <->
          problems Quote bcrypt_Cost os_Stat cfg = []) as ->.
  { unfold Validate. by destruct (problems _ _ _ cfg). }
  unfold problems, validateTransfer, validateObservability.
  rewrite !app_nil, !problem_nil, validateServer_spec, validateUsers_spec, Z.ltb_ge, eqb_empty,
    !negb_false_iff, !one_of_spec, Z.eqb_neq.
  assert (Z.of_nat (length (Users cfg)) <> 0 <-> Users cfg <> []) as ->.
  { destruct (Users cfg); simpl; split; (done || lia). }
  split.
  - intros (?&[??]&[??]&?&?&?&_). by split.
  - intros []. split_and!; try done. apply Forall_forall. set_solver.
Qed.

(** C27. Validation is sound and complete: a configuration is accepted
    exactly when it is valid: every port in range, as many passive ports
    as connections, at least one user, distinct user names, for each user
    a bcrypt hash, absolute roots, positive limits, a known_hosts file and
    exactly one way to authenticate. *)
Theorem Validate_exact cfg : Validate Quote bcrypt_Cost os_Stat cfg = None <-> valid cfg.
Proof. apply valid_spec_none. Qed.
End valid.

(** ** Loading *)

Lemma orZ_idem x d : orZ (orZ x d) d = orZ x d.
Proof. unfold orZ. destruct (x =? 0) eqn:E; [|by rewrite E]. by destruct (d =? 0). Qed.
Lemma orS_idem x d : orS (orS x d) d = orS x d.
Proof. unfold orS. destruct (x =? "")%string eqn:E; [|by rewrite E]. by destruct (d =? "")%string. Qed.

Lemma applyDefaults_idem cfg : applyDefaults (applyDefaults cfg) = applyDefaults cfg.
Proof.
  destruct cfg as [s us t o h]. unfold applyDefaults. simpl. f_equal.
  - unfold default_server. simpl. by rewrite !orZ_idem.
  - rewrite <- list_fmap_compose. apply list_fmap_ext. intros _ u _.
    unfold default_user, default_sftp. simpl. by rewrite orS_idem, !orZ_idem.
  - unfold default_transfer. simpl. by rewrite orZ_idem, orS_idem.
  - unfold default_observability. simpl. by rewrite !orS_idem.
  - unfold default_health. simpl. by rewrite orS_idem.
Qed.

(** A default is only used where the file has the zero value. *)
Lemma orZ_spec x d : d <> 0 -> orZ x d <> 0 /\ (x <> 0 -> orZ x d = x).
Proof. intros Hd. unfold orZ. destruct (x =? 0) eqn:E; bool_to_prop; naive_solver. Qed.


(** A configuration to run the theorems on. *)
Definition demo_user : UserConfig.t :=
  UserConfig.Mk "ax" "$2a$" "/" (SFTPTargetConfig.Mk "sftp" 22 "svc" "" "" "pw" "/known" "/data" 0 0)
    (PermissionsConfig.Mk true true true true true true) 100 0.
Definition demo_config : Config :=
  MkConfig (ServerConfig.Mk "0.0.0.0" 21 "10.0.0.1" 50000 50009 10 0 0 0) [demo_user]
    (TransferConfig.Mk 0 "" true) (ObservabilityConfig.Mk "" "") (HealthConfig.Mk "" false).

Definition demo_load : res Config :=
  Load id (fun _ => None) (fun _ => Ok false) (fun _ => Ok "") (fun _ => Ok demo_config) "c".

