(* ===== verification/Session.v ===== *)
(** * Sessions ([internal/session])

    The state of one authenticated FTP connection, with its lazily dialled
    SFTP connection.  A connector is a closure in Go; here it is a value of
    [C] that [run_connect] runs.  The operations take the session and return
    it, in the world [W] of the SFTP client; the mutex serialises them. *)
From S2P Require Import Prelude GoStrings Errors Filesystem Authorization SftpLib MemServer SftpClient.
Open Scope string_scope.
Open Scope list_scope.
Open Scope Z_scope.

Definition errClosedSession : error :=
  Errors.New KindDisconnected "session.SFTP" "la sesión ya fue cerrada".

Section session.
Context {R : Type} `{Lib : SftpLib R} {W C : Type}.
(** The world, seen from the SFTP client; and how to dial. *)
Context (on_remote : forall A, M R A -> M W A).
Context (run_connect : C -> M W (res (Client R))).

(** The shared gate is referred to by the user it belongs to, the name in
    the session; [startedAt] is only reported. *)
Record Session := MkSession {
  id : string;
  username : string;
  clientIP : string;
  startedAt : Z;
  mapper : Mapper;
  policy : Policy;
  connect : C;
  sftp : option (Client R);
  closed : bool;
}.

Definition set_sftp (c : option (Client R)) (s : Session) : Session :=
  MkSession (id s) (username s) (clientIP s) (startedAt s) (mapper s) (policy s) (connect s) c
    (closed s).
Definition set_closed (s : Session) : Session :=
  MkSession (id s) (username s) (clientIP s) (startedAt s) (mapper s) (policy s) (connect s)
    (sftp s) true.

Definition New (id username clientIP : string) (now : Z) (mapper : Mapper) (policy : Policy)
  (connect : C) : Session :=
  MkSession id username clientIP now mapper policy connect None false.

Definition SFTP (s : Session) : M W (res (Client R) * Session) :=
  if closed s then ret (Err errClosedSession, s)
  else
    match sftp s with
    | Some c => ret (Ok c, s)
    | None =>
        let* r := run_connect (connect s) in
        match r with
        | Err err => ret (Err err, s)
        | Ok client => ret (Ok client, set_sftp (Some client) s)
        end
    end.

Definition InvalidateSFTP (s : Session) : M W Session :=
  match sftp s with
  | Some c => let* _ := on_remote _ (SftpClient.Close c) in ret (set_sftp None s)
  | None => ret s
  end.

Definition IsConnected (s : Session) : bool := bool_decide (is_Some (sftp s)).

Definition Close (s : Session) : M W (res unit * Session) :=
  if closed s then ret (Ok tt, s)
  else
    let s := set_closed s in
    match sftp s with
    | Some c =>
        let* err := on_remote _ (SftpClient.Close c) in
        ret (err, set_sftp None s)
    | None => ret (Ok tt, s)
    end.

(** ** A session dials on demand and holds at most one connection *)

Inductive sop := SSFTP | SInvalidate | SClose.

Definition sstep (s : Session) (o : sop) : M W Session :=
  match o with
  | SSFTP => let* (_, s) := SFTP s in ret s
  | SInvalidate => InvalidateSFTP s
  | SClose => let* (_, s) := Close s in ret s
  end.

Fixpoint srun (s : Session) (os : list sop) : M W Session :=
  match os with
  | [] => ret s
  | o :: os => let* s := sstep s o in srun s os
  end.

(** Connections opened and closed so far, as the world counts them. *)
Variable opened : W -> Z.
Variable released : W -> Z.

Record counted : Prop := {
  cnt_connect c w : let '(r, w') := run_connect c w in
    released w' = released w /\ opened w' = opened w + (if is_ok r then 1 else 0);
  cnt_close c w : released (on_remote _ (SftpClient.Close c) w).2 = released w + 1 /\
                  opened (on_remote _ (SftpClient.Close c) w).2 = opened w;
}.

Definition held (s : Session) : Z := if sftp s is Some _ then 1 else 0.

Definition is_SClose (o : sop) : bool := match o with SClose => true | _ => false end.

Lemma sstep_spec s o w s' w' :
  counted -> (closed s = true -> sftp s = None) -> sstep s o w = (s', w') ->
  (opened w' - released w') - held s' = (opened w - released w) - held s /\
  closed s' = closed s || is_SClose o /\ (closed s' = true -> sftp s' = None).
Proof.
  intros [Hc Hd] Hs. unfold held. destruct o; simpl; rewrite ?orb_false_r, ?orb_true_r.
  - unfold SFTP. destruct (closed s) eqn:Hcl; [intros [= <- <-]; by rewrite Hcl, Hs|].
    destruct (sftp s) as [c|] eqn:Hsf; [intros [= <- <-]; by rewrite Hcl, Hsf|].
    specialize (Hc (connect s) w). unfold bind.
    destruct (run_connect (connect s) w) as [[c|e] w1]; intros [= <- <-]; simpl in *;
      rewrite ?Hsf, Hcl; (split_and!; [lia|done..]).
  - unfold InvalidateSFTP. destruct (sftp s) as [c|] eqn:Hsf.
    2:{ intros [= <- <-]. by rewrite Hsf. }
    specialize (Hd c w). unfold bind. destruct (on_remote _ _ w) as [r w1].
    intros [= <- <-]. simpl in *. split_and!; [lia|done..].
  - unfold Close. destruct (closed s) eqn:Hcl; [intros [= <- <-]; by rewrite Hcl, Hs|].
    simpl. destruct (sftp s) as [c|] eqn:Hsf.
    2:{ intros [= <- <-]. simpl. by rewrite Hsf. }
    specialize (Hd c w). unfold bind. destruct (on_remote _ _ w) as [r w1].
    intros [= <- <-]. simpl in *. split_and!; [lia|done..].
Qed.

Lemma srun_spec s os w s' w' :
  counted -> (closed s = true -> sftp s = None) -> srun s os w = (s', w') ->
  (opened w' - released w') - held s' = (opened w - released w) - held s /\
  closed s' = closed s || existsb is_SClose os /\ (closed s' = true -> sftp s' = None).
Proof.
  intros Hcnt. revert s w. induction os as [|o os IH]; intros s w Hs; simpl.
  { intros [= <- <-]. by rewrite orb_false_r. }
  intros (s1 & w1 & H1 & H2)%bind_inv.
  apply sstep_spec in H1 as (Hd & Hcl & Hs1); [|done..].
  apply IH in H2 as (Hd2 & Hcl2 & Hs2); [|done]. split_and!; [lia| |done].
  by rewrite Hcl2, Hcl, orb_assoc.
Qed.

(** C28. A session never leaks an SFTP connection and never holds two:
    after any sequence of [SFTP], [InvalidateSFTP] and [Close], the
    connections dialled and not closed are exactly the one it holds, if
    any; once [Close] is among the calls it holds none, and every later
    request is refused without dialling. *)
Theorem session_no_leak i u ip t m p c os w s' w' :
  counted -> srun (New i u ip t m p c) os w = (s', w') ->
  opened w' - released w' = opened w - released w + held s' /\ 0 <= held s' <= 1 /\
  (SClose ∈ os -> held s' = 0 /\ SFTP s' w' = ((Err errClosedSession, s'), w')).
Proof.
  intros Hcnt H. apply srun_spec in H as (Hd & Hcl & Hs); [|done..].
  unfold held in *. simpl in Hd. split_and!; [lia|by destruct (sftp s')..|].
  intros Hin. assert (closed s' = true) as Hc.
  { rewrite Hcl. simpl. apply existsb_exists. exists SClose.
    split; [by apply list_elem_of_In|done]. }
  rewrite Hs by done. split; [done|]. unfold SFTP. by rewrite Hc.
Qed.
End session.

(** A world that only counts, beside an empty in-memory server. *)
Definition count_remote (A : Type) (m : M MemFS A) : M (Z * Z) A := fun w =>
  ((m (mem_of [])).1, (fst w, snd w + 1)).
Definition count_connect (_ : unit) : M (Z * Z) (res (Client MemFS)) := fun w =>
  (Ok (MkClient (Some true) (Some true) "/"), (fst w + 1, snd w)).

Lemma session_no_leak_witness :
  let s := New (R := MemFS) "s" "ax" "ip" 0 (NewMapper "/" "/data") zero_Policy tt in
  let r := srun count_remote count_connect s [SSFTP; SSFTP; SInvalidate; SSFTP; SClose; SSFTP] (0, 0) in
  fst r.2 - snd r.2 = 0 /\ fst r.2 = 2.
Proof.
  intros s r. split; [|reflexivity].
  destruct (session_no_leak count_remote count_connect fst snd "s" "ax" "ip" 0
    (NewMapper "/" "/data") zero_Policy tt
    [SSFTP; SSFTP; SInvalidate; SSFTP; SClose; SSFTP] (0, 0) r.1 r.2) as (H & _ & Hc).
  - split; [|done]. intros c w. simpl. lia.
  - exact (surjective_pairing _).
  - destruct Hc as [H0 _]; [set_solver|]. rewrite H0 in H. exact H.
Defined.
