(* ===== verification/Transfer.v ===== *)
(** * Transfers ([internal/transfer])

    One upload or download: the temporary name, streaming with a size limit,
    SHA-256, commit and cleanup.  A handle is a value threaded through its
    operations; the world [W] is whatever its file system and callbacks act
    on.  [RemoteFS] is Go's interface of the same name together with the
    operations of the file values it returns. *)
From S2P Require Import Prelude GoStrings GoPath Errors SftpLib Sha256.
Open Scope string_scope.
Open Scope list_scope.
Open Scope Z_scope.

Record RemoteFS (W F : Type) := MkRemoteFS {
  fs_Stat : string -> M W (res FileInfo);
  fs_OpenRead : string -> M W (res F);
  fs_CreateTemp : string -> M W (res F);
  fs_Commit : string -> string -> bool -> M W (res unit);
  fs_Remove : string -> M W (res unit);
  f_Read : F -> Z -> M W (bytes * option error);
  f_Write : F -> bytes -> M W (Z * option error);
  f_Seek : F -> Z -> Z -> M W (Z * option error);
  f_Close : F -> M W (res unit);
}.
Arguments fs_Stat {W F}. Arguments fs_OpenRead {W F}. Arguments fs_CreateTemp {W F}.
Arguments fs_Commit {W F}. Arguments fs_Remove {W F}. Arguments f_Read {W F}.
Arguments f_Write {W F}. Arguments f_Seek {W F}. Arguments f_Close {W F}.

Inductive Phase : Set := PhaseStarted | PhaseWritten | PhaseCommitted | PhaseFailed.

#[export] Instance Phase_eq_dec : EqDecision Phase.
Proof. solve_decision. Defined.

Module Result.
Record t := Mk {
  TransferID : string;
  SessionID : string;
  VirtualPath : string;
  RemotePath : string;
  Bytes : Z;
  SHA256 : string;
  Phase : Phase;
  Err : option error;
}.
End Result.

Definition TempPath (finalRemotePath sessionID suffix : string) : string :=
  let dir := Dir finalRemotePath in
  let base := Base finalRemotePath in
  Join2 dir (base +:+ suffix +:+ "-" +:+ sessionID).

Definition isNotFound (err : error) : bool := Is err KindNotFound.

(** An optional callback ([if f != nil { f(...) }]). *)
Definition call {W} (f : option (M W unit)) : M W unit :=
  match f with Some m => m | None => ret tt end.

Definition sha_of (hasher : option bytes) : string :=
  match hasher with Some h => Sha256.sum_hex h | None => "" end.

Module Upload.

Record UploadOptions (W : Type) := MkOptions {
  SessionID : string;
  TransferID : string;
  VirtualPath : string;
  MaxSize : Z;
  Overwrite : bool;
  CalculateSHA256 : bool;
  TemporarySuffix : string;
  OnComplete : option (Result.t -> M W unit);
  Release : option (M W unit);
}.
Arguments SessionID {W}. Arguments TransferID {W}. Arguments VirtualPath {W}.
Arguments MaxSize {W}. Arguments Overwrite {W}. Arguments CalculateSHA256 {W}.
Arguments TemporarySuffix {W}. Arguments OnComplete {W}. Arguments Release {W}.

Section upload.
Context {W F : Type}.

(** The mutex only serialises calls; a handle is used by one goroutine. *)
Record UploadHandle := MkUpload {
  fs : RemoteFS W F;
  file : F;
  hasher : option bytes;
  tempPath : string;
  finalPath : string;
  opts : UploadOptions W;
  written : Z;
  failed : bool;
  failErr : option error;
  closed : bool;
}.

Definition set_fail (e : option error) (u : UploadHandle) : UploadHandle :=
  MkUpload (fs u) (file u) (hasher u) (tempPath u) (finalPath u) (opts u) (written u)
    true e (closed u).
Definition set_progress (h : option bytes) (n : Z) (u : UploadHandle) : UploadHandle :=
  MkUpload (fs u) (file u) h (tempPath u) (finalPath u) (opts u) n
    (failed u) (failErr u) (closed u).
Definition set_closed (u : UploadHandle) : UploadHandle :=
  MkUpload (fs u) (file u) (hasher u) (tempPath u) (finalPath u) (opts u) (written u)
    (failed u) (failErr u) true.

Definition NewUpload (fs : RemoteFS W F) (finalRemotePath : string) (opts : UploadOptions W)
  : M W (res UploadHandle) :=
  let op := "transfer.NewUpload" in
  try* _ :=
    if negb (Overwrite opts) then
      let* st := fs_Stat fs finalRemotePath in
      ret (match st with
           | Ok _ => Err (New KindConflict op "el archivo destino ya existe")
           | Err err => if negb (isNotFound err) then Err err else Ok tt
           end)
    else ret (Ok tt) in
  let tempPath := TempPath finalRemotePath (SessionID opts) (TemporarySuffix opts) in
  try* file := fs_CreateTemp fs tempPath in
  let hasher := if CalculateSHA256 opts then Some [] else None in
  ret (Ok (MkUpload fs file hasher tempPath finalRemotePath opts 0 false None false)).

Definition Write (u : UploadHandle) (p : bytes) : M W ((Z * option error) * UploadHandle) :=
  if (MaxSize (opts u) >? 0) &&
     (wrap64 (written u + Z.of_nat (length p)) >? MaxSize (opts u))
  then
    let e := New KindAuthorization "transfer.Write" "el archivo excede el tamaño máximo permitido" in
    ret ((0, Some e), set_fail (Some e) u)
  else
    let* (n, err) := f_Write (fs u) (file u) p in
    let h := if n >? 0 then (fun h => h ++ take (Z.to_nat n) p) <$> hasher u else hasher u in
    let u := set_progress h (wrap64 (written u + n)) u in
    let u := match err with Some e => set_fail (Some e) u | None => u end in
    ret ((n, err), u).

Definition Read (u : UploadHandle) (len : Z) : Z * option error :=
  (0, Some (New KindInternal "transfer.Read" "operación no soportada durante una subida")).

Definition Seek (u : UploadHandle) (offset whence : Z) : Z * option error :=
  if (offset =? 0) && (whence =? SeekStart) then (0, None)
  else (0, Some (New KindUnsupportedCommand "transfer.Seek"
                   "reanudar subidas (REST) no está soportado")).

Definition TransferError (u : UploadHandle) (err : option error) : UploadHandle :=
  set_fail (match failErr u with None => err | Some e => Some e end) u.

(** [Close], first the result it reports through [OnComplete], ... *)
Definition result (u : UploadHandle) (phase : Phase) (err : option error) : Result.t :=
  Result.Mk (TransferID (opts u)) (SessionID (opts u)) (VirtualPath (opts u))
    (finalPath u) (written u) (sha_of (hasher u)) phase err.

Definition complete (u : UploadHandle) (phase : Phase) (err : option error) : M W unit :=
  call (option_map (fun f => f (result u phase err)) (OnComplete (opts u))).

(** ... then its commit-or-clean-up part, ... *)
Definition finalize (u : UploadHandle) : M W (option error) :=
  if failed u then
    let* _ := fs_Remove (fs u) (tempPath u) in
    do* complete u PhaseFailed (failErr u) in
    ret (failErr u)
  else
    let* c := fs_Commit (fs u) (tempPath u) (finalPath u) (Overwrite (opts u)) in
    match c with
    | Err err =>
        let* _ := fs_Remove (fs u) (tempPath u) in
        do* complete u PhaseFailed (Some err) in
        ret (Some err)
    | Ok _ =>
        do* complete u PhaseCommitted None in
        ret None
    end.

(** ... and the whole: [Release] is deferred, so it runs last. *)
Definition Close (u : UploadHandle) : M W (option error * UploadHandle) :=
  if closed u then ret (None, u)
  else
    let u := set_closed u in
    let* closeErr := f_Close (fs u) (file u) in
    let u := match closeErr with
             | Err e => TransferError u (Some e)
             | Ok _ => u
             end in
    let* err := finalize u in
    do* call (Release (opts u)) in
    ret (err, u).
End upload.
Arguments UploadHandle : clear implicits.
End Upload.

Module Download.

Record DownloadOptions (W : Type) := MkOptions {
  SessionID : string;
  TransferID : string;
  VirtualPath : string;
  CalculateSHA256 : bool;
  OnComplete : option (Result.t -> M W unit);
  Release : option (M W unit);
}.
Arguments SessionID {W}. Arguments TransferID {W}. Arguments VirtualPath {W}.
Arguments CalculateSHA256 {W}. Arguments OnComplete {W}. Arguments Release {W}.

Section download.
Context {W F : Type}.

Record DownloadHandle := MkDownload {
  fs : RemoteFS W F;
  file : F;
  hasher : option bytes;
  remotePath : string;
  opts : DownloadOptions W;
  read : Z;
  failed : bool;
  failErr : option error;
  closed : bool;
}.

Definition set_fail (e : option error) (d : DownloadHandle) : DownloadHandle :=
  MkDownload (fs d) (file d) (hasher d) (remotePath d) (opts d) (read d) true e (closed d).
Definition set_progress (h : option bytes) (n : Z) (d : DownloadHandle) : DownloadHandle :=
  MkDownload (fs d) (file d) h (remotePath d) (opts d) n (failed d) (failErr d) (closed d).
Definition set_closed (d : DownloadHandle) : DownloadHandle :=
  MkDownload (fs d) (file d) (hasher d) (remotePath d) (opts d) (read d)
    (failed d) (failErr d) true.

Definition NewDownload (fs : RemoteFS W F) (remotePath : string) (opts : DownloadOptions W)
  : M W (res DownloadHandle) :=
  try* file := fs_OpenRead fs remotePath in
  let hasher := if CalculateSHA256 opts then Some [] else None in
  ret (Ok (MkDownload fs file hasher remotePath opts 0 false None false)).

Definition Read (d : DownloadHandle) (len : Z)
  : M W ((bytes * option error) * DownloadHandle) :=
  let* (bs, err) := f_Read (fs d) (file d) len in
  let d := match bs with
           | [] => d
           | _ => set_progress ((fun h => h ++ bs) <$> hasher d)
                    (wrap64 (read d + Z.of_nat (length bs))) d
           end in
  let d := match err with
           | Some e => if negb (errors_Is e EOF) then set_fail (Some e) d else d
           | None => d
           end in
  ret ((bs, err), d).

Definition Write (d : DownloadHandle) (p : bytes) : Z * option error :=
  (0, Some (New KindInternal "transfer.Write" "operación no soportada durante una descarga")).

Definition Seek (d : DownloadHandle) (offset whence : Z) : M W (Z * option error) :=
  f_Seek (fs d) (file d) offset whence.

Definition TransferError (d : DownloadHandle) (err : option error) : DownloadHandle :=
  set_fail (match failErr d with None => err | Some e => Some e end) d.

Definition Close (d : DownloadHandle) : M W (option error * DownloadHandle) :=
  if closed d then ret (None, d)
  else
    let d := set_closed d in
    let* closeErr := f_Close (fs d) (file d) in
    let '(phase, err) :=
      if failed d then (PhaseFailed, failErr d)
      else match closeErr with
           | Err e => (PhaseFailed, Some e)
           | Ok _ => (PhaseCommitted, None)
           end in
    let result :=
      Result.Mk (TransferID (opts d)) (SessionID (opts d)) (VirtualPath (opts d))
        (remotePath d) (read d) (sha_of (hasher d)) phase err in
    do* call (option_map (fun f => f result) (OnComplete (opts d))) in
    do* call (Release (opts d)) in
    ret (if failed d then failErr d else err_of closeErr, d).
End download.
Arguments DownloadHandle : clear implicits.
End Download.
