(* ===== verification/UploadSpec.v ===== *)
(** * What an upload promises

    The contract between the transfer layer and its file system is
    [RemoteFSLaws]; [SftpClientSpec] shows that the SFTP client meets it.
    Against it, a run of an upload handle (any sequence of writes and of
    failures reported by the FTP library, then [Close]) is atomic at the
    final name: it keeps what it had, or holds exactly the data received. *)
From S2P Require Import Prelude GoStrings GoPath Errors SftpLib Sha256 Transfer.
Open Scope string_scope.
Open Scope list_scope.
Open Scope Z_scope.

Class RemoteFSLaws {W F : Type} `{Observe W F} (fs : RemoteFS W F) : Prop := {
  rl_Stat p : quiet (fs_Stat fs p);
  rl_CreateTemp p w r w' :
    ~ is_link w p -> fs_CreateTemp fs p w = (r, w') ->
    frame [p] w w' /\
    forall h, r = Ok h -> content w' p = Some [] /\ writer_at w' h = Some p;
  rl_Write h bs w n e w' p :
    f_Write fs h bs w = ((n, e), w') -> writer_at w h = Some p ->
    frame [p] w w' /\ same_writers w w' /\ 0 <= n <= Z.of_nat (length bs) /\
    (e = None -> n = Z.of_nat (length bs) /\
                 forall old, content w p = Some old -> content w' p = Some (old ++ bs));
  rl_Close h w r w' : f_Close fs h w = (r, w') -> frame [] w w';
  rl_Remove p w r w' :
    fs_Remove fs p w = (r, w') ->
    frame [p] w w' /\ (content w' p = content w p \/ content w' p = None);
  rl_Commit t f ow w r w' :
    t <> f -> fs_Commit fs t f ow w = (r, w') ->
    frame [t; f] w w' /\ (is_ok r = true -> moved t f w w') /\
    (is_ok r = false ->
       content w' f = content w f \/ (ow = true /\ content w' f = None) \/
       content w' f = content w t);
}.

Section upload.
Context {W F : Type} `{Obs : Observe W F}.
Import Upload.
Implicit Types (u : UploadHandle W F).

(** What the FTP library does to a handle between [GetHandle] and [Close]. *)
Inductive uop :=
  | UWrite (p : bytes)
  | UTransferError (e : option error)
  | URead (len : Z)
  | USeek (offset whence : Z).

Definition ustep (u : UploadHandle W F) (o : uop) : M W (UploadHandle W F) :=
  match o with
  | UWrite p => let* (_, u) := Write u p in ret u
  | UTransferError e => ret (TransferError u e)
  | URead _ | USeek _ _ => ret u
  end.

Fixpoint urun (u : UploadHandle W F) (os : list uop) : M W (UploadHandle W F) :=
  match os with
  | [] => ret u
  | o :: os => let* u := ustep u o in urun u os
  end.

Definition payload1 (o : uop) : bytes := match o with UWrite p => p | _ => [] end.
Definition payload (os : list uop) : bytes := concat (map payload1 os).

(** No [TransferError(nil)]: the library reports a failure with its error. *)
Definition errors_given (os : list uop) : Prop :=
  Forall (fun o => o <> UTransferError None) os.

(** The fields no operation changes. *)
Definition static (u : UploadHandle W F) := (fs u, file u, tempPath u, finalPath u, opts u).

Definition uinv (data : bytes) (w : W) (u : UploadHandle W F) : Prop :=
  closed u = false /\
  writer_at w (file u) = Some (tempPath u) /\
  (failed u = false ->
     failErr u = None /\
     content w (tempPath u) = Some data /\
     written u = wrap64 (Z.of_nat (length data)) /\
     hasher u = (if CalculateSHA256 (opts u) then Some data else None)).

Definition over_limit (u : UploadHandle W F) (p : bytes) : bool :=
  (MaxSize (opts u) >? 0) && (wrap64 (written u + Z.of_nat (length p)) >? MaxSize (opts u)).

Definition too_big : error :=
  New KindAuthorization "transfer.Write" "el archivo excede el tamaño máximo permitido".

(** The handle after a write of [p] of which the file accepted [n] bytes. *)
Definition wrote (u : UploadHandle W F) (p : bytes) (n : Z) (err : option error)
  : UploadHandle W F :=
  let h := if n >? 0 then (fun h => h ++ take (Z.to_nat n) p) <$> hasher u else hasher u in
  let u := set_progress h (wrap64 (written u + n)) u in
  match err with Some e => set_fail (Some e) u | None => u end.

Lemma ustep_write_over u p w :
  over_limit u p = true -> ustep u (UWrite p) w = (set_fail (Some too_big) u, w).
Proof. unfold over_limit, ustep, Write, bind. by intros ->. Qed.

Lemma ustep_write u p w n err w1 :
  over_limit u p = false -> f_Write (fs u) (file u) p w = ((n, err), w1) ->
  ustep u (UWrite p) w = (wrote u p n err, w1).
Proof. unfold over_limit, ustep, Write, bind. intros -> H1. cbv beta iota. by rewrite H1. Qed.

Lemma wrote_static u p n err : static (wrote u p n err) = static u.
Proof. unfold wrote. by destruct err. Qed.

Lemma ustep_inv data w u o u' w' :
  RemoteFSLaws (fs u) -> uinv data w u -> ustep u o w = (u', w') ->
  uinv (data ++ payload1 o) w' u' /\ frame [tempPath u] w w' /\ static u' = static u /\
  (o <> UTransferError None -> (failed u = true -> failErr u <> None) ->
   failed u' = true -> failErr u' <> None).
Proof.
  intros Laws (Hc & Hw & Hd). destruct o as [p|e|len|off wh];
    cbn [payload1]; rewrite ?app_nil_r.
  - destruct (over_limit u p) eqn:Hover.
    { rewrite ustep_write_over by done. intros [= <- <-].
      split_and!; [|apply frame_refl|done|done]. by split_and!. }
    destruct (f_Write (fs u) (file u) p w) as [[n e] w1] eqn:E.
    rewrite (ustep_write _ _ _ _ _ _ Hover E). intros [= <- <-].
    apply (rl_Write (fs := fs u)) with (p := tempPath u) in E
      as (Hfr & Hsw & Hn & Hok); [|done].
    split_and!; [|done|apply wrote_static|by destruct e].
    destruct e as [e|]; [by split_and!; [|rewrite Hsw|]|].
    destruct (Hok eq_refl) as [-> Hcont]. split_and!; [done|by rewrite Hsw|].
    simpl. intros Hf. destruct (Hd Hf) as (He & Hct & Hwr & Hh).
    split_and!; [done|by apply Hcont| |].
    + rewrite Hwr, wrap64_add_l, length_app. f_equal. lia.
    + rewrite Hh, Nat2Z.id, firstn_all. destruct (CalculateSHA256 (opts u)); [|by case_match].
      destruct p; simpl; [by rewrite app_nil_r|done].
  - intros [= <- <-]. split_and!; [|apply frame_refl|done|].
    + split_and!; done.
    + intros He Hf _. unfold TransferError, set_fail. simpl.
      destruct (failErr u); [done|]. by destruct e.
  - intros [= <- <-]. split_and!; [done|apply frame_refl|done|naive_solver].
  - intros [= <- <-]. split_and!; [done|apply frame_refl|done|naive_solver].
Qed.

Lemma static_inj u u' :
  static u' = static u ->
  fs u' = fs u /\ file u' = file u /\ tempPath u' = tempPath u /\
  finalPath u' = finalPath u /\ opts u' = opts u.
Proof. unfold static. intros [=]. done. Qed.

Lemma urun_inv data w u os u' w' :
  RemoteFSLaws (fs u) -> uinv data w u -> urun u os w = (u', w') ->
  uinv (data ++ payload os) w' u' /\ frame [tempPath u] w w' /\ static u' = static u /\
  (errors_given os -> (failed u = true -> failErr u <> None) ->
   failed u' = true -> failErr u' <> None).
Proof.
  revert data w u. induction os as [|o os IH]; intros data w u Laws Hinv; simpl.
  - intros [= <- <-]. unfold payload. simpl. rewrite app_nil_r.
    split_and!; [done|apply frame_refl|done|done].
  - unfold bind. destruct (ustep u o w) as [u1 w1] eqn:E. intros Hrun.
    destruct (ustep_inv _ _ _ _ _ _ Laws Hinv E) as (Hinv1 & Hfr1 & Hst1 & He1).
    destruct (static_inj _ _ Hst1) as (Hfs & _ & Htp & _ & _).
    rewrite <- Hfs in Laws.
    destruct (IH _ _ _ Laws Hinv1 Hrun) as (Hinv2 & Hfr2 & Hst2 & He2).
    unfold payload in *. simpl. rewrite (assoc_L app). split_and!; [done| |congruence|].
    + eapply frame_trans; [done|]. by rewrite <- Htp.
    + unfold errors_given. rewrite Forall_cons. naive_solver.
Qed.

(** A new handle owns an empty temporary file; nothing else changed. *)
Lemma NewUpload_inv (R : RemoteFS W F) final o w u w' :
  RemoteFSLaws R ->
  (forall p, p = TempPath final (SessionID o) (TemporarySuffix o) -> ~ is_link w p) ->
  NewUpload R final o w = (Ok u, w') ->
  let temp := TempPath final (SessionID o) (TemporarySuffix o) in
  uinv [] w' u /\ frame [temp] w w' /\ fs u = R /\ tempPath u = temp /\
  finalPath u = final /\ opts u = o /\ failed u = false.
Proof.
  intros Laws Hlink. unfold NewUpload.
  intros (? & w1 & H1 & (h & w2 & H2 & [= <- <-])%bindE_inv_ok)%bindE_inv_ok. simpl.
  assert (frame [] w w1 /\ no_new_links w w1) as [Hfr Hnl].
  { destruct (Overwrite o); simpl in H1.
    - injection H1 as <- <-. split; [apply frame_refl|by intros p].
    - apply bind_inv in H1 as (st & w0 & H0 & [= _ <-]).
      apply quiet_run in H0; [|apply rl_Stat]. naive_solver. }
  apply (rl_CreateTemp (fs := R)) in H2 as [Hfr2 Hh].
  2:{ intros Hl%Hnl. by eapply Hlink. }
  destruct (Hh h eq_refl) as [Hct Hwr].
  split_and!; try done.

  eapply frame_trans; [|done]. apply (frame_mono []); [done|set_solver].
Qed.

(** ** [Close] *)

Definition after_close (u : UploadHandle W F) (closeErr : res unit) : UploadHandle W F :=
  match closeErr with
  | Err e => TransferError (set_closed u) (Some e)
  | Ok _ => set_closed u
  end.

Lemma Close_inv u w r u' w' :
  closed u = false -> Close u w = ((r, u'), w') ->
  exists ce w1 w2, f_Close (fs u) (file u) w = (ce, w1) /\ u' = after_close u ce /\
    finalize u' w1 = (r, w2) /\ call (Release (opts u)) w2 = (tt, w').
Proof.
  intros Hc. unfold Close. rewrite Hc.
  intros (ce & w1 & H1 & (err & w2 & H2 & ([] & w3 & H3 & [= <- <- <-])%bind_inv)%bind_inv)%bind_inv.
  exists ce, w1, w2. split_and!; try done; by destruct ce.
Qed.

Lemma Close_closed u w : closed u = true -> Close u w = ((None, u), w).
Proof. unfold Close. by intros ->. Qed.

(** The callbacks of the options leave the file system alone. *)
Definition hooks_quiet (o : UploadOptions W) : Prop :=
  (forall f res, OnComplete o = Some f -> quiet (f res)) /\
  (forall f, Release o = Some f -> quiet f).

Lemma complete_quiet u ph e : hooks_quiet (opts u) -> quiet (complete u ph e).
Proof.
  intros [H _]. unfold complete, call. destruct (OnComplete (opts u)); simpl; [by apply H|].
  apply quiet_ret.
Qed.

Lemma release_quiet o : hooks_quiet o -> quiet (call (Release o)).
Proof. intros [_ H]. unfold call. destruct (Release o); [by apply H|apply quiet_ret]. Qed.

(** What the commit-or-clean-up part does to the tree. *)
Lemma finalize_spec u w r w' :
  RemoteFSLaws (fs u) -> hooks_quiet (opts u) -> tempPath u <> finalPath u ->
  (failed u = true -> failErr u <> None) ->
  finalize u w = (r, w') ->
  frame [tempPath u; finalPath u] w w' /\
  (r = None -> failed u = false /\ content w' (finalPath u) = content w (tempPath u) /\
               content w' (tempPath u) = None) /\
  (r <> None -> content w' (finalPath u) = content w (finalPath u) \/
                (Overwrite (opts u) = true /\ content w' (finalPath u) = None) \/
                (failed u = false /\ content w' (finalPath u) = content w (tempPath u))).
Proof.
  intros Laws Hq Hne He. unfold finalize. destruct (failed u) eqn:Hf.
  - intros (x & w1 & H1 & ([] & w2 & H2 & [= <- <-])%bind_inv)%bind_inv.
    apply (rl_Remove (fs := fs u)) in H1 as [Hfr1 _].
    apply quiet_run in H2 as [Hfr2 _]; [|by apply complete_quiet].
    assert (frame [tempPath u] w w2) as Hfr.
    { eapply frame_trans; [done|]. by eapply frame_mono; [done|set_solver]. }
    split_and!; [eapply frame_mono; [done|set_solver]|naive_solver|].
    intros _. left. apply Hfr. set_solver.
  - intros (c & w1 & H1 & H2)%bind_inv.
    apply (rl_Commit (fs := fs u)) in H1 as (Hfr1 & Hok & Herr); [|done].
    destruct c as [[]|e].
    + apply bind_inv in H2 as ([] & w2 & H2 & [= <- <-]).
      apply quiet_run in H2 as [Hfr2 _]; [|by apply complete_quiet].
      destruct (Hok eq_refl) as [Hm1 Hm2].
      split_and!; [|by rewrite !(frame_nil w1 w2)|done].
      eapply frame_trans; [done|]. eapply frame_mono; [done|set_solver].
    + apply bind_inv in H2 as (x & w2 & H2 & ([] & w3 & H3 & [= <- <-])%bind_inv).
      apply (rl_Remove (fs := fs u)) in H2 as [Hfr2 _].
      apply quiet_run in H3 as [Hfr3 _]; [|by apply complete_quiet].
      assert (content w3 (finalPath u) = content w1 (finalPath u)) as ->.
      { rewrite (frame_nil w2 w3) by done. apply Hfr2. set_solver. }
      split_and!; [|done|].
      * eapply frame_trans; [done|]. eapply frame_trans; [|eapply frame_mono; [done|]].
        -- eapply frame_mono; [done|set_solver].
        -- set_solver.
      * intros _. destruct (Herr eq_refl) as [?|[?|?]]; auto.
Qed.

(** A failed handle never reaches the final name. *)
Lemma finalize_failed u w r w' :
  RemoteFSLaws (fs u) -> hooks_quiet (opts u) -> failed u = true ->
  finalize u w = (r, w') -> r = failErr u /\ frame [tempPath u] w w'.
Proof.
  intros Laws Hq Hf. unfold finalize. rewrite Hf.
  intros (x & w1 & H1 & ([] & w2 & H2 & [= <- <-])%bind_inv)%bind_inv.
  apply (rl_Remove (fs := fs u)) in H1 as [Hfr1 _].
  apply quiet_run in H2 as [Hfr2 _]; [|by apply complete_quiet].
  split; [done|]. eapply frame_trans; [done|by apply frame_any].
Qed.

Lemma Close_failed u w r u' w' :
  RemoteFSLaws (fs u) -> hooks_quiet (opts u) -> closed u = false ->
  failed u = true -> failErr u <> None -> Close u w = ((r, u'), w') ->
  r = failErr u /\ frame [tempPath u] w w'.
Proof.
  intros Laws Hq Hc Hf He (ce & w1 & w2 & H1 & -> & H2 & H3)%Close_inv; [|done].
  apply (rl_Close (fs := fs u)) in H1.
  apply quiet_run in H3 as [Hfr3 _]; [|by apply release_quiet].
  apply finalize_failed in H2 as [Hr Hfr2]; [|by destruct ce..].
  assert (tempPath (after_close u ce) = tempPath u) as Ht by by destruct ce.
  rewrite Ht in Hfr2. split.
  - rewrite Hr. destruct ce; [done|]. simpl. by destruct (failErr u).
  - eapply frame_trans; [by apply frame_any|]. eapply frame_trans; [done|by apply frame_any].
Qed.

(** ** The size limit *)

Definition chunks_fit (m : Z) (os : list uop) : Prop :=
  Forall (fun o => m + Z.of_nat (length (payload1 o)) <= max_int64) os.

(** A handle that has not failed holds at most [MaxSize] bytes. *)
Lemma urun_limit data w u os u' w' :
  RemoteFSLaws (fs u) -> uinv data w u -> 0 < MaxSize (opts u) ->
  chunks_fit (MaxSize (opts u)) os ->
  (failed u = false -> Z.of_nat (length data) <= MaxSize (opts u)) ->
  urun u os w = (u', w') ->
  failed u' = false -> Z.of_nat (length (data ++ payload os)) <= MaxSize (opts u).
Proof.
  intros Laws Hinv Hm Hos. revert data w u Laws Hinv Hm Hos.
  induction os as [|o os IH]; intros data w u Laws Hinv Hm Hos Hd; simpl.
  { intros [= <- <-]. unfold payload. simpl. by rewrite app_nil_r. }
  unfold bind. destruct (ustep u o w) as [u1 w1] eqn:E. intros Hrun.
  destruct (ustep_inv _ _ _ _ _ _ Laws Hinv E) as (Hinv1 & _ & Hst & _).
  destruct (static_inj _ _ Hst) as (Hfs & _ & _ & _ & Ho).
  apply Forall_cons in Hos as [Hfit Hos].
  unfold payload in *. simpl. rewrite (assoc_L app), <- Ho.
  eapply IH; rewrite ?Hfs, ?Ho; try done.
  intros Hf1. destruct o as [p|e|len|off wh]; cbn [payload1] in *;
    [|by rewrite app_nil_r; (apply Hd; by injection E as <- <-)..].
  destruct (over_limit u p) eqn:Hov.
  { rewrite ustep_write_over in E by done. by injection E as <- <-. }
  destruct (f_Write (fs u) (file u) p w) as [[n e] w2] eqn:Ew.
  rewrite (ustep_write _ _ _ _ _ _ Hov Ew) in E. injection E as <- <-.
  destruct e as [e|]; [done|]. simpl in Hf1. destruct Hinv as (_ & _ & Hinv).
  destruct (Hinv Hf1) as (_ & _ & Hwr & _). specialize (Hd Hf1).
  unfold over_limit in Hov. rewrite Hwr, wrap64_add_l, wrap64_id in Hov.
  2:{ unfold in_int64, min_int64 in *. lia. }
  rewrite (proj2 (Z.gtb_lt _ _) Hm) in Hov. simpl in Hov. rewrite length_app.
  rewrite Z.gtb_ltb in Hov. apply Z.ltb_ge in Hov. lia.
Qed.

(** A whole upload, from [NewUpload] to the first [Close]. *)
Definition upload (R : RemoteFS W F) (final : string) (o : UploadOptions W) (os : list uop)
  : M W (res (option error)) :=
  try* u := NewUpload R final o in
  let* u := urun u os in
  let* (r, _) := Close u in
  ret (Ok r).

Lemma upload_spec (R : RemoteFS W F) final o os w r w' :
  let temp := TempPath final (SessionID o) (TemporarySuffix o) in
  RemoteFSLaws R -> hooks_quiet o -> temp <> final -> ~ is_link w temp -> errors_given os ->
  upload R final o os w = (Ok r, w') ->
  frame [temp; final] w w' /\
  (r = None -> content w' final = Some (payload os) /\ content w' temp = None) /\
  (r <> None -> content w' final = content w final \/
                (Overwrite o = true /\ content w' final = None) \/
                content w' final = Some (payload os)).
Proof.
  intros temp Laws Hq Hne Hl He. unfold upload.
  intros (u & w1 & H1 & (u1 & w2 & H2 & ([r0 u2] & w3 & H3 & [= <- <-])%bind_inv)%bind_inv)%bindE_inv_ok.
  destruct (NewUpload_inv _ _ _ _ _ _ Laws ltac:(by intros ? ->) H1)
    as (Hinv & Hfr1 & HR & Ht & Hfin & Ho & Hf).
  fold temp in Ht, Hfr1. clearbody temp. rewrite <- HR in Laws.
  destruct (urun_inv _ _ _ _ _ _ Laws Hinv H2) as (Hinv2 & Hfr2 & Hst & Herr).
  destruct (static_inj _ _ Hst) as (HR2 & _ & Ht2 & Hfin2 & Ho2).
  rewrite app_nil_l in Hinv2. destruct Hinv2 as (Hc & Hw & Hd).
  destruct (Close_inv _ _ _ _ _ Hc H3) as (ce & w4 & w5 & H4 & -> & H5 & H6).
  assert (tempPath u1 = temp) as Ht1 by congruence.
  assert (finalPath u1 = final) as Hf1 by congruence.
  assert (opts u1 = o) as Ho1 by congruence.
  rewrite <- HR2 in Laws. apply (rl_Close (fs := fs u1)) in H4.
  apply quiet_run in H6 as [Hfr6 _]; [|by rewrite Ho1; apply release_quiet].
  assert (static (after_close u1 ce) = static u1) as Hst1 by by destruct ce.
  destruct (static_inj _ _ Hst1) as (HR3 & _ & Ht3 & Hfin3 & Ho3).
  apply finalize_spec in H5 as (Hfr5 & Hok & Hbad);
    [|by rewrite HR3|by rewrite Ho3, Ho1|by congruence|].
  2:{ destruct ce; simpl; [by apply Herr; [|congruence]|].
      intros _. by destruct (failErr u1). }
  rewrite Ht3, Hfin3, Ho3, Ht1, Hf1, Ho1 in *. rewrite Ht in *.
  assert (failed (after_close u1 ce) = false -> content w4 temp = Some (payload os)) as Hdata.
  { intros Hff. rewrite (frame_nil w2 w4) by done. apply Hd. by destruct ce. }
  assert (frame [temp] w w4) as Hfr4.
  { eapply frame_trans; [done|]. eapply frame_trans; [done|].
    eapply frame_mono; [done|set_solver]. }
  assert (content w4 final = content w final) as Hfinal by (apply Hfr4; set_solver).
  rewrite !(frame_nil w5 w3) by done. split_and!.
  - eapply frame_trans; [eapply frame_mono; [done|set_solver]|].
    eapply frame_trans; [done|]. eapply frame_mono; [done|set_solver].
  - intros Hr. destruct (Hok Hr) as (Hff & -> & ->). auto.
  - intros Hr. destruct (Hbad Hr) as [->|[?|[Hff ->]]]; auto.
Qed.
End upload.
