(* ===== verification/TransferSpec.v ===== *)
(** * Transfer theorems: uploads

    Atomicity at the final name, the size limit, and what [Close] reports
    and releases, each for any sequence of calls the FTP library may make. *)
From S2P Require Import Prelude GoStrings GoPath Errors SftpLib Sha256 Transfer UploadSpec SftpClient SftpClientSpec MemServer.
Open Scope string_scope.
Open Scope list_scope.
Open Scope Z_scope.

(** ** What a transfer does to an observation

    [seen] observes the world.  The file system does not change what is
    observed; [OnComplete] and [Release] change it by [report] and [free]. *)
Section observed.
Context {W F T : Type}.

Definition silent {A} (seen : W -> T) (m : M W A) : Prop := forall w, seen (m w).2 = seen w.

Lemma silent_run {A} (seen : W -> T) (m : M W A) w a w' :
  silent seen m -> m w = (a, w') -> seen w' = seen w.
Proof. intros Hs E. specialize (Hs w). by rewrite E in Hs. Qed.

Record fs_silent (seen : W -> T) (R : RemoteFS W F) : Prop := {
  fs_silent_Stat p : silent seen (fs_Stat R p);
  fs_silent_OpenRead p : silent seen (fs_OpenRead R p);
  fs_silent_CreateTemp p : silent seen (fs_CreateTemp R p);
  fs_silent_Read h n : silent seen (f_Read R h n);
  fs_silent_Write h p : silent seen (f_Write R h p);
  fs_silent_Seek h off wh : silent seen (f_Seek R h off wh);
  fs_silent_Close h : silent seen (f_Close R h);
  fs_silent_Remove p : silent seen (fs_Remove R p);
  fs_silent_Commit t f ow : silent seen (fs_Commit R t f ow);
}.
End observed.

(** The observation that records the callbacks themselves. *)
Inductive event := Reported (r : Result.t) | Released.
Definition log_report (r : Result.t) (es : list event) : list event := es ++ [Reported r].
Definition log_free (es : list event) : list event := es ++ [Released].

Section events.
Context {W F T : Type}.
Import Upload.
Implicit Types (u : UploadHandle W F).

Variable seen : W -> T.
Variable report : Result.t -> T -> T.
Variable free : T -> T.
Variable R : RemoteFS W F.
Variable o : UploadOptions W.

Record recorded : Prop := {
  rec_fs : fs_silent seen R;
  rec_OnComplete : exists f, OnComplete o = Some f /\ forall r w, seen (f r w).2 = report r (seen w);
  rec_Release : exists f, Release o = Some f /\ forall w, seen (f w).2 = free (seen w);
}.

(** Any call on a handle, [Close] included, in any order and number. *)
Inductive hop := HOp (op : uop) | HClose.

Definition hstep (u : UploadHandle W F) (h : hop) : M W (UploadHandle W F) :=
  match h with
  | HOp op => ustep u op
  | HClose => let* (_, u) := Close u in ret u
  end.

Fixpoint hrun (u : UploadHandle W F) (hs : list hop) : M W (UploadHandle W F) :=
  match hs with
  | [] => ret u
  | h :: hs => let* u := hstep u h in hrun u hs
  end.

Definition is_close (h : hop) : bool := match h with HClose => true | _ => false end.

Lemma ustep_seen u op w u' w' :
  recorded -> fs u = R -> ustep u op w = (u', w') -> seen w' = seen w.
Proof.
  intros Hr Hfs. destruct op as [p|e|len|off wh]; [|by intros [= <- <-]..].
  destruct (over_limit u p) eqn:Hov.
  { rewrite ustep_write_over by done. by intros [= <- <-]. }
  destruct (f_Write (fs u) (file u) p w) as [[n err] w1] eqn:E.
  rewrite (ustep_write _ _ _ _ _ _ Hov E). intros [= <- <-].
  rewrite Hfs in E. eapply (silent_run seen); [|done]. by apply fs_silent_Write, rec_fs.
Qed.

Lemma ustep_keeps u op w u' w' :
  ustep u op w = (u', w') -> static u' = static u /\ closed u' = closed u.
Proof.
  destruct op as [p|e|len|off wh]; [|by intros [= <- <-]..].
  destruct (over_limit u p) eqn:Hov.
  { rewrite ustep_write_over by done. by intros [= <- <-]. }
  destruct (f_Write (fs u) (file u) p w) as [[n err] w1] eqn:E.
  rewrite (ustep_write _ _ _ _ _ _ Hov E). intros [= <- <-]. by destruct err.
Qed.

Lemma complete_seen u ph e w x w' :
  recorded -> opts u = o -> complete u ph e w = (x, w') ->
  seen w' = report (result u ph e) (seen w).
Proof.
  intros Hr Ho E. destruct (rec_OnComplete Hr) as (f & Hf & Hs).
  unfold complete in E. rewrite Ho, Hf in E. simpl in E.
  specialize (Hs (result u ph e) w). by rewrite E in Hs.
Qed.

(** What the first [Close] comes to, read off what the file system answers:
    an error closing the file or an earlier failure, the earlier one first,
    or else what the commit says. *)
Definition committing u (w : W) : Phase * option error :=
  if failed u then (PhaseFailed, failErr u)
  else match (fs_Commit (fs u) (tempPath u) (finalPath u) (Overwrite (opts u)) w).1 with
       | Ok _ => (PhaseCommitted, None)
       | Err e => (PhaseFailed, Some e)
       end.

Definition outcome u (w : W) : Phase * option error :=
  match f_Close (fs u) (file u) w with
  | (Err e, _) => (PhaseFailed, Some (default e (failErr u)))
  | (Ok _, w1) => committing u w1
  end.

Lemma finalize_seen u w r w' :
  recorded -> fs u = R -> opts u = o -> finalize u w = (r, w') ->
  exists ph, seen w' = report (result u ph r) (seen w) /\ committing u w = (ph, r).
Proof.
  intros Hr Hfs Ho. unfold finalize, committing. destruct (failed u).
  - intros (x & w1 & H1 & ([] & w2 & H2 & [= <- <-])%bind_inv)%bind_inv.
    rewrite Hfs in H1. apply (silent_run seen) in H1; [|by apply fs_silent_Remove, rec_fs].
    apply complete_seen in H2; [|done..]. rewrite H1 in H2. eauto.
  - intros (c & w1 & H1 & H2)%bind_inv. rewrite H1. simpl. rewrite Hfs in H1.
    apply (silent_run seen) in H1; [|by apply fs_silent_Commit, rec_fs]. rewrite <- H1.
    destruct c as [x|e].
    + apply bind_inv in H2 as ([] & w2 & H2 & [= <- <-]).
      apply complete_seen in H2; [|done..]. eauto.
    + apply bind_inv in H2 as (y & w2 & H2 & ([] & w3 & H3 & [= <- <-])%bind_inv).
      rewrite Hfs in H2. apply (silent_run seen) in H2; [|by apply fs_silent_Remove, rec_fs]. rewrite <- H2.
      apply complete_seen in H3; [|done..]. eauto.
Qed.

Lemma Close_seen u w r u' w' :
  recorded -> fs u = R -> opts u = o -> closed u = false -> Close u w = ((r, u'), w') ->
  exists ph, seen w' = free (report (result u ph r) (seen w)) /\ outcome u w = (ph, r).
Proof.
  intros Hr Hfs Ho Hc (ce & w1 & w2 & H1 & -> & H2 & H3)%Close_inv; [|done].
  assert (outcome u w = committing (after_close u ce) w1) as ->.
  { unfold outcome. rewrite H1. destruct ce; [done|]. unfold committing. simpl. by destruct (failErr u). }
  rewrite Hfs in H1. apply (silent_run seen) in H1; [|by apply fs_silent_Close, rec_fs].
  apply finalize_seen in H2 as (ph & Hs & Hph); [|done|by destruct ce..].
  exists ph. split; [|done]. destruct (rec_Release Hr) as (f & Hf & Hrel).
  rewrite Ho, Hf in H3. simpl in H3. specialize (Hrel w2). rewrite H3 in Hrel. simpl in Hrel.
  rewrite Hrel, Hs, H1. by destruct ce.
Qed.

Lemma Close_keeps u w r u' w' :
  Close u w = ((r, u'), w') -> static u' = static u /\ closed u' = true.
Proof.
  destruct (closed u) eqn:Hc.
  - rewrite Close_closed by done. by intros [= <- <- <-].
  - intros (ce & w1 & w2 & H1 & -> & H2 & H3)%Close_inv; [|done]. by destruct ce.
Qed.

Lemma hrun_closed_seen u hs w u' w' :
  recorded -> fs u = R -> closed u = true -> hrun u hs w = (u', w') -> seen w' = seen w.
Proof.
  intros Hr. revert u w. induction hs as [|h hs IH]; intros u w Hfs Hc; simpl.
  { by intros [= <- <-]. }
  intros (u1 & w1 & H1 & H2)%bind_inv. destruct h as [op|]; simpl in H1.
  - destruct (ustep_keeps _ _ _ _ _ H1) as [(Hf & _)%static_inj Hcl].
    rewrite <- (ustep_seen _ _ _ _ _ Hr Hfs H1). eapply IH; [| |done]; congruence.
  - unfold bind in H1. rewrite Close_closed in H1 by done. injection H1 as <- <-. by eapply IH.
Qed.
Lemma hrun_ops u ops w : hrun u (map HOp ops) w = urun u ops w.
Proof.
  revert u w. induction ops as [|op ops IH]; intros u w; simpl; [done|].
  unfold bind. destruct (ustep u op w). apply IH.
Qed.

Lemma urun_seen u ops w u' w' :
  recorded -> fs u = R -> urun u ops w = (u', w') ->
  seen w' = seen w /\ static u' = static u /\ closed u' = closed u.
Proof.
  intros Hr. revert u w. induction ops as [|op ops IH]; intros u w Hfs; simpl.
  { by intros [= <- <-]. }
  intros (u1 & w1 & H1 & H2)%bind_inv.
  destruct (ustep_keeps _ _ _ _ _ H1) as [Hst Hc].
  pose proof (ustep_seen _ _ _ _ _ Hr Hfs H1) as Hs.
  destruct (static_inj _ _ Hst) as (Hf & _).
  destruct (IH u1 w1 ltac:(congruence) H2) as (? & ? & ?). split_and!; congruence.
Qed.

Lemma NewUpload_seen final w u w' :
  recorded -> NewUpload R final o w = (Ok u, w') ->
  seen w' = seen w /\ fs u = R /\ opts u = o /\ closed u = false /\ finalPath u = final.
Proof.
  intros Hr. unfold NewUpload.
  intros (? & w1 & H1 & (h & w2 & H2 & [= <- <-])%bindE_inv_ok)%bindE_inv_ok. simpl.
  apply (silent_run seen) in H2; [|by apply fs_silent_CreateTemp, rec_fs]. split_and!; [|done..].
  rewrite H2. destruct (Overwrite o); simpl in H1; [by injection H1 as <- <-|].
  apply bind_inv in H1 as (st & w0 & H0 & [= _ <-]).
  eapply (silent_run seen); [|done]. by apply fs_silent_Stat, rec_fs.
Qed.

Lemma hrun_seen u hs w u' w' :
  recorded -> fs u = R -> opts u = o -> closed u = false -> hrun u hs w = (u', w') ->
  if existsb is_close hs
  then exists pre post u1 w1 r u2 w2 ph,
         hs = pre ++ HClose :: post /\ existsb is_close pre = false /\
         hrun u pre w = (u1, w1) /\ Close u1 w1 = ((r, u2), w2) /\ outcome u1 w1 = (ph, r) /\
         static u1 = static u /\ seen w' = free (report (result u1 ph r) (seen w))
  else seen w' = seen w.
Proof.
  intros Hr. revert u w. induction hs as [|h hs IH]; intros u w Hfs Ho Hc; simpl.
  { by intros [= <- <-]. }
  intros (u1 & w1 & H1 & H2)%bind_inv. destruct h as [op|]; simpl in *.
  - destruct (ustep_keeps _ _ _ _ _ H1) as [Hst Hcl].
    destruct (static_inj _ _ Hst) as (Hf & _ & _ & _ & Hop).
    rewrite <- (ustep_seen _ _ _ _ _ Hr Hfs H1).
    specialize (IH u1 w1 ltac:(congruence) ltac:(congruence) ltac:(congruence) H2).
    destruct (existsb is_close hs); [|done].
    destruct IH as (pre & post & u3 & w3 & r & u2 & w2 & ph & -> & Hpre & Hrun & HC & Hout & Hst3 & Hs).
    exists (HOp op :: pre), post, u3, w3, r, u2, w2, ph. simpl.
    split_and!; [done..| |done|done|congruence|done]. unfold bind at 1. by rewrite H1.
  - apply bind_inv in H1 as ([r u2] & w2 & H1 & [= <- <-]).
    destruct (Close_keeps _ _ _ _ _ H1) as [(Hf & _)%static_inj Hcl]. pose proof H1 as HC.
    apply Close_seen in H1 as (ph & Hs & Hout); [|done..].
    apply hrun_closed_seen in H2; [|congruence..]. rewrite H2. exists [], hs. eauto 15.
Qed.

(** What [Write] says it has taken of the data, over a run. *)
Fixpoint accepted (u : UploadHandle W F) (os : list uop) (w : W) : bytes :=
  match os with
  | [] => []
  | o :: os =>
      let '(u', w') := ustep u o w in
      match o with UWrite p => take (Z.to_nat (Write u p w).1.1.1) p | _ => [] end ++ accepted u' os w'
  end.
End events.

Section report.
Context {W F : Type} `{Obs : Observe W F}.
Import Upload.

(** C18. Whatever the FTP library does with an upload handle, in any order
    and however often it closes it, [OnComplete] and [Release] each run
    exactly once, at the first [Close] and in that order, and neither runs
    without a [Close].  What is reported is the handle as that [Close] found
    it and the error that [Close] returned; error and phase are those of the
    file system's answers: failed with the first error there was, or with
    the one of closing the file or of the commit, and committed only if the
    commit succeeded. *)
Theorem close_reports_once seen (R : RemoteFS W F) o u hs w u' w' :
  recorded seen log_report log_free R o -> fs u = R -> opts u = o -> closed u = false ->
  hrun u hs w = (u', w') ->
  if existsb is_close hs
  then exists pre post u1 w1 r u2 w2 ph,
         hs = pre ++ HClose :: post /\ existsb is_close pre = false /\
         hrun u pre w = (u1, w1) /\ Close u1 w1 = ((r, u2), w2) /\ outcome u1 w1 = (ph, r) /\
         seen w' = seen w ++
           [Reported (Result.Mk (TransferID o) (SessionID o) (VirtualPath o) (finalPath u)
                        (written u1) (sha_of (hasher u1)) ph r); Released]
  else seen w' = seen w.
Proof.
  intros Hr Hfs Ho Hc H. apply (hrun_seen seen log_report log_free R o) in H; [|done..].
  destruct (existsb is_close hs); [|done].
  destruct H as (pre & post & u1 & w1 & r & u2 & w2 & ph & Hhs & Hpre & Hrun & HC & Hout & Hst & Hs).
  exists pre, post, u1, w1, r, u2, w2, ph. split_and!; [done..|]. rewrite Hs. unfold log_free, log_report, result.
  apply static_inj in Hst as (_ & _ & _ & -> & ->). by rewrite Ho, <- (assoc_L app).
Qed.

(** The handle counts and hashes what [Write] says it took. *)
Lemma urun_accepted d u os w u' w' :
  RemoteFSLaws (fs u) -> writer_at w (file u) = Some (tempPath u) ->
  written u = wrap64 (Z.of_nat (length d)) ->
  hasher u = (if CalculateSHA256 (opts u) then Some d else None) ->
  urun u os w = (u', w') ->
  written u' = wrap64 (Z.of_nat (length (d ++ accepted u os w))) /\
  hasher u' = (if CalculateSHA256 (opts u) then Some (d ++ accepted u os w) else None) /\
  (failed u' = false -> failed u = false /\ accepted u os w = payload os).
Proof.
  revert d u w. induction os as [|op os IH]; intros d u w Laws Hwr Hn Hh; simpl.
  { intros [= <- <-]. by rewrite app_nil_r. }
  intros (u1 & w1 & H1 & H2)%bind_inv. rewrite H1.
  destruct (ustep_keeps _ _ _ _ _ H1) as [(Hfs & Hfile & Htmp & _ & Hop)%static_inj _].
  destruct op as [p|e|len|off wh].
  2-4: injection H1 as <- <-; apply (IH d) in H2 as (? & ? & Hok); [|done..];
       split_and!; [done..|]; intros Hf; by destruct (Hok Hf).
  unfold payload. simpl. fold (payload os). rewrite (assoc_L app).
  destruct (over_limit u p) eqn:Hov.
  { rewrite ustep_write_over in H1 by done. injection H1 as <- <-.
    assert ((Write u p w).1.1.1 = 0) as -> by (unfold Write; unfold over_limit in Hov; by rewrite Hov).
    simpl. rewrite take_0, app_nil_r.
    apply (IH d) in H2 as (? & ? & Hok); [|done..]. split_and!; [done..|]. intros Hf. by destruct (Hok Hf). }
  destruct (f_Write (fs u) (file u) p w) as [[n err] w2] eqn:E.
  assert ((Write u p w).1.1.1 = n) as ->.
  { unfold Write. unfold over_limit in Hov. rewrite Hov. unfold bind. by rewrite E. }
  rewrite (ustep_write _ _ _ _ _ _ Hov E) in H1. injection H1 as <- <-.
  apply (rl_Write (fs := fs u)) with (p := tempPath u) in E as (_ & Hsw & Hrange & Hall); [|done].
  assert (length (take (Z.to_nat n) p) = Z.to_nat n) as Hlen by (rewrite length_take; lia).
  apply (IH (d ++ take (Z.to_nat n) p)) in H2 as (Hw & Hha & Hok).
  - rewrite Hop in Hha. split_and!; [done..|]. intros Hf. destruct (Hok Hf) as [Hf1 ->].
    destruct err as [e|]; [done|]. split; [done|]. destruct (Hall eq_refl) as [-> _].
    by rewrite Nat2Z.id, firstn_all.
  - by rewrite Hfs.
  - by rewrite Hsw, Hfile, Htmp.
  - unfold wrote. destruct err; simpl; rewrite Hn, wrap64_add_l, length_app, Hlen; f_equal; lia.
  - rewrite Hop. unfold wrote. destruct err; simpl; rewrite Hh; destruct (CalculateSHA256 (opts u));
      destruct (n >? 0) eqn:Hn0; try done; bool_to_prop;
      (replace (Z.to_nat n) with 0%nat by lia); by rewrite take_0, app_nil_r.
Qed.

(** C19. A whole upload, failed or not, reports exactly what happened: its
    error is the one [Close] returned, its phase is committed exactly when
    there is none, and its byte count and SHA-256 are those of the data
    [Write] said it took, chunk by chunk; when there is no error that is all
    the data received. *)
Theorem upload_report seen (R : RemoteFS W F) final o ops w r w' :
  recorded seen log_report log_free R o -> RemoteFSLaws R ->
  ~ is_link w (TempPath final (SessionID o) (TemporarySuffix o)) -> errors_given ops ->
  upload R final o ops w = (Ok r, w') ->
  exists u w1, NewUpload R final o w = (Ok u, w1) /\
    let data := accepted u ops w1 in
    seen w' = seen w ++
      [Reported (Result.Mk (TransferID o) (SessionID o) (VirtualPath o) final
                   (wrap64 (Z.of_nat (length data)))
                   (if CalculateSHA256 o then Sha256.sum_hex data else "")
                   (if r is Some _ then PhaseFailed else PhaseCommitted) r); Released] /\
    (r = None -> data = payload ops).
Proof.
  intros Hr Laws Hl He. unfold upload.
  intros (u & w1 & H1 & (u1 & w2 & H2 & ([r0 u2] & w3 & H3 & [= <- <-])%bind_inv)%bind_inv)%bindE_inv_ok.
  exists u, w1. split; [done|].
  destruct (NewUpload_inv _ _ _ _ _ _ Laws ltac:(by intros ? ->) H1)
    as (Hinv & _ & HR & _ & _ & _ & Hf).
  destruct (NewUpload_seen _ _ _ _ _ _ _ _ _ Hr H1) as (Hs1 & _ & Ho & Hc & Hfin).
  rewrite <- HR in Laws.
  destruct (urun_inv _ _ _ _ _ _ Laws Hinv H2) as (_ & _ & _ & Herr).
  destruct Hinv as (_ & Hwr & Hd). destruct (Hd Hf) as (_ & _ & Hn & Hh).
  destruct (urun_accepted [] _ _ _ _ _ Laws Hwr Hn Hh H2) as (Hn1 & Hh1 & Hok).
  destruct (urun_seen _ _ _ _ _ _ _ _ _ _ Hr HR H2)
    as (Hs2 & (HR2 & _ & _ & Hfin2 & Ho2)%static_inj & Hc2).
  apply (Close_seen seen log_report log_free R o) in H3 as (ph & Hs3 & Hout); [|done|congruence..].
  assert (ph = (if r0 is Some _ then PhaseFailed else PhaseCommitted) /\ (r0 = None -> failed u1 = false))
    as [-> Hr0].
  { specialize (Herr He ltac:(by rewrite Hf)). unfold outcome, committing in Hout.
    destruct (f_Close (fs u1) (file u1) w2) as [[x|e] w4]; [|by injection Hout as <- <-].
    destruct (failed u1).
    - injection Hout as <- <-. specialize (Herr eq_refl). by destruct (failErr u1).
    - by destruct (fs_Commit _ _ _ _ _).1; injection Hout as <- <-. }
  split; [|intros Hnone; apply Hok; auto].
  rewrite Hs3, Hs2, Hs1. unfold log_free, log_report, result. rewrite <- (assoc_L app).
  rewrite Ho2, Ho, Hfin2, Hfin, Hn1, Hh1, Ho. by destruct (CalculateSHA256 o).
Qed.
End report.

(** ** Atomicity and the size limit *)
Section guarantees.
Context {W F : Type} `{Obs : Observe W F}.
Import Upload.

(** C1. An upload is atomic at its final name.  While it runs the final
    name keeps what it had; if [Close] reports success it holds exactly the
    bytes received and the temporary name is gone; if [Close] reports an
    error it keeps what it had, except that an error reply to the rename
    may hide a complete file and that replacing without posix-rename may
    already have removed the old one.  No other path changes. *)
Theorem upload_atomic (R : RemoteFS W F) final o w :
  let temp := TempPath final (SessionID o) (TemporarySuffix o) in
  RemoteFSLaws R -> hooks_quiet o -> temp <> final -> ~ is_link w temp ->
  (forall u w1 os u' w', NewUpload R final o w = (Ok u, w1) -> urun u os w1 = (u', w') ->
     content w' final = content w final) /\
  (forall os r w', errors_given os -> upload R final o os w = (Ok r, w') ->
     frame [temp; final] w w' /\
     match r with
     | None => content w' final = Some (payload os) /\ content w' temp = None
     | Some _ => content w' final = content w final \/
                 (Overwrite o = true /\ content w' final = None) \/
                 content w' final = Some (payload os)
     end).
Proof.
  intros temp Laws Hq Hne Hl. split.
  - intros u w1 os u' w' H1 H2.
    apply NewUpload_inv in H1 as (Hinv & Hfr & HR & Ht & _); [|done|by intros ? ->].
    rewrite <- HR in Laws. apply (urun_inv []) in H2 as (_ & Hfr2 & _); [|done..].
    rewrite (Hfr2 final), (Hfr final); [done|fold temp|rewrite Ht; fold temp]; set_solver.
  - intros os r w' He H. apply upload_spec in H as (Hfr & Hok & Hbad); [|done..].
    split; [done|]. destruct r; [by apply Hbad|by apply Hok].
Qed.

(** C20. [MaxSize] is a hard limit: an upload that sends more bytes fails
    whatever the sizes of its chunks, and the final name is untouched.
    (The sum [written+len(p)] must not overflow: chunks are small.) *)
Theorem upload_size_limit (R : RemoteFS W F) final o os w r w' :
  let temp := TempPath final (SessionID o) (TemporarySuffix o) in
  RemoteFSLaws R -> hooks_quiet o -> temp <> final -> ~ is_link w temp -> errors_given os ->
  0 < MaxSize o -> chunks_fit (MaxSize o) os ->
  MaxSize o < Z.of_nat (length (payload os)) ->
  upload R final o os w = (Ok r, w') ->
  r <> None /\ content w' final = content w final.
Proof.
  intros temp Laws Hq Hne Hl He Hm Hfit Hbig. unfold upload.
  intros (u & w1 & H1 & (u1 & w2 & H2 & ([r0 u2] & w3 & H3 & [= <- <-])%bind_inv)%bind_inv)%bindE_inv_ok.
  destruct (NewUpload_inv _ _ _ _ _ _ Laws ltac:(by intros ? ->) H1)
    as (Hinv & Hfr1 & HR & Ht & _ & Ho & Hf).
  rewrite <- HR in Laws. rewrite <- Ho in *.
  destruct (urun_inv _ _ _ _ _ _ Laws Hinv H2) as (Hinv2 & Hfr2 & Hst & Herr).
  assert (failed u1 = true) as Hf1.
  { apply not_false_iff_true. intros Hf1.
    enough (Z.of_nat (length ([] ++ payload os)) <= MaxSize (opts u)) by (simpl in *; lia).
    eapply urun_limit; try done. intros _. simpl. lia. }
  destruct (static_inj _ _ Hst) as (HR2 & _ & Ht2 & _ & Ho2).
  rewrite <- HR2 in Laws. rewrite <- Ho2 in Hq. destruct Hinv2 as (Hc & _ & _).
  assert (failErr u1 <> None) as He1 by (apply (Herr He); [by rewrite Hf|done]).
  apply Close_failed in H3 as [-> Hfr3]; [|done..]. split; [done|].
  rewrite Ht2, Ht in *. fold temp in Hfr1, Hfr2, Hfr3 |- *.
  rewrite (Hfr3 final), (Hfr2 final), (Hfr1 final) by set_solver. done.
Qed.
End guarantees.

(** ** A file system with a log beside it

    Callbacks that record what they are given, on top of any file system:
    used to run the theorems on the in-memory server. *)
Section logged.
Context {W F L : Type} `{Obs : Observe W F}.

Definition on_fs {A} (m : M W A) : M (W * L) A := zoom fst (fun s w => (s, snd w)) m.

Definition log_fs (R : RemoteFS W F) : RemoteFS (W * L) F :=
  MkRemoteFS (W * L) F
    (fun p => on_fs (fs_Stat R p)) (fun p => on_fs (fs_OpenRead R p))
    (fun p => on_fs (fs_CreateTemp R p)) (fun t f ow => on_fs (fs_Commit R t f ow))
    (fun p => on_fs (fs_Remove R p)) (fun h n => on_fs (f_Read R h n))
    (fun h bs => on_fs (f_Write R h bs)) (fun h o wh => on_fs (f_Seek R h o wh))
    (fun h => on_fs (f_Close R h)).

#[export] Instance log_observe : Observe (W * L) F := {
  content w := content (fst w);
  is_link w := is_link (fst w);
  writer_at w := writer_at (fst w);
}.

Lemma on_fs_inv {A} (m : M W A) w a w' :
  on_fs m w = (a, w') -> m (fst w) = (a, fst w') /\ snd w' = snd w.
Proof. unfold on_fs, zoom. destruct (m (fst w)). by intros [= <- <-]. Qed.

Lemma on_fs_silent {A} (m : M W A) w : snd (on_fs m w).2 = snd w.
Proof. unfold on_fs, zoom. by destruct (m (fst w)). Qed.

Lemma log_fs_silent R : fs_silent snd (log_fs R).
Proof. split; intros; intros w; apply on_fs_silent. Qed.

#[export] Instance log_fs_laws R : RemoteFSLaws R -> RemoteFSLaws (log_fs R).
Proof.
  intros Laws. split; simpl.
  - intros p w. pose proof (rl_Stat (fs := R) p (fst w)) as H. unfold on_fs, zoom.
    by destruct (fs_Stat R p (fst w)).
  - intros p w r w' Hl [H _]%on_fs_inv. by apply (rl_CreateTemp (fs := R)) in H.
  - intros h bs w n e w' p [H _]%on_fs_inv. apply (rl_Write (fs := R) _ _ _ _ _ _ _ H).
  - intros h w r w' [H _]%on_fs_inv. by apply (rl_Close (fs := R)) in H.
  - intros p w r w' [H _]%on_fs_inv. by apply (rl_Remove (fs := R)) in H.
  - intros t f ow w r w' Hne [H _]%on_fs_inv. by apply (rl_Commit (fs := R)) in H.
Qed.
End logged.

Definition chars (s : string) : bytes := String.list_ascii_of_string s.

Definition mem_client (posix : bool) (root : string) : Client MemFS :=
  MkClient (Some posix) (Some posix) root.

Section witnesses.
Import Upload.

Definition demo_world : MemFS * list event :=
  (mem_of [("/data", NDir); ("/data/a", NFile (chars "o"))], []).
Definition demo_fs : RemoteFS (MemFS * list event) nat := log_fs (client_fs (mem_client true "/data")).
Definition demo_opts (max : Z) : UploadOptions (MemFS * list event) :=
  MkOptions _ "s1" "t1" "/a" max true true ".part"
    (Some (fun r w => (tt, (fst w, snd w ++ [Reported r]))))
    (Some (fun w => (tt, (fst w, snd w ++ [Released])))).
Definition demo_ops : list uop := [UWrite (chars "a"); UWrite (chars "bc")].

Lemma demo_recorded max : recorded snd log_report log_free demo_fs (demo_opts max).
Proof.
  split.
  - apply log_fs_silent.
  - by refine (ex_intro _ _ (conj eq_refl _)).
  - by refine (ex_intro _ _ (conj eq_refl _)).
Qed.

Lemma demo_hooks max : hooks_quiet (demo_opts max).
Proof. split; intros; simplify_eq/=; intros w; (split_and!; [by intros p _|done|by intros p]). Qed.

Definition demo_handle (max : Z) : UploadHandle (MemFS * list event) nat :=
  MkUpload demo_fs 0%nat (Some []) "/data/a.part-s1" "/data/a" (demo_opts max) 0 false None false.

Lemma demo_no_link : ~ is_link demo_world "/data/a.part-s1".
Proof. by intros [t H]. Qed.

Lemma demo_errors_given : errors_given demo_ops.
Proof. by repeat constructor. Qed.

(** The world once the handle is open. *)
Definition demo_opened : MemFS * list event :=
  (NewUpload demo_fs "/data/a" (demo_opts 0) demo_world).2.
Definition demo_hops : list hop :=
  [HOp (UWrite (chars "z")); HClose; HOp (UWrite (chars "y")); HClose].

Lemma close_reports_once_witness :
  snd (hrun (demo_handle 0) demo_hops demo_opened).2 =
    [Reported (Result.Mk "t1" "s1" "/a" "/data/a" 1 (Sha256.sum_hex (chars "z")) PhaseCommitted None);
     Released] /\
  exists pre post u1 w1 r u2 w2 ph,
    demo_hops = pre ++ HClose :: post /\ existsb is_close pre = false /\
    hrun (demo_handle 0) pre demo_opened = (u1, w1) /\ Close u1 w1 = ((r, u2), w2) /\
    outcome u1 w1 = (ph, r) /\
    snd (hrun (demo_handle 0) demo_hops demo_opened).2 = snd demo_opened ++
      [Reported (Result.Mk "t1" "s1" "/a" "/data/a" (written u1) (sha_of (hasher u1)) ph r); Released].
Proof.
  split; [vm_compute; reflexivity|].
  exact (close_reports_once snd demo_fs (demo_opts 0) (demo_handle 0) demo_hops demo_opened _ _
    (demo_recorded 0) eq_refl eq_refl eq_refl (surjective_pairing _)).
Defined.

Lemma upload_report_witness :
  (upload demo_fs "/data/a" (demo_opts 2) demo_ops demo_world).1 = Ok (Some too_big) /\
  exists u w1, NewUpload demo_fs "/data/a" (demo_opts 2) demo_world = (Ok u, w1) /\
    let data := accepted u demo_ops w1 in
    snd (upload demo_fs "/data/a" (demo_opts 2) demo_ops demo_world).2 = snd demo_world ++
      [Reported (Result.Mk "t1" "s1" "/a" "/data/a" (wrap64 (Z.of_nat (length data)))
         (Sha256.sum_hex data) PhaseFailed (Some too_big)); Released] /\
    (Some too_big = None -> data = payload demo_ops).
Proof.
  assert ((upload demo_fs "/data/a" (demo_opts 2) demo_ops demo_world).1 = Ok (Some too_big)) as H
    by (vm_compute; reflexivity).
  split; [exact H|].
  destruct (upload demo_fs "/data/a" (demo_opts 2) demo_ops demo_world) as [r w'] eqn:E.
  simpl in H. subst r.
  exact (upload_report snd demo_fs "/data/a" (demo_opts 2) demo_ops demo_world (Some too_big) w'
    (demo_recorded 2) _ demo_no_link demo_errors_given E).
Defined.

Lemma upload_atomic_witness :
  content (upload demo_fs "/data/a" (demo_opts 0) demo_ops demo_world).2 "/data/a"
  = Some (payload demo_ops).
Proof.
  pose proof (upload_atomic demo_fs "/data/a" (demo_opts 0) demo_world _ (demo_hooks 0)
                ltac:(vm_compute; discriminate) demo_no_link) as [_ H].
  destruct (H demo_ops None _ demo_errors_given ltac:(vm_compute; reflexivity)) as [_ [H1 _]].
  exact H1.
Defined.

Lemma upload_size_limit_witness :
  exists e w', upload demo_fs "/data/a" (demo_opts 2) demo_ops demo_world = (Ok (Some e), w') /\
    content w' "/data/a" = content demo_world "/data/a".
Proof.
  do 2 eexists. split; [vm_compute; reflexivity|].
  refine (proj2 (upload_size_limit demo_fs "/data/a" (demo_opts 2) demo_ops demo_world _ _ _
    (demo_hooks 2) _ demo_no_link demo_errors_given _ _ _ _)).
  - vm_compute. discriminate.
  - reflexivity.
  - by repeat constructor.
  - reflexivity.
  - vm_compute. reflexivity.
Defined.
End witnesses.

(** ** Temporary names *)

Lemma last_sep_inj a b s t c :
  ContainsByte s c = false -> ContainsByte t c = false ->
  a +:+ String c s = b +:+ String c t -> a = b /\ s = t.
Proof.
  intros Hs Ht H. apply (f_equal (fun x => Split x c)) in H.
  rewrite !Split_app_sep, (Split_nosep s), (Split_nosep t) in H by done.
  apply app_inj_tail in H as [H ->]. split; [|done].
  by rewrite <- (Join_Split a c), H, Join_Split.
Qed.

Lemma good_comp_temp base suffix sess :
  good_comp base -> ContainsByte suffix slash = false -> ContainsByte sess slash = false ->
  good_comp (base +:+ suffix +:+ "-" +:+ sess).
Proof.
  intros (Hne & _ & _ & Hb) Hs Ht.
  assert (ContainsByte (base +:+ suffix +:+ "-" +:+ sess) dash = true) as Hd.
  { rewrite !ContainsByte_app. simpl. by rewrite !orb_true_r. }
  split_and!; [by destruct base|by intros H; rewrite H in Hd..|].
  rewrite !ContainsByte_app, Hb, Hs, Ht. done.
Qed.

Lemma TempPath_abs_path cs base suffix sess :
  Forall good_comp (cs ++ [base]) ->
  ContainsByte suffix slash = false -> ContainsByte sess slash = false ->
  TempPath (abs_path (cs ++ [base])) sess suffix = abs_path (cs ++ [base +:+ suffix +:+ "-" +:+ sess]).
Proof.
  intros H Hs Ht. unfold TempPath. rewrite Dir_abs_path, Base_abs_path by done.
  apply Forall_app in H as [Hcs Hb]. rewrite Forall_singleton in Hb.
  apply (Join2_good cs [_]); [done|]. apply Forall_singleton. by apply good_comp_temp.
Qed.

Lemma good_comps_temp cs base suffix sess :
  Forall good_comp (cs ++ [base]) -> ContainsByte suffix slash = false -> ContainsByte sess slash = false ->
  Forall good_comp (cs ++ [base +:+ suffix +:+ "-" +:+ sess]).
Proof.
  intros [Hc Hb]%Forall_app Hs Hx. apply Forall_app. split; [done|].
  rewrite Forall_singleton in Hb. apply Forall_singleton. by apply good_comp_temp.
Qed.

(** A temporary name gives away whose it is. *)
Lemma TempPath_inj cs base sess cs' base' sess' suffix :
  Forall good_comp (cs ++ [base]) -> Forall good_comp (cs' ++ [base']) ->
  ContainsByte suffix slash = false -> ContainsByte sess slash = false -> ContainsByte sess' slash = false ->
  ContainsByte sess dash = false -> ContainsByte sess' dash = false ->
  TempPath (abs_path (cs' ++ [base'])) sess' suffix = TempPath (abs_path (cs ++ [base])) sess suffix ->
  cs' = cs /\ base' = base /\ sess' = sess.
Proof.
  intros H H' Hs Ht Ht' Hd Hd'. rewrite !TempPath_abs_path by done.
  intros E%abs_path_inj; [|by apply good_comps_temp..]. apply app_inj_tail in E as [-> E].
  rewrite !(str_app_assoc _ suffix) in E.
  apply last_sep_inj in E as [E ->]; [|done..].
  split_and!; [done| |done]. by apply str_app_inj_length_r in E as [-> _].
Qed.

(** A final name that does not look like a temporary one is none. *)
Lemma TempPath_final cs base sess cs' base' suffix :
  Forall good_comp (cs ++ [base]) -> Forall good_comp (cs' ++ [base']) ->
  ContainsByte suffix slash = false -> ContainsByte sess slash = false ->
  Contains base' (suffix +:+ "-") = false ->
  TempPath (abs_path (cs ++ [base])) sess suffix <> abs_path (cs' ++ [base']).
Proof.
  intros H H' Hs Ht Hc. rewrite TempPath_abs_path by done.
  intros E%abs_path_inj; [|by apply good_comps_temp|done]. apply app_inj_tail in E as [_ <-].
  assert (Contains (base +:+ suffix +:+ "-" +:+ sess) (suffix +:+ "-") = true) as Hc'; [|congruence].
  apply Contains_spec. exists base, sess. by rewrite !str_app_assoc.
Qed.

(** C33. The temporary name of an upload.  If neither the suffix nor the
    session id has a "/" and session ids have no "-", then for every final
    name but "/" it is a file of the same directory, not the final name,
    not the temporary name of another file or of another session, and not
    the final name of any upload whose base name does not contain the suffix
    followed by "-". *)
Theorem TempPath_private cs base suffix sess :
  Forall good_comp (cs ++ [base]) ->
  ContainsByte suffix slash = false -> ContainsByte sess slash = false ->
  ContainsByte sess dash = false ->
  let final := abs_path (cs ++ [base]) in
  let temp := TempPath final sess suffix in
  Dir temp = Dir final /\ temp <> final /\
  (forall cs' base' sess', Forall good_comp (cs' ++ [base']) ->
    ContainsByte sess' slash = false -> ContainsByte sess' dash = false ->
    TempPath (abs_path (cs' ++ [base'])) sess' suffix = temp ->
    cs' = cs /\ base' = base /\ sess' = sess) /\
  (forall cs' base', Forall good_comp (cs' ++ [base']) ->
    Contains base' (suffix +:+ "-") = false -> temp <> abs_path (cs' ++ [base'])).
Proof.
  intros H Hs Ht Hd final temp. subst final temp. split_and!.
  - rewrite TempPath_abs_path by done. by rewrite !Dir_abs_path by auto using good_comps_temp.
  - rewrite TempPath_abs_path by done. intros E%abs_path_inj; [|by auto using good_comps_temp..].
    apply app_inj_tail in E as [_ E].
    apply (f_equal String.length) in E. rewrite !str_length_app in E. simpl in E. lia.
  - intros cs' base' sess' H' Ht' Hd'. by apply TempPath_inj.
  - intros cs' base' H' Hc. by apply TempPath_final.
Qed.

Lemma TempPath_private_witness :
  TempPath "/data/report.csv" "00ff" ".part" = "/data/report.csv.part-00ff" /\
  Dir "/data/report.csv.part-00ff" = "/data".
Proof.
  split; [reflexivity|].
  refine (proj1 (TempPath_private ["data"] "report.csv" ".part" "00ff" _ eq_refl eq_refl eq_refl)).
  repeat constructor; vm_compute; discriminate.
Defined.
