(* ===== verification/Interference.v ===== *)
(** * Requests that interleave with those of others

    The handlers of one session run while other sessions, and other clients
    of the same server, send requests of their own.  [interfering] turns an
    SFTP library into one whose remote state moves between any two requests:
    before each request the others leave the server in the states the
    schedule [visits] says, and every change is recorded in [trail] with its
    author.  Any function of the program runs on it unchanged, so its
    interleavings are cut at single requests.

    [rg] is the rely-guarantee triple of that semantics: as long as the
    others kept to [rely], every request kept to [guar], and a condition
    stable under [rely] holds where it is stated. *)
From S2P Require Import Prelude GoStrings GoPath Errors SftpLib.
Open Scope string_scope.
Open Scope list_scope.
Open Scope Z_scope.

Record transition (R : Type) := Step { own : bool; before : R; after : R }.
Arguments Step {R}. Arguments own {R}. Arguments before {R}. Arguments after {R}.

Record Shared (R L : Type) := MkShared {
  server : R;
  visits : list (list R);
  trail : list (transition R);
  local : L;
}.
Arguments MkShared {R L}. Arguments server {R L}. Arguments visits {R L}.
Arguments trail {R L}. Arguments local {R L}.

Section interference.
Context {R L : Type}.
Implicit Types (i : Shared R L) (r : R) (tr : list (transition R)).

(** The others take the server from [r] through the states [rs]. *)
Fixpoint visited r (rs : list R) : list (transition R) :=
  match rs with
  | [] => []
  | s :: rs => Step false r s :: visited s rs
  end.

Fixpoint final_state r (rs : list R) : R :=
  match rs with [] => r | s :: rs => final_state s rs end.

(** One request, after whatever the others did. *)
Definition request {A} (m : M R A) : M (Shared R L) A := fun i =>
  let rs := default [] (head (visits i)) in
  let r := final_state (server i) rs in
  let '(a, r') := m r in
  (a, MkShared r' (tail (visits i)) (trail i ++ visited (server i) rs ++ [Step true r r']) (local i)).

Definition interfering (Lib : SftpLib R) : SftpLib (Shared R L) := {|
  SshClient := @SshClient _ Lib;
  SftpConn := @SftpConn _ Lib;
  SftpFile := @SftpFile _ Lib;
  sftp_NewClient c := request (sftp_NewClient c);
  ssh_Close c := request (ssh_Close c);
  sftp_Close c := request (sftp_Close c);
  sftp_HasExtension c x := sftp_HasExtension c x;
  sftp_Stat c p := request (sftp_Stat c p);
  sftp_Lstat c p := request (sftp_Lstat c p);
  sftp_ReadLink c p := request (sftp_ReadLink c p);
  sftp_ReadDirContext c t p := request (sftp_ReadDirContext c t p);
  sftp_OpenFile c p fl := request (sftp_OpenFile c p fl);
  sftp_Remove c p := request (sftp_Remove c p);
  sftp_RemoveDirectory c p := request (sftp_RemoveDirectory c p);
  sftp_Mkdir c p := request (sftp_Mkdir c p);
  sftp_Rename c a b := request (sftp_Rename c a b);
  sftp_PosixRename c a b := request (sftp_PosixRename c a b);
  file_Read h n := request (file_Read h n);
  file_Write h bs := request (file_Write h bs);
  file_Seek h o wh := request (file_Seek h o wh);
  file_Close h := request (file_Close h);
|}.

(** ** Rely and guarantee *)
Section triples.
Variables rely guar : R -> R -> Prop.

Definition relied tr : Prop :=
  Forall (fun t => own t = false -> rely (before t) (after t)) tr.

(** Every own transition is guaranteed, provided the others kept to [rely]
    before it: what they do later cannot excuse it. *)
Definition kept tr : Prop :=
  forall pre t post, tr = pre ++ t :: post -> own t = true -> relied pre -> guar (before t) (after t).

(** The server is where the trail leads. *)
Definition coherent r0 i : Prop := server i = foldl (fun _ t => after t) r0 (trail i).

Definition stable (P : R -> Prop) : Prop := forall r r', P r -> rely r r' -> P r'.

Definition rg {A} (P : R -> Prop) (m : M (Shared R L) A) (Q : A -> R -> Prop) : Prop :=
  forall i a i', m i = (a, i') -> kept (trail i) -> (relied (trail i) -> P (server i)) ->
  kept (trail i') /\ (relied (trail i') -> relied (trail i) /\ Q a (server i')) /\
  (forall r0, coherent r0 i -> coherent r0 i').

Lemma kept_prefix tr tr' : kept (tr ++ tr') -> kept tr.
Proof. intros H pre t post -> Ho Hr. eapply H; [|done..]. by rewrite <- (assoc_L app). Qed.

Lemma kept_app tr tr' :
  kept tr ->
  (forall pre t post, tr' = pre ++ t :: post -> own t = true -> relied (tr ++ pre) ->
     guar (before t) (after t)) ->
  kept (tr ++ tr').
Proof.
  intros Htr Htr' pre t post E Ho Hr. apply app_eq_app in E as [k [[-> E]|[-> E]]].
  - destruct k as [|t' k]; simplify_eq/=.
    + apply (Htr' [] t post); [done|done|]. by rewrite !app_nil_r.
    + by apply (Htr pre t' k).
  - by apply (Htr' k t post).
Qed.

Lemma visited_others r rs t : t ∈ visited r rs -> own t = false.
Proof. revert r. induction rs as [|s rs IH]; intros r; set_solver. Qed.

Lemma stable_visited (P : R -> Prop) r rs :
  stable P -> relied (visited r rs) -> P r -> P (final_state r rs).
Proof.
  intros HP. revert r. induction rs as [|s rs IH]; intros r; simpl; [done|].
  intros [H1 H2]%Forall_cons Hr. apply IH; [done|]. by apply (HP r), H1.
Qed.

Lemma kept_request r rs r' tr :
  kept tr -> (relied (tr ++ visited r rs) -> guar (final_state r rs) r') ->
  kept (tr ++ visited r rs ++ [Step true (final_state r rs) r']).
Proof.
  intros Htr Hg. apply kept_app; [done|]. intros pre t post E Ho Hr.
  destruct post as [|t' post _] using rev_ind.
  - apply app_inj_tail in E as [<- <-]. by apply Hg.
  - rewrite app_comm_cons, (assoc_L app) in E. apply app_inj_tail in E as [E _].
    exfalso. assert (t ∈ visited r rs) as H%visited_others by (rewrite E; set_solver).
    congruence.
Qed.

(** *** Rules *)

Lemma rg_request {A} P (m : M R A) Q :
  stable P -> (forall r a r', P r -> m r = (a, r') -> guar r r' /\ Q a r') ->
  rg P (request m) Q.
Proof.
  intros HP Hm i a i'. unfold request. set (rs := default [] _).
  destruct (m (final_state (server i) rs)) as [x r'] eqn:E. intros [= <- <-] Hk Hi. simpl.
  assert (relied (trail i ++ visited (server i) rs) ->
          guar (final_state (server i) rs) r' /\ Q x r') as H.
  { intros [H1 H2]%Forall_app. eapply Hm; [|done]. apply stable_visited; auto. }
  split; [apply kept_request; [done|intros Hr; by apply H]|].
  rewrite (assoc_L app). split.
  - intros [Hr _]%Forall_app. split; [|by apply H]. by apply Forall_app in Hr as [? _].
  - intros r0 _. unfold coherent. simpl. by rewrite foldl_snoc.
Qed.

Lemma rg_ret {A} (P : R -> Prop) (a : A) : rg P (ret a) (fun x r => x = a /\ P r).
Proof. intros i x i' [= <- <-] Hk Hi. split_and!; auto. Qed.

(** [φ] is what the result satisfies whatever the server answers. *)
Lemma rg_bind_pure {A B} (φ : A -> Prop) P (m : M (Shared R L) A) Q (k : A -> M (Shared R L) B) S :
  (forall i a i', m i = (a, i') -> φ a) -> rg P m Q -> (forall a, φ a -> rg (Q a) (k a) S) ->
  rg P (bind m k) S.
Proof.
  intros Hφ Hm Hk i b i' (a & i1 & H1 & H2)%bind_inv Hkept Hi.
  destruct (Hm _ _ _ H1 Hkept Hi) as (Hk1 & Hr1 & Hc1).
  destruct (Hk a (Hφ _ _ _ H1) _ _ _ H2 Hk1 ltac:(intros; by apply Hr1)) as (Hk2 & Hr2 & Hc2).
  split_and!; [done| |auto]. intros Hr. destruct (Hr2 Hr) as [H1' HS]. split; [by apply Hr1|done].
Qed.

Lemma rg_bind {A B} P (m : M (Shared R L) A) Q (k : A -> M (Shared R L) B) S :
  rg P m Q -> (forall a, rg (Q a) (k a) S) -> rg P (bind m k) S.
Proof. intros Hm Hk. by apply (rg_bind_pure (fun _ => True) P m Q). Qed.

Lemma rg_conseq {A} (P P' : R -> Prop) (m : M (Shared R L) A) (Q Q' : A -> R -> Prop) :
  rg P' m Q' -> (forall r, P r -> P' r) -> (forall a r, Q' a r -> Q a r) -> rg P m Q.
Proof. intros Hm HP HQ i a i' E Hk Hi. destruct (Hm i a i' E Hk); naive_solver. Qed.

Lemma rg_bindE {E A B} P (m : M (Shared R L) (result E A)) Q (k : A -> M (Shared R L) (result E B)) S :
  rg P m Q -> (forall a, rg (Q (Ok a)) (k a) S) -> (forall e r, Q (Err e) r -> S (Err e) r) ->
  rg P (bindE m k) S.
Proof.
  intros Hm Hk He. apply (rg_bind _ _ Q); [done|]. intros [a|e]; [done|].
  eapply rg_conseq; [apply rg_ret|done|]. simpl. intros x r [-> H]. auto.
Qed.

Lemma rg_returns {A} (P : R -> Prop) (a : A) (Q : A -> R -> Prop) :
  (forall r, P r -> Q a r) -> rg P (ret a) Q.
Proof. intros H. eapply rg_conseq; [apply rg_ret|done|]. intros x r [-> Hr]. auto. Qed.

(** A computation that stays on the client's side. *)
Definition on_client {A} (m : M (Shared R L) A) : Prop :=
  forall i, server (m i).2 = server i /\ visits (m i).2 = visits i /\ trail (m i).2 = trail i.

Lemma rg_client {A} P (m : M (Shared R L) A) : on_client m -> rg P m (fun _ => P).
Proof.
  intros Hm i a i' E Hk Hi. specialize (Hm i). rewrite E in Hm. simpl in Hm.
  destruct Hm as (Hs & _ & Ht). unfold coherent. rewrite Hs, Ht. auto.
Qed.
End triples.
End interference.
