(* ===== verification/Concurrent.v ===== *)
(** * Uploads that run at the same time

    Many sessions upload to the same server, and their requests interleave.
    Each upload is run over [Interference.interfering]: whatever the others
    do between two of its requests, as long as they leave its temporary file
    alone, it only ever touches its temporary and its final name, and gives
    the final name nothing but its complete data.  Since that is also what
    it asks of the others, any number of uploads with distinct temporary
    names keep it together. *)
From S2P Require Import Prelude GoStrings GoPath Errors Filesystem SftpLib MemServer SftpClient Sha256 Transfer UploadSpec Interference SftpClientSpec TransferSpec.
Open Scope string_scope.
Open Scope list_scope.
Open Scope Z_scope.

(** ** Requests leave others' files alone *)
Section apart.
Context {W F : Type} `{Obs : Observe W F}.

(** From [w] to [w'] only the paths [ps] are touched: other files, the
    handles that write to them and the absence of links are as before. *)
Definition apart (ps : list string) (w w' : W) : Prop :=
  frame ps w w' /\
  (forall q h, q ∉ ps -> writer_at w h = Some q -> writer_at w' h = Some q) /\
  (forall q, q ∉ ps -> is_link w' q -> is_link w q).

Lemma apart_quiet {A} ps (m : M W A) w a w' : quiet m -> m w = (a, w') -> apart ps w w'.
Proof.
  intros Hm E. apply quiet_run in E as (Hf & Hw & Hl); [|done].
  split_and!; [by apply frame_any|intros q h _ <-; apply Hw|intros q _; apply Hl].
Qed.

Lemma apart_mono ps qs w w' : apart ps w w' -> ps ⊆ qs -> apart qs w w'.
Proof.
  intros (H1 & H2 & H3) Hs. split_and!; [by eapply frame_mono|..]; intros q; [intros h|]; intros Hq; [apply H2|apply H3]; set_solver.
Qed.
End apart.

Class IsolationLaws (R : Type) {Lib : SftpLib R} `{Observe R SftpFile} : Prop := {
  iso_OpenTrunc c p w r w' :
    ~ is_link w p -> sftp_OpenFile c p (Z.lor O_WRONLY (Z.lor O_CREATE O_TRUNC)) w = (r, w') ->
    apart [p] w w';
  iso_Write h bs w r w' p : file_Write h bs w = (r, w') -> writer_at w h = Some p -> apart [p] w w';
  iso_Close h w r w' p : file_Close h w = (r, w') -> writer_at w h = Some p -> apart [p] w w';
  iso_Remove c p w r w' : sftp_Remove c p w = (r, w') -> apart [p] w w';
  iso_Rename c a b w r w' : sftp_Rename c a b w = (r, w') -> apart [a; b] w w';
  iso_PosixRename c a b w r w' : sftp_PosixRename c a b w = (r, w') -> apart [a; b] w w';
}.

(** ** One upload among others *)
Section one.
Context {R L : Type} {Lib : SftpLib R} {Obs : Observe R SftpFile}.
Context {Laws : SftpLaws R} {Iso : IsolationLaws R}.
Import Upload.

Abbreviation S := (Shared R L).
Abbreviation File := (@SftpFile R Lib).
#[local] Instance Between : SftpLib S := interfering Lib.

Section job.
Variables (temp final : string) (data : bytes) (ow posix : bool).
Hypothesis Hne : temp <> final.

(** What an upload asks of the others ... *)
Definition rely (r r' : R) : Prop :=
  content r' temp = content r temp /\
  (forall h, writer_at r h = Some temp -> writer_at r' h = Some temp) /\
  (is_link r' temp -> is_link r temp).

(** ... and what it promises: the final name keeps what it had, receives all
    of the data at once, or is removed to be replaced by a server that
    cannot replace. *)
Definition guar (r r' : R) : Prop :=
  apart [temp; final] r r' /\
  (content r' final = content r final \/ content r' final = Some data \/
   (ow = true /\ posix = false /\ content r' final = None)).

Abbreviation rg := (Interference.rg (L := L) rely guar).

Lemma guar_quiet {A} (m : M R A) r a r' : quiet m -> m r = (a, r') -> guar r r'.
Proof.
  intros Hm E. split; [by eapply apart_quiet|]. left. apply quiet_run in E as [Hf _]; [|done].
  by apply frame_nil.
Qed.

(** A touch of the temporary file alone. *)
Lemma guar_temp r r' : apart [temp] r r' -> guar r r'.
Proof.
  intros H. split; [eapply apart_mono; [done|set_solver]|]. left. apply H. set_solver.
Qed.

(** Requests that only look keep any stable condition on the temporary. *)
Definition about_temp (P : R -> Prop) : Prop :=
  stable rely P /\ (forall A (m : M R A) r a r', quiet m -> m r = (a, r') -> P r -> P r').

Lemma rg_look {A} P (m : M R A) : about_temp P -> quiet m -> rg P (request m) (fun _ => P).
Proof.
  intros [HP Hq] Hm. apply rg_request; [done|]. intros r a r' Hr E.
  split; [by eapply guar_quiet|by eapply Hq].
Qed.

Lemma rg_keep {A} (P : R -> Prop) (a : A) : rg P (ret a) (fun _ => P).
Proof. by apply rg_returns. Qed.

Lemma rg_translated {A} op P (m : M S (res A)) (Q : res A -> R -> Prop) :
  rg P m Q -> (forall e r, Q (Err e) r -> Q (Err (translateError op e)) r) ->
  rg P (translated op m) Q.
Proof.
  intros Hm He. eapply rg_bind; [done|]. intros x.
  eapply rg_conseq; [apply rg_ret|done|]. intros y r [-> H]. destruct x; auto.
Qed.

Lemma rg_check P c p : about_temp P -> rg P (checkNoEscapingSymlink (R := S) c p) (fun _ => P).
Proof.
  intros HP. unfold checkNoEscapingSymlink. eapply rg_bind.
  { apply rg_look; [done|apply law_Lstat]. }
  intros [fi|e]; simpl; [|case_match; apply rg_keep].
  case_match; [apply rg_keep|]. apply (rg_bindE _ _ _ _ (fun _ => P)); [|intros t; case_match; apply rg_keep|done].
  apply rg_translated; [|done]. apply rg_look; [done|apply law_ReadLink].
Qed.

Lemma rg_Stat P c p : about_temp P -> rg P (Stat (R := S) c p) (fun _ => P).
Proof.
  intros HP. apply (rg_bindE _ _ _ _ (fun _ => P)); [by apply rg_check| |done]. intros _.
  apply rg_translated; [|done]. apply rg_look; [done|apply law_Stat].
Qed.

(** The conditions an upload goes through. *)
Definition unlinked (r : R) : Prop := ~ is_link r temp.
Definition writes (h : File) (r : R) : Prop := writer_at r h = Some temp.
Definition holds_data (d : bytes) (r : R) : Prop := content r temp = Some d.

Lemma about_true : about_temp (fun _ => True).
Proof. split; [by intros ? ?|done]. Qed.

Lemma about_unlinked : about_temp unlinked.
Proof.
  split; [intros r r' H (_ & _ & Hl) ?; by apply H, Hl|].
  intros A m r a r' Hm E Hr Hl. apply Hr. apply quiet_run in E as (_ & _ & H); [|done]. by apply H.
Qed.

Lemma about_writes h : about_temp (writes h).
Proof.
  split; [intros r r' H (_ & Hw & _); by apply Hw|].
  intros A m r a r' Hm E Hr. apply quiet_run in E as (_ & H & _); [|done]. unfold writes. by rewrite H.
Qed.

Lemma about_data d : about_temp (holds_data d).
Proof.
  split; [intros r r' H (Hc & _); unfold holds_data; by rewrite Hc|].
  intros A m r a r' Hm E Hr. apply quiet_run in E as (H & _); [|done].
  unfold holds_data. by rewrite (frame_nil _ _ _ H).
Qed.

Lemma about_and P Q : about_temp P -> about_temp Q -> about_temp (fun r => P r /\ Q r).
Proof.
  intros [HP1 HP2] [HQ1 HQ2]. split.
  - intros r r' [H1 H2] Hr. split; [by eapply HP1|by eapply HQ1].
  - intros A m r a r' Hm E [H1 H2]. split; [by eapply HP2|by eapply HQ2].
Qed.

Lemma about_imp (b : Prop) P : about_temp P -> about_temp (fun r => b -> P r).
Proof.
  intros [HP1 HP2]. split.
  - intros r r' H Hr Hb. eapply HP1; eauto.
  - intros A m r a r' Hm E H Hb. eapply HP2; eauto.
Qed.

(** *** The requests of an upload *)

Lemma rg_CreateTemp c :
  rg unlinked (CreateTemp (R := S) c temp)
     (fun x r => forall h, x = Ok h -> writes h r /\ holds_data [] r).
Proof.
  apply rg_translated; [|by intros].
  apply rg_request; [apply about_unlinked|]. intros r a r' Hr E.
  split; [apply guar_temp; by eapply iso_OpenTrunc|].
  apply law_OpenTrunc in E as [_ H]; [|done]. intros h ->. destruct (H h eq_refl). done.
Qed.

Lemma rg_file_Write h bs (b : Prop) d :
  rg (fun r => writes h r /\ (b -> holds_data d r)) (file_Write (R := S) h bs)
     (fun x r => writes h r /\ 0 <= x.1 <= Z.of_nat (length bs) /\
        (x.2 = None -> x.1 = Z.of_nat (length bs) /\ (b -> holds_data (d ++ bs) r))).
Proof.
  apply rg_request; [apply about_and; [apply about_writes|apply about_imp, about_data]|].
  intros r [n e] r' [Hw Hd] E. split; [apply guar_temp; by eapply iso_Write|].
  apply law_Write with (p := temp) in E as (_ & Hsw & Hn & Hok); [|done]. simpl.
  split_and!; [unfold writes; by rewrite Hsw|lia..|]. intros He.
  destruct (Hok He) as [-> H]. split; [done|]. intros Hb. by apply H, Hd.
Qed.

Lemma rg_file_Close h (b : Prop) d :
  rg (fun r => writes h r /\ (b -> holds_data d r)) (file_Close (R := S) h)
     (fun _ r => b -> holds_data d r).
Proof.
  apply rg_request; [apply about_and; [apply about_writes|apply about_imp, about_data]|].
  intros r x r' [Hw Hd] E. split; [apply guar_temp; by eapply iso_Close|].
  apply law_Close in E. intros Hb. unfold holds_data. rewrite (frame_nil _ _ _ E). by apply Hd.
Qed.

Lemma rg_discard c : rg (fun _ => True) (Remove (R := S) c temp) (fun _ _ => True).
Proof.
  apply (rg_bindE _ _ _ _ (fun _ _ => True)); [by eapply rg_conseq; [apply rg_check, about_true|..]| |done].
  intros _. apply rg_translated; [|done]. apply rg_request; [done|].
  intros r x r' _ E. split; [|done]. apply guar_temp. by eapply iso_Remove.
Qed.

(** Both renames: the final name keeps what it had or gets all the data. *)
Lemma rg_rename (ren : option SftpConn -> string -> string -> M R (res unit)) s :
  (forall a b w r w', ren s a b w = (r, w') -> apart [a; b] w w') -> rename_like ren ->
  rg (holds_data data) (request (ren s temp final))
     (fun x r => x = Ok tt -> content r final = Some data).
Proof.
  intros Hiso Hren. apply rg_request; [apply about_data|]. intros r x r' Hd E.
  apply Hren in E as H; [|done]. destruct H as (_ & Hok & Herr). split.
  - split; [by eapply Hiso|]. destruct x as [[]|e].
    + right; left. rewrite <- Hd. by apply (Hok eq_refl).
    + destruct (Herr eq_refl) as [Hf|[-> _]]; [left; by apply frame_nil|by right; left].
  - intros ->. rewrite <- Hd. by apply (Hok eq_refl).
Qed.

Definition committed (x : res unit) (r : R) : Prop := x = Ok tt -> content r final = Some data.

Lemma rg_Commit c :
  HasPosixRename (R := S) c = posix ->
  rg (holds_data data) (Commit (R := S) c temp final ow) committed.
Proof.
  intros Hp. unfold Commit. rewrite Hp.
  apply (rg_bindE _ _ _ _ (fun _ => holds_data data)); [apply rg_check, about_data| |by intros].
  intros _. destruct posix eqn:Hposix.
  - apply (rg_bindE _ _ _ _ (fun _ => holds_data data)); [| |by intros].
    { destruct ow; simpl; [apply rg_keep|]. eapply rg_bind; [apply rg_look; [apply about_data|apply law_Stat]|].
      intros x. apply rg_keep. }
    intros _. apply rg_translated; [|by intros]. apply (rg_rename (@sftp_PosixRename R Lib)).
    + intros. by eapply iso_PosixRename.
    + intros ? ? ? ? ? ?. apply law_PosixRename.
  - eapply rg_bind; [apply rg_look; [apply about_data|apply law_Stat]|]. intros st. simpl.
    destruct (is_ok st && negb ow) eqn:How; [by apply rg_returns|].
    apply (rg_bindE _ _ _ _ (fun _ => holds_data data)); [| |by intros].
    { destruct (is_ok st); [|apply rg_keep]. destruct ow eqn:Ho; [|done].
      apply rg_translated; [|done]. apply rg_request; [apply about_data|]. intros r x r' Hd E.
      pose proof (iso_Remove _ _ _ _ _ E) as Hap. apply law_Remove in E as (Hfr & Hor & _).
      split; [|by unfold holds_data; rewrite Hfr by set_solver].
      split; [eapply apart_mono; [done|set_solver]|]. destruct Hor; auto. }
    intros _. apply rg_translated; [|by intros]. apply (rg_rename (@sftp_Rename R Lib)).
    + intros. by eapply iso_Rename.
    + intros ? ? ? ? ? ?. apply law_Rename.
Qed.
(** *** The upload handle *)
Variables (c : Client S) (o : UploadOptions S).
Hypothesis Hposix : HasPosixRename (R := S) c = posix.
Hypothesis How : Overwrite o = ow.

(** The callbacks of the options send no requests. *)
Definition hooks_local : Prop :=
  (forall f res, OnComplete o = Some f -> on_client (f res)) /\
  (forall f, Release o = Some f -> on_client f).

Implicit Types (u : UploadHandle S File).

Definition ours u : Prop :=
  fs u = client_fs c /\ tempPath u = temp /\ finalPath u = final /\ opts u = o.

Lemma ours_static u u' : static u' = static u -> ours u -> ours u'.
Proof. unfold static, ours. intros [= -> _ -> -> ->]. done. Qed.

(** A failure is recorded with its error. *)
Definition explained u : Prop := failed u = true -> failErr u <> None.

Definition uown (d : bytes) u (r : R) : Prop :=
  writes (file u) r /\ (failed u = false -> holds_data d r).

(** Whatever the server answers. *)
Lemma ustep_explained u op i u' i' :
  op <> UTransferError None -> explained u -> ustep u op i = (u', i') -> explained u'.
Proof.
  intros Hop He. destruct op as [p|e|len|off wh]; simpl; try by intros [= <- _].
  - intros ([x u1] & i1 & H & [= <- _])%bind_inv. unfold Write in H.
    case_match; [by injection H as <- <- _|]. apply bind_inv in H as ([n e] & i2 & _ & [= _ <- _]).
    by destruct e.
  - intros [= <- _] _. simpl. destruct (failErr u); [done|]. by destruct e.
Qed.

Lemma rg_ustep u op d :
  ours u -> rg (uown d u) (ustep u op) (fun u' => uown (d ++ payload1 op) u').
Proof.
  intros Hu. destruct op as [p|e|len|off wh]; cbn [payload1]; rewrite ?app_nil_r;
    try by (apply rg_returns; intros r [Hw Hd]; by split).
  unfold ustep, Write. fold (over_limit u p).
  eapply (rg_bind _ _ _ _ (fun x => uown (d ++ p) x.2)); [|intros [? u']; by apply rg_returns].
  destruct (over_limit u p); [apply rg_returns; intros r [Hw _]; by split|].
  eapply rg_bind; [rewrite (proj1 Hu); apply (rg_file_Write (file u) p (failed u = false) d)|].
  intros [n e]. apply rg_returns. simpl. intros r (Hw & Hn & Hok). fold (wrote u p n e).
  destruct e; [by split|]. destruct (Hok eq_refl) as [-> H]. by split.
Qed.

Lemma rg_urun os : forall u d, ours u -> rg (uown d u) (urun u os) (fun u' => uown (d ++ payload os) u').
Proof.
  induction os as [|op os IH]; intros u d Hu; simpl.
  - apply rg_returns. unfold payload. simpl. by rewrite app_nil_r.
  - eapply (rg_bind_pure _ _ ours); [|by apply rg_ustep|].
    { intros i u1 i' [H _]%ustep_keeps. by apply (ours_static u). }
    intros u1 Hu1. unfold payload. simpl. rewrite (assoc_L app). by apply IH.
Qed.
Lemma on_client_call (f : option (M S unit)) : (forall m, f = Some m -> on_client m) -> on_client (call f).
Proof. intros H. destruct f; [by apply H|done]. Qed.

Hypothesis Hooks : hooks_local.

Lemma rg_complete P u ph err : ours u -> rg P (complete u ph err) (fun _ => P).
Proof.
  intros (_ & _ & _ & Ho). apply rg_client, on_client_call. unfold complete. rewrite Ho.
  intros m. destruct (OnComplete o) as [f|] eqn:Hf; [|done]. intros [= <-]. exact (proj1 Hooks _ _ Hf).
Qed.

Definition done_ (x : option error) (r : R) : Prop := x = None -> content r final = Some data.

Lemma rg_finalize u :
  ours u -> explained u ->
  rg (fun r => failed u = false -> holds_data data r) (finalize u) done_.
Proof.
  intros Hu He. pose proof Hu as (Hfs & Ht & Hfin & Ho). unfold finalize. rewrite Hfs, Ht, Hfin, Ho, How.
  assert (forall P ph e, e <> None -> rg P (do* complete u ph e in ret e) done_) as Hfail.
  { intros P ph e Hne'. eapply rg_bind; [by apply rg_complete|]. intros []. apply rg_returns. by intros r _ ->. }
  destruct (failed u) eqn:Hf.
  - eapply rg_bind; [by eapply rg_conseq; [apply rg_discard|..]|]. intros x. apply Hfail. by apply He.
  - eapply rg_bind; [eapply rg_conseq; [by apply rg_Commit|auto|done]|].
    intros [[]|err]; [|eapply rg_bind; [by eapply rg_conseq; [apply rg_discard|..]|]; intros x; by apply Hfail].
    eapply rg_bind; [by apply rg_complete|]. intros []. apply rg_returns. by intros r H _; apply H.
Qed.

Lemma rg_Close u :
  ours u -> explained u -> closed u = false ->
  rg (uown data u) (Close u) (fun x => done_ x.1).
Proof.
  intros Hu He Hc. unfold Close. rewrite Hc. pose proof Hu as (Hfs & _ & _ & Ho).
  eapply rg_bind.
  { change (Upload.fs (set_closed u)) with (fs u). rewrite Hfs.
    apply (rg_file_Close (file u) (failed u = false) data). }
  intros ce. change (match ce with Ok _ => _ | Err _ => _ end) with (after_close u ce).
  assert (ours (after_close u ce)) as Hu' by (apply (ours_static u); [by destruct ce|done]).
  eapply rg_bind; [eapply rg_conseq; [apply rg_finalize; [done|]|..|done]|].
  - destruct ce as [x|e]; [apply He|]. intros _. simpl. by destruct (failErr u).
  - destruct ce; [done|]. intros r _ [=].
  - intros err. apply (rg_bind _ _ _ _ (fun _ => done_ err)); [|intros []; by apply rg_returns].
    apply rg_client, on_client_call. destruct Hu' as (_ & _ & _ & ->). apply Hooks.
Qed.

Lemma rg_NewUpload :
  TempPath final (SessionID o) (TemporarySuffix o) = temp ->
  rg unlinked (NewUpload (client_fs c) final o)
     (fun x r => forall u, x = Ok u -> uown [] u r).
Proof.
  intros Htemp. unfold NewUpload. rewrite Htemp.
  apply (rg_bindE _ _ _ _ (fun _ => unlinked)); [| |by intros].
  { destruct (negb (Overwrite o)); [|by apply rg_returns].
    eapply rg_bind; [apply rg_Stat, about_unlinked|]. intros st. by apply rg_returns. }
  intros _. eapply rg_bindE; [apply (rg_CreateTemp c)| |by intros].
  intros h. apply rg_returns. simpl. intros r H u [= <-]. destruct (H h eq_refl). by split.
Qed.

Lemma NewUpload_ours i u i' :
  TempPath final (SessionID o) (TemporarySuffix o) = temp ->
  NewUpload (client_fs c) final o i = (Ok u, i') ->
  ours u /\ closed u = false /\ failed u = false.
Proof.
  intros Htemp. unfold NewUpload.
  by intros (x & i1 & _ & (h & i2 & _ & [= <- _])%bindE_inv_ok)%bindE_inv_ok.
Qed.

Lemma urun_keeps os : forall u i u' i',
  errors_given os -> ours u -> explained u -> urun u os i = (u', i') ->
  ours u' /\ explained u' /\ closed u' = closed u.
Proof.
  induction os as [|op os IH]; intros u i u' i' Hos Hu He; simpl; [by intros [= <- _]|].
  apply Forall_cons in Hos as [Hop Hos]. intros (u1 & i1 & H1 & H2)%bind_inv.
  pose proof (ustep_explained _ _ _ _ _ Hop He H1) as He1.
  apply ustep_keeps in H1 as [H1 <-]. eapply IH; [done| |done|done]. by apply (ours_static u).
Qed.

(** A whole upload. *)
Lemma rg_upload os :
  TempPath final (SessionID o) (TemporarySuffix o) = temp -> errors_given os -> data = payload os ->
  rg unlinked (upload (client_fs c) final o os) (fun x => done_ (match x with Ok e => e | Err e => Some e end)).
Proof.
  intros Htemp Hos Hd. unfold upload.
  apply (rg_bind_pure _ _ (fun x => forall u, x = Ok u -> ours u /\ closed u = false /\ failed u = false)
           _ _ (fun x r => forall u, x = Ok u -> uown [] u r)); [|by apply rg_NewUpload|].
  { intros i x i' H u ->. by apply NewUpload_ours in H. }
  intros [u|e] Hx; [|by apply rg_returns]. destruct (Hx u eq_refl) as (Hu & Hc & Hf).
  assert (explained u) as He by (unfold explained; by rewrite Hf).
  eapply (rg_bind_pure _ _ (fun u' => ours u' /\ explained u' /\ closed u' = closed u)).
  - intros i u' i' H. by eapply urun_keeps.
  - eapply rg_conseq; [by apply (rg_urun os u [])|intros r H; by apply H|done].
  - simpl. intros u' (Hu' & He' & Hc'). rewrite <- Hd.
    eapply rg_bind; [apply rg_Close; [done..|congruence]|]. intros [r u2]. by apply rg_returns.
Qed.
End job.
End one.

(** ** Many uploads *)
Section many.
Context {R L : Type} {Lib : SftpLib R} {Obs : Observe R SftpFile}.
Context {Laws : SftpLaws R} {Iso : IsolationLaws R}.
Import Upload.

Abbreviation S := (Shared R L).
#[local] Instance Among : SftpLib S := interfering Lib.

Record Job := MkJob {
  job_client : Client S;
  job_final : string;
  job_opts : UploadOptions S;
  job_ops : list uop;
  job_local : L;
}.
Implicit Types (j k : Job).

Definition job_temp j : string :=
  TempPath (job_final j) (SessionID (job_opts j)) (TemporarySuffix (job_opts j)).

Definition job_run j (r0 : R) (vs : list (list R)) : res (option error) * S :=
  upload (client_fs (job_client j)) (job_final j) (job_opts j) (job_ops j)
    (MkShared r0 vs [] (job_local j)).

Definition job_rely j : R -> R -> Prop := rely (job_temp j).
Definition job_guar j : R -> R -> Prop :=
  guar (job_temp j) (job_final j) (payload (job_ops j)) (Overwrite (job_opts j))
    (HasPosixRename (R := S) (job_client j)).

Definition job_ok (r0 : R) j : Prop :=
  hooks_local (job_opts j) /\ errors_given (job_ops j) /\
  job_temp j <> job_final j /\ ~ is_link r0 (job_temp j).

Lemma job_keeps j r0 vs x i :
  job_ok r0 j -> job_run j r0 vs = (x, i) ->
  kept (job_rely j) (job_guar j) (trail i) /\
  (x = Ok None -> relied (job_rely j) (trail i) -> content (server i) (job_final j) = Some (payload (job_ops j))) /\
  coherent r0 i.
Proof.
  intros (Hh & He & Hne & Hl) E.
  destruct (rg_upload (job_temp j) (job_final j) (payload (job_ops j)) _ _ Hne (job_client j)
    (job_opts j) eq_refl eq_refl Hh (job_ops j) eq_refl He eq_refl _ _ _ E) as (Hk & Hr & Hc).
  - by intros [] ? ? ?.
  - by intros _.
  - split_and!; [done| |by apply Hc]. intros -> Hrel. by apply Hr.
Qed.

(** A history of the server: who changed it, from what to what. *)
Record event := By { author : nat; from : R; to : R }.
Implicit Types (h : list event).

Definition seen_by (n : nat) (e : event) : transition R :=
  Step (bool_decide (author e = n)) (from e) (to e).

(** The requests of [n] in [h] are those of the job, as far as it came. *)
Definition takes_part (r0 : R) h (n : nat) j : Prop :=
  exists vs h1 h2, h = h1 ++ h2 /\ Forall (fun e => author e <> n) h2 /\
    map (seen_by n) h1 `prefix_of` trail (job_run j r0 vs).2.

(** At the end of [h] it has just come to its end, with the result [x]. *)
Definition finishes (r0 : R) h (n : nat) j (x : res (option error)) : Prop :=
  exists vs, (job_run j r0 vs).1 = x /\ map (seen_by n) h = trail (job_run j r0 vs).2.

(** Each request starts where the last one ended. *)
Fixpoint chain (r0 : R) h : Prop :=
  match h with [] => True | e :: h => from e = r0 /\ chain (to e) h end.

Definition state_after (r0 : R) h : R := foldl (fun _ e => to e) r0 h.

(** Nobody's temporary name is another's temporary name, or anybody's final. *)
Definition distinct (jobs : list Job) : Prop :=
  forall n m j k, jobs !! n = Some j -> jobs !! m = Some k ->
    job_temp j <> job_final k /\ (n <> m -> job_temp j <> job_temp k).

(** Other clients of the server leave the temporary files alone. *)
Definition strangers_apart (jobs : list Job) h : Prop :=
  forall e n j, e ∈ h -> jobs !! author e = None -> jobs !! n = Some j -> job_rely j (from e) (to e).

Lemma guar_rely j k r r' :
  job_temp j <> job_final k -> job_temp j <> job_temp k -> job_guar k r r' -> job_rely j r r'.
Proof.
  intros Hf Ht ((H1 & H2 & H3) & _).
  assert (job_temp j ∉ [job_temp k; job_final k]) by set_solver.
  split_and!; [by apply H1|by intros ? ?; apply H2|by apply H3].
Qed.

(** That is so for the sessions of the gateway: their identifiers have no
    "/" or "-", a session uploads to one name once at a time, and nobody
    uploads to a name that looks like a temporary one. *)
Definition session_upload (suffix : string) (cs : list string) (base : string) j : Prop :=
  job_final j = abs_path (cs ++ [base]) /\ Forall good_comp (cs ++ [base]) /\
  TemporarySuffix (job_opts j) = suffix /\
  ContainsByte (SessionID (job_opts j)) slash = false /\
  ContainsByte (SessionID (job_opts j)) dash = false /\
  Contains base (suffix +:+ "-") = false.

Lemma sessions_distinct (jobs : list Job) suffix :
  ContainsByte suffix slash = false ->
  (forall n j, jobs !! n = Some j -> exists cs base, session_upload suffix cs base j) ->
  (forall n m j k, n <> m -> jobs !! n = Some j -> jobs !! m = Some k ->
     job_final j <> job_final k \/ SessionID (job_opts j) <> SessionID (job_opts k)) ->
  distinct jobs.
Proof.
  intros Hs Hall Hne n m j k Hj Hk.
  destruct (Hall _ _ Hj) as (cs & base & Hf & Hg & Hsj & Hsl & Hd & _).
  destruct (Hall _ _ Hk) as (cs' & base' & Hf' & Hg' & Hsk & Hsl' & Hd' & Hc).
  unfold job_temp. rewrite Hf, Hf', Hsj, Hsk. split; [by apply TempPath_final|].
  intros Hnm E. apply TempPath_inj in E as (-> & -> & E); [|done..].
  destruct (Hne _ _ _ _ Hnm Hj Hk) as [H|H]; [|done]. by rewrite Hf, Hf' in H.
Qed.

Section history.
Variables (jobs : list Job) (r0 : R) (h : list event).
Hypothesis Hok : forall n j, jobs !! n = Some j -> job_ok r0 j /\ takes_part r0 h n j.
Hypothesis Hdistinct : distinct jobs.
Hypothesis Hothers : strangers_apart jobs h.

Lemma relied_seen n j es :
  jobs !! n = Some j -> es ⊆ h ->
  (forall e k, e ∈ es -> jobs !! author e = Some k -> job_guar k (from e) (to e)) ->
  relied (job_rely j) (map (seen_by n) es).
Proof.
  intros Hj Hes Hg. apply Forall_map, Forall_forall. intros e He. simpl.
  intros Hne%bool_decide_eq_false. destruct (jobs !! author e) as [k|] eqn:Hk.
  - destruct (Hdistinct _ _ _ _ Hj Hk) as [Hf Ht]. eapply guar_rely; [done|auto|by apply Hg].
  - eapply Hothers; [by apply Hes|done|done].
Qed.

(** Every request keeps the promise of the job it belongs to. *)
Lemma all_guaranteed pre e post k :
  h = pre ++ e :: post -> jobs !! author e = Some k -> job_guar k (from e) (to e).
Proof.
  remember (length pre) as len eqn:Hlen. revert pre e post k Hlen.
  induction len as [len IH] using lt_wf_ind. intros pre e post k -> Hh Hk.
  destruct (Hok _ _ Hk) as [Hjob (vs & h1 & h2 & Hsplit & Hh2 & [rest Htrail])].
  destruct (job_run k r0 vs) as [x i] eqn:E. destruct (job_keeps _ _ _ _ _ Hjob E) as (Hkept & _).
  simpl in Htrail. rewrite Htrail in Hkept. apply kept_prefix in Hkept.
  rewrite Hh in Hsplit. symmetry in Hsplit. apply app_eq_app in Hsplit as [l [[Hh1 Hl]|[Hh1 Hl]]].
  - destruct l as [|e' l].
    { simpl in Hl. rewrite <- Hl in Hh2. by apply Forall_cons in Hh2 as [? _]. }
    injection Hl as <- Hl. rewrite Hh1, map_app in Hkept. simpl in Hkept.
    apply (Hkept _ (seen_by (author e) e) _ eq_refl); [by apply bool_decide_eq_true|].
    apply relied_seen; [done|rewrite Hh; set_solver|]. intros e1 k1 He1 Hk1.
    apply list_elem_of_split in He1 as (p1 & p2 & ->).
    apply (IH (length p1)) with (pre := p1) (post := p2 ++ e :: post);
      [rewrite length_app; simpl; lia|done| |done].
    rewrite Hh. by rewrite <- (assoc_L app).
  - exfalso. rewrite Hl in Hh2. apply Forall_app in Hh2 as [_ Hh2]. by apply Forall_cons in Hh2 as [? _].
Qed.

Lemma finished n j h1 :
  jobs !! n = Some j -> h1 `prefix_of` h -> finishes r0 h1 n j (Ok None) ->
  content (state_after r0 h1) (job_final j) = Some (payload (job_ops j)).
Proof.
  intros Hj [h2 Hh] (vs & Hx & Htrail). destruct (Hok _ _ Hj) as [Hjob _].
  destruct (job_run j r0 vs) as [x i] eqn:E. simpl in *.
  destruct (job_keeps _ _ _ _ _ Hjob E) as (_ & Hdone & Hc).
  unfold coherent in Hc. rewrite <- Htrail in Hc.
  assert (state_after r0 h1 = server i) as ->.
  { rewrite Hc. clear. unfold state_after. generalize r0. induction h1; intros r; simpl; auto. }
  apply Hdone; [done|]. rewrite <- Htrail. apply relied_seen; [done|rewrite Hh; set_solver|].
  intros e k He Hk. apply list_elem_of_split in He as (p1 & p2 & ->).
  eapply (all_guaranteed p1 e (p2 ++ h2)); [|done]. rewrite Hh. by rewrite <- (assoc_L app).
Qed.

(** What a file holds that only the jobs write to. *)
Definition complete_version (f : string) (r : R) : Prop :=
  content r f = content r0 f \/
  exists n j, jobs !! n = Some j /\ job_final j = f /\
    (content r f = Some (payload (job_ops j)) \/
     Overwrite (job_opts j) = true /\ HasPosixRename (R := S) (job_client j) = false /\ content r f = None).

Lemma complete_step f pre e post :
  h = pre ++ e :: post -> (forall n j, jobs !! n = Some j -> job_temp j <> f) ->
  (jobs !! author e = None -> content (to e) f = content (from e) f) ->
  complete_version f (from e) -> complete_version f (to e).
Proof.
  intros Hh Hf Hother Hv. destruct (jobs !! author e) as [j|] eqn:Hj.
  2:{ unfold complete_version. by rewrite Hother. }
  destruct (all_guaranteed _ _ _ _ Hh Hj) as [[Hfr _] Hfin].
  destruct (decide (f = job_final j)) as [->|Hne].
  - destruct Hfin as [E|E]; [unfold complete_version; by rewrite E|]. right. by exists (author e), j.
  - unfold complete_version. rewrite Hfr; [done|]. specialize (Hf _ _ Hj). set_solver.
Qed.
End history.

End many.

(** ** On the in-memory server *)

Lemma mem_apart ps (w w' : MemFS) :
  (forall p, p ∉ ps -> files w' !! p = files w !! p) ->
  (forall h q, (fst <$> handles w !! h) = Some q -> q ∉ ps -> (fst <$> handles w' !! h) = Some q) ->
  apart ps w w'.
Proof.
  intros Hf Hh. split_and!.
  - intros p Hp. simpl. by rewrite Hf.
  - intros q h Hq Hw. by apply Hh.
  - intros q Hq [t Ht]. exists t. by rewrite <- Hf.
Qed.

#[export] Instance mem_isolation : IsolationLaws MemFS.
Proof.
  assert (forall ps (w : MemFS), apart ps w w) as Hsame by (intros; by apply mem_apart).
  assert (forall a b replace w r w', mem_rename replace a b w = (r, w') -> apart [a; b] w w') as Hren.
  { intros a b replace w r w'. unfold mem_rename. destruct (files w !! a); [|by intros [= <- <-]].
    case_match; intros [= <- <-]; [done|]. apply mem_apart; [|done].
    intros p Hp. simpl. rewrite lookup_insert_ne, lookup_delete_ne by set_solver. done. }
  split.
  - intros c p w r w' Hl. simpl. unfold mem_open. rewrite follow_nolink by done.
    change (Z.land _ O_WRONLY =? 0) with false. cbv iota.
    destruct (handles w !! next w) eqn:Hn, (files w !! p) as [[]|]; intros [= <- <-]; try done;
      (apply mem_apart; [intros q Hq; simpl; by rewrite lookup_insert_ne by set_solver|]);
      intros h q Hh Hq; simpl; (rewrite lookup_insert_ne; [done|]); intros <-; by rewrite Hn in Hh.
  - intros h bs w r w' p. simpl. unfold mem_write. intros H Hw. simpl in *.
    destruct (handles w !! h) as [[q off]|]; [|done]. injection Hw as ->. destruct (files w !! p) as [[]|]; injection H as <- <-; try done.
    apply mem_apart; [|done]. intros q Hq. simpl. by rewrite lookup_insert_ne by set_solver.
  - by intros h w r w' p [= <- <-] _.
  - intros c p w r w'. simpl. unfold mem_remove.
    destruct (files w !! p) as [[]|]; intros [= <- <-]; try done;
      (apply mem_apart; [|done]); intros q Hq; simpl; by rewrite lookup_delete_ne by set_solver.
  - intros c a b. apply Hren.
  - intros c a b. apply Hren.
Qed.

(** Two sessions upload to "/data/a" at the same time: the second starts and
    ends while the first has written half of its data. *)
Definition mem_job (s1 : string) (ow : bool) (ops : list string) : Job (R := MemFS) (L := unit) :=
  MkJob (@MkClient _ (interfering MemLib) (Some true) (Some true) "/data") "/data/a"
    (Upload.MkOptions _ s1 "t" "/a" 0 ow false ".part" None None)
    (map (fun d => UWrite (chars d)) ops) tt.

Definition demo_jobs (ow : bool) : list Job := [mem_job "s1" ow ["ab"; "cd"]; mem_job "s2" ow ["xyz"]].

Definition demo_before : MemFS := mem_of [("/data", NDir); ("/data/a", NFile (chars "old"))].
Definition demo_empty : MemFS := mem_of [("/data", NDir)].

Definition states (tr : list (transition MemFS)) : list MemFS := map after tr.

(** Job [1] runs between the first [n] requests of job [0] and the others:
    what job [1] finds before its first request, and job [0] before its
    next one. *)
Definition found_by_1 (ow : bool) (n : nat) (r0 : MemFS) : list (list MemFS) :=
  [states (take n (trail (job_run (mem_job "s1" ow ["ab"; "cd"]) r0 []).2))].
Definition found_by_0 (ow : bool) (n : nat) (r0 : MemFS) : list (list MemFS) :=
  replicate n [] ++
  [states (drop n (trail (job_run (mem_job "s2" ow ["xyz"]) r0 (found_by_1 ow n r0)).2))].

Definition demo_history (ow : bool) (n : nat) (r0 : MemFS) : list (event (R := MemFS)) :=
  map (fun t => By (if own t then 0%nat else 1%nat) (before t) (after t))
    (trail (job_run (mem_job "s1" ow ["ab"; "cd"]) r0 (found_by_0 ow n r0)).2).

#[export] Instance node_eq_dec : EqDecision node.
Proof. solve_decision. Defined.
#[export] Instance MemFS_eq_dec : EqDecision MemFS.
Proof. solve_decision. Defined.
#[export] Instance transition_eq_dec : EqDecision (transition MemFS).
Proof. solve_decision. Defined.
#[export] Instance chain_dec r0 (h : list (event (R := MemFS))) : Decision (chain r0 h).
Proof. revert r0. induction h as [|e h IH]; intros r0; simpl; [apply _|]. apply and_dec; apply _. Defined.

Lemma demo_job_ok s ow ops r0 :
  TempPath "/data/a" s ".part" <> "/data/a" -> files r0 !! TempPath "/data/a" s ".part" = None ->
  job_ok r0 (mem_job s ow ops).
Proof.
  intros Hne Hn. split_and!; [by split|apply Forall_map, Forall_forall; by intros|done|].
  intros [t Ht]. change (files r0 !! TempPath "/data/a" s ".part" = Some (NLink t)) in Ht.
  by rewrite Hn in Ht.
Qed.


(** Forbidding to overwrite does not survive a race: [Commit] looks first and
    renames later, so a file another session completes in between is
    replaced; both uploads report success. *)
Example overwrite_race :
  let h := demo_history false 8 demo_empty in
  finishes demo_empty h 0 (mem_job "s1" false ["ab"; "cd"]) (Ok None) /\
  finishes demo_empty (take 16 h) 1 (mem_job "s2" false ["xyz"]) (Ok None) /\
  content (state_after demo_empty (take 16 h)) "/data/a" = Some (chars "xyz") /\
  content (state_after demo_empty h) "/data/a" = Some (chars "abcd").
Proof.
  intros h. split_and!; [exists (found_by_0 false 8 demo_empty)|exists (found_by_1 false 8 demo_empty)|..];
    [split; [by vm_compute|decided]..|by vm_compute|by vm_compute].
Qed.
