(* ===== verification/DownloadSpec.v ===== *)
(** * Transfer theorems: downloads

    What a download handle delivers and reports, for any sequence of calls
    the FTP library may make before it closes it. *)
From S2P Require Import Prelude GoStrings GoPath Errors SftpLib Sha256 Transfer UploadSpec SftpClient SftpClientSpec MemServer TransferSpec.
Open Scope string_scope.
Open Scope list_scope.
Open Scope Z_scope.

Section download.
Context {W F : Type}.
Import Download.
Implicit Types (d : DownloadHandle W F).

Inductive dop :=
  | DRead (len : Z)
  | DTransferError (e : option error)
  | DWrite (p : bytes)
  | DSeek (offset whence : Z).

(** A step, and what it delivers to the FTP client. *)
Definition dstep (d : DownloadHandle W F) (o : dop)
  : M W ((bytes * option error) * DownloadHandle W F) :=
  match o with
  | DRead len => Read d len
  | DTransferError e => ret (([], None), TransferError d e)
  | DWrite p => ret (([], None), d)
  | DSeek off wh => let* _ := Seek d off wh in ret (([], None), d)
  end.

(** What goes wrong: a read fails, other than by the end of file, or the
    library reports that the transfer broke off. *)
Inductive incident := ReadFailed (e : error) | BrokenOff (e : option error).

Definition incidents (o : dop) (err : option error) : list incident :=
  match o, err with
  | DTransferError e, _ => [BrokenOff e]
  | _, Some e => if errors_Is e EOF then [] else [ReadFailed e]
  | _, None => []
  end.

(** All the bytes delivered and all that went wrong, in order. *)
Fixpoint drun (d : DownloadHandle W F) (os : list dop)
  : M W ((bytes * list incident) * DownloadHandle W F) :=
  match os with
  | [] => ret (([], []), d)
  | o :: os =>
      let* (be, d) := dstep d o in
      let* (bes, d) := drun d os in
      ret ((be.1 ++ bes.1, incidents o be.2 ++ bes.2), d)
  end.

(** The error to report: that of the last read that failed, else of the
    first report. *)
Definition blame_step (acc : option error) (i : incident) : option error :=
  match i, acc with
  | ReadFailed e, _ => Some e
  | BrokenOff e, None => e
  | BrokenOff _, Some x => Some x
  end.
Definition blame (inc : list incident) : option error := foldl blame_step None inc.

Definition dstatic d := (fs d, file d, remotePath d, opts d, closed d).

(** The handle tracks what it has delivered and what went wrong. *)
Definition dinv (data : bytes) (inc : list incident) d : Prop :=
  read d = wrap64 (Z.of_nat (length data)) /\
  hasher d = (if CalculateSHA256 (opts d) then Some data else None) /\
  failed d = match inc with [] => false | _ => true end /\
  failErr d = blame inc.

Lemma dinv_fail data inc d i :
  dinv data inc d -> dinv data (inc ++ [i]) (set_fail (blame_step (failErr d) i) d).
Proof.
  intros (Hr & Hh & Hf & He). split_and!; [done|done|by destruct inc|].
  simpl. unfold blame. by rewrite foldl_snoc, He.
Qed.

Lemma dstep_inv data inc d o w be d' w' :
  dinv data inc d -> dstep d o w = ((be, d'), w') ->
  dinv (data ++ be.1) (inc ++ incidents o be.2) d' /\ dstatic d' = dstatic d.
Proof.
  intros Hd. destruct o as [len|e|p|off wh]; simpl.
  - unfold Read. intros ([bs err] & w1 & _ & [= <- <- _])%bind_inv. simpl.
    assert (dinv (data ++ bs) inc
              match bs with [] => d | _ => set_progress ((fun h => h ++ bs) <$> hasher d)
                    (wrap64 (read d + Z.of_nat (length bs))) d end) as Hd1.
    { destruct Hd as (Hr & Hh & Hf & He).
      destruct bs as [|b bs]; [by rewrite app_nil_r|]. split_and!; [simpl|simpl|exact Hf|exact He].
      - rewrite Hr, wrap64_add_l, length_app. f_equal. simpl. lia.
      - rewrite Hh. by destruct (CalculateSHA256 (opts d)). }
    destruct err as [e|]; simpl; [destruct (errors_Is e EOF); simpl|];
      [|split; [exact (dinv_fail _ _ _ (ReadFailed e) Hd1)|by destruct bs]|];
      rewrite app_nil_r; (split; [done|by destruct bs]).
  - intros [= <- <- <-]. simpl. rewrite app_nil_r. split; [|done].
    unfold TransferError. pose proof (dinv_fail _ _ _ (BrokenOff e) Hd) as H. simpl in H.
    by destruct (failErr d).
  - intros [= <- <- <-]. by rewrite !app_nil_r.
  - intros (x & w1 & _ & [= <- <- <-])%bind_inv. by rewrite !app_nil_r.
Qed.

Lemma drun_inv data inc d os w bes d' w' :
  dinv data inc d -> drun d os w = ((bes, d'), w') ->
  dinv (data ++ bes.1) (inc ++ bes.2) d' /\ dstatic d' = dstatic d.
Proof.
  revert data inc d w bes. induction os as [|o os IH]; intros data inc d w bes Hd; simpl.
  { intros [= <- <- <-]. by rewrite !app_nil_r. }
  intros ([be d1] & w1 & H1 & ([bes2 d2] & w2 & H2 & [= <- <- <-])%bind_inv)%bind_inv.
  apply dstep_inv with (data := data) (inc := inc) in H1 as [Hd1 Hs1]; [|done].
  apply (IH _ _ _ _ _ Hd1) in H2 as [Hd2 Hs2]. simpl.
  rewrite !(assoc_L app). split; [done|congruence].
Qed.

Section events.
Context {T : Type}.
Variable seen : W -> T.
Variable report : Result.t -> T -> T.
Variable free : T -> T.
Variable R : RemoteFS W F.
Variable o : DownloadOptions W.

Record drecorded : Prop := {
  drec_fs : fs_silent seen R;
  drec_OnComplete : exists f, OnComplete o = Some f /\ forall r w, seen (f r w).2 = report r (seen w);
  drec_Release : exists f, Release o = Some f /\ forall w, seen (f w).2 = free (seen w);
}.

Lemma dstep_seen d op w be d' w' :
  fs_silent seen R -> fs d = R -> dstep d op w = ((be, d'), w') ->
  seen w' = seen w /\ dstatic d' = dstatic d.
Proof.
  intros Hr Hfs. destruct op as [len|e|p|off wh]; simpl; [|by intros [= <- <- <-]..|].
  - unfold Read. intros ([bs err] & w1 & H1 & [= _ <- <-])%bind_inv.
    rewrite Hfs in H1. split.
    + eapply (silent_run seen); [|done]. by apply fs_silent_Read.
    + destruct err as [e|]; [destruct (errors_Is e EOF)|]; by destruct bs.
  - unfold Seek. intros (x & w1 & H1 & [= _ <- <-])%bind_inv.
    rewrite Hfs in H1. split; [|done].
    eapply (silent_run seen); [|done]. by apply fs_silent_Seek.
Qed.

Lemma drun_seen d os w bes d' w' :
  fs_silent seen R -> fs d = R -> drun d os w = ((bes, d'), w') ->
  seen w' = seen w /\ dstatic d' = dstatic d.
Proof.
  intros Hr. revert d w bes. induction os as [|op os IH]; intros d w bes Hfs; simpl.
  { by intros [= <- <- <-]. }
  intros ([be d1] & w1 & H1 & ([bes2 d2] & w2 & H2 & [= <- <- <-])%bind_inv)%bind_inv.
  destruct (dstep_seen _ _ _ _ _ _ Hr Hfs H1) as [Hs Hst].
  pose proof Hst as Hst1. injection Hst1 as Hf _.
  apply IH in H2 as [Hs2 Hst2]; [|congruence]. split; congruence.
Qed.

Lemma Download_Close_keeps d w r d' w' :
  Close d w = ((r, d'), w') -> fs d' = fs d /\ opts d' = opts d.
Proof.
  unfold Close. destruct (closed d); [by intros [= <- <- <-]|].
  intros (ce & w1 & _ & H)%bind_inv. destruct (if failed _ then _ else _) as [ph err].
  by apply bind_inv in H as (x & w2 & _ & (y & w3 & _ & [= _ <- _])%bind_inv).
Qed.

(** [Close] changes what is observed once, whatever happened before. *)
Lemma dClose_seen d w r d' w' :
  drecorded -> fs d = R -> opts d = o -> Close d w = ((r, d'), w') ->
  closed d' = true /\
  if closed d then seen w' = seen w
  else exists res, seen w' = free (report res (seen w)).
Proof.
  intros Hr Hfs Ho. unfold Close. destruct (closed d) eqn:Hc; [by intros [= <- <- <-]|].
  intros (ce & w1 & H1 & H2)%bind_inv. simpl in H1, H2. rewrite Hfs in H1.
  apply (silent_run seen) in H1; [|by apply fs_silent_Close, drec_fs].
  destruct (drec_OnComplete Hr) as (g & Hg & Hgs), (drec_Release Hr) as (q & Hq & Hqs).
  rewrite Ho, Hg, Hq in H2.
  destruct (if failed d then _ else _) as [ph err].
  apply bind_inv in H2 as ([] & w2 & H2 & ([] & w3 & H3 & [= <- <- <-])%bind_inv).
  simpl in H2, H3. split; [done|].
  match type of H2 with g ?res w1 = _ => exists res; specialize (Hgs res w1) end.
  specialize (Hqs w2). rewrite H2 in Hgs. rewrite H3 in Hqs. simpl in Hgs, Hqs.
  by rewrite Hqs, Hgs, H1.
Qed.
End events.
End download.

Section report.
Context {W F : Type}.
Import Download.

(** C31. A download reports exactly what it delivered: the byte count and
    SHA-256 of the bytes handed to the FTP client, whatever was read, however
    it was broken off and wherever reading stopped.  It is committed exactly
    when no read failed (the end of file is no failure), the library reported
    no failure, and closing the file succeeded; else its error is that of the
    last read that failed, or the first the library reported, or the one of
    closing.  [OnComplete] and [Release] run once, in that order, and [Close]
    returns the error that was reported. *)
Theorem download_report seen (R : RemoteFS W F) path o os w d w1 bs inc d2 w2 r d3 w' :
  drecorded seen log_report log_free R o ->
  NewDownload R path o w = (Ok d, w1) -> drun d os w1 = (((bs, inc), d2), w2) ->
  Close d2 w2 = ((r, d3), w') ->
  let closeErr := err_of (f_Close R (file d) w2).1 in
  r = match inc with [] => closeErr | _ => blame inc end /\
  seen w' = seen w ++
    [Reported (Result.Mk (TransferID o) (SessionID o) (VirtualPath o) path
                 (wrap64 (Z.of_nat (length bs)))
                 (if CalculateSHA256 o then Sha256.sum_hex bs else "")
                 (match inc, closeErr with [], None => PhaseCommitted | _, _ => PhaseFailed end) r);
     Released].
Proof.
  intros Hr H1 H2 H3. unfold NewDownload in H1.
  apply bindE_inv_ok in H1 as (f & w0 & H0 & [= <- <-]). simpl.
  apply (silent_run seen) in H0; [|by apply fs_silent_OpenRead, (drec_fs _ _ _ _ _ Hr)].
  pose proof H2 as Hs2. apply (drun_seen seen R) in Hs2 as [Hs2 _];
    [|apply (drec_fs _ _ _ _ _ Hr)|done].
  apply (drun_inv [] []) in H2 as [(Hrd & Hh & Hf & He) Hst]; [|done].
  simpl in Hrd, Hh, Hf, He. injection Hst as Hfs Hfile Hp Ho Hc.
  unfold Close in H3. rewrite Hc in H3.
  apply bind_inv in H3 as (ce & w4 & H4 & H5). simpl in H4, H5.
  rewrite Hfs, Hfile in H4. rewrite H4. simpl.
  apply (silent_run seen) in H4; [|by apply fs_silent_Close, (drec_fs _ _ _ _ _ Hr)].
  destruct (drec_OnComplete _ _ _ _ _ Hr) as (g & Hg & Hgs).
  destruct (drec_Release _ _ _ _ _ Hr) as (q & Hq & Hqs).
  rewrite Ho, Hg, Hq, Hp, Hrd, Hh, Ho, Hf, He in H5. simpl in H5.
  destruct (match inc with [] => false | _ => true end) eqn:Hinc; [|destruct ce as [x|e]];
    apply bind_inv in H5 as ([] & w5 & H5 & ([] & w6 & H6 & [= <- _ <-])%bind_inv);
    (match type of H5 with g ?res w4 = _ => specialize (Hgs res w4) end);
    specialize (Hqs w5); rewrite H5 in Hgs; rewrite H6 in Hqs; simpl in Hgs, Hqs;
    rewrite Hqs, Hgs, H4, Hs2, H0; unfold log_free, log_report; rewrite <- (assoc_L app);
    destruct inc; try done; (split; [done|]); by destruct (CalculateSHA256 o).
Qed.
End report.

Section complete.
Context {W F : Type}.
Import Download.
Implicit Types (d : DownloadHandle W F).

(** What the file system promises of a file opened for reading: [unread]
    is what has not been delivered yet, and the end of file is reported
    only when nothing is left. *)
Record ReadLaws (R : RemoteFS W F) (unread : F -> W -> bytes) : Prop := {
  read_chunk h n w bs e w' :
    f_Read R h n w = ((bs, e), w') ->
    (forall x, e = Some x -> errors_Is x EOF = true) -> unread h w = bs ++ unread h w';
  read_eof h n w bs e w' :
    f_Read R h n w = ((bs, Some e), w') -> errors_Is e EOF = true -> unread h w' = [];
}.

(** The library reads until it sees an error. *)
Fixpoint read_all (d : DownloadHandle W F) (lens : list Z)
  : M W ((bytes * option error) * DownloadHandle W F) :=
  match lens with
  | [] => ret (([], None), d)
  | len :: lens =>
      let* (be, d) := Read d len in
      match be.2 with
      | Some e => ret (be, d)
      | None => let* (bes, d) := read_all d lens in ret ((be.1 ++ bes.1, bes.2), d)
      end
  end.

Lemma Read_file d len w be (d' : DownloadHandle W F) w' :
  Read d len w = ((be, d'), w') ->
  f_Read (fs d) (file d) len w = (be, w') /\ fs d' = fs d /\ file d' = file d.
Proof.
  unfold Read. intros ([bs err] & w1 & H1 & [= <- <- <-])%bind_inv.
  split; [done|]. destruct err as [e|]; [destruct (errors_Is e EOF)|]; by destruct bs.
Qed.

Lemma read_all_complete (R : RemoteFS W F) unread d lens w bs e d' w' :
  ReadLaws R unread -> fs d = R ->
  read_all d lens w = (((bs, e), d'), w') ->
  match e with
  | None => unread (file d) w = bs ++ unread (file d) w'
  | Some x => errors_Is x EOF = true -> bs = unread (file d) w
  end.
Proof.
  intros Laws. revert d w bs. induction lens as [|len lens IH]; intros d w bs Hfs; simpl.
  { by intros [= <- <- <- <-]. }
  intros ([[b1 e1] d1] & w1 & H1 & H2)%bind_inv.
  apply Read_file in H1 as (H1 & Hfs1 & Hfile). rewrite Hfs in H1. destruct e1 as [x|].
  - simpl in H2. injection H2 as <- <- <- <-. intros Hx.
    rewrite (read_chunk R _ Laws _ _ _ _ _ _ H1) by (intros ? [= <-]; done).
    by rewrite (read_eof R _ Laws _ _ _ _ _ _ H1), app_nil_r.
  - simpl in H2. apply bind_inv in H2 as ([[b2 e2] d2] & w2 & H2 & [= <- <- <- <-]).
    apply IH in H2; [|congruence]. rewrite (read_chunk R _ Laws _ _ _ _ _ _ H1) by done.
    rewrite Hfile in H2. simpl. destruct e2 as [x|]; [|by rewrite H2, (assoc_L app)].
    intros Hx. by rewrite (H2 Hx).
Qed.

(** A download that ends with the end of file delivered the whole file,
    and every byte of it once and in order, whatever the sizes of the
    reads; one that is still going has delivered a prefix. *)
Theorem download_complete (R : RemoteFS W F) unread d lens w bs e d' w' :
  ReadLaws R unread -> fs d = R ->
  read_all d lens w = (((bs, e), d'), w') ->
  match e with
  | None => unread (file d) w = bs ++ unread (file d) w'
  | Some x => errors_Is x EOF = true -> bs = unread (file d) w
  end.
Proof. apply read_all_complete. Qed.

(** A server that answers: on a file that is [ready], a read brings bytes or
    the end of file, and no other error. *)
Definition Responsive (R : RemoteFS W F) (ready : F -> W -> Prop) : Prop :=
  forall h n w bs e w', ready h w -> 0 < n -> f_Read R h n w = ((bs, e), w') ->
  ready h w' /\ (bs <> [] \/ e <> None) /\ (forall x, e = Some x -> errors_Is x EOF = true).

Lemma read_all_terminates (R : RemoteFS W F) unread ready d lens w :
  ReadLaws R unread -> Responsive R ready -> fs d = R -> ready (file d) w ->
  Forall (fun len => 0 < len) lens -> (length (unread (file d) w) < length lens)%nat ->
  exists x d' w', read_all d lens w = (((unread (file d) w, Some x), d'), w') /\ errors_Is x EOF = true.
Proof.
  intros Laws Hresp. revert d w. induction lens as [|len lens IH]; intros d w Hfs Hr Hpos Hlen; [simpl in Hlen; lia|].
  apply Forall_cons in Hpos as [Hpos0 Hpos]. simpl. unfold bind at 1.
  destruct (Read d len w) as [[[b1 e1] d1] w1] eqn:E. simpl.
  apply Read_file in E as (E & Hfs1 & Hfile). rewrite Hfs in E.
  destruct (Hresp _ _ _ _ _ _ Hr Hpos0 E) as (Hr1 & Hprog & Heof).
  pose proof (read_chunk R _ Laws _ _ _ _ _ _ E Heof) as Hchunk. destruct e1 as [x|].
  - specialize (Heof x eq_refl). do 3 eexists. split; [|done].
    by rewrite Hchunk, (read_eof R _ Laws _ _ _ _ _ _ E Heof), app_nil_r.
  - destruct Hprog as [Hb|]; [|done]. destruct b1 as [|b b1]; [done|].
    rewrite Hchunk, length_app in Hlen. simpl in Hlen. rewrite <- Hfile in *.
    destruct (IH d1 w1) as (x & d2 & w2 & H2 & Hx); [congruence|done|done|lia|].
    do 3 eexists. split; [|done]. rewrite (bind_run _ _ _ _ _ H2). by rewrite Hchunk.
Qed.
(** C32. A download ends.  On a server that answers, reading into buffers that
    are not empty comes to the end of file after at most one read more than
    the file has bytes, and has then delivered exactly the file, whatever
    the sizes of the buffers and of the answers. *)
Theorem download_terminates (R : RemoteFS W F) unread ready d lens w :
  ReadLaws R unread -> Responsive R ready -> fs d = R -> ready (file d) w ->
  Forall (fun len => 0 < len) lens -> (length (unread (file d) w) < length lens)%nat ->
  exists x d' w', read_all d lens w = (((unread (file d) w, Some x), d'), w') /\ errors_Is x EOF = true.
Proof. apply read_all_terminates. Qed.
End complete.

Section witnesses.
Import Download.

Definition mem_unread (h : nat) (w : MemFS) : bytes :=
  match handles w !! h with
  | Some (p, off) => match files w !! p with Some (NFile bs) => drop off bs | _ => [] end
  | None => []
  end.

Lemma mem_read_laws c : ReadLaws (client_fs (R := MemFS) c) mem_unread.
Proof.
  split; simpl; intros h n w bs e w'; unfold mem_read, mem_unread.
  - destruct (handles w !! h) as [[p off]|] eqn:Hh.
    2:{ intros [= <- <- <-]. rewrite Hh. done. }
    destruct (files w !! p) as [[old| |]|] eqn:Hp;
      try (intros [= <- <- <-] ?; by rewrite Hh, Hp).
    destruct (drop off old) as [|b rest] eqn:Hd.
    { intros [= <- <- <-]. by rewrite Hh, Hp, Hd. }
    intros [= <- <- <-] _. simpl. rewrite lookup_insert_eq, Hp, <- drop_drop, Hd.
    rewrite length_take. rewrite <- (take_drop (Z.to_nat n) (b :: rest)) at 1. f_equal.
    destruct (decide (Z.to_nat n <= length (b :: rest))%nat) as [Hle|Hgt].
    + by rewrite Nat.min_l.
    + rewrite Nat.min_r by lia. rewrite !drop_ge; [done|lia..].
  - destruct (handles w !! h) as [[p off]|] eqn:Hh; [|intros [= <- <- <-]; by rewrite Hh].
    destruct (files w !! p) as [[old| |]|] eqn:Hp;
      try (intros [= <- <- <-] ?; by rewrite Hh, Hp).
    destruct (drop off old) as [|b rest] eqn:Hd; intros [= <- <- <-]; by rewrite Hh, Hp, Hd.
Qed.

Definition mem_ready (h : nat) (w : MemFS) : Prop :=
  exists p off bs, handles w !! h = Some (p, off) /\ files w !! p = Some (NFile bs).

Lemma mem_responsive c : Responsive (client_fs (R := MemFS) c) mem_ready.
Proof.
  intros h n w bs e w' (p & off & old & Hh & Hp) Hn. simpl. unfold mem_read. rewrite Hh, Hp.
  destruct (drop off old) as [|b rest] eqn:Hd; intros [= <- <- <-].
  - split_and!; [by exists p, off, old|by right|by intros x [= <-]].
  - split_and!; [|left|done].
    + eexists p, _, old. simpl. by rewrite lookup_insert_eq.
    + destruct (Z.to_nat n) eqn:E; [lia|done].
Qed.

Definition mem_opened : MemFS :=
  MkMemFS (list_to_map [("/data/a", NFile (chars "abc"))]) {[ 0%nat := ("/data/a", 0%nat) ]} 1.

Definition demo_download {L} (R : RemoteFS L nat) (o : DownloadOptions L) : DownloadHandle L nat :=
  MkDownload R 0%nat None "/data/a" o 0 false None false.

Definition demo_reads (lens : list Z) : M MemFS ((bytes * option error) * DownloadHandle MemFS nat) :=
  read_all (demo_download (client_fs (mem_client true "/data"))
    (MkOptions _ "s" "t" "/a" false None None)) lens.

Lemma download_complete_witness :
  (demo_reads [2; 2; 2] mem_opened).1.1 = (chars "abc", Some (ESentinel EOF)) /\
  chars "abc" = mem_unread 0 mem_opened.
Proof.
  assert ((demo_reads [2; 2; 2] mem_opened).1.1 = (chars "abc", Some (ESentinel EOF))) as H
    by (vm_compute; reflexivity).
  split; [exact H|]. unfold demo_reads in H.
  destruct (read_all _ _ mem_opened) as [[be d'] w'] eqn:E. simpl in H. subst be.
  refine (download_complete (client_fs (mem_client true "/data")) mem_unread _ _ _ _ _ _ _
    (mem_read_laws (mem_client true "/data")) _ E _); reflexivity.
Defined.

Lemma download_terminates_witness :
  exists x d' w', demo_reads [2; 2; 1; 7] mem_opened = (((chars "abc", Some x), d'), w') /\ errors_Is x EOF = true.
Proof.
  refine (download_terminates (client_fs (mem_client true "/data")) mem_unread mem_ready
    (demo_download _ (MkOptions _ "s" "t" "/a" false None None)) [2; 2; 1; 7] mem_opened
    (mem_read_laws _) (mem_responsive _) eq_refl _ _ _).
  - by exists "/data/a", 0%nat, (chars "abc").
  - by repeat constructor.
  - vm_compute. lia.
Defined.

Definition demo_dopts : DownloadOptions (MemFS * list event) :=
  MkOptions _ "s1" "t1" "/a" true
    (Some (fun r w => (tt, (fst w, snd w ++ [Reported r]))))
    (Some (fun w => (tt, (fst w, snd w ++ [Released])))).

Lemma demo_drecorded : drecorded snd log_report log_free demo_fs demo_dopts.
Proof.
  split.
  - apply log_fs_silent.
  - by refine (ex_intro _ _ (conj eq_refl _)).
  - by refine (ex_intro _ _ (conj eq_refl _)).
Qed.

Definition demo_dops : list dop :=
  [DRead 8; DRead 8; DTransferError (Some (EOther "broken pipe"))].

Lemma download_report_witness :
  match NewDownload demo_fs "/data/a" demo_dopts demo_world with
  | (Ok d, w1) =>
      let '(bes, d2, w2) := drun d demo_dops w1 in
      let '(r, d3, w') := Close d2 w2 in
      bes = (chars "o", [BrokenOff (Some (EOther "broken pipe"))]) /\
      snd w' = snd demo_world ++
        [Reported (Result.Mk "t1" "s1" "/a" "/data/a" (wrap64 (Z.of_nat (length (chars "o"))))
                     (if CalculateSHA256 demo_dopts then Sha256.sum_hex (chars "o") else "")
                     PhaseFailed r); Released]
  | _ => False
  end.
Proof.
  assert (match NewDownload demo_fs "/data/a" demo_dopts demo_world with
          | (Ok d, w1) => (drun d demo_dops w1).1.1
          | _ => ([], [])
          end = (chars "o", [BrokenOff (Some (EOther "broken pipe"))])) as H by (vm_compute; reflexivity).
  destruct (NewDownload demo_fs "/data/a" demo_dopts demo_world) as [[d|e] w1] eqn:E1; [|discriminate H].
  destruct (drun d demo_dops w1) as [[bes d2] w2] eqn:E2. simpl in H. subst bes.
  destruct (Close d2 w2) as [[r d3] w'] eqn:E3. split; [reflexivity|].
  exact (proj2 (download_report snd demo_fs "/data/a" demo_dopts demo_dops demo_world
    d w1 _ _ d2 w2 r d3 w' demo_drecorded E1 E2 E3)).
Defined.
End witnesses.
