(* ===== verification/SftpClientProps.v ===== *)
(** * Theorems about the SFTP client

    The symlink guard, the operations behind it, filtered listings, refusal
    to overwrite, error translation, and the transfer layer's contract. *)
From S2P Require Import Prelude GoStrings GoPath Errors Filesystem SftpLib SftpClient Transfer UploadSpec SftpClientSpec MemServer TransferSpec.
Open Scope string_scope.
Open Scope list_scope.
Open Scope Z_scope.

Lemma Dir_clean p : clean_abs p -> clean_abs (Dir p).
Proof.
  intros (cs & H & ->). destruct cs as [|w cs _] using rev_ind; [by exists []|].
  rewrite Dir_abs_path by done. exists cs. by apply Forall_app in H as [? _].
Qed.

Lemma link_target_clean p t : clean_abs p -> clean_abs (link_target p t).
Proof.
  intros Hp. unfold link_target. destruct (IsAbs t) eqn:Ht; [by apply Clean_abs_clean|].
  destruct (Dir_clean p Hp) as (cs & Hcs & ->).
  apply Clean_abs_clean, clean_abs_IsAbs. by apply Join2_clean.
Qed.

(** Where a link leads, read lexically, one component at a time: from its
    own directory, or from the top if the target starts with "/"; empty
    components and "." stay, ".." goes up (and stays at the top), any other
    goes down. *)
Definition walk (here : list string) (w : string) : list string :=
  if (w =? "")%string || (w =? ".")%string then here
  else if (w =? "..")%string then removelast here
  else here ++ [w].

Definition leads_to (dir : list string) (target : string) : list string :=
  let start := match target with
               | String c _ => if Ascii.eqb c slash then [] else dir
               | EmptyString => dir
               end in
  foldl walk start (Split target slash).

Lemma walk_clean here w :
  Forall good_comp here -> walk here w = reverse (clean_step true (reverse here) w).
Proof.
  intros H. unfold walk, clean_step. destruct ((w =? "")%string || (w =? ".")%string).
  { by rewrite reverse_involutive. }
  destruct (w =? "..")%string; [|by rewrite reverse_cons, reverse_involutive].
  destruct here as [|x here _] using rev_ind; [done|].
  apply Forall_app in H as [_ (_ & _ & Hx & _)%Forall_singleton].
  rewrite reverse_snoc. apply String.eqb_neq in Hx as ->.
  by rewrite removelast_last, reverse_involutive.
Qed.

Lemma walks_clean here ws :
  Forall good_comp here -> Forall (fun w => ContainsByte w slash = false) ws ->
  foldl walk here ws = reverse (foldl (clean_step true) (reverse here) ws) /\
  Forall good_comp (foldl walk here ws).
Proof.
  intros H Hws. revert here H. induction Hws as [|w ws Hw _ IH]; intros here H; simpl.
  { by rewrite reverse_involutive. }
  pose proof (walk_clean here w H) as E.
  assert (Forall good_comp (walk here w)) as H1
    by (rewrite E; apply Forall_reverse, clean_step_rooted_good; [by apply Forall_reverse|done]).
  destruct (IH _ H1) as [E1 Hg]. split; [|done]. by rewrite E1, E, reverse_involutive.
Qed.

Lemma Dir_removelast ps : Forall good_comp ps -> Dir (abs_path ps) = abs_path (removelast ps).
Proof.
  intros H. destruct ps as [|x ps _] using rev_ind; [done|].
  by rewrite Dir_abs_path, removelast_last.
Qed.

Lemma link_target_leads ps t :
  Forall good_comp ps ->
  link_target (abs_path ps) t = abs_path (leads_to (removelast ps) t) /\
  Forall good_comp (leads_to (removelast ps) t).
Proof.
  intros H. pose proof (Split_Forall_nosep t slash) as Ht. unfold link_target, leads_to.
  assert (Forall good_comp (removelast ps)) as Hd.
  { destruct ps as [|x ps _] using rev_ind; [done|]. rewrite removelast_last. by apply Forall_app in H as [? _]. }
  assert (match t with String c _ => if Ascii.eqb c slash then [] else removelast ps
          | EmptyString => removelast ps end = if IsAbs t then [] else removelast ps) as ->.
  { destruct t as [|a t]; [done|]. destruct (Ascii.eqb_spec a slash) as [->|Ha].
    - by rewrite (proj2 (IsAbs_spec _)) by eauto.
    - destruct (IsAbs (String a t)) eqn:E; [|done].
      apply IsAbs_spec in E as [t' [= ? _]]. by destruct Ha. }
  destruct (IsAbs t) eqn:E.
  - destruct (walks_clean [] (Split t slash)) as [Hw Hg]; [done..|]. split; [|done].
    by rewrite Clean_abs, Hw.
  - destruct (walks_clean (removelast ps) (Split t slash)) as [Hw Hg]; [done..|]. split; [|done].
    rewrite Dir_removelast, Join2_abs_path, Clean_app, Hw by done.
    rewrite <- Hw. by apply Clean_abs_path.
Qed.

Section client.
Context {R : Type} `{Lib : SftpLib R}.
Implicit Types (c : Client R) (w : R).

(** What the guard lets through: a path that does not exist, is not a link,
    or is a link that leads, lexically, to the root or below it. *)
Definition passes c (rs ps : list string) w : Prop :=
  match sftp_Lstat (c_sftp c) (abs_path ps) w with
  | (Err e, _) => errors_Is e ErrNotExist = true
  | (Ok fi, w1) =>
      is_symlink fi = false \/
      exists t, (sftp_ReadLink (c_sftp c) (abs_path ps) w1).1 = Ok t /\
                rs `prefix_of` leads_to (removelast ps) t
  end.

(** C25. The symlink guard accepts a path exactly when it does not exist, is
    not a symbolic link, or is one whose target, walked lexically from the
    link's directory (from the top if it starts with "/"), ends at the
    confined root or below it; in particular it refuses a link it cannot
    read, and any failure to examine the path other than "does not exist". *)
Theorem symlink_guard_exact c rs ps w :
  c_root c = abs_path rs -> Forall good_comp rs -> Forall good_comp ps ->
  (checkNoEscapingSymlink c (abs_path ps) w).1 = Ok tt <-> passes c rs ps w.
Proof.
  intros Hr Hrs Hps. unfold checkNoEscapingSymlink, passes, translated, bindE, bind, ret.
  destruct (sftp_Lstat (c_sftp c) (abs_path ps) w) as [[fi|e] w1].
  2:{ destruct (errors_Is e ErrNotExist); simpl; split; done. }
  destruct (is_symlink fi); simpl; [|by split; [left|]].
  destruct (sftp_ReadLink (c_sftp c) (abs_path ps) w1) as [[t|e] w2]; simpl.
  2:{ split; [done|]. intros [?|(t & ? & _)]; done. }
  destruct (link_target_leads ps t Hps) as [-> Hg]. rewrite Hr.
  pose proof (WithinRoot_prefix rs _ Hrs Hg) as Hu.
  destruct (WithinRoot _ _); simpl; split; try done.
  - intros _. right. exists t. split; [done|]. by apply Hu.
  - intros [?|(t' & [= <-] & Hc)]; [done|]. by apply Hu in Hc.
Qed.

(** The operations behind the guard, on one path each. *)
Inductive guarded c p : forall A, M R (res A) -> Prop :=
  | g_Stat : guarded c p _ (Stat c p)
  | g_ReadDir timeout : guarded c p _ (ReadDir c p timeout)
  | g_OpenRead : guarded c p _ (OpenRead c p)
  | g_Commit t ow : guarded c p _ (Commit c t p ow)
  | g_Remove : guarded c p _ (Remove c p)
  | g_RemoveDirectory : guarded c p _ (RemoveDirectory c p)
  | g_Rename_from q ow : guarded c p _ (Rename c p q ow).

(** When the guard refuses a path, every guarded operation on it, and a
    rename from or onto it, returns the guard's error and asks the server
    for nothing further. *)
Theorem guard_refusal_stops c p w e w1 :
  checkNoEscapingSymlink c p w = (Err e, w1) ->
  (forall A (m : M R (res A)), guarded c p A m -> m w = (Err e, w1)) /\
  (forall q ow w0, checkNoEscapingSymlink c q w0 = (Ok tt, w) ->
     Rename c q p ow w0 = (Err e, w1)).
Proof.
  intros H. split.
  - intros A m Hg. destruct Hg; by apply bindE_err.
  - intros q ow w0 H0. unfold Rename. erewrite bindE_ok by exact H0. by apply bindE_err.
Qed.

(** Examining a path does not change the server. *)
Definition looking_is_pure c : Prop :=
  forall p w, (sftp_Lstat (c_sftp c) p w).2 = w /\ (sftp_ReadLink (c_sftp c) p w).2 = w.

Lemma check_pure c p w : looking_is_pure c -> (checkNoEscapingSymlink c p w).2 = w.
Proof.
  intros H. unfold checkNoEscapingSymlink, translated, bindE, bind, ret.
  destruct (H p w) as [H1 H2].
  destruct (sftp_Lstat (c_sftp c) p w) as [[fi|e] w1]; simpl in *; subst w1;
    [|by destruct (errors_Is e ErrNotExist)].
  destruct (is_symlink fi); simpl; [|done].
  destruct (sftp_ReadLink (c_sftp c) p w) as [[t|e] w2]; simpl in *; subst w2; [|done].
  by destruct (WithinRoot _ _).
Qed.

(** An entry of a listing of [p] that is shown. *)
Definition shown c p w (entry : FileInfo) : bool :=
  negb (is_symlink entry) || is_ok (checkNoEscapingSymlink c (Join2 p (Name entry)) w).1.

Lemma safe_entries_filter c p l w :
  looking_is_pure c -> safe_entries c p l w = (filter (shown c p w) l, w).
Proof.
  intros H. induction l as [|entry l IH]; simpl; [done|].
  rewrite filter_cons. unfold bind, shown in *.
  destruct (is_symlink entry); simpl; [|by rewrite IH].
  pose proof (check_pure c (Join2 p (Name entry)) w H) as Hp.
  destruct (checkNoEscapingSymlink c (Join2 p (Name entry)) w) as [r w1]. simpl in *. subst w1.
  unfold ret. rewrite IH. by destruct (is_ok r).
Qed.

(** A listing shows exactly the entries the server returned, in order,
    less the symbolic links the guard refuses. *)
Theorem ReadDir_hides_escapes c p timeout w entries w1 :
  looking_is_pure c -> (checkNoEscapingSymlink c p w).1 = Ok tt ->
  sftp_ReadDirContext (c_sftp c) timeout p w = (Ok entries, w1) ->
  ReadDir c p timeout w = (Ok (filter (shown c p w1) entries), w1).
Proof.
  intros Hl Hc Hr. unfold ReadDir.
  pose proof (check_pure c p w Hl) as Hp.
  rewrite (bindE_ok _ _ w tt w).
  2:{ rewrite (surjective_pairing (checkNoEscapingSymlink c p w)). by rewrite Hc, Hp. }
  rewrite (bindE_ok _ _ w entries w1) by by erewrite translated_run by exact Hr.
  unfold bind. by rewrite safe_entries_filter.
Qed.

(** C26. Without permission to overwrite, once the guard lets the target
    pass, everything hangs on one Stat of it.  If it succeeds, committing an
    upload or renaming onto it is refused as a conflict, with and without
    posix-rename, and nothing is renamed or removed: the server only saw the
    guards and the Stat.  If it fails, for whatever reason, the rename is
    issued and its answer, translated, is the result. *)
Theorem no_overwrite_refuses c p w st w1 w2 :
  checkNoEscapingSymlink c p w = (Ok tt, w1) ->
  sftp_Stat (c_sftp c) p w1 = (st, w2) ->
  let renamed t op :=
    translated op (if HasPosixRename c then sftp_PosixRename (c_sftp c) t p
                   else sftp_Rename (c_sftp c) t p) w2 in
  match st with
  | Ok _ =>
      (forall t, exists e, Commit c t p false w = (Err e, w2) /\ KindOf e = KindConflict) /\
      (forall q w0, checkNoEscapingSymlink c q w0 = (Ok tt, w) ->
         exists e, Rename c q p false w0 = (Err e, w2) /\ KindOf e = KindConflict)
  | Err _ =>
      (forall t, Commit c t p false w = renamed t "sftpclient.Commit") /\
      (forall q w0, checkNoEscapingSymlink c q w0 = (Ok tt, w) ->
         Rename c q p false w0 = renamed q "sftpclient.Rename")
  end.
Proof.
  intros Hc Hs renamed. subst renamed.
  assert (rejectIfExists c p w1 = (if is_ok st
          then Err (Errors.New KindConflict "sftpclient.Commit" "el archivo destino ya existe") else Ok tt, w2))
    as Hr by (unfold rejectIfExists, bind, ret; by rewrite Hs).
  destruct st as [fi|e]; simpl in Hr; split.
  - intros t. unfold Commit. erewrite bindE_ok by exact Hc. destruct (HasPosixRename c); simpl.
    + erewrite bindE_err by exact Hr. eauto.
    + unfold bind. rewrite Hs. simpl. eexists. split; reflexivity.
  - intros q w0 H0. unfold Rename. erewrite bindE_ok by exact H0. erewrite bindE_ok by exact Hc.
    destruct (HasPosixRename c); simpl.
    + erewrite bindE_err by exact Hr. eauto.
    + unfold bind. rewrite Hs. simpl. eexists. split; reflexivity.
  - intros t. unfold Commit. erewrite bindE_ok by exact Hc. destruct (HasPosixRename c); simpl.
    + by erewrite bindE_ok by exact Hr.
    + unfold bind at 1. rewrite Hs. simpl. by erewrite bindE_ok by done.
  - intros q w0 H0. unfold Rename. erewrite bindE_ok by exact H0. erewrite bindE_ok by exact Hc.
    destruct (HasPosixRename c); simpl.
    + by erewrite bindE_ok by exact Hr.
    + unfold bind at 1. rewrite Hs. simpl. by erewrite bindE_ok by done.
Qed.

(** [New] confines the client to a clean absolute root, or closes the
    SSH connection it was given and reports a connection error. *)
Theorem New_owns_connection sshClient root w r w' :
  New sshClient root w = (r, w') ->
  match r with
  | Ok c => clean_abs (c_root c) /\ c_ssh c = Some sshClient /\
            (IsAbs root = true -> c_root c = Clean root) /\
            exists raw, c_sftp c = Some raw /\ sftp_NewClient sshClient w = (Ok raw, w')
  | Err e => KindOf e = KindSSHConnection /\
             exists e0 w1, sftp_NewClient sshClient w = (Err e0, w1) /\
                           w' = (ssh_Close sshClient w1).2
  end.
Proof.
  unfold New. intros ([raw|e0] & w1 & H1 & H2)%bind_inv.
  - injection H2 as <- <-. simpl. split_and!; [|done| |by eexists].
    + by apply Clean_abs_clean, (HasPrefix_app "/").
    + apply Clean_slash.
  - apply bind_inv in H2 as (x & w2 & H2 & [= <- <-]). split; [done|].
    exists e0, w1. by rewrite H2.
Qed.

Section contract.
Context `{Obs : Observe R SftpFile} {Laws : SftpLaws R}.

(** C23. The client implements the transfer layer's [RemoteFS] contract on
    any server that behaves as documented: successful writes append,
    a successful commit replaces the final name by the temporary file in
    one step, a failed one leaves the old file, the new one, or (when
    replacing without posix-rename) none; nothing touches other paths. *)
Theorem client_refines_RemoteFS c : RemoteFSLaws (client_fs c).
Proof. apply client_fs_laws. Qed.
End contract.
End client.

Definition client_messages : list string := [
  "tiempo de espera agotado en la operación SFTP remota"; "ruta remota no encontrada";
  "permiso denegado en el servidor remoto"; "tiempo de espera agotado en el servidor remoto";
  "error en la operación SFTP remota"].

(** C36. The end of file passes unchanged.  Any other SFTP library error
    becomes a domain error whose text is one of five fixed messages (nothing
    the remote server said reaches the FTP client), which keeps the library's
    error as its cause, and whose kind is: timeout for a deadline; else not
    found, or permission denied, as the library says; else timeout if the
    error says it is one; else internal. *)
Theorem translateError_classifies op err :
  let e := translateError op err in
  let says := errors_Is err in
  (says EOF = true -> e = err) /\
  (says EOF = false ->
     Error e ∈ client_messages /\ Unwrap e = Some err /\
     (forall s, errors_Is e s = says s) /\
     (KindOf e = KindTimeout <->
        says DeadlineExceeded = true \/
        says ErrNotExist = false /\ says ErrPermission = false /\ As_Timeout err = Some true) /\
     (KindOf e = KindNotFound <-> says DeadlineExceeded = false /\ says ErrNotExist = true) /\
     (KindOf e = KindRemotePermissionDenied <->
        says DeadlineExceeded = false /\ says ErrNotExist = false /\ says ErrPermission = true) /\
     (KindOf e = KindInternal <->
        says DeadlineExceeded = false /\ says ErrNotExist = false /\ says ErrPermission = false /\
        As_Timeout err <> Some true)).
Proof.
  intros e says. subst e says. unfold translateError, client_messages.
  split; intros Heof; rewrite Heof; [done|].
  destruct (errors_Is err DeadlineExceeded), (errors_Is err ErrNotExist),
    (errors_Is err ErrPermission), (As_Timeout err) as [[]|]; simpl;
    (split_and!; [set_solver|done|done|naive_solver..]).
Qed.

(** ** Witnesses on the in-memory server *)

Definition links_world : MemFS := mem_of [
  ("/data", NDir); ("/data/a", NFile (chars "x")); ("/data/in", NLink "a");
  ("/data/out", NLink "../etc/passwd"); ("/data/hop", NLink "/data/out");
  ("/data/abs", NLink "/etc/passwd"); ("/data/round", NLink "../x/../data/a");
  ("/etc/passwd", NFile (chars "root"))].

Definition demo_client : Client MemFS := mem_client true "/data".

Lemma clean_data : clean_abs "/data".
Proof. exists ["data"]. split; [|done]. repeat constructor; vm_compute; discriminate. Qed.

Lemma clean_data_child x : good_comp x -> clean_abs ("/data/" +:+ x).
Proof.
  intros H. exists ["data"; x]. split; [|done].
  constructor; [repeat constructor; vm_compute; discriminate|by constructor].
Qed.

Lemma demo_looking : looking_is_pure demo_client.
Proof. done. Qed.

Lemma symlink_guard_exact_witness :
  map (fun n => is_ok (checkNoEscapingSymlink demo_client (abs_path ["data"; n]) links_world).1)
    ["in"; "out"; "hop"; "abs"; "round"; "none"] = [true; false; true; false; true; true] /\
  ((checkNoEscapingSymlink demo_client (abs_path ["data"; "abs"]) links_world).1 = Ok tt <->
   passes demo_client ["data"] ["data"; "abs"] links_world).
Proof.
  split; [vm_compute; reflexivity|].
  apply (symlink_guard_exact demo_client ["data"] ["data"; "abs"] links_world).
  - reflexivity.
  - repeat constructor; vm_compute; discriminate.
  - repeat constructor; vm_compute; discriminate.
Defined.

Lemma guard_refusal_stops_witness :
  exists e, Remove demo_client "/data/out" links_world = (Err e, links_world).
Proof.
  eexists.
  refine (proj1 (guard_refusal_stops demo_client "/data/out" links_world _ links_world _) _ _ _).
  - vm_compute. reflexivity.
  - constructor.
Defined.

Lemma ReadDir_hides_escapes_witness :
  (ReadDir demo_client "/data" 5 links_world).1
  = Ok (filter (shown demo_client "/data" links_world)
         match (mem_readdir "/data" links_world).1 with Ok l => l | Err _ => [] end) /\
  shown demo_client "/data" links_world (MkFileInfo "out" 0 ModeSymlink) = false.
Proof.
  split; [|vm_compute; reflexivity].
  rewrite (ReadDir_hides_escapes demo_client "/data" 5 links_world _ links_world
             demo_looking eq_refl eq_refl). reflexivity.
Defined.

Lemma no_overwrite_refuses_witness :
  (exists e, Commit demo_client "/data/t" "/data/a" false links_world = (Err e, links_world) /\
    KindOf e = KindConflict) /\
  Commit demo_client "/data/a" "/data/new" false links_world
    = translated "sftpclient.Commit" (mem_rename true "/data/a" "/data/new") links_world.
Proof.
  split.
  - exact (proj1 (no_overwrite_refuses demo_client "/data/a" links_world (Ok (MkFileInfo "a" 1 420))
      links_world links_world eq_refl eq_refl) "/data/t").
  - exact (proj1 (no_overwrite_refuses demo_client "/data/new" links_world (Err (ESentinel ErrNotExist))
      links_world links_world eq_refl eq_refl) "/data/a").
Defined.

Lemma New_owns_connection_witness :
  clean_abs (c_root (R := MemFS) (MkClient (Some true) (Some true) "/data")).
Proof.
  exact (proj1 (New_owns_connection (R := MemFS) true "/data" links_world
    (Ok (MkClient (Some true) (Some true) "/data")) links_world eq_refl)).
Defined.

Lemma client_refines_RemoteFS_witness : RemoteFSLaws (client_fs demo_client).
Proof. apply (client_refines_RemoteFS (Laws := MemLaws) demo_client). Defined.

Lemma translateError_classifies_witness :
  KindOf (translateError "op" (EOther "secret host 10.0.0.7")) = KindInternal /\
  Error (translateError "op" (EOther "secret host 10.0.0.7")) ∈ client_messages.
Proof.
  destruct (proj2 (translateError_classifies "op" (EOther "secret host 10.0.0.7")) eq_refl)
    as (H & _ & _ & _ & _ & _ & Hk).
  split; [|exact H]. apply Hk. split_and!; try reflexivity. vm_compute. discriminate.
Defined.
