(* ===== verification/Gateway.v ===== *)
(** * The gateway ([internal/ftpserver/gateway.go], [settings.go])

    [World] is everything the callbacks of the FTP library act on: the
    remote side, the metrics registry, the log, the limiters, the users'
    gates, the connection table, and the heap of sessions (a [*session.Session]
    is a number) and of the [released] flags of the transfers' closures.
    Clock readings and random bytes are arguments of the operations. *)
From S2P Require Import Prelude GoStrings Errors GoNet Filesystem Authorization Limiter BruteForce Auth SftpLib SshDial SftpClient Metrics Observability Config Session Transfer.
From Stdlib Require Import Ascii.
Open Scope string_scope.
Open Scope list_scope.
Open Scope Z_scope.

(** ** settings.go *)

(** [ftpserverlib.Settings], as far as it is filled in. *)
Record Settings := MkSettings {
  ListenAddr : string;
  PublicHost : string;
  Banner : string;
  PortStart : Z;
  PortEnd : Z;
  IdleTimeout : Z;
  ConnectionTimeout : Z;
  DisableActiveMode : bool;
  DefaultTransferTypeBinary : bool;
  DisableASCIIConversion : bool;
  DisableMLSD : bool;
  DisableMLST : bool;
  DisableMFMT : bool;
  DisableSite : bool;
  DisableSTAT : bool;
  DisableSYST : bool;
}.

(** [int(d.Seconds())]: whole seconds plus the rest as [float64]s, then
    truncation. *)
Definition float_floor (x : Z * Z) : Z :=
  let '(m, e) := x in if 0 <=? e then m * 2 ^ e else m / 2 ^ (- e).

Definition abs_seconds (d : Z) : Z :=
  let sec := d / Second in
  let nsec := d mod Second in
  if nsec =? 0 then sec
  else
    let '(m, e) := float_div nsec Second in
    float_floor (float_div (sec * 2 ^ (- e) + m) (2 ^ (- e))).

Definition int_Seconds (d : Z) : Z :=
  if d <? 0 then - abs_seconds (- d) else abs_seconds d.

Definition buildSettings (cfg : ServerConfig.t) : Settings :=
  MkSettings (ServerConfig.ListenAddress cfg +:+ ":" +:+ fmt_d (ServerConfig.ControlPort cfg))
    (ServerConfig.PassiveAddress cfg) "ftp2sftp gateway"
    (ServerConfig.PassivePortStart cfg) (ServerConfig.PassivePortEnd cfg)
    (int_Seconds (ServerConfig.IdleTimeout cfg))
    (int_Seconds (ServerConfig.DataConnectionTimeout cfg))
    true true true true true true true true false.

(** ** gateway.go: state *)

Definition errShuttingDown : error :=
  Errors.New KindDisconnected "ftpserver.ClientConnected"
    "el servicio está cerrando, intente más tarde".
Definition errTooManyConnections : error :=
  Errors.New KindRateLimited "ftpserver.ClientConnected"
    "demasiadas conexiones activas, intente más tarde".
Definition errNoUserRuntime : error :=
  Errors.New KindInternal "ftpserver.AuthUser" "error interno de configuración".

(** The [gate] field is the entry of the user in [gates]. *)
Record userRuntime := MkRuntime {
  rt_cfg : UserConfig.t;
  rt_mapper : Mapper;
  rt_policy : Policy;
}.

Record connState := MkConnState { admitted : bool; cs_sess : option nat }.

Definition hostOnly (addr : string) : string :=
  match SplitHostPort addr with Ok (host, _) => host | Err _ => addr end.

Section gateway.
Context {R : Type} {Lib : SftpLib R} {Ssh : SshLib R}.

Abbreviation session := (Session (R := R) (C := userRuntime)).

Record World := MkWorld {
  remote : R;
  metrics : Metrics;
  log : list LogRecord;
  fallbackCounter : Z;
  authent : Authenticator;
  gates : gmap string Gate.ConcurrencyGate;
  activeConnections : Z;
  shuttingDown : bool;
  sessions : Z;
  conns : gset Z;
  extras : gmap Z connState;
  paths : gmap Z string;
  heap : gmap nat session;
  flags : gmap nat bool;
  fresh : nat;
}.

Definition on_remote {A} (m : M R A) : M World A :=
  zoom remote (fun r w => MkWorld r (metrics w) (log w) (fallbackCounter w) (authent w) (gates w)
    (activeConnections w) (shuttingDown w) (sessions w) (conns w) (extras w) (paths w) (heap w)
    (flags w) (fresh w)) m.
Definition count (f : Metrics -> Metrics) : M World unit := modify (fun w =>
  MkWorld (remote w) (f (metrics w)) (log w) (fallbackCounter w) (authent w) (gates w)
    (activeConnections w) (shuttingDown w) (sessions w) (conns w) (extras w) (paths w) (heap w)
    (flags w) (fresh w)).
Definition logger (lvl : Level) (msg : string) (attrs : list (string * Value)) : M World unit :=
  modify (fun w =>
  MkWorld (remote w) (metrics w) (log w ++ [MkRecord lvl msg attrs]) (fallbackCounter w)
    (authent w) (gates w) (activeConnections w) (shuttingDown w) (sessions w) (conns w) (extras w)
    (paths w) (heap w) (flags w) (fresh w)).
Definition on_ids {A} (m : M Z A) : M World A :=
  zoom fallbackCounter (fun c w => MkWorld (remote w) (metrics w) (log w) c (authent w) (gates w)
    (activeConnections w) (shuttingDown w) (sessions w) (conns w) (extras w) (paths w) (heap w)
    (flags w) (fresh w)) m.
Definition on_authent {A} (m : M Authenticator A) : M World A :=
  zoom authent (fun a w => MkWorld (remote w) (metrics w) (log w) (fallbackCounter w) a (gates w)
    (activeConnections w) (shuttingDown w) (sessions w) (conns w) (extras w) (paths w) (heap w)
    (flags w) (fresh w)) m.
Definition set_gates (f : gmap string Gate.ConcurrencyGate -> gmap string Gate.ConcurrencyGate)
  : M World unit := modify (fun w =>
  MkWorld (remote w) (metrics w) (log w) (fallbackCounter w) (authent w) (f (gates w))
    (activeConnections w) (shuttingDown w) (sessions w) (conns w) (extras w) (paths w) (heap w)
    (flags w) (fresh w)).
Definition set_active (n : Z) : M World unit := modify (fun w =>
  MkWorld (remote w) (metrics w) (log w) (fallbackCounter w) (authent w) (gates w)
    n (shuttingDown w) (sessions w) (conns w) (extras w) (paths w) (heap w) (flags w) (fresh w)).
Definition set_shuttingDown (b : bool) : M World unit := modify (fun w =>
  MkWorld (remote w) (metrics w) (log w) (fallbackCounter w) (authent w) (gates w)
    (activeConnections w) b (sessions w) (conns w) (extras w) (paths w) (heap w) (flags w) (fresh w)).
Definition sessions_Add (n : Z) : M World unit := modify (fun w =>
  MkWorld (remote w) (metrics w) (log w) (fallbackCounter w) (authent w) (gates w)
    (activeConnections w) (shuttingDown w) (sessions w + n) (conns w) (extras w) (paths w) (heap w)
    (flags w) (fresh w)).
Definition set_conns (f : gset Z -> gset Z) : M World unit := modify (fun w =>
  MkWorld (remote w) (metrics w) (log w) (fallbackCounter w) (authent w) (gates w)
    (activeConnections w) (shuttingDown w) (sessions w) (f (conns w)) (extras w) (paths w) (heap w)
    (flags w) (fresh w)).
Definition SetExtra (cc : Z) (cs : connState) : M World unit := modify (fun w =>
  MkWorld (remote w) (metrics w) (log w) (fallbackCounter w) (authent w) (gates w)
    (activeConnections w) (shuttingDown w) (sessions w) (conns w) (<[cc := cs]> (extras w)) (paths w)
    (heap w) (flags w) (fresh w)).
Definition SetPath (cc : Z) (p : string) : M World unit := modify (fun w =>
  MkWorld (remote w) (metrics w) (log w) (fallbackCounter w) (authent w) (gates w)
    (activeConnections w) (shuttingDown w) (sessions w) (conns w) (extras w) (<[cc := p]> (paths w))
    (heap w) (flags w) (fresh w)).
Definition put_session (p : nat) (s : session) : M World unit := modify (fun w =>
  MkWorld (remote w) (metrics w) (log w) (fallbackCounter w) (authent w) (gates w)
    (activeConnections w) (shuttingDown w) (sessions w) (conns w) (extras w) (paths w)
    (<[p := s]> (heap w)) (flags w) (fresh w)).
Definition set_flag (p : nat) (b : bool) : M World unit := modify (fun w =>
  MkWorld (remote w) (metrics w) (log w) (fallbackCounter w) (authent w) (gates w)
    (activeConnections w) (shuttingDown w) (sessions w) (conns w) (extras w) (paths w) (heap w)
    (<[p := b]> (flags w)) (fresh w)).
(** A new address. *)
Definition alloc : M World nat := fun w =>
  (fresh w, MkWorld (remote w) (metrics w) (log w) (fallbackCounter w) (authent w) (gates w)
    (activeConnections w) (shuttingDown w) (sessions w) (conns w) (extras w) (paths w) (heap w)
    (flags w) (S (fresh w))).

(** Pointers handed out are in the heap; the zero session stands for the
    nil dereference that cannot happen. *)
Definition zero_session : session :=
  Session.New "" "" "" 0 (NewMapper "" "") zero_Policy
    (MkRuntime (UserConfig.Mk "" "" "" (SFTPTargetConfig.Mk "" 0 "" "" "" "" "" "" 0 0)
       (PermissionsConfig.Mk false false false false false false) 0 0) (NewMapper "" "") zero_Policy).
Definition session_at (p : nat) (w : World) : session := default zero_session (heap w !! p).
Definition get_session (p : nat) : M World session := fun w => (session_at p w, w).

Record Gateway := MkGateway {
  g_cfg : Config;
  g_settings : Settings;
  g_users : gmap string userRuntime;
}.

(** ** gateway.go: construction *)

Definition policy_of (u : UserConfig.t) : Policy :=
  let p := UserConfig.Permissions u in
  MkPolicy (PermissionsConfig.AllowUpload p) (PermissionsConfig.AllowDownload p)
    (PermissionsConfig.AllowDelete p) (PermissionsConfig.AllowMkdir p)
    (PermissionsConfig.AllowRename p) (PermissionsConfig.AllowOverwrite p)
    (UserConfig.MaxFileSize u).

Definition runtime_of (u : UserConfig.t) : userRuntime :=
  MkRuntime u
    (NewMapper (UserConfig.VirtualRoot u) (SFTPTargetConfig.RootPath (UserConfig.SFTP u)))
    (policy_of u).

(** The loop of [New]: records, runtimes and gates. *)
Definition record_of (u : UserConfig.t) : UserRecord :=
  MkUserRecord (UserConfig.Username u) (UserConfig.PasswordHash u).
Definition users_of (us : list UserConfig.t) : gmap string userRuntime :=
  foldl (fun m u => <[UserConfig.Username u := runtime_of u]> m) ∅ us.
Definition gates_of (us : list UserConfig.t) : gmap string Gate.ConcurrencyGate :=
  foldl (fun m u => <[UserConfig.Username u :=
    Gate.NewConcurrencyGate (UserConfig.MaxConcurrentTransfers u)]> m) ∅ us.

Definition NewGateway (cfg : Config) : Gateway :=
  MkGateway cfg (buildSettings (Server cfg)) (users_of (Users cfg)).

(** The state [New] starts from: the registry it is given, fresh limiters. *)
Definition initial (cfg : Config) (r : R) (m : Metrics) (ids : Z) : World :=
  let limiter := NewLimiter authMaxFailures authWindow authLockout in
  MkWorld r m [] ids
    (NewAuthenticator (NewStore (record_of <$> Users cfg)) limiter limiter)
    (gates_of (Users cfg)) 0 false 0 ∅ ∅ ∅ ∅ ∅ 0.

Definition GetSettings (g : Gateway) : res Settings := Ok (g_settings g).

Definition GetTLSConfig (g : Gateway) : res unit :=
  Err (Errors.New KindUnsupportedCommand "ftpserver.GetTLSConfig" "FTPS no está soportado").
(** ** gateway.go: connections *)

Definition msgShuttingDown : string := "el servicio está cerrando, intente más tarde".
Definition msgTooMany : string := "demasiadas conexiones activas, intente más tarde".

Definition ClientConnected (g : Gateway) (cc : Z) (addr : string)
  : M World (string * option error) :=
  do* count (Counter_Inc FTPConnectionsTotal) in
  let clientIP := hostOnly addr in
  let* w := get in
  if shuttingDown w then ret (msgShuttingDown, Some errShuttingDown)
  else
    let active := wrap64 (activeConnections w + 1) in
    do* set_active active in
    if active >? ServerConfig.MaxConnections (Server (g_cfg g)) then
      let* w := get in
      do* set_active (wrap64 (activeConnections w - 1)) in
      do* logger LevelWarn "connection rejected: max connections reached"
            [("clientIp", VString clientIP)] in
      ret (msgTooMany, Some errTooManyConnections)
    else
      do* SetExtra cc (MkConnState true None) in
      do* count (Gauge_Inc FTPConnectionsActive) in
      do* logger LevelInfo "client connected" [("clientIp", VString clientIP)] in
      do* set_conns (fun cs => {[cc]} ∪ cs) in
      ret ("ftp2sftp gateway listo", None).

(** The fields of the SSH configuration of a user ([connector]). *)
Definition dial_config (u : UserConfig.t) : SshDial.Config :=
  let s := UserConfig.SFTP u in
  SshDial.MkConfig (SFTPTargetConfig.Host s) (SFTPTargetConfig.Port s)
    (SFTPTargetConfig.Username s) (SFTPTargetConfig.PrivateKeyFile s)
    (SFTPTargetConfig.PrivateKeyPassphraseFile s) (SFTPTargetConfig.Password s)
    (SFTPTargetConfig.KnownHostsFile s) (SFTPTargetConfig.ConnectTimeout s).

Definition connector (u : userRuntime) : M World (res (Client R)) :=
  let* r := on_remote (Dial (dial_config (rt_cfg u))) in
  match r with
  | Err err =>
      do* count (Counter_Inc SFTPConnectionFailuresTotal) in
      ret (Err err)
  | Ok sshClient =>
      let* r := on_remote
        (SftpClient.New sshClient (SFTPTargetConfig.RootPath (UserConfig.SFTP (rt_cfg u)))) in
      match r with
      | Err err =>
          do* count (Counter_Inc SFTPConnectionFailuresTotal) in
          ret (Err err)
      | Ok client =>
          do* count (Gauge_Inc SFTPConnectionsActive) in
          ret (Ok client)
      end
  end.

(** The methods of [*session.Session] on the heap. *)
Definition sess_SFTP (p : nat) : M World (res (Client R)) :=
  let* s := get_session p in
  let* (r, s) := Session.SFTP connector s in
  do* put_session p s in
  ret r.
Definition sess_IsConnected (p : nat) : M World bool :=
  let* s := get_session p in
  ret (Session.IsConnected s).
Definition sess_InvalidateSFTP (p : nat) : M World unit :=
  let* s := get_session p in
  let* s := Session.InvalidateSFTP (@on_remote) s in
  put_session p s.
Definition sess_Close (p : nat) : M World (res unit) :=
  let* s := get_session p in
  let* (r, s) := Session.Close (@on_remote) s in
  do* put_session p s in
  ret r.

Definition ClientDisconnected (cc : Z) : M World unit :=
  do* set_conns (fun cs => cs ∖ {[cc]}) in
  let* w := get in
  match extras w !! cc with
  | None => ret tt
  | Some cs =>
      do* (if admitted cs then
             let* w := get in
             do* set_active (wrap64 (activeConnections w - 1)) in
             count (Gauge_Dec FTPConnectionsActive)
           else ret tt) in
      match cs_sess cs with
      | None => ret tt
      | Some p =>
          let* wasConnected := sess_IsConnected p in
          let* s := get_session p in
          let* err := sess_Close p in
          do* match err with
              | Err e => logger LevelWarn "error closing session SFTP connection"
                           [("sessionId", VString (Session.id s)); ("err", VString (Error e))]
              | Ok _ => ret tt
              end in
          do* (if wasConnected then count (Gauge_Dec SFTPConnectionsActive) else ret tt) in
          do* logger LevelInfo "session closed"
                [("sessionId", VString (Session.id s)); ("ftpUser", VString (Session.username s))] in
          sessions_Add (-1)
      end
  end.

Section authenticate.
Context (CompareHashAndPassword : string -> string -> option error) (dummyHash : string).

(** The result on success is the driver: the session it works for. *)
Definition AuthUser (g : Gateway) (cc : Z) (addr username password : string)
  (t : AuthReadings) (now : Z) (e : Entropy) : M World (res nat) :=
  let clientIP := hostOnly addr in
  do* count (Counter_Inc FTPCommandsTotal) in
  do* count (Counter_Inc FTPAuthAttemptsTotal) in
  let* err := on_authent (fun a =>
    Authenticate CompareHashAndPassword dummyHash a t clientIP username password) in
  match err with
  | Some err =>
      do* count (Counter_Inc FTPAuthFailuresTotal) in
      do* (if Is err KindRateLimited then count (Counter_Inc RateLimitRejectionsTotal)
           else ret tt) in
      do* logger LevelWarn "authentication failed"
            [("clientIp", VString clientIP); ("user", VString username)] in
      ret (Err err)
  | None =>
      match g_users g !! username with
      | None =>
          do* logger LevelError "authenticated user has no runtime configuration"
                [("user", VString username)] in
          ret (Err errNoUserRuntime)
      | Some runtime =>
          let* sessionID := on_ids (NewCorrelationID e) in
          let* p := alloc in
          do* put_session p (Session.New sessionID username clientIP now (rt_mapper runtime)
                (rt_policy runtime) runtime) in
          let* w := get in
          do* match extras w !! cc with
              | Some cs => SetExtra cc (MkConnState (admitted cs) (Some p))
              | None => ret tt
              end in
          do* sessions_Add 1 in
          do* SetPath cc (virtualRoot (rt_mapper runtime)) in
          do* logger LevelInfo "session authenticated"
                [("sessionId", VString sessionID); ("ftpUser", VString username);
                 ("clientIp", VString clientIP)] in
          ret (Ok p)
      end
  end.
End authenticate.

Definition PrepareShutdown : M World unit := set_shuttingDown true.

Definition phase_string (p : Phase) : string :=
  match p with
  | PhaseStarted => "started" | PhaseWritten => "written"
  | PhaseCommitted => "committed" | PhaseFailed => "failed"
  end.

Definition recordTransfer (command : string) (p : nat) (r : Result.t) : M World unit :=
  do* (if (command =? "STOR")%string then count (Gauge_Dec TemporaryFilesPending) else ret tt) in
  do* count (Counter_Add TransferBytesTotal (wrapu64 (Result.Bytes r))) in
  let* sess := get_session p in
  let attrs := [
    ("sessionId", VString (Result.SessionID r)); ("transferId", VString (Result.TransferID r));
    ("ftpUser", VString (Session.username sess)); ("clientIp", VString (Session.clientIP sess));
    ("command", VString command); ("virtualPath", VString (Result.VirtualPath r));
    ("remotePath", VString (Result.RemotePath r)); ("bytes", VInt (Result.Bytes r));
    ("phase", VString (phase_string (Result.Phase r)))] in
  let attrs := if negb (Result.SHA256 r =? "")%string
               then attrs ++ [("sha256", VString (Result.SHA256 r))] else attrs in
  if decide (Result.Phase r = PhaseFailed) then
    do* count (Counter_Inc TransferFailuresTotal) in
    let attrs := match Result.Err r with
                 | Some e => attrs ++ [("err", VString (Error e))]
                 | None => attrs
                 end in
    logger LevelError "transfer failed" attrs
  else logger LevelInfo "transfer completed" attrs.

Section close.
(** [cc.Close()], and the order in which a map is iterated. *)
Context (cc_Close : Z -> M World (option error)) (iteration : gset Z -> list Z).

Fixpoint close_each (ids : list Z) : M World unit :=
  match ids with
  | [] => ret tt
  | cc :: ids =>
      let* err := cc_Close cc in
      do* match err with
          | Some e => logger LevelWarn "error force-closing connection during shutdown"
                        [("err", VString (Error e))]
          | None => ret tt
          end in
      close_each ids
  end.

Definition CloseAllConnections : M World unit :=
  let* w := get in close_each (iteration (conns w)).
End close.

(** [WaitForSessions]: its goroutine gets past [g.sessions.Wait()] when no
    session is left and closes [finished]; it returns once [finished] or
    [done] is closed.  [Main] has the goroutines. *)
Definition Wait_returns (w : World) : bool := sessions w =? 0.
Definition WaitForSessions_returns (finished done : bool) : bool := finished || done.
End gateway.
Arguments World R {Lib}.
