(* ===== verification/Health.v ===== *)
(** * Health endpoints ([internal/health], and the probe of [cmd/ftp2sftp/main.go])

    The three HTTP handlers as functions of the server's state to the
    response, and the readiness check the process installs: a probe of every
    user's SFTP target over a connection of its own.  [net/http] itself
    (routing, writing the response out) is not modelled; the context of a
    request is the parameter [ctx_Err]. *)
From S2P Require Import Prelude GoStrings GoPath Errors SftpLib MemServer SshDial SftpClient Metrics Observability Config Gateway.
Open Scope string_scope.
Open Scope list_scope.
Open Scope Z_scope.

Definition StatusOK : Z := 200.
Definition StatusServiceUnavailable : Z := 503.

Record Response := MkResponse { StatusCode : Z; Body : string }.

Section health.
Context {R : Type} {Lib : SftpLib R} {Ssh : SshLib R}.

(** ** The probe *)

Definition probe_config (u : UserConfig.t) (timeout : Z) : SshDial.Config :=
  let s := UserConfig.SFTP u in
  SshDial.MkConfig (SFTPTargetConfig.Host s) (SFTPTargetConfig.Port s)
    (SFTPTargetConfig.Username s) (SFTPTargetConfig.PrivateKeyFile s)
    (SFTPTargetConfig.PrivateKeyPassphraseFile s) (SFTPTargetConfig.Password s)
    (SFTPTargetConfig.KnownHostsFile s) timeout.

Definition probeUserSFTP (u : UserConfig.t) (timeout : Z) : M R (option error) :=
  let* r := Dial (probe_config u timeout) in
  match r with
  | Err err => ret (Some err)
  | Ok sshClient =>
      let* r := SftpClient.New sshClient (SFTPTargetConfig.RootPath (UserConfig.SFTP u)) in
      match r with
      | Err err => ret (Some err)
      | Ok client =>
          let* pingErr := Ping client in
          let* _ := SftpClient.Close client in
          ret (err_of pingErr)
      end
  end.

(** [ctx.Err()]: set once the request is cancelled or its time is over. *)
Context (ctx_Err : M R (option error)).

Definition probe_timeout : Z := 3 * Second.

Fixpoint check_users (us : list UserConfig.t) : M R (option error) :=
  match us with
  | [] => ret None
  | u :: us =>
      let* err := ctx_Err in
      match err with
      | Some err => ret (Some err)
      | None =>
          let* err := probeUserSFTP u probe_timeout in
          match err with
          | Some err =>
              ret (Some (EWrap ("usuario " +:+ UserConfig.Username u +:+ ": " +:+ Error err) err))
          | None => check_users us
          end
      end
  end.

Definition readinessCheck (cfg : Config) : M R (option error) := check_users (Users cfg).

(** ** The server *)

(** What the handlers act on: the remote side and the log. *)
Abbreviation HWorld := (R * list LogRecord)%type.

Record Server := MkServer {
  alive : bool;
  readinessRequiresCheck : bool;
  readinessCheck_ : option (M R (option error));
}.

Definition NewServer (requires : bool) (check : option (M R (option error))) : Server :=
  MkServer false requires check.
Definition SetAlive (b : bool) (s : Server) : Server :=
  MkServer b (readinessRequiresCheck s) (readinessCheck_ s).

(** [ListenAndServe], given what [net/http]'s returned: being shut down is
    not an error. *)
Definition ListenAndServe (err : option error) : option error :=
  match err with
  | Some (ESentinel ErrServerClosed) => None
  | _ => err
  end.

(** What is registered with the multiplexer: patterns without a trailing
    slash match their path only. *)
Inductive endpoint := Healthz | Readyz | MetricsText.
Definition routes : list (string * endpoint) :=
  [("/healthz", Healthz); ("/readyz", Readyz); ("/metrics", MetricsText)].
Definition route (path : string) : option endpoint :=
  snd <$> head (filter (fun r => r.1 = path) routes).

Definition nl : string := String newline "".

Definition handleHealthz (s : Server) : Response :=
  if negb (alive s) then MkResponse StatusServiceUnavailable ("not alive" +:+ nl)
  else MkResponse StatusOK ("ok" +:+ nl).

Definition h_remote {A} (m : M R A) : M HWorld A := zoom fst (fun r w => (r, w.2)) m.
Definition h_log (lvl : Level) (msg : string) (attrs : list (string * Value)) : M HWorld unit :=
  modify (fun w => (w.1, w.2 ++ [MkRecord lvl msg attrs])).

Definition handleReadyz (s : Server) : M HWorld Response :=
  if negb (alive s) then ret (MkResponse StatusServiceUnavailable ("not alive" +:+ nl))
  else
    let ready := MkResponse StatusOK ("ready" +:+ nl) in
    match (if readinessRequiresCheck s then readinessCheck_ s else None) with
    | None => ret ready
    | Some check =>
        let* err := h_remote check in
        match err with
        | Some err =>
            do* h_log LevelWarn "readiness check failed" [("err", VString (Error err))] in
            ret (MkResponse StatusServiceUnavailable ("not ready: dependency check failed" +:+ nl))
        | None => ret ready
        end
    end.

Definition handleMetrics (write : string -> M HWorld (option error)) (m : Metrics) : M HWorld unit :=
  let* err := WriteText write m in
  match err with
  | Some err => h_log LevelWarn "failed to write metrics response" [("err", VString (Error err))]
  | None => ret tt
  end.

(** ** Properties *)

(** A probe, step by step: it reports the first failure of dialling, opening
    and asking for the root, and the last thing it does to a connection it
    obtained is to close it. *)
Inductive probed (u : UserConfig.t) (timeout : Z) (w : R) : option error -> R -> Prop :=
  | probed_dial e w1 :
      Dial (probe_config u timeout) w = (Err e, w1) -> probed u timeout w (Some e) w1
  | probed_open ssh w1 e w2 e2 w3 :
      Dial (probe_config u timeout) w = (Ok ssh, w1) ->
      sftp_NewClient ssh w1 = (Err e, w2) -> ssh_Close ssh w2 = (e2, w3) ->
      probed u timeout w
        (Some (Wrap KindSSHConnection "sftpclient.New" "no se pudo abrir el canal SFTP" e)) w3
  | probed_ping ssh w1 conn w2 ping w3 e3 w4 e4 w5 :
      Dial (probe_config u timeout) w = (Ok ssh, w1) ->
      sftp_NewClient ssh w1 = (Ok conn, w2) ->
      sftp_Stat (Some conn) (Clean ("/" +:+ SFTPTargetConfig.RootPath (UserConfig.SFTP u))) w2 = (ping, w3) ->
      sftp_Close conn w3 = (e3, w4) -> ssh_Close ssh w4 = (e4, w5) ->
      probed u timeout w (err_of ping) w5.

Lemma probe_runs u timeout w r w' : probeUserSFTP u timeout w = (r, w') -> probed u timeout w r w'.
Proof.
  unfold probeUserSFTP. intros ([ssh|e] & w1 & H1 & H)%bind_inv; [|injection H as <- <-; by constructor].
  apply bind_inv in H as (cl & w2 & H2 & H). unfold SftpClient.New in H2.
  apply bind_inv in H2 as ([conn|e] & w2' & H2 & H3).
  - injection H3 as <- <-.
    apply bind_inv in H as (ping & w3 & H3 & (x & w4 & H4 & [= <- <-])%bind_inv).
    unfold SftpClient.Close in H4. simpl in H4.
    apply bind_inv in H4 as (e3 & w5 & H4 & (e4 & w6 & H5 & [= _ <-])%bind_inv).
    by eapply probed_ping.
  - apply bind_inv in H3 as (e2 & w3 & H3 & [= <- <-]). injection H as <- <-.
    by eapply probed_open.
Qed.

(** All the users were found reachable, one after the other. *)
Inductive all_reachable : list UserConfig.t -> R -> R -> Prop :=
  | all_nil w : all_reachable [] w w
  | all_cons u us w w1 w2 w3 :
      ctx_Err w = (None, w1) -> probed u probe_timeout w1 None w2 -> all_reachable us w2 w3 ->
      all_reachable (u :: us) w w3.

Lemma check_users_ok us w w' : check_users us w = (None, w') -> all_reachable us w w'.
Proof.
  revert w. induction us as [|u us IH]; intros w; simpl; [intros [= <-]; constructor|].
  intros ([e|] & w1 & H1 & H)%bind_inv; [done|].
  apply bind_inv in H as ([e|] & w2 & H2 & H); [done|].
  apply probe_runs in H2. by eapply all_cons; [..|apply IH].
Qed.

(** C39. Liveness and readiness are what they say.  [/healthz] answers 200
    exactly when the process is alive, whatever the backends do; [/readyz]
    answers 200 exactly when it is alive and the check, if one is required,
    passes; and the check installed at startup passes only after dialling
    every configured user's target, opening SFTP on it and finding its root,
    having closed each of those connections again. *)
Theorem readyz_exact s w :
  (StatusCode (handleHealthz s) = StatusOK <-> alive s = true) /\
  (StatusCode (handleReadyz s w).1 = StatusOK <->
     alive s = true /\
     forall check, readinessRequiresCheck s = true -> readinessCheck_ s = Some check ->
       (check w.1).1 = None) /\
  (forall cfg, readinessCheck_ s = Some (readinessCheck cfg) -> readinessRequiresCheck s = true ->
     StatusCode (handleReadyz s w).1 = StatusOK ->
     all_reachable (Users cfg) w.1 (handleReadyz s w).2.1) /\
  (forall u timeout, let '(r, w') := probeUserSFTP u timeout w.1 in probed u timeout w.1 r w').
Proof.
  split_and!.
  - unfold handleHealthz. by destruct (alive s).
  - unfold handleReadyz. destruct (alive s); simpl; [|split; [done|by intros []]].
    destruct (readinessRequiresCheck s); [|by split; [|intros _]].
    destruct (readinessCheck_ s) as [check|]; [|by split; [|intros _]].
    unfold bind, h_remote, zoom. destruct (check w.1) as [[e|] r] eqn:E; simpl.
    + split; [done|]. intros [_ H]. specialize (H check eq_refl eq_refl). by rewrite E in H.
    + split; [|done]. intros _. split; [done|]. intros c _ [= <-]. by rewrite E.
  - intros cfg Hc Hq. unfold handleReadyz. destruct (alive s); simpl; [|done]. rewrite Hq, Hc.
    unfold bind, h_remote, zoom. destruct (readinessCheck cfg w.1) as [[e|] r] eqn:E; simpl; [done|].
    intros _. by apply check_users_ok.
  - intros u timeout. destruct (probeUserSFTP u timeout w.1) as [r w'] eqn:E. by apply probe_runs.
Qed.
End health.

(** A ready process over a server that has the user's root. *)
Definition demo_server : Server (R := MemFS) :=
  SetAlive true (NewServer true (Some (readinessCheck (ret None) demo_config))).

Lemma readyz_exact_witness :
  all_reachable (R := MemFS) (ret None) [demo_user] (mem_of [("/data", NDir)]) (mem_of [("/data", NDir)]) /\
  StatusCode (handleReadyz demo_server (mem_of [], [])).1 = StatusServiceUnavailable.
Proof.
  split; [|by vm_compute].
  destruct (readyz_exact (ret None) demo_server (mem_of [("/data", NDir)], [])) as (_ & _ & H & _).
  exact (H demo_config eq_refl eq_refl eq_refl).
Defined.
