(* ===== verification/Cli.v ===== *)
(** * The command line ([cmd/ftp2sftp/cli.go])

    The operator commands: their flags as package [flag] parses them, their
    exit codes, and what they print, as values rather than formatted text.
    The terminal, bcrypt and [time.ParseDuration] are parameters. *)
From S2P Require Import Prelude GoStrings GoPath Errors GoNet SftpLib MemServer SshDial SftpClient Metrics Observability Config Gateway Health.
From Stdlib Require Import Ascii.
Open Scope string_scope.
Open Scope list_scope.
Open Scope Z_scope.

(** ** Package [flag] *)

Inductive flag_kind := FString | FBool | FDuration.

Inductive parsed := Parsed (values : gmap string string) | BadUsage | HelpAsked.

Definition equals : ascii := "=".

(** The value after the first "=" that is not the first byte. *)
Definition split_value (name : string) : string * option string :=
  match IndexByte (drop_bytes 1 name) equals with
  | None => (name, None)
  | Some i => (take_bytes (S i) name, Some (drop_bytes (S (S i)) name))
  end.

(** What [strconv.ParseBool] accepts. *)
Definition is_bool (v : string) : bool :=
  existsb (String.eqb v)
    ["1"; "t"; "T"; "TRUE"; "true"; "True"; "0"; "f"; "F"; "FALSE"; "false"; "False"].
Definition is_true (v : string) : bool :=
  existsb (String.eqb v) ["1"; "t"; "T"; "TRUE"; "true"; "True"].

Section flags.
Context (ParseDuration : string -> res Z).
Context (decl : list (string * flag_kind)).

Definition kind_of (name : string) : option flag_kind :=
  match filter (fun d => d.1 = name) decl with d :: _ => Some d.2 | [] => None end.

Definition valid_value (k : flag_kind) (v : string) : bool :=
  match k with
  | FString => true
  | FBool => is_bool v
  | FDuration => is_ok (ParseDuration v)
  end.

(** A word that ends the flags: too short, no dash, or "--". *)
Definition not_a_flag (s : string) : bool :=
  (String.length s <? 2)%nat || negb (HasPrefix s "-") || (s =? "--")%string.
Definition flag_name (s : string) : string :=
  if HasPrefix s "--" then drop_bytes 2 s else drop_bytes 1 s.
Definition bad_name (name : string) : bool :=
  (name =? "")%string || HasPrefix name "-" || HasPrefix name "=".

Fixpoint Parse (values : gmap string string) (args : list string) : parsed :=
  match args with
  | [] => Parsed values
  | s :: args =>
      if not_a_flag s then Parsed values
      else if bad_name (flag_name s) then BadUsage
      else
        let '(name, value) := split_value (flag_name s) in
        match kind_of name with
        | None => if (name =? "help")%string || (name =? "h")%string then HelpAsked else BadUsage
        | Some k =>
            match value, k, args with
            | Some v, _, _ => if valid_value k v then Parse (<[name := v]> values) args else BadUsage
            | None, FBool, _ => Parse (<[name := "true"]> values) args
            | None, _, v :: args => if valid_value k v then Parse (<[name := v]> values) args else BadUsage
            | None, _, [] => BadUsage
            end
        end
  end.
End flags.

(** ** Passwords *)

(** What standard input gives: a line (with what was read before an error),
    or two answers without echo. *)
Record Stdin := MkStdin {
  IsTerminal : bool;
  ReadString : string * option error;
  ReadPassword1 : res string;
  ReadPassword2 : res string;
}.

(** [strings.TrimRight(line, "\r\n")]. *)
Definition trimRight_newlines : string -> string := trimNewline.

Definition readPasswordFromOperator (t : Stdin) : res string :=
  if negb (IsTerminal t) then
    let '(line, err) := ReadString t in
    match err with
    | Some e => if (line =? "")%string then Err e else Ok (trimRight_newlines line)
    | None => Ok (trimRight_newlines line)
    end
  else
    try pw1 := ReadPassword1 t in
    try pw2 := ReadPassword2 t in
    if negb (pw1 =? pw2)%string then Err (EOther "las contraseñas no coinciden") else Ok pw1.

(** ** The commands *)

(** What is printed, before formatting. *)
Inductive line :=
  | Usage
  | UnknownSubcommand (name : string)
  | InvalidConfig (path : string) (err : error)
  | ConfigOK (path : string) (users : nat)
  | CannotRead (err : error)
  | EmptyPassword
  | CannotHash (err : error)
  | Hash (hash : string)
  | ProbeOK (user host : string) (port : Z)
  | ProbeFailed (user host : string) (port : Z) (err : error)
  | UnknownUser (user path : string).

Section commands.
Context {R : Type} {Lib : SftpLib R} {Ssh : SshLib R}.
Context (Quote : string -> string) (bcrypt_Cost : string -> option error)
        (os_Stat : string -> res bool) (os_ReadFile : string -> res string)
        (yaml_Unmarshal : string -> res Config).
Context (Getenv : string -> string) (ParseDuration : string -> res Z).
Context (GenerateFromPassword : string -> res string) (stdin : Stdin).

Abbreviation load := (Load Quote bcrypt_Cost os_Stat os_ReadFile yaml_Unmarshal).
Abbreviation CWorld := (R * list line)%type.

Definition print (l : line) : M CWorld unit := modify (fun w => (w.1, w.2 ++ [l])).
Definition c_remote {A} (m : M R A) : M CWorld A := zoom fst (fun r w => (r, w.2)) m.

Definition defaultConfigPath : string :=
  let p := Getenv "CONFIG_FILE" in
  if negb (p =? "")%string then p else "/app/config/config.yaml".

Definition config_path (values : gmap string string) : string :=
  default defaultConfigPath (values !! "config").

Definition cmdConfigValidate (args : list string) : M CWorld Z :=
  match Parse ParseDuration [("config", FString)] ∅ args with
  | Parsed values =>
      let path := config_path values in
      match load path with
      | Err err => do* print (InvalidConfig path err) in ret 1
      | Ok cfg => do* print (ConfigOK path (length (Users cfg))) in ret 0
      end
  | _ => ret 2
  end.

Definition cmdConfigHashPassword (args : list string) : M CWorld Z :=
  match Parse ParseDuration [] ∅ args with
  | Parsed _ =>
      match readPasswordFromOperator stdin with
      | Err err => do* print (CannotRead err) in ret 1
      | Ok password =>
          if (password =? "")%string then do* print EmptyPassword in ret 1
          else
            match GenerateFromPassword password with
            | Err err => do* print (CannotHash err) in ret 1
            | Ok hash => do* print (Hash hash) in ret 0
            end
      end
  | _ => ret 2
  end.

(** The loop over the users: whether one matched and whether one failed. *)
Fixpoint probe_each (username : string) (timeout : Z) (us : list UserConfig.t) (matched failed : bool)
  : M CWorld (bool * bool) :=
  match us with
  | [] => ret (matched, failed)
  | u :: us =>
      if negb (username =? "")%string && negb (UserConfig.Username u =? username)%string
      then probe_each username timeout us matched failed
      else
        let s := UserConfig.SFTP u in
        let* err := c_remote (probeUserSFTP u timeout) in
        match err with
        | Some err =>
            do* print (ProbeFailed (UserConfig.Username u) (SFTPTargetConfig.Host s)
                         (SFTPTargetConfig.Port s) err) in
            probe_each username timeout us true true
        | None =>
            do* print (ProbeOK (UserConfig.Username u) (SFTPTargetConfig.Host s)
                         (SFTPTargetConfig.Port s)) in
            probe_each username timeout us true failed
        end
  end.

Definition check_flags : list (string * flag_kind) :=
  [("config", FString); ("user", FString); ("timeout", FDuration)].

Definition timeout_of (values : gmap string string) : Z :=
  match values !! "timeout" with
  | Some v => match ParseDuration v with Ok d => d | Err _ => 10 * Second end
  | None => 10 * Second
  end.

Definition cmdConfigCheckConnectivity (args : list string) : M CWorld Z :=
  match Parse ParseDuration check_flags ∅ args with
  | Parsed values =>
      let path := config_path values in
      let username := default "" (values !! "user") in
      match load path with
      | Err err => do* print (InvalidConfig path err) in ret 1
      | Ok cfg =>
          let* (matched, failed) := probe_each username (timeout_of values) (Users cfg) false false in
          if negb (username =? "")%string && negb matched
          then do* print (UnknownUser username path) in ret 2
          else if failed then ret 1
          else ret 0
      end
  | _ => ret 2
  end.

Definition runConfigCommand (args : list string) : M CWorld Z :=
  match args with
  | [] => do* print Usage in ret 2
  | sub :: args =>
      if (sub =? "validate")%string then cmdConfigValidate args
      else if (sub =? "hash-password")%string then cmdConfigHashPassword args
      else if (sub =? "check-connectivity")%string then cmdConfigCheckConnectivity args
      else if (sub =? "-h")%string || (sub =? "--help")%string || (sub =? "help")%string
      then do* print Usage in ret 0
      else do* print (UnknownSubcommand sub) in do* print Usage in ret 2
  end.
(** ** Properties *)

(** The users a check is about. *)
Definition selected (username : string) (u : UserConfig.t) : bool :=
  (username =? "")%string || (UserConfig.Username u =? username)%string.

(** The line printed for a probe. *)
Definition verdict (u : UserConfig.t) (err : option error) : line :=
  let s := UserConfig.SFTP u in
  match err with
  | None => ProbeOK (UserConfig.Username u) (SFTPTargetConfig.Host s) (SFTPTargetConfig.Port s)
  | Some e => ProbeFailed (UserConfig.Username u) (SFTPTargetConfig.Host s) (SFTPTargetConfig.Port s) e
  end.

(** The users are probed in order, each whatever the others gave. *)
Inductive probes (timeout : Z) : list UserConfig.t -> R -> list (option error) -> R -> Prop :=
  | probes_nil w : probes timeout [] w [] w
  | probes_cons u us w r w1 rs w2 :
      probed u timeout w r w1 -> probes timeout us w1 rs w2 ->
      probes timeout (u :: us) w (r :: rs) w2.

Definition any_failed (rs : list (option error)) : bool := existsb (fun r => bool_decide (is_Some r)) rs.

Lemma probe_each_spec username timeout us (m f : bool) (w : R) (out : list line) :
  exists rs (w' : R),
    probes timeout (filter (selected username) us) w rs w' /\
    probe_each username timeout us m f (w, out) =
      (((m || negb (bool_decide (rs = [])))%bool, (f || any_failed rs)%bool),
       (w', out ++ zip_with verdict (filter (selected username) us) rs)).
Proof.
  revert m f w out. induction us as [|u us IH]; intros m f w out; simpl.
  - exists [], w. rewrite app_nil_r, !orb_false_r. split; [constructor|done].
  - assert (negb (username =? "")%string && negb (UserConfig.Username u =? username)%string
            = negb (selected username u))%bool as -> by (unfold selected; by rewrite negb_orb).
    destruct (selected username u) eqn:Hu; simpl.
    + rewrite filter_cons_True by (by rewrite Hu).
      unfold bind, c_remote, zoom. simpl. destruct (probeUserSFTP u timeout w) as [r w1] eqn:Hp.
      apply probe_runs in Hp.
      destruct (IH true (f || bool_decide (is_Some r))%bool w1 (out ++ [verdict u r]))
        as (rs & w2 & Hrs & Hrun).
      exists (r :: rs), w2. split; [by econstructor|]. rewrite <- app_assoc in Hrun. simpl in *.
      rewrite orb_true_r, orb_assoc.
      destruct r as [e|]; unfold print, modify; simpl in *.
      * rewrite orb_true_r in Hrun |- *. exact Hrun.
      * rewrite !orb_false_r in Hrun |- *. exact Hrun.
    + rewrite filter_cons_False by (rewrite Hu; by intros []). apply IH.
Qed.
Lemma probes_length timeout us w rs w' : probes timeout us w rs w' -> length rs = length us.
Proof. induction 1; simpl; congruence. Qed.

Lemma any_failed_false rs : any_failed rs = false <-> Forall (eq None) rs.
Proof.
  induction rs as [|[e|] rs IH]; simpl; [by split; [constructor|]| |].
  - split; [done|]. by inversion 1.
  - rewrite IH. split; [by constructor|]. by inversion 1.
Qed.

(** C40. [check-connectivity] tells the truth.  With good flags and a
    configuration that loads, it probes the selected users (all of them, or
    those with the name given), each once and in the configuration's order,
    carrying on after a failure; it prints one line per probe with its
    verdict; and it exits with 0 exactly when no probe failed and a user
    asked for by name exists: with 1 when one failed, with 2, saying so, when
    no user has that name. *)
Theorem check_connectivity_exact args values cfg r out :
  Parse ParseDuration check_flags ∅ args = Parsed values ->
  load (config_path values) = Ok cfg ->
  let username := default "" (values !! "user") in
  let us := filter (selected username) (Users cfg) in
  exists code rs r' extra,
    runConfigCommand ("check-connectivity" :: args) (r, out) =
      (code, (r', out ++ zip_with verdict us rs ++ extra)) /\
    probes (timeout_of values) us r rs r' /\ length rs = length us /\
    (code = 0 <-> Forall (eq None) rs /\ (username <> "" -> us <> [])) /\
    (code = 2 <-> username <> "" /\ us = []) /\
    (code = 0 \/ code = 1 \/ code = 2) /\
    extra = if code =? 2 then [UnknownUser username (config_path values)] else [].
Proof.
  intros Hp Hl username us. unfold runConfigCommand, cmdConfigCheckConnectivity. simpl.
  rewrite Hp, Hl. fold username.
  destruct (probe_each_spec username (timeout_of values) (Users cfg) false false r out)
    as (rs & r' & Hrs & Hrun). fold us in Hrs, Hrun.
  unfold bind. rewrite Hrun. simpl. rewrite negb_involutive.
  pose proof (probes_length _ _ _ _ _ Hrs) as Hlen. pose proof (any_failed_false rs) as Hf.
  assert (rs = [] <-> us = []) as Hnil by (rewrite <- !length_zero_iff_nil; lia).
  destruct (username =? "")%string eqn:Hu; bool_to_prop; simpl;
    [|case_bool_decide as Hn; simpl].
  - destruct (any_failed rs) eqn:E; [exists 1|exists 0]; exists rs, r', [];
      (split; [by rewrite app_nil_r|]); naive_solver.
  - exists 2, rs, r', [UnknownUser username (config_path values)].
    split; [unfold print, modify; simpl; by rewrite app_assoc|]. naive_solver.
  - destruct (any_failed rs) eqn:E; [exists 1|exists 0]; exists rs, r', [];
      (split; [by rewrite app_nil_r|]); naive_solver.
Qed.

(** A hash is printed only for a password that was read without error, is
    not empty and, at a terminal, was given twice. *)
Lemma hash_password_sound args values r out code w' :
  Parse ParseDuration [] ∅ args = Parsed values ->
  cmdConfigHashPassword args (r, out) = (code, w') ->
  exists l, w' = (r, out ++ [l]) /\
    match l with
    | Hash h =>
        code = 0 /\ exists pw, pw <> "" /\ GenerateFromPassword pw = Ok h /\
          (IsTerminal stdin = true -> ReadPassword1 stdin = Ok pw /\ ReadPassword2 stdin = Ok pw)
    | _ => code = 1
    end.
Proof.
  intros Hp. unfold cmdConfigHashPassword. rewrite Hp.
  destruct (readPasswordFromOperator stdin) as [pw|e] eqn:Hr; [|intros [= <- <-]; by (eexists; split)].
  destruct (pw =? "")%string eqn:Hpw; [intros [= <- <-]; by (eexists; split)|]. bool_to_prop.
  destruct (GenerateFromPassword pw) as [h|e] eqn:Hh; intros [= <- <-]; [|by (eexists; split)].
  eexists. split; [done|]. split; [done|]. exists pw. split_and!; [done..|]. intros Ht.
  unfold readPasswordFromOperator in Hr. rewrite Ht in Hr. simpl in Hr.
  apply rbind_inv_ok in Hr as (p1 & H1 & (p2 & H2 & Hr)%rbind_inv_ok).
  destruct (p1 =? p2)%string eqn:E; simpl in Hr; [|done]. bool_to_prop. by injection Hr as <-; subst.
Qed.
End commands.

(** ** A run *)

Definition demo_duration (v : string) : res Z :=
  if (v =? "3s")%string then Ok (3 * Second) else Err (EOther "time: invalid duration").

Definition demo_check (args : list string) (r : MemFS) : Z * (MemFS * list line) :=
  runConfigCommand id (fun _ => None) (fun _ => Ok false) (fun _ => Ok "") (fun _ => Ok demo_config)
    (fun _ => "") demo_duration Ok (MkStdin true ("", None) (Ok "a") (Ok "b"))
    ("check-connectivity" :: args) (r, []).

Definition demo_target : MemFS := mem_of [("/data", NDir)].
Definition demo_values : gmap string string := <["timeout" := "3s"]> (<["user" := "ax"]> ∅).

Lemma check_connectivity_exact_witness :
  Parse demo_duration check_flags ∅ ["-user"; "ax"; "--timeout=3s"] = Parsed demo_values /\
  (exists rs, zip_with verdict [default_user demo_user] rs =
     (demo_check ["-user"; "ax"; "--timeout=3s"] demo_target).2.2 /\ length rs = 1%nat) /\
  (demo_check ["-user"; "ax"; "--timeout=3s"] demo_target).1 = 0 /\
  (demo_check [] (mem_of [])).1 = 1 /\ (demo_check ["-user=bob"] demo_target).1 = 2 /\
  (demo_check ["-retries"] demo_target).1 = 2.
Proof.
  split; [by vm_compute|]. split; [|by split_and!; vm_compute].
  destruct (check_connectivity_exact id (fun _ => None) (fun _ => Ok false) (fun _ => Ok "")
    (fun _ => Ok demo_config) (fun _ => "") demo_duration Ok
    (MkStdin true ("", None) (Ok "a") (Ok "b")) ["-user"; "ax"; "--timeout=3s"] demo_values
    (applyDefaults demo_config) demo_target [] ltac:(by vm_compute) ltac:(by vm_compute))
    as (code & rs & r' & extra & Hrun & _ & Hlen & _ & H2 & _ & Hextra).
  exists rs. split; [|exact Hlen]. unfold demo_check. rewrite Hrun. simpl.
  destruct (code =? 2) eqn:E; bool_to_prop; [by destruct (proj1 H2 E) as [_ E2]|]. rewrite Hextra. symmetry. apply app_nil_r.
Defined.
