(* ===== verification/Driver.v ===== *)
(** * The client driver ([internal/ftpserver/clientdriver.go])

    The file operations of one authenticated connection: every handler
    resolves and confines its paths, checks the policy, obtains the session's
    SFTP connection, performs the operation, drops a broken connection and
    audits.  A driver is the gateway and the address of its session. *)
From S2P Require Import Prelude GoStrings GoPath Errors Filesystem Authorization SftpLib SshDial SftpClient Metrics Observability Config Session Transfer Gateway.
Open Scope string_scope.
Open Scope list_scope.
Open Scope Z_scope.

Definition errNotImplemented : error :=
  Errors.New KindUnsupportedCommand "ftpserver.ClientDriver" "operación no soportada".

Definition errTransferLimit : error :=
  Errors.New KindRateLimited "ftpserver.GetHandle"
    "límite de transferencias concurrentes del usuario alcanzado".

Section driver.
Context {R : Type} {Lib : SftpLib R} {Ssh : SshLib R}.
Context (g : Gateway) (p : nat).
Abbreviation session := (Session (R := R) (C := userRuntime)).

(** The policy and mapper of a session never change. *)
Definition resolveAndContain (name : string) : M (World R) (res string) :=
  let* s := get_session p in
  ret (ResolveVirtual (Session.mapper s) "/" name).

Definition remotePath (name : string) : M (World R) (res (string * string)) :=
  try* virtualPath := resolveAndContain name in
  let* s := get_session p in
  match ToRemote (Session.mapper s) virtualPath with
  | Err err => ret (Err err)
  | Ok remotePath => ret (Ok (virtualPath, remotePath))
  end.

Definition maybeInvalidate (err : option error) : M (World R) unit :=
  match err with
  | None => ret tt
  | Some e =>
      match KindOf e with
      | KindSSHConnection | KindTimeout | KindDisconnected =>
          let* connected := sess_IsConnected p in
          if connected then
            do* sess_InvalidateSFTP p in
            count (Gauge_Dec SFTPConnectionsActive)
          else ret tt
      | _ => ret tt
      end
  end.

Definition audit (command virtualPath : string) (err : option error) : M (World R) unit :=
  do* count (Counter_Inc FTPCommandsTotal) in
  let* s := get_session p in
  let attrs := [
    ("sessionId", VString (Session.id s)); ("ftpUser", VString (Session.username s));
    ("clientIp", VString (Session.clientIP s)); ("command", VString command);
    ("virtualPath", VString virtualPath)] in
  match err with
  | Some e => logger LevelWarn "command failed" (attrs ++ [("err", VString (Error e))])
  | None => logger LevelInfo "command completed" attrs
  end.

(** [if err != nil { d.audit(command, path, err); return err }]. *)
Definition audited {A B} (command path : string) (m : M (World R) (res A))
  (k : A -> M (World R) (res B)) : M (World R) (res B) :=
  let* r := m in
  match r with
  | Err err => do* audit command path (Some err) in ret (Err err)
  | Ok a => k a
  end.

Definition checked (check : option error) : M (World R) (res unit) :=
  ret (match check with Some e => Err e | None => Ok tt end).

Definition get_policy : M (World R) Policy :=
  let* s := get_session p in ret (Session.policy s).

(** The remote operation itself. *)
Definition remote_op {A} (m : M R (res A)) : M (World R) (res A) :=
  let* r := on_remote m in
  do* maybeInvalidate (err_of r) in
  ret r.

Definition Name : string := "ftp2sftp".

Definition Stat (name : string) : M (World R) (res FileInfo) :=
  audited "STAT" name (remotePath name) (fun '(virtualPath, remote) =>
  audited "STAT" virtualPath (sess_SFTP p) (fun sc =>
  remote_op (SftpClient.Stat sc remote))).

(** The common shape of MKD, DELE and RMD. *)
Definition simple_command (command name : string) (check : Policy -> option error)
  (op : Client R -> string -> M R (res unit)) : M (World R) (res unit) :=
  audited command name (remotePath name) (fun '(virtualPath, remote) =>
  audited command virtualPath (let* pol := get_policy in checked (check pol)) (fun _ =>
  audited command virtualPath (sess_SFTP p) (fun sc =>
  let* r := remote_op (op sc remote) in
  do* audit command virtualPath (err_of r) in
  ret r))).

Definition Mkdir (name : string) : M (World R) (res unit) :=
  simple_command "MKD" name CheckMkdir SftpClient.Mkdir.
Definition Remove (name : string) : M (World R) (res unit) :=
  simple_command "DELE" name CheckDelete SftpClient.Remove.
Definition RemoveDir (name : string) : M (World R) (res unit) :=
  simple_command "RMD" name CheckDelete SftpClient.RemoveDirectory.

Definition Rename (oldName newName : string) : M (World R) (res unit) :=
  audited "RNTO" (oldName +:+ " -> " +:+ newName) (remotePath oldName)
    (fun '(oldVirtual, oldRemote) =>
  audited "RNTO" (oldVirtual +:+ " -> " +:+ newName) (remotePath newName)
    (fun '(newVirtual, newRemote) =>
  let arrow := oldVirtual +:+ " -> " +:+ newVirtual in
  let* policy := get_policy in
  audited "RNTO" arrow (checked (CheckRename policy)) (fun _ =>
  audited "RNTO" arrow (sess_SFTP p) (fun sc =>
  let* r := remote_op (SftpClient.Rename sc oldRemote newRemote (AllowOverwrite policy)) in
  do* audit "RNTO" arrow (err_of r) in
  ret r)))).

(** [MkdirAll], [RemoveAll], [Open], [OpenFile], [Create], [Chmod], [Chown]
    and [Chtimes] all refuse. *)
Inductive unsupported :=
  | MkdirAll (name : string) | RemoveAll (name : string) | Open (name : string)
  | OpenFile (name : string) (flags : Z) | Create (name : string) | Chmod (name : string)
  | Chown (name : string) (uid gid : Z) | Chtimes (name : string).
Definition refuse (c : unsupported) : M (World R) (res unit) := ret (Err errNotImplemented).

Definition ReadDir (name : string) : M (World R) (res (list FileInfo)) :=
  audited "LIST" name (remotePath name) (fun '(virtualPath, remote) =>
  audited "LIST" virtualPath (sess_SFTP p) (fun sc =>
  let* s := get_session p in
  let timeout := match g_users g !! Session.username s with
                 | Some u => SFTPTargetConfig.ReadDirTimeout (UserConfig.SFTP (rt_cfg u))
                 | None => 0
                 end in
  let* r := remote_op (SftpClient.ReadDir sc remote timeout) in
  do* audit "LIST" virtualPath (err_of r) in
  match r with
  | Err err => ret (Err err)
  | Ok entries =>
      let marker := TransferConfig.TemporarySuffix (Config.Transfer (g_cfg g)) +:+ "-" in
      ret (Ok (filter (fun e => Contains (SftpLib.Name e) marker = false) entries))
  end)).

(** [gate.TryAcquire()] on the shared gate of the session's user. *)
Definition TryAcquire (user : string) : M (World R) bool := fun w =>
  match gates w !! user with
  | None => (false, w)
  | Some gt =>
      let '(ok, gt) := Gate.TryAcquire gt in
      (ok, (set_gates (fun gs => <[user := gt]> gs) w).2)
  end.

(** The [release] closure, with its captured [released] flag. *)
Definition release (flag : nat) (user : string) : M (World R) unit :=
  let* w := get in
  if default false (flags w !! flag) then ret tt
  else
    do* set_flag flag true in
    do* set_gates (fun gs => alter Gate.Release user gs) in
    count (Gauge_Dec TransferActive).

(** The client as a [transfer.RemoteFS] acting on the whole world. *)
Definition world_fs (sc : Client R) : RemoteFS (World R) SftpFile :=
  MkRemoteFS (World R) SftpFile
    (fun q => on_remote (SftpClient.Stat sc q)) (fun q => on_remote (SftpClient.OpenRead sc q))
    (fun q => on_remote (SftpClient.CreateTemp sc q))
    (fun t f ow => on_remote (SftpClient.Commit sc t f ow))
    (fun q => on_remote (SftpClient.Remove sc q))
    (fun h n => on_remote (file_Read h n)) (fun h bs => on_remote (file_Write h bs))
    (fun h o wh => on_remote (file_Seek h o wh)) (fun h => on_remote (file_Close h)).

(** What [GetHandle] hands to the library. *)
Inductive FileTransfer :=
  | AnUpload (u : Upload.UploadHandle (World R) SftpFile)
  | ADownload (d : Download.DownloadHandle (World R) SftpFile).

Definition upload_options (s : session) (transferID virtualPath : string) (flag : nat)
  : Upload.UploadOptions (World R) :=
  let policy := Session.policy s in
  let t := Config.Transfer (g_cfg g) in
  Upload.MkOptions _ (Session.id s) transferID virtualPath (MaxFileSize policy)
    (AllowOverwrite policy) (TransferConfig.CalculateSHA256 t) (TransferConfig.TemporarySuffix t)
    (Some (recordTransfer "STOR" p)) (Some (release flag (Session.username s))).

Definition download_options (s : session) (transferID virtualPath : string) (flag : nat)
  : Download.DownloadOptions (World R) :=
  Download.MkOptions _ (Session.id s) transferID virtualPath
    (TransferConfig.CalculateSHA256 (Config.Transfer (g_cfg g)))
    (Some (recordTransfer "RETR" p)) (Some (release flag (Session.username s))).

Definition beginUpload (sc : Client R) (virtualPath remotePath : string) (fl : Z) (e : Entropy)
  : M (World R) (res FileTransfer) :=
  if negb (Z.land fl O_APPEND =? 0)
  then ret (Err (Errors.New KindUnsupportedCommand "ftpserver.GetHandle"
                   "la operación APPE no está soportada"))
  else
    let* s := get_session p in
    audited "STOR" virtualPath (checked (CheckUpload (Session.policy s))) (fun _ =>
    let* acquired := TryAcquire (Session.username s) in
    if negb acquired then
      do* audit "STOR" virtualPath (Some errTransferLimit) in
      ret (Err errTransferLimit)
    else
      let* flag := alloc in
      do* set_flag flag false in
      do* count (Gauge_Inc TransferActive) in
      do* count (Counter_Inc TransferTotal) in
      do* count (Gauge_Inc TemporaryFilesPending) in
      let* transferID := on_ids (NewCorrelationID e) in
      let* r := Upload.NewUpload (world_fs sc) remotePath
                  (upload_options s transferID virtualPath flag) in
      match r with
      | Err err =>
          do* count (Gauge_Dec TemporaryFilesPending) in
          do* release flag (Session.username s) in
          do* audit "STOR" virtualPath (Some err) in
          ret (Err err)
      | Ok upload => ret (Ok (AnUpload upload))
      end).

Definition beginDownload (sc : Client R) (virtualPath remotePath : string) (e : Entropy)
  : M (World R) (res FileTransfer) :=
  let* s := get_session p in
  audited "RETR" virtualPath (checked (CheckDownload (Session.policy s))) (fun _ =>
  let* acquired := TryAcquire (Session.username s) in
  if negb acquired then
    do* audit "RETR" virtualPath (Some errTransferLimit) in
    ret (Err errTransferLimit)
  else
    let* flag := alloc in
    do* set_flag flag false in
    do* count (Gauge_Inc TransferActive) in
    do* count (Counter_Inc TransferTotal) in
    let* transferID := on_ids (NewCorrelationID e) in
    let* r := Download.NewDownload (world_fs sc) remotePath
                (download_options s transferID virtualPath flag) in
    match r with
    | Err err =>
        do* release flag (Session.username s) in
        do* audit "RETR" virtualPath (Some err) in
        ret (Err err)
    | Ok download => ret (Ok (ADownload download))
    end).

Definition GetHandle (name : string) (fl : Z) (e : Entropy) : M (World R) (res FileTransfer) :=
  let writing := negb (Z.land fl O_WRONLY =? 0) in
  let command := if writing then "STOR" else "RETR" in
  audited command name (remotePath name) (fun '(virtualPath, remote) =>
  audited command virtualPath (sess_SFTP p) (fun sc =>
  if writing then beginUpload sc virtualPath remote fl e
  else beginDownload sc virtualPath remote e)).
End driver.
