(* ===== verification/Trace.v ===== *)
(** * The paths the gateway names to a server (interface)

    [Named] says that the remote state records every path the program names
    in a request, in order: each operation of the SFTP library adds its path
    arguments, operations on handles and connections add none.  It is how
    the confinement theorem observes the program; the only behaviour of the
    server it relies on is that a listing holds file names, not paths.
    [traced] turns any library into one that records. *)
From S2P Require Import Prelude GoStrings GoPath Errors Filesystem SftpLib MemServer SshDial SftpClient.
Open Scope string_scope.
Open Scope list_scope.
Open Scope Z_scope.

(** [m] names exactly [ps]. *)
Definition named {R A} (names : R -> list string) (m : M R A) (ps : list string) : Prop :=
  forall r, names (m r).2 = names r ++ ps.

Class Named (R : Type) {Lib : SftpLib R} {Ssh : SshLib R} (names : R -> list string) : Prop := {
  nm_NewClient c : named names (sftp_NewClient c) [];
  nm_ssh_Close c : named names (ssh_Close c) [];
  nm_sftp_Close c : named names (sftp_Close c) [];
  nm_Stat c p : named names (sftp_Stat c p) [p];
  nm_Lstat c p : named names (sftp_Lstat c p) [p];
  nm_ReadLink c p : named names (sftp_ReadLink c p) [p];
  nm_ReadDir c t p : named names (sftp_ReadDirContext c t p) [p];
  nm_OpenFile c p fl : named names (sftp_OpenFile c p fl) [p];
  nm_Remove c p : named names (sftp_Remove c p) [p];
  nm_RemoveDirectory c p : named names (sftp_RemoveDirectory c p) [p];
  nm_Mkdir c p : named names (sftp_Mkdir c p) [p];
  nm_Rename c a b : named names (sftp_Rename c a b) [a; b];
  nm_PosixRename c a b : named names (sftp_PosixRename c a b) [a; b];
  nm_Read h n : named names (file_Read h n) [];
  nm_Write h bs : named names (file_Write h bs) [];
  nm_Seek h o wh : named names (file_Seek h o wh) [];
  nm_Close h : named names (file_Close h) [];
  nm_knownhosts f : named names (knownhosts_New f) [];
  nm_os_ReadFile f : named names (os_ReadFile f) [];
  nm_net_Dial t a : named names (net_Dial t a) [];
  nm_SetDeadline c d : named names (conn_SetDeadline c d) [];
  nm_conn_Close c : named names (conn_Close c) [];
  nm_NewClientConn c a cfg : named names (ssh_NewClientConn c a cfg) [];
  nm_entries c t p r es r' :
    sftp_ReadDirContext c t p r = (Ok es, r') -> Forall (fun e => good_comp (Name e)) es;
}.

(** ** A library that records *)
Section traced.
Context {R : Type} (Lib : SftpLib R) (Ssh : SshLib R).

Definition recording {A} (ps : list string) (m : M R A) : M (R * list string) A := fun rl =>
  let '(a, r) := m rl.1 in (a, (r, rl.2 ++ ps)).

(** Listings keep only the entries that are file names. *)
Definition traced_lib : SftpLib (R * list string) := {|
  SshClient := @SshClient _ Lib;
  SftpConn := @SftpConn _ Lib;
  SftpFile := @SftpFile _ Lib;
  sftp_NewClient c := recording [] (sftp_NewClient c);
  ssh_Close c := recording [] (ssh_Close c);
  sftp_Close c := recording [] (sftp_Close c);
  sftp_HasExtension c x := sftp_HasExtension c x;
  sftp_Stat c p := recording [p] (sftp_Stat c p);
  sftp_Lstat c p := recording [p] (sftp_Lstat c p);
  sftp_ReadLink c p := recording [p] (sftp_ReadLink c p);
  sftp_ReadDirContext c t p := recording [p]
    (let* r := sftp_ReadDirContext c t p in
     ret (match r with Ok es => Ok (filter (fun e => good_comp (Name e)) es) | Err e => Err e end));
  sftp_OpenFile c p fl := recording [p] (sftp_OpenFile c p fl);
  sftp_Remove c p := recording [p] (sftp_Remove c p);
  sftp_RemoveDirectory c p := recording [p] (sftp_RemoveDirectory c p);
  sftp_Mkdir c p := recording [p] (sftp_Mkdir c p);
  sftp_Rename c a b := recording [a; b] (sftp_Rename c a b);
  sftp_PosixRename c a b := recording [a; b] (sftp_PosixRename c a b);
  file_Read h n := recording [] (file_Read h n);
  file_Write h bs := recording [] (file_Write h bs);
  file_Seek h o wh := recording [] (file_Seek h o wh);
  file_Close h := recording [] (file_Close h);
|}.

Definition traced_ssh : @SshLib (R * list string) traced_lib :=
  @Build_SshLib (R * list string) traced_lib (@HostKeyCallback _ _ Ssh) (@Signer _ _ Ssh)
    (@NetConn _ _ Ssh)
    (fun f => recording [] (knownhosts_New f)) (fun f => recording [] (os_ReadFile f))
    ssh_ParsePrivateKey ssh_ParsePrivateKeyWithPassphrase
    (fun t a => recording [] (net_Dial t a)) (fun c d => recording [] (conn_SetDeadline c d))
    (fun c => recording [] (conn_Close c))
    (fun c a cfg => recording [] (ssh_NewClientConn c a cfg)).

Lemma recording_named {A} ps (m : M R A) : named snd (recording ps m) ps.
Proof. intros [r l]. unfold recording. simpl. by destruct (m r). Qed.

Lemma traced_named : @Named _ traced_lib traced_ssh snd.
Proof.
  split; intros; try apply recording_named.
  simpl in H. unfold recording, bind in H. destruct (sftp_ReadDirContext _ _ _ _) as [[l|e] w1]; [|done].
  simpl in H. injection H as <- _. apply Forall_forall. by intros x [Hx _]%list_elem_of_filter.
Qed.
End traced.
