(* ===== verification/Triples.v ===== *)
(** * Triples over the running gateway

    Hoare triples for the state monad, the assertions the operations of a
    session's handlers keep, and the commands a connection may send.  The
    invariants of the whole gateway are proved with these. *)
From S2P Require Import Prelude GoStrings GoPath Errors Filesystem Authorization Limiter Auth SftpLib SshDial SftpClient Metrics Observability Config Session Transfer UploadSpec TransferSpec DownloadSpec Gateway Driver.
Open Scope string_scope.
Open Scope list_scope.
Open Scope Z_scope.

(** ** Triples *)
Section triple.
Context {W : Type}.
Implicit Types (I J : W -> Prop).

(** From [I], [m] returns what [Q] says. *)
Definition triple {A} I (m : M W A) (Q : A -> W -> Prop) : Prop :=
  forall w, I w -> Q (m w).1 (m w).2.
Definition keeps {A} I (m : M W A) : Prop := triple I m (fun _ => I).

Lemma triple_bind {A B} I (m : M W A) (f : A -> M W B) (J : A -> W -> Prop) Q :
  triple I m J -> (forall a, triple (J a) (f a) Q) -> triple I (bind m f) Q.
Proof.
  intros Hm Hf w Hw. unfold bind. specialize (Hm w Hw). destruct (m w) as [a w1]. by apply Hf.
Qed.

Lemma triple_ret {A} I (a : A) (Q : A -> W -> Prop) : (forall w, I w -> Q a w) -> triple I (ret a) Q.
Proof. done. Qed.

Lemma triple_keeps {A B} I (m : M W A) (f : A -> M W B) Q :
  keeps I m -> (forall a, triple I (f a) Q) -> triple I (bind m f) Q.
Proof. intros Hm Hf. by eapply triple_bind. Qed.

Lemma triple_consequence {A} I J (m : M W A) (Q Q' : A -> W -> Prop) :
  triple J m Q' -> (forall w, I w -> J w) -> (forall a w, Q' a w -> Q a w) -> triple I m Q.
Proof. intros Hm HI HQ w Hw. by apply HQ, Hm, HI. Qed.

Lemma keeps_ret {A} I (a : A) : keeps I (ret a).
Proof. by intros w. Qed.
Lemma keeps_get I : keeps I get.
Proof. by intros w. Qed.
Lemma keeps_bind {A B} I (m : M W A) (f : A -> M W B) :
  keeps I m -> (forall a, keeps I (f a)) -> keeps I (bind m f).
Proof. apply triple_keeps. Qed.
Lemma keeps_bindE {E A B} I (m : M W (result E A)) (f : A -> M W (result E B)) :
  keeps I m -> (forall a, keeps I (f a)) -> keeps I (bindE m f).
Proof. intros Hm Hf. apply keeps_bind; [done|]. intros [a|e]; [done|apply keeps_ret]. Qed.

Lemma silent_keeps {A T} (X : W -> T) (m : M W A) :
  silent X m <-> forall x, keeps (fun w => X w = x) m.
Proof.
  split; [|intros H w; exact (H (X w) w eq_refl)].
  intros H x w. unfold triple. rewrite H. done.
Qed.
End triple.

Create HintDb keeps discriminated.
#[export] Hint Resolve keeps_ret keeps_get : keeps.
#[export] Hint Constants Opaque : keeps.

(** Go through a computation, leaving what [keeps] does not know. *)
Ltac keeps_step :=
  match goal with
  | |- keeps _ (bind _ _) => apply keeps_bind; [|intros]
  | |- keeps _ (bindE _ _) => apply keeps_bindE; [|intros]
  | |- keeps _ (match ?x with _ => _ end) => destruct x eqn:?
  | |- keeps _ _ => solve [auto with keeps]
  | |- _ => progress intros
  end.
Ltac solve_keeps := repeat keeps_step.

Section system.
Context {R : Type} {Lib : SftpLib R} {Ssh : SshLib R}.
Implicit Types (w : World R).

Lemma audited_ok {A B} (p : nat) c q (m : M (World R) (res A)) (k : A -> M (World R) (res B)) w b w' :
  audited p c q m k w = (Ok b, w') -> exists a w1, m w = (Ok a, w1) /\ k a w1 = (Ok b, w').
Proof.
  unfold audited. intros ([a|e] & w1 & H1 & H2)%bind_inv; [by eauto|].
  by apply bind_inv in H2 as (x & w2 & _ & [=]).
Qed.

(** ** Assertions that file commands keep

    [I] is kept by the operations the handlers of session [p] are made of,
    hence by the handlers. *)
Record respected (p : nat) (I : World R -> Prop) : Prop := {
  rs_counter c n : keeps I (count (Counter_Add c n));
  rs_logger l m a : keeps I (logger l m a);
  rs_on_ids {A} (m : M Z A) : keeps I (on_ids m);
  rs_SFTP : keeps I (sess_SFTP p);
  rs_maybeInvalidate e : keeps I (maybeInvalidate p e);
}.

(** Enough for that: what [sess_SFTP] and [maybeInvalidate] are made of. *)
Definition sess_static (s : Session (R := R) (C := userRuntime))
  : string * string * string * Mapper * Policy * userRuntime :=
  (Session.id s, Session.username s, Session.clientIP s, Session.mapper s, Session.policy s,
   Session.connect s).

Record indifferent (p : nat) (I : World R -> Prop) : Prop := {
  in_counter c n : keeps I (count (Counter_Add c n));
  in_inc : keeps I (count (Gauge_Inc SFTPConnectionsActive));
  in_dec : keeps I (count (Gauge_Dec SFTPConnectionsActive));
  in_logger l m a : keeps I (logger l m a);
  in_on_ids {A} (m : M Z A) : keeps I (on_ids m);
  in_put s w : I w -> sess_static s = sess_static (session_at p w) -> I (put_session p s w).2;
  in_dial cfg : keeps I (on_remote (Dial cfg));
  in_new c root : keeps I (on_remote (SftpClient.New c root));
  in_close c : keeps I (on_remote (SftpClient.Close c));
}.

Section indifferent.
Context (p : nat) (I : World R -> Prop) (HI : indifferent p I).

Lemma heap_on_remote {A} (m : M R A) : silent heap (on_remote m).
Proof. intros w. unfold on_remote, zoom. by destruct (m (remote w)). Qed.

Lemma heap_connector u : silent heap (connector u).
Proof.
  intros w. unfold connector, bind.
  pose proof (heap_on_remote (Dial (dial_config (rt_cfg u))) w) as H1.
  destruct (on_remote (Dial _) w) as [[ssh|e] w1]; simpl in H1; [|by rewrite <- H1].
  match goal with |- context [on_remote ?m w1] => pose proof (heap_on_remote m w1) as H2;
    destruct (on_remote m w1) as [[cl|e] w2] end; simpl in H2; rewrite <- H1, <- H2; done.
Qed.

Lemma keeps_connector u : keeps I (connector u).
Proof.
  unfold connector. apply keeps_bind; [apply (in_dial _ _ HI)|]. intros [ssh|e].
  - apply keeps_bind; [apply (in_new _ _ HI)|].
    intros [c|e]; (apply keeps_bind; [|intros; apply keeps_ret]);
      [apply (in_inc _ _ HI)|apply (in_counter _ _ HI)].
  - apply keeps_bind; [apply (in_counter _ _ HI)|]. intros. apply keeps_ret.
Qed.

Lemma keeps_sess_SFTP : keeps I (sess_SFTP p).
Proof.
  intros w Hw. unfold sess_SFTP, get_session, bind, Session.SFTP.
  destruct (Session.closed _); [by apply (in_put _ _ HI)|].
  destruct (Session.sftp _); [by apply (in_put _ _ HI)|].
  unfold bind. pose proof (keeps_connector (Session.connect (session_at p w)) w Hw) as Hc.
  pose proof (heap_connector (Session.connect (session_at p w)) w) as Hh.
  destruct (connector _ w) as [[c|e] w1]; simpl in *; (apply (in_put _ _ HI); [done|]);
    unfold session_at; by rewrite Hh.
Qed.

Lemma keeps_sess_InvalidateSFTP : keeps I (sess_InvalidateSFTP p).
Proof.
  intros w Hw. unfold sess_InvalidateSFTP, get_session, bind, Session.InvalidateSFTP.
  destruct (Session.sftp _) as [c|]; [|by apply (in_put _ _ HI)]. unfold bind.
  pose proof (in_close _ _ HI c w Hw) as Hc. pose proof (heap_on_remote (SftpClient.Close c) w) as Hh.
  destruct (on_remote (SftpClient.Close c) w) as [x w1]; simpl in *. apply (in_put _ _ HI); [done|].
  unfold session_at. by rewrite Hh.
Qed.

Lemma keeps_invalidate e : keeps I (maybeInvalidate p e).
Proof.
  unfold maybeInvalidate. destruct e as [e|]; [|apply keeps_ret].
  assert (keeps I (let* connected := sess_IsConnected p in
    if connected then do* sess_InvalidateSFTP p in count (Gauge_Dec SFTPConnectionsActive)
    else ret tt)) as H.
  { apply keeps_bind; [by intros w|]. intros []; [|apply keeps_ret].
    apply keeps_bind; [apply keeps_sess_InvalidateSFTP|]. intros _. apply (in_dec _ _ HI). }
  destruct (KindOf e); first [exact H|apply keeps_ret].
Qed.

Lemma indifferent_respected : respected p I.
Proof.
  split; intros.
  - apply (in_counter _ _ HI).
  - apply (in_logger _ _ HI).
  - apply (in_on_ids _ _ HI).
  - apply keeps_sess_SFTP.
  - apply keeps_invalidate.
Qed.
End indifferent.

Section commands.
Context (p : nat) (I : World R -> Prop) (HI : respected p I).

Lemma keeps_counter c n : keeps I (count (Counter_Add c n)).
Proof. apply (rs_counter _ _ HI). Qed.
Lemma keeps_logger l m a : keeps I (logger l m a).
Proof. apply (rs_logger _ _ HI). Qed.
Lemma keeps_on_ids {A} (m : M Z A) : keeps I (on_ids m).
Proof. apply (rs_on_ids _ _ HI). Qed.
Lemma keeps_SFTP : keeps I (sess_SFTP p).
Proof. apply (rs_SFTP _ _ HI). Qed.
Lemma keeps_maybeInvalidate e : keeps I (maybeInvalidate p e).
Proof. apply (rs_maybeInvalidate _ _ HI). Qed.
Lemma keeps_get_session q : keeps I (get_session q).
Proof. by intros w. Qed.
#[local] Hint Resolve keeps_counter keeps_logger keeps_on_ids keeps_SFTP
  keeps_maybeInvalidate keeps_get_session : keeps.
#[local] Hint Extern 3 (keeps _ (count (Counter_Inc _))) => apply keeps_counter : keeps.

Lemma keeps_audit c v e : keeps I (audit p c v e).
Proof. unfold audit. solve_keeps. Qed.
Lemma keeps_remotePath n : keeps I (remotePath p n).
Proof. unfold remotePath, resolveAndContain. solve_keeps. Qed.
Lemma keeps_get_policy : keeps I (get_policy p).
Proof. unfold get_policy. solve_keeps. Qed.
Lemma keeps_checked c : keeps I (checked c).
Proof. unfold checked. solve_keeps. Qed.
Lemma keeps_remote_op {A} (m : M R (res A)) : keeps I (on_remote m) -> keeps I (remote_op p m).
Proof. intros Hm. unfold remote_op. solve_keeps. Qed.
#[local] Hint Resolve keeps_audit keeps_remotePath keeps_get_policy keeps_checked keeps_remote_op : keeps.

Lemma keeps_audited {A B} c q (m : M (World R) (res A)) (k : A -> M (World R) (res B)) :
  keeps I m -> (forall a, keeps I (k a)) -> keeps I (audited p c q m k).
Proof. intros. unfold audited. solve_keeps. Qed.

(** A step whose result the rest relies on. *)
Lemma triple_audited_ok {A B} c q (P : A -> Prop) (m : M (World R) (res A))
  (f : A -> M (World R) (res B)) Q :
  triple I m (fun r w => I w /\ forall a, r = Ok a -> P a) ->
  (forall e w, I w -> Q (Err e) w) -> (forall a, P a -> triple I (f a) Q) ->
  triple I (audited p c q m f) Q.
Proof.
  intros Hm He Hf w Hw. unfold audited, bind. specialize (Hm w Hw).
  destruct (m w) as [[a|e] w1]; destruct Hm as [Hw1 Ha]; [by apply Hf; [apply Ha|]|].
  refine (triple_keeps I (audit p c q (Some e)) (fun _ => ret (Err e)) Q _ _ w1 Hw1);
    [apply keeps_audit|intros _ w2; apply He].
Qed.

Lemma keeps_audited_ok {A B} c q (P : A -> Prop) (m : M (World R) (res A))
  (k : A -> M (World R) (res B)) :
  triple I m (fun r w => I w /\ forall a, r = Ok a -> P a) ->
  (forall a, P a -> keeps I (k a)) -> keeps I (audited p c q m k).
Proof. intros Hm Hk. by eapply triple_audited_ok. Qed.

Lemma triple_audited {A B} c q (m : M (World R) (res A)) (f : A -> M (World R) (res B)) Q :
  keeps I m -> (forall e w, I w -> Q (Err e) w) -> (forall x, triple I (f x) Q) ->
  triple I (audited p c q m f) Q.
Proof.
  intros Hm He Hf. apply (triple_audited_ok c q (fun _ => True)); [|done|by intros].
  intros w Hw. split; [by apply Hm|done].
Qed.
End commands.

(** The commands other than transfers. *)
Inductive command :=
  | CStat (name : string) | CMkdir (name : string) | CRemove (name : string)
  | CRemoveDir (name : string) | CRename (old new : string) | CReadDir (name : string)
  | CRefuse (c : unsupported).

(** Running one, for the error the client is told. *)
Definition run_command (g : Gateway) (p : nat) (c : command) : M (World R) (option error) :=
  match c with
  | CStat n => let* r := Stat p n in ret (err_of r)
  | CMkdir n => let* r := Mkdir p n in ret (err_of r)
  | CRemove n => let* r := Remove p n in ret (err_of r)
  | CRemoveDir n => let* r := RemoveDir p n in ret (err_of r)
  | CRename a b => let* r := Rename p a b in ret (err_of r)
  | CReadDir n => let* r := ReadDir g p n in ret (err_of r)
  | CRefuse c => let* r := refuse c in ret (err_of r)
  end.

#[local] Hint Resolve keeps_counter keeps_logger keeps_on_ids keeps_SFTP
  keeps_maybeInvalidate keeps_get_session keeps_audit keeps_remotePath keeps_get_policy keeps_checked
  keeps_remote_op : keeps.

Lemma keeps_command g p I c :
  respected p I -> (forall A (m : M R A), keeps I (on_remote m)) -> keeps I (run_command g p c).
Proof.
  intros HI Hm.
  destruct c; unfold run_command, Stat, Mkdir, Remove, RemoveDir, simple_command, Rename, ReadDir,
    refuse;
  repeat first [apply (keeps_audited p); [done|..] | keeps_step].
Qed.
End system.
