(* ===== verification/Accounting.v ===== *)
(** * What transfers hold

    The account of a gateway is what transfers count in: the
    users' gates, the [released] flags and two gauges.  Every operation
    leaves it alone except opening and closing a transfer, which take and
    give back exactly one slot; [holds] ties the account to a set of open
    transfers. *)
From S2P Require Import Prelude GoStrings GoPath Errors Filesystem Authorization Limiter Auth SftpLib SshDial SftpClient Metrics Observability Config Session Transfer UploadSpec TransferSpec DownloadSpec Gateway Driver Triples.
Open Scope string_scope.
Open Scope list_scope.
Open Scope Z_scope.

Section system.
Context {R : Type} {Lib : SftpLib R} {Ssh : SshLib R}.
Implicit Types (w : World R).

(** ** What transfers account for *)

Record account := MkAccount {
  a_gates : gmap string Gate.ConcurrencyGate;
  a_flags : gmap nat bool;
  a_active : Z;
  a_pending : Z;
  a_fresh : nat;
}.

Definition account_of w : account :=
  MkAccount (gates w) (flags w) (gval (metrics w) TransferActive)
    (gval (metrics w) TemporaryFilesPending) (fresh w).

(** The name of the user of a session never changes. *)
Definition who (p : nat) w : string := Session.username (session_at p w).

Definition view (p : nat) w : account * string := (account_of w, who p w).

Lemma count_view p f w :
  gval (f (metrics w)) TransferActive = gval (metrics w) TransferActive ->
  gval (f (metrics w)) TemporaryFilesPending = gval (metrics w) TemporaryFilesPending ->
  view p (count f w).2 = view p w.
Proof. intros H1 H2. unfold view, account_of. simpl. by rewrite H1, H2. Qed.

Lemma view_remote {A} p (m : M R A) : silent (view p) (on_remote m).
Proof. intros w. unfold on_remote, zoom. by destruct (m (remote w)). Qed.
Lemma view_put p s w :
  Session.username s = who p w -> view p (put_session p s w).2 = view p w.
Proof. intros Hs. unfold view, who, session_at in *. simpl. rewrite lookup_insert_eq. simpl. by rewrite Hs. Qed.

(** The assertion of a given account and user name. *)
Definition at_view (p : nat) (v : account * string) w : Prop := view p w = v.

Lemma view_respected p v : respected p (at_view p v).
Proof.
  apply indifferent_respected. split; intros.
  - by apply silent_keeps.
  - apply silent_keeps. intros w. by apply count_view.
  - apply silent_keeps. intros w. by apply count_view.
  - by apply silent_keeps.
  - apply silent_keeps. intros w. unfold on_ids, zoom. by destruct (m (fallbackCounter w)).
  - unfold at_view. rewrite view_put; [done|]. by injection H0.
  - apply silent_keeps, view_remote.
  - apply silent_keeps, view_remote.
  - apply silent_keeps, view_remote.
Qed.

Lemma view_on_remote {A} p v (m : M R A) : keeps (at_view p v) (on_remote m).
Proof. apply silent_keeps, view_remote. Qed.

(** ** Transfers and what they hold *)

(** An open transfer holds a slot of its user's gate; uploads also count as
    a pending temporary file.  [holds] ties the account to the transfers
    that are open, by the address of their [released] flag. *)
Record hold := MkHold { h_user : string; h_upload : bool }.

Record holds (cap : gmap string Z) (a : account) (hs : gmap nat hold) : Prop := {
  holds_flag k : a_flags a !! k = Some false <-> is_Some (hs !! k);
  holds_fresh k : (a_fresh a <= k)%nat -> a_flags a !! k = None;
  holds_cap u : Gate.capacity <$> a_gates a !! u = cap !! u;
  holds_gate u gt : a_gates a !! u = Some gt ->
    Gate.used gt = tally (fun h => bool_decide (h_user h = u)) hs /\ Gate.gate_ok gt;
  holds_active : a_active a = wrap64 (tally (fun _ => true) hs);
  holds_pending : a_pending a = wrap64 (tally h_upload hs);
}.

Definition acc_open (user : string) (up : bool) (gt : Gate.ConcurrencyGate) (a : account) : account :=
  MkAccount (<[user := gt]> (a_gates a)) (<[a_fresh a := false]> (a_flags a))
    (wrap64 (a_active a + 1)) (if up then wrap64 (a_pending a + 1) else a_pending a)
    (S (a_fresh a)).

Definition acc_report (up : bool) (r : Result.t) (a : account) : account :=
  MkAccount (a_gates a) (a_flags a) (a_active a)
    (if up then wrap64 (a_pending a - 1) else a_pending a) (a_fresh a).

Definition acc_free (k : nat) (user : string) (a : account) : account :=
  if default false (a_flags a !! k) then a
  else MkAccount (alter Gate.Release user (a_gates a)) (<[k := true]> (a_flags a))
         (wrap64 (a_active a - 1)) (a_pending a) (a_fresh a).

Lemma holds_open cap a hs user up gt gt' :
  holds cap a hs -> a_gates a !! user = Some gt -> Gate.TryAcquire gt = (true, gt') ->
  holds cap (acc_open user up gt' a) (<[a_fresh a := MkHold user up]> hs) /\
  hs !! a_fresh a = None.
Proof.
  intros [Hf Hfr Hc Hg Ha Hp] Hu Ht.
  assert (hs !! a_fresh a = None) as Hn.
  { apply eq_None_not_Some. rewrite <- Hf. by rewrite Hfr. }
  destruct (Gate.TryAcquire_spec _ _ _ Ht) as (Hcap & Hok & _).
  destruct (Hok eq_refl) as [Hlt Hus]. destruct (Hg _ _ Hu) as [Hgu Hgo].
  split; [|done]. split; simpl.
  - intros k. rewrite !lookup_insert_is_Some. destruct (decide (k = a_fresh a)) as [->|Hne].
    + rewrite lookup_insert_eq. naive_solver.
    + rewrite lookup_insert_ne by done. rewrite Hf. naive_solver.
  - intros k Hk. rewrite lookup_insert_ne by lia. apply Hfr. lia.
  - intros u. rewrite <- Hc. destruct (decide (u = user)) as [->|Hne].
    + by rewrite lookup_insert_eq, Hu; simpl; rewrite Hcap.
    + by rewrite lookup_insert_ne.
  - intros u g. destruct (decide (u = user)) as [->|Hne].
    + rewrite lookup_insert_eq. intros [= <-]. rewrite tally_fresh by done. simpl.
      rewrite bool_decide_true by done. unfold Gate.gate_ok in *. simpl. lia.
    + rewrite lookup_insert_ne by done. intros H. rewrite tally_fresh by done. simpl.
      rewrite bool_decide_false by done. simpl. rewrite Z.add_0_r. by apply Hg.
  - rewrite Ha, tally_fresh by done. apply wrap64_add_l.
  - rewrite tally_fresh by done. simpl. rewrite Hp. destruct up; simpl; [apply wrap64_add_l|].
    by rewrite Z.add_0_r.
Qed.

Lemma holds_close cap a hs k h r :
  holds cap a hs -> hs !! k = Some h ->
  holds cap (acc_free k (h_user h) (acc_report (h_upload h) r a)) (delete k hs).
Proof.
  intros [Hf Hfr Hc Hg Ha Hp] Hk. unfold acc_free.
  assert (a_flags a !! k = Some false) as Hfk by (apply Hf; eauto).
  simpl. rewrite Hfk. simpl. split; simpl.
  - intros k'. destruct (decide (k' = k)) as [->|Hne].
    + rewrite lookup_insert_eq, lookup_delete_eq. split; [done|by intros []].
    + by rewrite lookup_insert_ne, lookup_delete_ne by done.
  - intros k' Hk'. rewrite lookup_insert_ne; [by apply Hfr|]. intros <-.
    by rewrite Hfr in Hfk.
  - intros u. rewrite <- Hc. destruct (decide (u = h_user h)) as [->|Hne].
    + rewrite lookup_alter_eq. destruct (a_gates a !! h_user h); [|done]. simpl.
      by rewrite Gate.Release_capacity.
    + by rewrite lookup_alter_ne.
  - intros u gt. destruct (decide (u = h_user h)) as [->|Hne].
    + rewrite lookup_alter_eq. destruct (a_gates a !! h_user h) as [g|] eqn:E; [|done].
      intros [= <-]. destruct (Hg _ _ E) as [Hgu Hgo].
      rewrite (tally_delete _ _ _ _ Hk), bool_decide_true by done. simpl.
      split; [|by apply Gate.Release_ok]. rewrite Gate.Release_used; [lia|].
      pose proof (tally_pos (fun h' => bool_decide (h_user h' = h_user h)) k h hs Hk
        (bool_decide_eq_true_2 _ eq_refl)). lia.
    + rewrite lookup_alter_ne by done. intros H.
      rewrite (tally_delete _ _ _ _ Hk), bool_decide_false by done. simpl.
      rewrite Z.sub_0_r. by apply Hg.
  - rewrite Ha, (tally_delete _ _ _ _ Hk). apply wrap64_sub_l.
  - rewrite Hp, (tally_delete _ _ _ _ Hk). destruct (h_upload h); simpl; [apply wrap64_sub_l|].
    by rewrite Z.sub_0_r.
Qed.

(** ** Opening a transfer *)

Lemma view_world_fs p sc : fs_silent (view p) (world_fs sc).
Proof. split; intros; apply view_remote. Qed.

Lemma acc_on_remote {A} (m : M R A) : silent account_of (on_remote m).
Proof. intros w. unfold on_remote, zoom. by destruct (m (remote w)). Qed.
Lemma acc_world_fs sc : fs_silent account_of (world_fs sc).
Proof. split; intros; apply acc_on_remote. Qed.

Lemma acc_recordTransfer c p r w :
  account_of (recordTransfer c p r w).2 = acc_report (c =? "STOR")%string r (account_of w).
Proof.
  unfold recordTransfer, bind, get_session. destruct (c =? "STOR")%string; simpl;
    destruct (decide (Result.Phase r = PhaseFailed)); unfold account_of, acc_report; simpl; done.
Qed.

Lemma acc_release k user w :
  account_of (release k user w).2 = acc_free k user (account_of w).
Proof.
  unfold release, acc_free, bind, get. simpl.
  destruct (default false (flags w !! k)); [done|]. unfold account_of. simpl. done.
Qed.

(** A handle whose callbacks act on an observation. *)
Definition observed {T} (seen : World R -> T) (report : bool -> Result.t -> T -> T) (free : T -> T)
  (t : FileTransfer (R := R)) : Prop :=
  match t with
  | AnUpload u => recorded seen (report true) free (Upload.fs u) (Upload.opts u)
  | ADownload d => drecorded seen (report false) free (Download.fs d) (Download.opts d)
  end.

(** A handle that reports and releases under its own flag. *)
Definition handle_ok (k : nat) (user : string) : FileTransfer (R := R) -> Prop :=
  observed account_of acc_report (acc_free k user).
Definition handle_closed (t : FileTransfer (R := R)) : bool :=
  match t with AnUpload u => Upload.closed u | ADownload d => Download.closed d end.
Definition is_upload (t : FileTransfer (R := R)) : bool :=
  match t with AnUpload _ => true | ADownload _ => false end.

Lemma upload_options_recorded g p s tid vp k sc :
  recorded account_of (acc_report true) (acc_free k (Session.username s)) (world_fs sc)
    (upload_options g p s tid vp k).
Proof.
  split; [apply acc_world_fs|eexists; split; [done|]..].
  - intros r w. apply acc_recordTransfer.
  - apply acc_release.
Qed.

Lemma download_options_recorded g p s tid vp k sc :
  drecorded account_of (acc_report false) (acc_free k (Session.username s)) (world_fs sc)
    (download_options g p s tid vp k).
Proof.
  split; [apply acc_world_fs|eexists; split; [done|]..].
  - intros r w. apply acc_recordTransfer.
  - apply acc_release.
Qed.

(** A refusal leaves everything as it is; a handle holds what it took. *)
Definition opened (cap : gmap string Z) (hs : gmap nat hold) (p k : nat)
  (r : res (FileTransfer (R := R))) w : Prop :=
  match r with
  | Err _ => holds cap (account_of w) hs
  | Ok t => handle_ok k (who p w) t /\ handle_closed t = false /\ hs !! k = None /\
            holds cap (account_of w) (<[k := MkHold (who p w) (is_upload t)]> hs)
  end.

Lemma at_view_inv p a user w : at_view p (a, user) w -> account_of w = a /\ who p w = user.
Proof. intros H. exact (conj (f_equal fst H) (f_equal snd H)). Qed.

Lemma opened_err cap hs p k a e w user :
  holds cap a hs -> at_view p (a, user) w -> opened cap hs p k (Err e) w.
Proof. intros Hh [= <- _]. done. Qed.

(** Changing the account by hand. *)
Lemma triple_account {A B} p a a' user (m : M (World R) A) (f : A -> M (World R) B) Q :
  (forall w, account_of w = a -> account_of (m w).2 = a') -> silent (who p) m ->
  (forall x, triple (at_view p (a', user)) (f x) Q) ->
  triple (at_view p (a, user)) (bind m f) Q.
Proof.
  intros Hm Hw Hf. apply triple_bind with (J := fun _ => at_view p (a', user)); [|done].
  intros w [= Ha Hu]. unfold at_view, view. by rewrite Hm, Hw, Hu.
Qed.

Lemma triple_session {B} p a user (f : _ -> M (World R) B) Q :
  (forall s, Session.username s = user -> triple (at_view p (a, user)) (f s) Q) ->
  triple (at_view p (a, user)) (let* s := get_session p in f s) Q.
Proof. intros Hf w Hw. apply (Hf (session_at p w)); [|done]. by injection Hw. Qed.

(** Acquiring the slot: the rest runs only if there was one. *)
Lemma triple_TryAcquire {A} p a user (f : bool -> M (World R) A) Q :
  triple (at_view p (a, user)) (f false) Q ->
  (forall gt gt', a_gates a !! user = Some gt -> Gate.TryAcquire gt = (true, gt') ->
     triple (at_view p (MkAccount (<[user := gt']> (a_gates a)) (a_flags a) (a_active a)
                          (a_pending a) (a_fresh a), user)) (f true) Q) ->
  triple (at_view p (a, user)) (let* b := TryAcquire user in f b) Q.
Proof.
  intros Hf Ht w [= <- Hu]. unfold bind, TryAcquire.
  destruct (gates w !! user) as [gt|] eqn:Hg; [|apply Hf; unfold at_view, view; by rewrite Hu].
  destruct (Gate.TryAcquire gt) as [[] gt'] eqn:E.
  - apply (Ht gt gt'); [done..|]. unfold at_view, view. rewrite <- Hu. done.
  - apply Hf. destruct (Gate.TryAcquire_spec _ _ _ E) as (_ & _ & H).
    destruct (H eq_refl) as [_ ->]. unfold at_view, view, account_of. simpl.
    rewrite insert_id by done. by rewrite <- Hu.
Qed.

(** The counting between acquiring the slot and the constructor. *)
Lemma triple_begin {A} p a user gt (f : nat -> M (World R) A) Q :
  triple (at_view p (acc_open user false gt a, user)) (f (a_fresh a)) Q ->
  triple (at_view p (MkAccount (<[user := gt]> (a_gates a)) (a_flags a) (a_active a) (a_pending a)
                       (a_fresh a), user))
    (let* flag := alloc in
     do* set_flag flag false in
     do* count (Gauge_Inc TransferActive) in
     do* count (Counter_Inc TransferTotal) in f flag) Q.
Proof.
  intros Hf w [= H1 H2 H3 H4 H5 Hu]. unfold bind, alloc. simpl. rewrite H5. apply Hf.
  unfold at_view, view, account_of, acc_open. simpl. rewrite <- Hu. f_equal. simpl. congruence.
Qed.

Lemma triple_NewUpload {A} p v sc final o (f : res _ -> M (World R) A) Q :
  (forall e, triple (at_view p v) (f (Err e)) Q) ->
  (forall u, Upload.fs u = world_fs sc -> Upload.opts u = o -> Upload.closed u = false ->
     triple (at_view p v) (f (Ok u)) Q) ->
  triple (at_view p v) (let* r := Upload.NewUpload (world_fs sc) final o in f r) Q.
Proof.
  intros He Hu. pose proof (view_world_fs p sc) as Hfs.
  assert (keeps (at_view p v) (Upload.NewUpload (world_fs sc) final o)) as Hk.
  { apply keeps_bindE; [destruct (negb _); [apply keeps_bind|]; try by intros; intros w|].
    - by apply silent_keeps, Hfs.
    - intros _. apply keeps_bindE; [|by intros ? w]. by apply silent_keeps, Hfs. }
  intros w Hw. unfold bind. specialize (Hk w Hw).
  destruct (Upload.NewUpload (world_fs sc) final o w) as [[u|e] w1] eqn:E; [|by apply He].
  apply bindE_inv_ok in E as (x & w2 & _ & (h & w3 & _ & [= <- _])%bindE_inv_ok). by apply Hu.
Qed.

Lemma triple_NewDownload {A} p v sc path o (f : res _ -> M (World R) A) Q :
  (forall e, triple (at_view p v) (f (Err e)) Q) ->
  (forall d, Download.fs d = world_fs sc -> Download.opts d = o -> Download.closed d = false ->
     triple (at_view p v) (f (Ok d)) Q) ->
  triple (at_view p v) (let* r := Download.NewDownload (world_fs sc) path o in f r) Q.
Proof.
  intros He Hd.
  assert (keeps (at_view p v) (Download.NewDownload (world_fs sc) path o)) as Hk.
  { apply keeps_bindE; [|by intros ? w]. by apply silent_keeps, view_world_fs. }
  intros w Hw. unfold bind. specialize (Hk w Hw).
  destruct (Download.NewDownload (world_fs sc) path o w) as [[d|e] w1] eqn:E; [|by apply He].
  apply bindE_inv_ok in E as (h & w3 & _ & [= <- _]). by apply Hd.
Qed.

Lemma who_release p k user : silent (who p) (release k user).
Proof. intros w. unfold release, bind, get. simpl. by destruct (default _ _). Qed.

(** Giving everything back after a failed constructor. *)
Definition no_result : Result.t := Result.Mk "" "" "" "" 0 "" PhaseFailed None.

Lemma triple_give_back {A} cap hs p a up user gt gt' (m : M (World R) unit) (f : M (World R) A) Q :
  holds cap a hs -> a_gates a !! user = Some gt -> Gate.TryAcquire gt = (true, gt') ->
  (forall w, account_of (m w).2 = acc_report up no_result (account_of w)) -> silent (who p) m ->
  (forall a', holds cap a' hs -> triple (at_view p (a', user)) f Q) ->
  triple (at_view p (acc_open user up gt' a, user)) (do* m in do* release (a_fresh a) user in f) Q.
Proof.
  intros Hh Hg Ht Hm Hmw Hf. destruct (holds_open _ _ _ _ up _ _ Hh Hg Ht) as [Ho Hn].
  apply (holds_close _ _ _ (a_fresh a) (MkHold user up) no_result) in Ho; [|apply lookup_insert_eq].
  rewrite delete_insert_id in Ho by done.
  eapply triple_account; [intros w Hw; by rewrite Hm, Hw|done|intros _].
  eapply triple_account; [intros w Hw; by rewrite acc_release, Hw|apply who_release|intros _].
  by apply Hf.
Qed.

(** The last step: what the handle holds. *)
Lemma opened_ok cap hs p a up user gt gt' t w :
  holds cap a hs -> a_gates a !! user = Some gt -> Gate.TryAcquire gt = (true, gt') ->
  handle_ok (a_fresh a) user t -> handle_closed t = false -> is_upload t = up ->
  at_view p (acc_open user up gt' a, user) w -> opened cap hs p (a_fresh a) (Ok t) w.
Proof.
  intros Hh Hg Ht Hk Hc Hup [Ha Hu]%at_view_inv.
  destruct (holds_open _ _ _ _ up _ _ Hh Hg Ht) as [Ho Hn].
  unfold opened. rewrite Ha, Hu, Hup. done.
Qed.

Lemma opens_beginUpload g p cap hs a user sc vp rp fl e :
  holds cap a hs ->
  triple (at_view p (a, user)) (beginUpload g p sc vp rp fl e) (opened cap hs p (a_fresh a)).
Proof.
  intros Hh. pose proof (view_respected p) as HR.
  unfold beginUpload. destruct (negb _); [apply triple_ret; intros w; by apply opened_err|].
  apply triple_session. intros s <-.
  apply triple_audited; [done|by apply keeps_ret|intros; by eapply opened_err|]. intros _.
  apply triple_TryAcquire.
  { apply triple_keeps; [by apply keeps_audit|]. intros _. apply triple_ret. intros w.
    by apply opened_err. }
  intros gt gt' Hg Ht. apply triple_begin.
  apply triple_account with (a' := acc_open (Session.username s) true gt' a); [|done|intros _].
  { intros w [= H1 H2 H3 H4 H5]. unfold account_of, acc_open. simpl. rewrite <- H4. simpl. congruence. }
  apply triple_keeps; [by eapply keeps_on_ids|]. intros tid. apply triple_NewUpload.
  - intros err. eapply triple_give_back; [done..| | |].
    + intros w. unfold account_of, acc_report. simpl. done.
    + done.
    + intros a' Ha'. apply triple_keeps; [by apply keeps_audit|]. intros _. apply triple_ret.
      intros w. by apply opened_err.
  - intros u Hfs Ho Hc. apply triple_ret. intros w. eapply opened_ok; [done..| |done|done].
    simpl. rewrite Hfs, Ho. apply upload_options_recorded.
Qed.

Lemma opens_beginDownload g p cap hs a user sc vp rp e :
  holds cap a hs ->
  triple (at_view p (a, user)) (beginDownload g p sc vp rp e) (opened cap hs p (a_fresh a)).
Proof.
  intros Hh. pose proof (view_respected p) as HR.
  unfold beginDownload. apply triple_session. intros s <-.
  apply triple_audited; [done|by apply keeps_ret|intros; by eapply opened_err|]. intros _.
  apply triple_TryAcquire.
  { apply triple_keeps; [by apply keeps_audit|]. intros _. apply triple_ret. intros w.
    by apply opened_err. }
  intros gt gt' Hg Ht. apply triple_begin.
  apply triple_keeps; [by eapply keeps_on_ids|]. intros tid. apply triple_NewDownload.
  - intros err.
    apply (triple_give_back cap hs p a false (Session.username s) gt gt' (ret tt)
             (do* audit p "RETR" vp (Some err) in ret (Err err)));
      [done..|by intros []|done|].
    intros a' Ha'. apply triple_keeps; [by apply keeps_audit|]. intros _. apply triple_ret.
    intros w. by apply opened_err.
  - intros d Hfs Ho Hc. apply triple_ret. intros w. eapply opened_ok; [done..| |done|done].
    simpl. rewrite Hfs, Ho. apply download_options_recorded.
Qed.

Lemma opens_GetHandle g p cap hs a user name fl e :
  holds cap a hs ->
  triple (at_view p (a, user)) (GetHandle g p name fl e) (opened cap hs p (a_fresh a)).
Proof.
  intros Hh. pose proof (view_respected p) as HR. unfold GetHandle.
  apply triple_audited; [done|by eapply keeps_remotePath|intros; by eapply opened_err|]. intros [vp rp].
  apply triple_audited; [done|by eapply keeps_SFTP|intros; by eapply opened_err|]. intros sc.
  destruct (negb _); [by apply opens_beginUpload|by apply opens_beginDownload].
Qed.

(** ** The callbacks of connections *)

Lemma acc_ClientConnected g cc addr : silent account_of (ClientConnected g cc addr).
Proof.
  intros w. unfold ClientConnected, bind, get. simpl. destruct (shuttingDown w); [done|].
  simpl. by destruct (_ >? _).
Qed.

Definition acc_is (a : account) w : Prop := account_of w = a.

Lemma acc_put p s : silent account_of (put_session p s).
Proof. done. Qed.

Lemma acc_sess_Close p : silent account_of (sess_Close p).
Proof.
  intros w. unfold sess_Close, get_session, bind, Session.Close.
  destruct (Session.closed _); [done|]. destruct (Session.sftp _) as [c|]; [|done]. unfold bind.
  pose proof (acc_on_remote (SftpClient.Close c) w) as Hc.
  by destruct (on_remote (SftpClient.Close c) w).
Qed.

Lemma acc_gauge ga f : ga <> TransferActive -> ga <> TemporaryFilesPending ->
  silent account_of (count (fun m => Gauge_Set ga (f m) m)).
Proof. intros H1 H2 w. unfold account_of. simpl. by rewrite !decide_False. Qed.

Lemma acc_ClientDisconnected cc : silent account_of (ClientDisconnected cc).
Proof.
  intros w. unfold ClientDisconnected, bind, get, set_conns, modify. simpl.
  destruct (extras w !! cc) as [cs|]; [|done].
  match goal with |- account_of (let '(_, w') := ?m in @?k w').2 = _ =>
    assert (account_of m.2 = account_of w) as H1; [|destruct m as [[] w1]; simpl in H1; rewrite <- H1] end.
  { destruct (admitted cs); [|done]. unfold bind, get, set_active, modify. simpl.
    by apply (acc_gauge _ (fun m => wrap64 (gval m FTPConnectionsActive - 1))). }
  destruct (cs_sess cs) as [p|]; [|done].
  unfold sess_IsConnected, bind, get_session, ret. pose proof (acc_sess_Close p w1) as H2.
  destruct (sess_Close p w1) as [[x|e] w2]; simpl in H2; rewrite <- H2;
    destruct (Session.IsConnected _); done.
Qed.

(** A new session takes a new address. *)
Definition bump (a : account) : account :=
  MkAccount (a_gates a) (a_flags a) (a_active a) (a_pending a) (S (a_fresh a)).

Lemma acc_AuthUser cmp dummy g cc addr user pass t now e w :
  let w' := (AuthUser cmp dummy g cc addr user pass t now e w).2 in
  account_of w' = account_of w \/ account_of w' = bump (account_of w).
Proof.
  unfold AuthUser, bind. simpl. unfold on_authent, zoom. simpl.
  destruct (Authenticate _ _ _ _ _ _ _) as [[err|] au].
  { left. by destruct (Is err KindRateLimited). }
  destruct (g_users g !! user) as [rt|]; [|by left].
  unfold on_ids, zoom. simpl. destruct (NewCorrelationID e _) as [id ids].
  right. unfold alloc. simpl. by destruct (extras w !! cc).
Qed.

Lemma holds_bump cap a hs : holds cap a hs -> holds cap (bump a) hs.
Proof. intros [Hf Hfr Hc Hg Ha Hp]. split; try done. intros k Hk. apply Hfr. simpl in Hk. lia. Qed.
End system.
