(* ===== verification/System.v ===== *)
(** * The running gateway

    Every callback of the FTP library, in any order and on any number of
    connections, sessions and transfers, as a step on the gateway's world
    and its transfers; reachability by those steps; and what holds in every
    reachable state. *)
From S2P Require Import Prelude GoStrings GoPath Errors Filesystem Authorization Limiter Auth SftpLib MemServer SshDial SftpClient Metrics Observability Config Session Transfer UploadSpec TransferSpec DownloadSpec Gateway Driver Triples Accounting.
Open Scope string_scope.
Open Scope list_scope.
Open Scope Z_scope.

Section system.
Context {R : Type} {Lib : SftpLib R} {Ssh : SshLib R}.
Context (CompareHashAndPassword : string -> string -> option error) (dummyHash : string).

(** A transfer handed to the library, and the user it was opened for. *)
Record Transfer := MkTransfer { t_user : string; t_handle : FileTransfer (R := R) }.

(** The transfers are keyed by the address of their [released] flag. *)
Record Sys := MkSys { sys_world : World R; transfers : gmap nat Transfer }.

Definition t_live (t : Transfer) : bool := negb (handle_closed (t_handle t)).

(** What the library may call on a handle. *)
Inductive tcall :=
  | TWrite (p : bytes) | TRead (len : Z) | TSeek (offset whence : Z)
  | TError (e : option error) | TClose.

Definition call_handle (t : FileTransfer (R := R)) (c : tcall) : M (World R) (FileTransfer (R := R)) :=
  match t with
  | AnUpload u =>
      let* u := hstep u (match c with
                         | TWrite p => HOp (UWrite p) | TRead n => HOp (URead n)
                         | TSeek o wh => HOp (USeek o wh) | TError e => HOp (UTransferError e)
                         | TClose => HClose
                         end) in
      ret (AnUpload u)
  | ADownload d =>
      match c with
      | TClose => let* (_, d) := Download.Close d in ret (ADownload d)
      | TWrite p => let* (_, d) := dstep d (DWrite p) in ret (ADownload d)
      | TRead n => let* (_, d) := dstep d (DRead n) in ret (ADownload d)
      | TSeek o wh => let* (_, d) := dstep d (DSeek o wh) in ret (ADownload d)
      | TError e => let* (_, d) := dstep d (DTransferError e) in ret (ADownload d)
      end
  end.

(** The callbacks, with the clock readings and random bytes they use. *)
Inductive input :=
  | IConnected (cc : Z) (addr : string)
  | IDisconnected (cc : Z)
  | IAuth (cc : Z) (addr user pass : string) (t : AuthReadings) (now : Z) (e : Entropy)
  | ICommand (p : nat) (c : command)
  | IGetHandle (p : nat) (name : string) (fl : Z) (e : Entropy)
  | ICall (k : nat) (c : tcall)
  | IPrepareShutdown.

Definition sys_step (g : Gateway) (s : Sys) (i : input) : Sys :=
  let w := sys_world s in
  let only (w : World R) := MkSys w (transfers s) in
  match i with
  | IConnected cc addr => only (ClientConnected g cc addr w).2
  | IDisconnected cc => only (ClientDisconnected cc w).2
  | IAuth cc addr user pass t now e =>
      only (AuthUser CompareHashAndPassword dummyHash g cc addr user pass t now e w).2
  | ICommand p c => only (run_command g p c w).2
  | IGetHandle p name fl e =>
      let '(r, w') := GetHandle g p name fl e w in
      match r with
      | Ok t => MkSys w' (<[fresh w := MkTransfer (who p w') t]> (transfers s))
      | Err _ => only w'
      end
  | ICall k c =>
      match transfers s !! k with
      | None => s
      | Some t =>
          let '(h, w') := call_handle (t_handle t) c w in
          MkSys w' (<[k := MkTransfer (t_user t) h]> (transfers s))
      end
  | IPrepareShutdown => only (PrepareShutdown w).2
  end.

(** What the library guarantees: a connection is new when it connects and
    disconnects once; commands come from an authenticated connection. *)
Definition allowed (s : Sys) (i : input) : Prop :=
  match i with
  | IConnected cc _ => extras (sys_world s) !! cc = None
  | IDisconnected cc => cc ∈ conns (sys_world s) \/ extras (sys_world s) !! cc = None
  | IAuth cc _ _ _ _ _ _ => cc ∈ conns (sys_world s)
  | ICommand p _ | IGetHandle p _ _ _ => is_Some (heap (sys_world s) !! p)
  | ICall _ _ | IPrepareShutdown => True
  end.

Fixpoint sys_run (g : Gateway) (s : Sys) (ins : list input) : Sys :=
  match ins with [] => s | i :: ins => sys_run g (sys_step g s i) ins end.
Fixpoint all_allowed (g : Gateway) (s : Sys) (ins : list input) : Prop :=
  match ins with [] => True | i :: ins => allowed s i /\ all_allowed g (sys_step g s i) ins end.

Definition start (cfg : Config) (r : R) (ids : Z) : Sys :=
  MkSys (initial cfg r NewMetrics ids) ∅.

Inductive reachable (cfg : Config) (r : R) (ids : Z) : Sys -> Prop :=
  | reach_start : reachable cfg r ids (start cfg r ids)
  | reach_step s i :
      reachable cfg r ids s -> allowed s i -> reachable cfg r ids (sys_step (NewGateway cfg) s i).

#[export] Instance allowed_dec s i : Decision (allowed s i).
Proof. destruct i; simpl; apply _. Defined.
#[export] Instance all_allowed_dec g s ins : Decision (all_allowed g s ins).
Proof. revert s. induction ins; intros s; simpl; apply _. Defined.

Lemma reach_run cfg r ids s ins :
  reachable cfg r ids s -> all_allowed (NewGateway cfg) s ins ->
  reachable cfg r ids (sys_run (NewGateway cfg) s ins).
Proof.
  revert s. induction ins as [|i ins IH]; intros s Hr; simpl; [done|].
  intros [Ha Hs]. apply IH; [by constructor|done].
Qed.

(** ** Transfers *)

Definition held_by (t : Transfer) : option hold :=
  if t_live t then Some (MkHold (t_user t) (is_upload (t_handle t))) else None.

Record transfers_inv (cap : gmap string Z) (s : Sys) : Prop := {
  ti_ok k t : transfers s !! k = Some t -> handle_ok k (t_user t) (t_handle t);
  ti_holds : holds cap (account_of (sys_world s)) (omap held_by (transfers s));
}.

Section calls.
Context {T : Type} (seen : World R -> T) (report : bool -> Result.t -> T -> T) (free : T -> T).

(** What a call does to an observation: only closing changes it. *)
Definition called (up before_ after_ : bool) (w w' : World R) : Prop :=
  if negb before_ && after_
  then exists r, seen w' = free (report up r (seen w))
  else seen w' = seen w /\ after_ = before_.

Lemma call_upload_spec u c w t' w' :
  observed seen report free (AnUpload u) -> call_handle (AnUpload u) c w = (t', w') ->
  observed seen report free t' /\ is_upload t' = true /\
  called true (Upload.closed u) (handle_closed t') w w'.
Proof.
  intros Hok (u' & w1 & H & [= <- <-])%bind_inv. simpl in Hok |- *.
  set (h := match c with TWrite p => _ | _ => _ end) in H. clearbody h. destruct h as [op|].
  - destruct (ustep_keeps _ _ _ _ _ H) as [(Hf & _ & _ & _ & Ho)%static_inj Hc].
    rewrite Hf, Ho. split_and!; [done..|]. unfold called. rewrite Hc, andb_negb_l. split; [|done].
    exact (ustep_seen seen _ _ _ _ _ _ _ _ _ Hok eq_refl H).
  - apply bind_inv in H as ([r u2] & w2 & H & [= <- <-]).
    destruct (Close_keeps _ _ _ _ _ H) as [(Hf & _ & _ & _ & Ho)%static_inj Hc].
    rewrite Hf, Ho. split_and!; [done..|]. unfold called. rewrite Hc.
    destruct (Upload.closed u) eqn:Hcu; simpl.
    + rewrite Close_closed in H by done. by injection H as <- <- <-.
    + apply (Close_seen seen) with (1 := Hok) in H as (ph & -> & _); eauto.
Qed.

Lemma call_download_spec d c w t' w' :
  observed seen report free (ADownload d) -> call_handle (ADownload d) c w = (t', w') ->
  observed seen report free t' /\ is_upload t' = false /\
  called false (Download.closed d) (handle_closed t') w w'.
Proof.
  simpl. intros Hok.
  assert (forall op, (let* (_, d) := dstep d op in ret (ADownload d)) w = (t', w') ->
    observed seen report free t' /\ is_upload t' = false /\
    called false (Download.closed d) (handle_closed t') w w') as Hstep.
  { intros op ([be d'] & w1 & H & [= <- <-])%bind_inv.
    apply (dstep_seen seen) with (R := Download.fs d) in H as [Hs Hst]; [|by apply Hok|done].
    injection Hst as Hf _ _ Ho Hc. simpl. rewrite Hf, Ho. split_and!; [done..|].
    unfold called. by rewrite Hc, andb_negb_l. }
  destruct c as [p|n|o wh|e|];
    [exact (Hstep (DWrite p))|exact (Hstep (DRead n))|exact (Hstep (DSeek o wh))
    |exact (Hstep (DTransferError e))|].
  intros ([r d'] & w1 & H & [= <- <-])%bind_inv. simpl.
  assert (Download.fs d' = Download.fs d /\ Download.opts d' = Download.opts d) as [-> ->].
  { by apply Download_Close_keeps in H. }
  split_and!; [done..|]. apply (dClose_seen seen) with (1 := Hok) in H as [Hc H]; [|done..].
  unfold called. rewrite Hc. destruct (Download.closed d); simpl; [by split|].
  destruct H as (r' & ->). by exists r'.
Qed.

Lemma call_handle_spec t c w t' w' :
  observed seen report free t -> call_handle t c w = (t', w') ->
  observed seen report free t' /\ is_upload t' = is_upload t /\
  called (is_upload t) (handle_closed t) (handle_closed t') w w'.
Proof. destruct t; [apply call_upload_spec|apply call_download_spec]. Qed.
End calls.

Lemma holds_call cap s k user t t' w' :
  holds cap (account_of (sys_world s)) (omap held_by (transfers s)) ->
  transfers s !! k = Some (MkTransfer user t) -> is_upload t' = is_upload t ->
  called account_of acc_report (acc_free k user) (is_upload t) (handle_closed t) (handle_closed t') (sys_world s) w' ->
  holds cap (account_of w') (omap held_by (<[k := MkTransfer user t']> (transfers s))).
Proof.
  intros Hh Hk Hup Hcl. unfold called in Hcl.
  destruct (handle_closed t) eqn:Hc; simpl in Hcl.
  - destruct Hcl as [-> Hc']. rewrite (omap_insert_None _ _ _ (MkTransfer user t')).
    + rewrite delete_id; [done|]. rewrite lookup_omap, Hk. simpl. unfold held_by, t_live. simpl.
      by rewrite Hc.
    + unfold held_by, t_live. simpl. by rewrite Hc'.
  - assert (omap held_by (transfers s) !! k = Some (MkHold user (is_upload t))) as Hold.
    { rewrite lookup_omap, Hk. simpl. unfold held_by, t_live. simpl. by rewrite Hc. }
    destruct (handle_closed t') eqn:Hc'.
    + destruct Hcl as (r & ->). rewrite (omap_insert_None _ _ _ (MkTransfer user t')).
      * by apply (holds_close _ _ _ _ _ r Hh) in Hold.
      * unfold held_by, t_live. simpl. by rewrite Hc'.
    + destruct Hcl as [-> _].
      rewrite (omap_insert_Some _ _ _ (MkTransfer user t') (MkHold user (is_upload t))).
      * by rewrite insert_id.
      * unfold held_by, t_live. simpl. by rewrite Hc', Hup.
Qed.

Lemma transfers_inv_step cap g s i :
  transfers_inv cap s -> transfers_inv cap (sys_step g s i).
Proof.
  intros [Hok Hh]. set (w := sys_world s) in *.
  assert (forall w', account_of w' = account_of w -> transfers_inv cap (MkSys w' (transfers s))) as Hsame.
  { intros w' E. split; [done|]. simpl. by rewrite E. }
  destruct i as [cc addr|cc|cc addr user pass t now e|p c|p name fl e|k c|]; simpl; fold w.
  - apply Hsame, acc_ClientConnected.
  - apply Hsame, acc_ClientDisconnected.
  - destruct (acc_AuthUser CompareHashAndPassword dummyHash g cc addr user pass t now e w) as [E|E];
      [by apply Hsame|]. split; [done|]. simpl. rewrite E. by apply holds_bump.
  - apply Hsame. pose proof (keeps_command g p _ c (view_respected p (view p w)) (fun A => view_on_remote p _) w eq_refl) as H.
    by apply at_view_inv in H as [-> _].
  - pose proof (opens_GetHandle g p cap _ (account_of w) (who p w) name fl e Hh w eq_refl) as H.
    destruct (GetHandle g p name fl e w) as [[t|err] w'] eqn:E; simpl in H; [|by split].
    destruct H as (Ht & Hc & Hn & Hh'). split; simpl.
    + intros k' t'. rewrite lookup_insert_Some. intros [[<- <-]|[_ H]]; [done|by apply Hok].
    + rewrite (omap_insert_Some _ _ _ _ (MkHold (who p w') (is_upload t))); [done|].
      unfold held_by, t_live. simpl. by rewrite Hc.
  - destruct (transfers s !! k) as [[user t]|] eqn:Hk; [|by split]. simpl.
    destruct (call_handle t c w) as [t' w'] eqn:E.
    apply (call_handle_spec account_of acc_report (acc_free k user)) in E as (Hok' & Hup & Hcl); [|by apply Hok in Hk].
    split; simpl.
    + intros k' t2. rewrite lookup_insert_Some. intros [[<- <-]|[_ H]]; [done|by apply Hok].
    + by eapply holds_call.
  - by apply Hsame.
Qed.

Definition caps_of (us : list UserConfig.t) : gmap string Z := Gate.capacity <$> gates_of us.

Lemma gates_of_elem us user gt :
  gates_of us !! user = Some gt ->
  exists u, u ∈ us /\ UserConfig.Username u = user /\
            gt = Gate.NewConcurrencyGate (UserConfig.MaxConcurrentTransfers u).
Proof.
  unfold gates_of. induction us as [|x us IH] using rev_ind; [done|].
  rewrite foldl_snoc. rewrite lookup_insert_Some. intros [[<- <-]|[_ H]].
  - exists x. split_and!; [set_solver|done..].
  - destruct (IH H) as (u & Hu & ? & ?). exists u. split_and!; [set_solver|done..].
Qed.

Lemma transfers_inv_start cfg r ids :
  Forall (fun u => 0 <= UserConfig.MaxConcurrentTransfers u) (Users cfg) ->
  transfers_inv (caps_of (Users cfg)) (start cfg r ids).
Proof.
  intros Hcap. split; simpl; [done|]. rewrite omap_empty. split; simpl.
  - intros k. rewrite !lookup_empty. split; [done|by intros []].
  - done.
  - intros u. unfold caps_of. by rewrite lookup_fmap.
  - intros u gt (c & Hc & _ & ->)%gates_of_elem. rewrite tally_empty. split; [done|].
    apply Gate.New_ok. by eapply Forall_forall in Hcap.
  - done.
  - done.
Qed.

Lemma reachable_transfers_inv cfg r ids s :
  Forall (fun u => 0 <= UserConfig.MaxConcurrentTransfers u) (Users cfg) ->
  reachable cfg r ids s -> transfers_inv (caps_of (Users cfg)) s.
Proof. intros Hc. induction 1; [by apply transfers_inv_start|by apply transfers_inv_step]. Qed.

(** C5. Transfers are accounted for exactly, whatever the FTP library does
    and in whatever order: in every reachable state the slots taken of a
    user's gate are the transfers that user has open, never more than
    [maxConcurrentTransfers]; [transfer_active] counts all open transfers
    and [temporary_files_pending] the open uploads.  Nothing leaks on a
    refused, failed or twice closed transfer. *)
Theorem transfer_accounting cfg r ids s :
  Forall (fun u => 0 <= UserConfig.MaxConcurrentTransfers u) (Users cfg) ->
  reachable cfg r ids s ->
  let w := sys_world s in
  (forall user gt, gates w !! user = Some gt ->
     Gate.InUse gt = tally (fun t => t_live t && bool_decide (t_user t = user)) (transfers s) /\
     exists u, u ∈ Users cfg /\ UserConfig.Username u = user /\
       Gate.InUse gt <= UserConfig.MaxConcurrentTransfers u) /\
  gval (metrics w) TransferActive = wrap64 (tally t_live (transfers s)) /\
  gval (metrics w) TemporaryFilesPending =
    wrap64 (tally (fun t => t_live t && is_upload (t_handle t)) (transfers s)).
Proof.
  intros Hc [_ [_ _ Hcap Hg Ha Hp]]%(reachable_transfers_inv _ _ _ _ Hc) w. split_and!.
  - intros user gt Hgt. destruct (Hg _ _ Hgt) as [Hu [_ Hle]]. split.
    + unfold Gate.InUse. rewrite Hu, tally_omap. apply tally_ext. intros t. unfold held_by.
      by destruct (t_live t).
    + specialize (Hcap user). simpl in Hcap. fold w in Hcap. rewrite Hgt in Hcap.
      unfold caps_of in Hcap. rewrite lookup_fmap in Hcap.
      destruct (gates_of (Users cfg) !! user) as [g0|] eqn:E; [|done].
      apply gates_of_elem in E as (u & Hin & Hn & ->). injection Hcap as Hcap.
      exists u. unfold Gate.InUse. split_and!; [done..|]. lia.
  - simpl in Ha. fold w in Ha. rewrite Ha, tally_omap. f_equal. apply tally_ext. intros t.
    unfold held_by. by destruct (t_live t).
  - simpl in Hp. fold w in Hp. rewrite Hp, tally_omap. f_equal. apply tally_ext. intros t.
    unfold held_by. by destruct (t_live t).
Qed.
End system.

(** A day in the life: one client, three uploads, of which two may run. *)
Definition demo_gateway_config : Config := applyDefaults demo_config.
Definition demo_start : Sys (R := MemFS) := start demo_gateway_config (mem_of [("/data", NDir)]) 0.
Definition demo_system (ins : list input) : Sys (R := MemFS) :=
  sys_run plain_compare "" (NewGateway demo_gateway_config) demo_start ins.

Definition demo_entropy : Entropy := MkEntropy None 1.
Definition demo_login : list input :=
  [IConnected 7 "10.0.0.9:4000"; IAuth 7 "10.0.0.9:4000" "ax" "$2a$" (readings_at 9) 9 demo_entropy].
Definition demo_uploads : list input :=
  demo_login ++ [IGetHandle 0 "a" O_WRONLY demo_entropy; IGetHandle 0 "b" O_WRONLY demo_entropy;
                 IGetHandle 0 "c" O_WRONLY demo_entropy;
                 ICall 1 (TWrite (chars "xyz")); ICall 1 TClose; ICall 1 TClose].

Lemma demo_capacities :
  Forall (fun u => 0 <= UserConfig.MaxConcurrentTransfers u) (Users demo_gateway_config).
Proof. by repeat constructor. Qed.

Lemma transfer_accounting_witness :
  let w := sys_world (demo_system demo_uploads) in
  gval (metrics w) TransferActive = 2 /\
  wrap64 (tally t_live (transfers (demo_system demo_uploads))) = 2 /\
  Gate.InUse <$> gates w !! "ax" = Some 2.
Proof.
  intros w. assert (reachable plain_compare "" demo_gateway_config (mem_of [("/data", NDir)]) 0
    (demo_system demo_uploads)) as Hr.
  { apply reach_run; [constructor|]. decided. }
  destruct (transfer_accounting _ _ _ _ _ _ demo_capacities Hr) as (_ & H & _).
  split_and!; [by vm_compute|by rewrite <- H; vm_compute|by vm_compute].
Defined.
