(* ===== verification/Transparency.v ===== *)
(** * What logs and metrics do not change, and the commands without them

    Two worlds are the same for the gateway, [w ≈ w'], when they differ at
    most in the log and the metrics.  Every callback takes such worlds to
    such worlds and answers the same.  Up to that, a file command is one
    pipeline, the same for all: resolve the names, check the policy, get the
    connection, perform the operation, drop a broken connection. *)
From S2P Require Import Prelude GoStrings GoPath Errors Filesystem Authorization Limiter Auth SftpLib MemServer SshDial SftpClient Metrics Observability Config Session Transfer UploadSpec TransferSpec DownloadSpec Gateway Driver Triples Accounting System.
From Stdlib Require Import Morphisms RelationClasses.
Open Scope string_scope.
Open Scope list_scope.
Open Scope Z_scope.

Section transparency.
Context {R : Type} {Lib : SftpLib R} {Ssh : SshLib R}.
Implicit Types (w : World R).
Abbreviation World := (World R).

(** ** Worlds up to the log and the metrics *)

Definition blind w : World :=
  MkWorld (remote w) NewMetrics [] (fallbackCounter w) (authent w) (gates w) (activeConnections w)
    (shuttingDown w) (sessions w) (conns w) (extras w) (paths w) (heap w) (flags w) (fresh w).

Definition alike : relation World := fun w w' => blind w = blind w'.

#[export] Instance alike_equivalence : Equivalence alike.
Proof. split; [done|by intros ? ?|]. intros w1 w2 w3. unfold alike. congruence. Qed.

(** Two computations that answer the same and go on the same. *)
Definition agrees {A} : relation (M World A) :=
  fun m m' => forall w w', alike w w' -> (m w).1 = (m' w').1 /\ alike (m w).2 (m' w').2.

#[export] Instance agrees_per A : PER (agrees (A := A)).
Proof.
  split.
  - intros m m' H w w' Hw. by destruct (H w' w (symmetry Hw)) as [-> ->].
  - intros m1 m2 m3 H12 H23 w w' Hw. destruct (H12 w w' Hw) as [-> ->]. by apply H23.
Qed.

#[export] Instance bind_proper A B :
  Proper (agrees ==> pointwise_relation A agrees ==> agrees (A := B)) bind.
Proof.
  intros m m' Hm k k' Hk w w' Hw. unfold bind. destruct (Hm w w' Hw) as [H1 H2].
  destruct (m w) as [a w1], (m' w') as [a' w1']. simpl in *. subst a'. by apply Hk.
Qed.

#[export] Instance ret_proper A (a : A) : Proper agrees (ret a).
Proof. by intros w w' Hw. Qed.

#[export] Instance bindE_proper E A B :
  Proper (agrees ==> pointwise_relation A agrees ==> agrees (A := result E B)) bindE.
Proof.
  intros m m' Hm k k' Hk. apply bind_proper; [done|]. intros [a|e]; [by apply Hk|apply ret_proper].
Qed.

(** *** What cannot be seen *)

Lemma count_unseen f : agrees (count f) (ret tt).
Proof. intros w w' Hw. split; [done|exact Hw]. Qed.
Lemma logger_unseen l m a : agrees (logger l m a) (ret tt).
Proof. intros w w' Hw. split; [done|exact Hw]. Qed.

Lemma skip {A} (m : M World unit) (k k' : unit -> M World A) :
  agrees m (ret tt) -> agrees (k tt) (k' tt) -> agrees (bind m k) (k' tt).
Proof.
  intros Hm Hk w w' Hw. unfold bind. destruct (Hm w w' Hw) as [_ H].
  destruct (m w) as [[] w1]. by apply Hk.
Qed.

(** *** What is made of the rest of the world *)

Lemma alike_inv w w' :
  alike w w' ->
  remote w = remote w' /\ fallbackCounter w = fallbackCounter w' /\ authent w = authent w' /\
  gates w = gates w' /\ activeConnections w = activeConnections w' /\
  shuttingDown w = shuttingDown w' /\ sessions w = sessions w' /\ conns w = conns w' /\
  extras w = extras w' /\ paths w = paths w' /\ heap w = heap w' /\ flags w = flags w' /\
  fresh w = fresh w'.
Proof. unfold alike, blind. intros [=]. by split_and!. Qed.

(** Split worlds that are alike into their fields. *)
Ltac alike :=
  intros [] [] H%alike_inv; simpl in H; destruct_and!; subst; simpl.

#[export] Instance on_remote_proper A (m : M R A) : Proper agrees (on_remote m).
Proof. unfold Proper, agrees. alike. unfold on_remote, zoom. simpl. by destruct (m _). Qed.
#[export] Instance on_ids_proper A (m : M Z A) : Proper agrees (on_ids m).
Proof. unfold Proper, agrees. alike. unfold on_ids, zoom. simpl. by destruct (m _). Qed.
#[export] Instance on_authent_proper A (m : M Authenticator A) : Proper agrees (on_authent m).
Proof. unfold Proper, agrees. alike. unfold on_authent, zoom. simpl. by destruct (m _). Qed.
#[export] Instance set_gates_proper f : Proper agrees (set_gates f).
Proof. unfold Proper, agrees. by alike. Qed.
#[export] Instance set_active_proper n : Proper agrees (set_active n).
Proof. unfold Proper, agrees. by alike. Qed.
#[export] Instance set_shuttingDown_proper b : Proper agrees (set_shuttingDown b).
Proof. unfold Proper, agrees. by alike. Qed.
#[export] Instance sessions_Add_proper n : Proper agrees (sessions_Add n).
Proof. unfold Proper, agrees. by alike. Qed.
#[export] Instance set_conns_proper f : Proper agrees (set_conns f).
Proof. unfold Proper, agrees. by alike. Qed.
#[export] Instance SetExtra_proper cc cs : Proper agrees (SetExtra cc cs).
Proof. unfold Proper, agrees. by alike. Qed.
#[export] Instance SetPath_proper cc q : Proper agrees (SetPath cc q).
Proof. unfold Proper, agrees. by alike. Qed.
#[export] Instance put_session_proper q s : Proper agrees (put_session q s).
Proof. unfold Proper, agrees. by alike. Qed.
#[export] Instance set_flag_proper q b : Proper agrees (set_flag q b).
Proof. unfold Proper, agrees. by alike. Qed.
#[export] Instance alloc_proper : Proper agrees alloc.
Proof. unfold Proper, agrees. by alike. Qed.
#[export] Instance get_session_proper q : Proper agrees (get_session q).
Proof. unfold Proper, agrees. by alike. Qed.
#[export] Instance TryAcquire_proper user : Proper agrees (TryAcquire user).
Proof.
  unfold Proper, agrees. alike. unfold TryAcquire. simpl.
  destruct (_ !! user) as [gt|]; [|done]. by destruct (Gate.TryAcquire gt).
Qed.

#[export] Instance count_proper f : Proper agrees (count f).
Proof. unfold Proper, agrees. by alike. Qed.
#[export] Instance logger_proper l m a : Proper agrees (logger l m a).
Proof. unfold Proper, agrees. by alike. Qed.

(** Looking at the world without looking at the log or the metrics. *)
Lemma get_agrees {A} (k k' : World -> M World A) :
  (forall w w', alike w w' -> agrees (k w) (k' w')) -> agrees (bind get k) (bind get k').
Proof. intros Hk w w' Hw. unfold bind, get. by apply Hk. Qed.

(** Go through two computations of the same shape. *)
Ltac agree_step :=
  match goal with
  | |- agrees (bind get _) _ => apply get_agrees; alike
  | |- agrees (bind _ _) _ => apply bind_proper; [|intros ?]
  | |- agrees (bindE _ _) _ => apply bindE_proper; [|intros ?]
  | |- agrees _ _ => solve [apply (_ : Proper agrees _)]
  | |- agrees (match ?x with _ => _ end) _ => destruct x eqn:?
  | |- Proper agrees _ => red
  end.
Ltac agree := repeat agree_step.

(** ** The handlers *)

#[export] Instance connector_proper u : Proper agrees (connector u).
Proof. unfold connector. agree. Qed.

#[export] Instance Session_SFTP_proper s : Proper agrees (Session.SFTP connector s).
Proof. unfold Session.SFTP. agree. Qed.
#[export] Instance Session_Invalidate_proper (s : Session (C := userRuntime)) : Proper agrees (Session.InvalidateSFTP (@on_remote R Lib) s).
Proof. unfold Session.InvalidateSFTP. agree. Qed.
#[export] Instance Session_Close_proper (s : Session (C := userRuntime)) : Proper agrees (Session.Close (@on_remote R Lib) s).
Proof. unfold Session.Close. agree. Qed.

#[export] Instance sess_SFTP_proper p : Proper agrees (sess_SFTP p).
Proof. unfold sess_SFTP. agree. Qed.
#[export] Instance sess_IsConnected_proper p : Proper agrees (sess_IsConnected p).
Proof. unfold sess_IsConnected. agree. Qed.
#[export] Instance sess_InvalidateSFTP_proper p : Proper agrees (sess_InvalidateSFTP p).
Proof. unfold sess_InvalidateSFTP. agree. Qed.
#[export] Instance sess_Close_proper p : Proper agrees (sess_Close p).
Proof. unfold sess_Close. agree. Qed.

#[export] Instance ClientConnected_proper g cc addr : Proper agrees (ClientConnected g cc addr).
Proof. unfold ClientConnected. agree. Qed.
#[export] Instance ClientDisconnected_proper cc : Proper agrees (ClientDisconnected (R := R) cc).
Proof. unfold ClientDisconnected. agree. Qed.
#[export] Instance AuthUser_proper compare dummy g cc addr user pass t now e :
  Proper agrees (AuthUser compare dummy g cc addr user pass t now e).
Proof. unfold AuthUser. agree. Qed.
#[export] Instance PrepareShutdown_proper : Proper agrees PrepareShutdown.
Proof. unfold PrepareShutdown. agree. Qed.

#[export] Instance recordTransfer_proper c p r : Proper agrees (recordTransfer c p r).
Proof. unfold recordTransfer. agree. Qed.
#[export] Instance release_proper k user : Proper agrees (release k user).
Proof. unfold release. agree. Qed.

Section driver.
Context (g : Gateway) (p : nat).

#[export] Instance audit_proper c v e : Proper agrees (audit p c v e).
Proof. unfold audit. agree. Qed.
#[export] Instance maybeInvalidate_proper e : Proper agrees (maybeInvalidate p e).
Proof. unfold maybeInvalidate. agree. Qed.
#[export] Instance remotePath_proper n : Proper agrees (remotePath p n).
Proof. unfold remotePath, resolveAndContain. agree. Qed.
#[export] Instance get_policy_proper : Proper agrees (get_policy p).
Proof. unfold get_policy. agree. Qed.
#[export] Instance checked_proper c : Proper agrees (checked (R := R) c).
Proof. unfold checked. agree. Qed.
#[export] Instance remote_op_proper A (m : M R (res A)) : Proper agrees (remote_op p m).
Proof. unfold remote_op. agree. Qed.

Lemma audit_unseen c v e : agrees (audit p c v e) (ret tt).
Proof.
  unfold audit. apply skip; [apply count_unseen|]. intros w w' Hw. unfold bind, get_session.
  destruct e; by apply logger_unseen.
Qed.

Lemma audited_agrees {A B} c q (m m' : M World (res A)) (k k' : A -> M World (res B)) :
  agrees m m' -> (forall a, agrees (k a) (k' a)) -> agrees (audited p c q m k) (bindE m' k').
Proof.
  intros Hm Hk. apply bind_proper; [done|]. intros [a|e]; [done|].
  apply (skip _ _ (fun _ => ret (Err e))); [apply audit_unseen|apply ret_proper].
Qed.

#[export] Instance audited_proper A B c q :
  Proper (agrees ==> pointwise_relation A agrees ==> agrees (A := res B)) (audited p c q).
Proof.
  intros m m' Hm k k' Hk. apply bind_proper; [done|]. intros [a|e]; [by apply Hk|]. agree.
Qed.

(** ** The pipeline of a file command *)

(** A lost or late connection is dropped, so that the next command dials. *)
Definition broken (e : error) : bool :=
  match KindOf e with KindSSHConnection | KindTimeout | KindDisconnected => true | _ => false end.

Definition drop_broken (err : option error) : M World unit :=
  match err with
  | Some e =>
      if broken e then
        let* connected := sess_IsConnected p in
        if connected then sess_InvalidateSFTP p else ret tt
      else ret tt
  | None => ret tt
  end.

(** Everything after the names. *)
Definition perform {X A} (needs : Policy -> option error)
  (act : Session (R := R) (C := userRuntime) -> X -> Client R -> M R (res A)) (x : X) : M World (res A) :=
  let* s := get_session p in
  try* _ := checked (needs (Session.policy s)) in
  try* sc := sess_SFTP p in
  let* r := on_remote (act s x sc) in
  do* drop_broken (err_of r) in
  ret r.

Definition pipeline {X A} (resolve : M World (res X)) (needs : Policy -> option error)
  (act : Session (R := R) (C := userRuntime) -> X -> Client R -> M R (res A)) : M World (res A) :=
  try* x := resolve in perform needs act x.

#[export] Instance drop_broken_proper e : Proper agrees (drop_broken e).
Proof. unfold drop_broken. agree. Qed.
#[export] Instance perform_proper {X A} needs act (x : X) : Proper agrees (perform (A := A) needs act x).
Proof. unfold perform. agree. Qed.

Definition allowed_always : Policy -> option error := fun _ => None.

Definition both (m m' : M World (res (string * string)))
  : M World (res ((string * string) * (string * string))) :=
  try* x := m in
  try* y := m' in
  ret (Ok (x, y)).

Lemma skip_last (m m' : M World unit) (k : unit -> M World unit) :
  agrees m m' -> agrees (k tt) (ret tt) -> agrees (bind m k) m'.
Proof.
  intros Hm Hk w w' Hw. unfold bind. destruct (Hm w w' Hw) as [H1 H2].
  destruct (m w) as [[] w1], (m' w') as [[] w1']. split; [by destruct (k tt w1) as [[] ?]|].
  by apply Hk.
Qed.

Lemma maybeInvalidate_drops e : agrees (maybeInvalidate p e) (drop_broken e).
Proof.
  unfold maybeInvalidate, drop_broken, broken. destruct e as [e|]; [|apply ret_proper].
  assert (agrees (let* connected := sess_IsConnected p in
     if connected then do* sess_InvalidateSFTP p in count (Gauge_Dec SFTPConnectionsActive) else ret tt)
    (let* connected := sess_IsConnected p in
     if connected then sess_InvalidateSFTP p else ret tt)) as H;
    [|destruct (KindOf e); first [exact H|apply ret_proper]].
  apply bind_proper; [apply sess_IsConnected_proper|]. intros []; [|apply ret_proper].
  apply skip_last; [apply sess_InvalidateSFTP_proper|apply count_unseen].
Qed.

(** The operation, audited or not. *)
Lemma remote_op_drops {A} (m : M R (res A)) (k k' : res A -> M World (res A)) :
  (forall r, agrees (k r) (k' r)) ->
  agrees (let* r := remote_op p m in k r)
         (let* r := on_remote m in do* drop_broken (err_of r) in k' r).
Proof.
  intros Hk w w' Hw.
  assert ((let* r := remote_op p m in k r) w =
          (let* r := on_remote m in do* maybeInvalidate p (err_of r) in k r) w) as ->.
  { unfold remote_op, bind. destruct (on_remote m w) as [r w1].
    by destruct (maybeInvalidate p (err_of r) w1). }
  revert w w' Hw. apply bind_proper; [apply on_remote_proper|]. intros r.
  apply bind_proper; [apply maybeInvalidate_drops|]. intros _. apply Hk.
Qed.

(** Dialling does not change whose session it is. *)
Lemma sess_SFTP_static w : sess_static (session_at p (sess_SFTP p w).2) = sess_static (session_at p w).
Proof.
  unfold sess_SFTP, get_session, bind, Session.SFTP.
  destruct (Session.closed _); [unfold session_at at 1; simpl; by rewrite lookup_insert_eq|].
  destruct (Session.sftp _); [unfold session_at at 1; simpl; by rewrite lookup_insert_eq|].
  unfold bind. destruct (connector _ w) as [[c|e] w1]; simpl;
    unfold session_at at 1; simpl; by rewrite lookup_insert_eq.
Qed.

Lemma session_before {A} (k : Session (R := R) (C := userRuntime) -> Client R -> M World (res A)) :
  (forall s s' sc, sess_static s = sess_static s' -> agrees (k s sc) (k s' sc)) ->
  agrees (try* sc := sess_SFTP p in let* s := get_session p in k s sc)
         (let* s := get_session p in try* sc := sess_SFTP p in k s sc).
Proof.
  intros Hk w w' Hw. unfold bindE, bind, get_session.
  pose proof (sess_SFTP_static w) as Hs. destruct (sess_SFTP_proper p w w' Hw) as [H1 H2].
  destruct (sess_SFTP p w) as [r w1], (sess_SFTP p w') as [r' w1']. simpl in *. subst r'.
  destruct r as [sc|e]; [|done]. apply Hk; [|done]. rewrite Hs. unfold session_at.
  apply alike_inv in Hw as (_ & _ & _ & _ & _ & _ & _ & _ & _ & _ & -> & _). done.
Qed.

(** The operation at the end of a command. *)
Lemma last_op {A} (m : M R (res A)) :
  agrees (remote_op p m) (let* r := on_remote m in do* drop_broken (err_of r) in ret r).
Proof.
  apply bind_proper; [apply on_remote_proper|]. intros r.
  apply bind_proper; [apply maybeInvalidate_drops|]. intros _. apply ret_proper.
Qed.

Lemma last_op_audited {A} c v (m : M R (res A)) :
  agrees (let* r := remote_op p m in do* audit p c v (err_of r) in ret r)
         (let* r := on_remote m in do* drop_broken (err_of r) in ret r).
Proof.
  apply remote_op_drops. intros r. apply (skip _ _ (fun _ => ret r)); [apply audit_unseen|apply ret_proper].
Qed.

Lemma simple_command_refines c n check (op : Client R -> string -> M R (res unit)) :
  agrees (simple_command p c n check op)
         (pipeline (remotePath p n) check (fun _ x sc => op sc x.2)).
Proof.
  apply audited_agrees; [apply remotePath_proper|]. intros [v r].
  change (agrees
    (audited p c v (let* pol := get_policy p in checked (check pol)) (fun _ =>
       audited p c v (sess_SFTP p) (fun sc =>
         let* r0 := remote_op p (op sc r) in do* audit p c v (err_of r0) in ret r0)))
    (try* _ := let* pol := get_policy p in checked (check pol) in
     try* sc := sess_SFTP p in
     let* r0 := on_remote (op sc r) in do* drop_broken (err_of r0) in ret r0)).
  apply audited_agrees; [agree|]. intros _.
  apply audited_agrees; [apply sess_SFTP_proper|]. intros sc. apply last_op_audited.
Qed.

Lemma Stat_refines n :
  agrees (Stat p n) (pipeline (remotePath p n) allowed_always (fun _ x sc => SftpClient.Stat sc x.2)).
Proof.
  apply audited_agrees; [apply remotePath_proper|]. intros [v r].
  change (agrees (audited p "STAT" v (sess_SFTP p) (fun sc => remote_op p (SftpClient.Stat sc r)))
    (try* sc := sess_SFTP p in
     let* r0 := on_remote (SftpClient.Stat sc r) in do* drop_broken (err_of r0) in ret r0)).
  apply audited_agrees; [apply sess_SFTP_proper|]. intros sc. apply last_op.
Qed.

Lemma both_agrees {A} m m' (k k' : (string * string) * (string * string) -> M World (res A)) :
  Proper agrees m -> Proper agrees m' -> (forall x, agrees (k x) (k' x)) ->
  agrees (try* x := m in try* y := m' in k (x, y)) (bindE (both m m') k').
Proof.
  intros Hm Hm' Hk w w' Hw. unfold both, bindE, bind. destruct (Hm w w' Hw) as [H1 H2].
  destruct (m w) as [[x|e] w1], (m w') as [rx w1']; simpl in *; subst rx; [|done].
  destruct (Hm' w1 w1' H2) as [H3 H4].
  destruct (m' w1) as [[y|e] w2], (m' w1') as [ry w2']; simpl in *; subst ry; [|done]. by apply Hk.
Qed.

Lemma Rename_refines a b :
  agrees (Rename p a b)
         (pipeline (both (remotePath p a) (remotePath p b)) CheckRename
            (fun s x sc => SftpClient.Rename sc x.1.2 x.2.2 (AllowOverwrite (Session.policy s)))).
Proof.
  set (act := fun _ _ _ => _). etransitivity;
    [|apply (both_agrees (remotePath p a) (remotePath p b) (perform CheckRename act) _ _ _);
      intros x; apply perform_proper].
  apply audited_agrees; [apply remotePath_proper|]. intros [v r].
  apply audited_agrees; [apply remotePath_proper|]. intros [v' r'].
  change (agrees (let* s := get_session p in
      audited p "RNTO" (v +:+ " -> " +:+ v') (checked (CheckRename (Session.policy s))) (fun _ =>
      audited p "RNTO" (v +:+ " -> " +:+ v') (sess_SFTP p) (fun sc =>
      let* r0 := remote_op p (SftpClient.Rename sc r r' (AllowOverwrite (Session.policy s))) in
      do* audit p "RNTO" (v +:+ " -> " +:+ v') (err_of r0) in ret r0)))
    (let* s := get_session p in
      try* _ := checked (CheckRename (Session.policy s)) in
      try* sc := sess_SFTP p in
      let* r0 := on_remote (SftpClient.Rename sc r r' (AllowOverwrite (Session.policy s))) in
      do* drop_broken (err_of r0) in ret r0)).
  apply bind_proper; [apply get_session_proper|]. intros s.
  apply audited_agrees; [apply checked_proper|]. intros _.
  apply audited_agrees; [apply sess_SFTP_proper|]. intros sc. apply last_op_audited.
Qed.

(** What a listing shows, and how long it may take. *)
Definition shown (entries : list FileInfo) : list FileInfo :=
  let marker := TransferConfig.TemporarySuffix (Config.Transfer (g_cfg g)) +:+ "-" in
  filter (fun e => Contains (SftpLib.Name e) marker = false) entries.

Definition listing_timeout (s : Session (R := R) (C := userRuntime)) : Z :=
  match g_users g !! Session.username s with
  | Some u => SFTPTargetConfig.ReadDirTimeout (UserConfig.SFTP (rt_cfg u))
  | None => 0
  end.

Lemma ReadDir_refines n :
  agrees (ReadDir g p n)
         (pipeline (remotePath p n) allowed_always (fun s x sc =>
            try* entries := SftpClient.ReadDir sc x.2 (listing_timeout s) in
            ret (Ok (shown entries)))).
Proof.
  apply audited_agrees; [apply remotePath_proper|]. intros [v r].
  set (k := fun s sc =>
    let* r0 := on_remote (try* entries := SftpClient.ReadDir sc r (listing_timeout s) in
                          ret (Ok (shown entries))) in
    do* drop_broken (err_of r0) in ret r0).
  change (agrees
    (audited p "LIST" v (sess_SFTP p) (fun sc => let* s := get_session p in
       let* r0 := remote_op p (SftpClient.ReadDir sc r (listing_timeout s)) in
       do* audit p "LIST" v (err_of r0) in
       match r0 with Err err => ret (Err err) | Ok entries => ret (Ok (shown entries)) end))
    (let* s := get_session p in try* sc := sess_SFTP p in k s sc)).
  etransitivity; [|apply session_before].
  - apply audited_agrees; [apply sess_SFTP_proper|]. intros sc.
    apply bind_proper; [apply get_session_proper|]. intros s. unfold k.
    intros w w' Hw.
    destruct (remote_op_drops (SftpClient.ReadDir sc r (listing_timeout s))
      (fun r0 => do* audit p "LIST" v (err_of r0) in
        match r0 with Err err => ret (Err err) | Ok entries => ret (Ok (shown entries)) end)
      (fun r0 => match r0 with Err err => ret (Err err) | Ok entries => ret (Ok (shown entries)) end))
      with (w := w) (w' := w') as [H1 H2]; [|done|].
    { intros r0. apply (skip _ _ (fun _ => _)); [apply audit_unseen|]. agree. }
    rewrite H1, H2. clear. unfold on_remote, zoom, bindE, bind, ret.
    destruct (SftpClient.ReadDir sc r (listing_timeout s) (remote w')) as [[es|e] r']; by split.
  - intros s s' sc Hs. unfold k. replace (listing_timeout s') with (listing_timeout s); [agree|].
    unfold listing_timeout. unfold sess_static in Hs. by injection Hs as _ -> _ _ _ _.
Qed.

(** C21. File commands are one pipeline.  Up to what they log and count, every
    file command resolves its names and confines them, then checks the
    policy of its session, then gets the session's connection, then performs
    its one operation at the remote paths, and drops a connection that
    broke; it stops at the first of these that fails, with that error. *)
Theorem commands_refine :
  (forall n, agrees (Stat p n)
     (pipeline (remotePath p n) allowed_always (fun _ x sc => SftpClient.Stat sc x.2))) /\
  (forall n, agrees (Mkdir p n)
     (pipeline (remotePath p n) CheckMkdir (fun _ x sc => SftpClient.Mkdir sc x.2))) /\
  (forall n, agrees (Remove p n)
     (pipeline (remotePath p n) CheckDelete (fun _ x sc => SftpClient.Remove sc x.2))) /\
  (forall n, agrees (RemoveDir p n)
     (pipeline (remotePath p n) CheckDelete (fun _ x sc => SftpClient.RemoveDirectory sc x.2))) /\
  (forall a b, agrees (Rename p a b)
     (pipeline (both (remotePath p a) (remotePath p b)) CheckRename
        (fun s x sc => SftpClient.Rename sc x.1.2 x.2.2 (AllowOverwrite (Session.policy s))))) /\
  (forall n, agrees (ReadDir g p n)
     (pipeline (remotePath p n) allowed_always (fun s x sc =>
        try* entries := SftpClient.ReadDir sc x.2 (listing_timeout s) in
        ret (Ok (shown entries))))).
Proof.
  split_and!; intros; [apply Stat_refines|apply simple_command_refines..|apply Rename_refines
                      |apply ReadDir_refines].
Qed.
End driver.

(** ** Transfers *)

Ltac agree_handler := repeat first [apply audited_proper; [|intros ?] | agree_step].

#[export] Instance run_command_proper g p c : Proper agrees (run_command g p c).
Proof.
  destruct c; unfold run_command, Stat, Mkdir, Remove, RemoveDir, simple_command, Rename, ReadDir, refuse;
    agree_handler.
Qed.

(** The file systems and callbacks the gateway hands to its transfers. *)
Class fs_blind (fs : RemoteFS World SftpFile) : Prop := {
  fb_Stat q :: Proper agrees (fs_Stat fs q);
  fb_OpenRead q :: Proper agrees (fs_OpenRead fs q);
  fb_CreateTemp q :: Proper agrees (fs_CreateTemp fs q);
  fb_Commit t f ow :: Proper agrees (fs_Commit fs t f ow);
  fb_Remove q :: Proper agrees (fs_Remove fs q);
  fb_Read h n :: Proper agrees (f_Read fs h n);
  fb_Write h bs :: Proper agrees (f_Write fs h bs);
  fb_Seek h o wh :: Proper agrees (f_Seek fs h o wh);
  fb_Close h :: Proper agrees (f_Close fs h);
}.

Lemma world_fs_blind sc : fs_blind (world_fs sc).
Proof. split; intros; apply on_remote_proper. Qed.

Definition hooks_blind (complete : option (Result.t -> M World unit)) (free : option (M World unit)) : Prop :=
  (forall f r, complete = Some f -> Proper agrees (f r)) /\ (forall f, free = Some f -> Proper agrees f).

Definition handle_blind (t : FileTransfer (R := R)) : Prop :=
  match t with
  | AnUpload u => fs_blind (Upload.fs u) /\
      hooks_blind (Upload.OnComplete (Upload.opts u)) (Upload.Release (Upload.opts u))
  | ADownload d => fs_blind (Download.fs d) /\
      hooks_blind (Download.OnComplete (Download.opts d)) (Download.Release (Download.opts d))
  end.

Lemma call_proper (f : option (M World unit)) : (forall m, f = Some m -> Proper agrees m) -> Proper agrees (call f).
Proof. intros H. destruct f; [by apply H|apply ret_proper]. Qed.

Lemma call_report_proper (f : option (Result.t -> M World unit)) r :
  (forall m r, f = Some m -> Proper agrees (m r)) -> Proper agrees (call (option_map (fun m => m r) f)).
Proof. intros H. apply call_proper. destruct f as [m|]; [|done]. intros ? [= <-]. by apply H. Qed.

Lemma Upload_Close_proper (u : Upload.UploadHandle World SftpFile) :
  handle_blind (AnUpload u) -> Proper agrees (Upload.Close u).
Proof.
  intros [Hfs [Hc Hr]]. unfold Upload.Close, Upload.finalize, Upload.complete.
  assert (forall r, Proper agrees (call (option_map (fun m => m r) (Upload.OnComplete (Upload.opts u))))) as Hcall
    by (intros r; by apply call_report_proper).
  assert (Proper agrees (call (Upload.Release (Upload.opts u)))) as Hrel by (by apply call_proper).
  destruct (Upload.closed u); [apply ret_proper|].
  apply bind_proper; [exact (fb_Close (Upload.file u))|]. intros ce.
  set (u' := match ce with Ok _ => _ | Err _ => _ end).
  assert (Upload.fs u' = Upload.fs u) as Hfs' by (by destruct ce).
  assert (Upload.opts u' = Upload.opts u) as Ho by (by destruct ce).
  rewrite Hfs', Ho. clearbody u'. agree.
Qed.

Lemma Download_Close_proper (d : Download.DownloadHandle World SftpFile) :
  handle_blind (ADownload d) -> Proper agrees (Download.Close d).
Proof.
  intros [Hfs [Hc Hr]]. unfold Download.Close.
  assert (forall r, Proper agrees (call (option_map (fun m => m r) (Download.OnComplete (Download.opts d))))) as Hcall
    by (intros r; by apply call_report_proper).
  assert (Proper agrees (call (Download.Release (Download.opts d)))) as Hrel by (by apply call_proper).
  destruct (Download.closed d); [apply ret_proper|].
  apply bind_proper; [exact (fb_Close (Download.file d))|]. intros ce. agree.
Qed.

(** A call on a handle, with the handle it leaves. *)
Lemma call_handle_proper t c : handle_blind t -> Proper agrees (call_handle t c).
Proof.
  intros Ht. destruct t as [u|d]; simpl.
  - pose proof (Upload_Close_proper u Ht). destruct Ht as [Hfs _].
    destruct c; simpl; unfold Upload.Write; agree.
  - pose proof (Download_Close_proper d Ht). destruct Ht as [Hfs _].
    destruct c; simpl; unfold Download.Read, Download.Seek; agree.
Qed.

Lemma call_handle_blind t c w t' w' :
  handle_blind t -> call_handle t c w = (t', w') -> handle_blind t'.
Proof.
  destruct t as [u|d]; unfold call_handle; intros H.
  - intros (u' & w1 & H1 & [= <- _])%bind_inv. simpl.
    assert (static u' = static u) as (-> & _ & _ & _ & ->)%static_inj; [|done].
    destruct c; unfold hstep in H1; try by apply ustep_keeps in H1 as [H1 _].
    by apply bind_inv in H1 as ([r u2] & w2 & [H1 _]%Close_keeps & [= <- _]).
  - assert (forall d', Download.fs d' = Download.fs d /\ Download.opts d' = Download.opts d ->
      handle_blind (ADownload d')) as Hd by (intros d' [Hf Ho]; simpl; by rewrite Hf, Ho).
    assert (forall op be d' w1, dstep d op w = ((be, d'), w1) -> handle_blind (ADownload d')) as Hstep.
    { intros op be d' w1 E. apply Hd.
      apply (dstep_seen (fun _ => tt) (Download.fs d)) in E as [_ [= Hf _ _ Ho _]]; [done|by split|done]. }
    destruct c; intros ([r d'] & w1 & E & [= <- _])%bind_inv; try by eapply Hstep.
    by apply Hd, (Download_Close_keeps _ _ _ _ _ E).
Qed.

(** What [GetHandle] hands out is blind, and it is itself. *)
#[export] Instance NewUpload_proper fs final o :
  fs_blind fs -> Proper agrees (Upload.NewUpload fs final o).
Proof. intros Hfs. unfold Upload.NewUpload. agree. Qed.
#[export] Instance NewDownload_proper fs path o :
  fs_blind fs -> Proper agrees (Download.NewDownload fs path o).
Proof. intros Hfs. unfold Download.NewDownload. agree. Qed.
#[export] Existing Instance world_fs_blind.

#[export] Instance GetHandle_proper g p name fl e : Proper agrees (GetHandle g p name fl e).
Proof. unfold GetHandle, beginUpload, beginDownload. agree_handler. Qed.

Lemma beginUpload_blind g p sc v q fl e w t w' :
  beginUpload g p sc v q fl e w = (Ok t, w') -> handle_blind t.
Proof.
  unfold beginUpload. destruct (negb _); [done|]. intros (s & w1 & _ & H)%bind_inv.
  apply audited_ok in H as (y & w2 & _ & (acquired & w3 & _ & H)%bind_inv).
  destruct acquired; simpl in H; [|by apply bind_inv in H as (? & ? & _ & [=])].
  apply bind_inv in H as (k & w4 & _ & H). do 4 apply bind_inv in H as (_ & ? & _ & H).
  apply bind_inv in H as (tid & w5 & _ & ([u|err] & w6 & H1 & H2)%bind_inv).
  - injection H2 as <- _.
    apply bindE_inv_ok in H1 as (z & w7 & _ & (h & w8 & _ & [= <- _])%bindE_inv_ok).
    split; [apply world_fs_blind|]. split; [intros f r [= <-]; apply _|intros f [= <-]; apply _].
  - by repeat apply bind_inv in H2 as (? & ? & _ & H2).
Qed.

Lemma beginDownload_blind g p sc v q e w t w' :
  beginDownload g p sc v q e w = (Ok t, w') -> handle_blind t.
Proof.
  unfold beginDownload. intros (s & w1 & _ & H)%bind_inv.
  apply audited_ok in H as (y & w2 & _ & (acquired & w3 & _ & H)%bind_inv).
  destruct acquired; simpl in H; [|by apply bind_inv in H as (? & ? & _ & [=])].
  apply bind_inv in H as (k & w4 & _ & H). do 3 apply bind_inv in H as (_ & ? & _ & H).
  apply bind_inv in H as (tid & w5 & _ & ([d|err] & w6 & H1 & H2)%bind_inv).
  - injection H2 as <- _. apply bindE_inv_ok in H1 as (h & w8 & _ & [= <- _]).
    split; [apply world_fs_blind|]. split; [intros f r [= <-]; apply _|intros f [= <-]; apply _].
  - by repeat apply bind_inv in H2 as (? & ? & _ & H2).
Qed.

Lemma GetHandle_blind g p name fl e w t w' :
  GetHandle g p name fl e w = (Ok t, w') -> handle_blind t.
Proof.
  unfold GetHandle. intros ([v q] & w1 & _ & (sc & w2 & _ & H)%audited_ok)%audited_ok.
  destruct (negb _); [by eapply beginUpload_blind|by eapply beginDownload_blind].
Qed.

(** ** The running gateway *)
Section running.
Context (CompareHashAndPassword : string -> string -> option error) (dummyHash : string) (g : Gateway).

(** What a callback answers to the library. *)
Inductive answer :=
  | AGreeting (r : string * option error)
  | ALogin (r : res nat)
  | AReply (e : option error)
  | AOpened (r : res FileTransfer)
  | AHandle (t : FileTransfer (R := R))
  | ANothing.

Definition sys_answer (s : Sys) (i : input) : answer :=
  let w := sys_world s in
  match i with
  | IConnected cc addr => AGreeting (ClientConnected g cc addr w).1
  | IAuth cc addr user pass t now e =>
      ALogin (AuthUser CompareHashAndPassword dummyHash g cc addr user pass t now e w).1
  | ICommand p c => AReply (run_command g p c w).1
  | IGetHandle p name fl e => AOpened (GetHandle g p name fl e w).1
  | ICall k c =>
      match transfers s !! k with
      | Some t => AHandle (call_handle (t_handle t) c w).1
      | None => ANothing
      end
  | IDisconnected _ | IPrepareShutdown => ANothing
  end.

Abbreviation step := (sys_step CompareHashAndPassword dummyHash g).
Abbreviation run := (sys_run CompareHashAndPassword dummyHash g).

Fixpoint sys_answers (s : Sys) (ins : list input) : list answer :=
  match ins with [] => [] | i :: ins => sys_answer s i :: sys_answers (step s i) ins end.

(** The same gateway with another log and other metrics. *)
Definition sys_alike (s s' : Sys) : Prop :=
  alike (sys_world s) (sys_world s') /\ transfers s = transfers s' /\
  map_Forall (fun _ t => handle_blind (t_handle t)) (transfers s).

Lemma step_alike s s' i :
  sys_alike s s' -> sys_answer s i = sys_answer s' i /\ sys_alike (step s i) (step s' i).
Proof.
  intros (Hw & Ht & Hb).
  assert (forall A (m : M World A) (f : A -> answer), Proper agrees m ->
    f (m (sys_world s)).1 = f (m (sys_world s')).1 /\
    sys_alike (MkSys (m (sys_world s)).2 (transfers s)) (MkSys (m (sys_world s')).2 (transfers s'))) as Honly.
  { intros A m f Hm. destruct (Hm _ _ Hw) as [-> ?]. by split_and!. }
  destruct i as [cc addr|cc|cc addr user pass t now e|p c|p name fl e|k c|].
  - apply (Honly _ _ AGreeting), _.
  - apply (Honly _ _ (fun _ => ANothing)), _.
  - apply (Honly _ _ ALogin), _.
  - apply (Honly _ _ AReply), _.
  - simpl. pose proof (GetHandle_proper g p name fl e _ _ Hw) as [H1 H2].
    destruct (GetHandle g p name fl e (sys_world s)) as [r w] eqn:E,
      (GetHandle g p name fl e (sys_world s')) as [r' w']. simpl in *. subst r'. split; [done|].
    destruct r as [t|err]; [|by split_and!]. split_and!; [done| |].
    + simpl. apply alike_inv in Hw, H2. destruct_and!. unfold who, session_at. congruence.
    + apply map_Forall_insert_2; [|done]. by eapply GetHandle_blind.
  - simpl. rewrite <- Ht. destruct (transfers s !! k) as [t|] eqn:Hk; [|by split_and!].
    pose proof (call_handle_proper _ c (Hb _ _ Hk) _ _ Hw) as [H1 H2].
    destruct (call_handle (t_handle t) c (sys_world s)) as [h w] eqn:E,
      (call_handle (t_handle t) c (sys_world s')) as [h' w']. simpl in *. subst h'. split; [done|].
    split_and!; [done|simpl; congruence|]. apply map_Forall_insert_2; [|done]. simpl.
    eapply call_handle_blind; [|exact E]. by apply (Hb k).
  - apply (Honly _ _ (fun _ => ANothing)), _.
Qed.

(** C24. Logs and metrics change nothing.  Two gateways that differ in what
    they have logged and counted so far give the same answers to the same
    callbacks, for ever, and leave the same state of everything else, the
    remote server included. *)
Theorem observability_transparent ins s s' :
  sys_alike s s' ->
  sys_answers s ins = sys_answers s' ins /\ sys_alike (run s ins) (run s' ins).
Proof.
  revert s s'. induction ins as [|i ins IH]; intros s s' H; simpl; [done|].
  apply (step_alike _ _ i) in H as [-> H]. destruct (IH _ _ H) as [-> ?]. done.
Qed.
End running.
End transparency.

(** The demo gateway, and one with a log and metrics from before. *)
Definition demo_noisy : Sys (R := MemFS) :=
  MkSys ((let* _ := logger LevelWarn "earlier" [] in count (Counter_Inc FTPCommandsTotal)) (sys_world demo_start)).2 ∅.

Lemma observability_transparent_witness :
  length (log (sys_world demo_noisy)) = 1%nat /\
  sys_answers plain_compare "" (NewGateway demo_gateway_config) demo_start demo_uploads =
  sys_answers plain_compare "" (NewGateway demo_gateway_config) demo_noisy demo_uploads.
Proof.
  split; [reflexivity|]. refine (proj1 (observability_transparent plain_compare "" _ demo_uploads _ _ _)).
  by split_and!.
Defined.
