(* ===== verification/Quiet.v ===== *)
(** * Transfers that leave an observation alone

    Opening a transfer and calling its handle move gates, transfer gauges
    and the remote side.  An observation of the world that none of those
    touches is unchanged by every call on every handle, and an assertion
    about it is kept by [GetHandle]. *)
From S2P Require Import Prelude GoStrings GoPath Errors Filesystem Authorization Limiter Auth SftpLib SshDial SftpClient Metrics Observability Config Session Transfer UploadSpec TransferSpec DownloadSpec Gateway Driver Triples Accounting System.
Open Scope string_scope.
Open Scope list_scope.
Open Scope Z_scope.

Section quiet.
Context {R : Type} {Lib : SftpLib R} {Ssh : SshLib R} {T : Type}.
Implicit Types (w : World R).

(** What transfers are made of leaves [seen] alone; [I] is about [seen] and
    survives an allocation. *)
Record Quiet (seen : World R -> T) (I : World R -> Prop) : Prop := {
  q_keeps {A} (m : M (World R) A) : silent seen m -> keeps I m;
  q_alloc : keeps I alloc;
  q_remote {A} (m : M R A) : silent seen (on_remote m);
  q_flag k b : silent seen (set_flag k b);
  q_gauge g n : g = TransferActive \/ g = TemporaryFilesPending ->
    silent seen (count (fun m => Gauge_Set g (n m) m));
  q_total : silent seen (count (Counter_Inc TransferTotal));
  q_report c p r : silent seen (recordTransfer c p r);
  q_release k user : silent seen (release k user);
  q_acquire user : silent seen (TryAcquire user);
}.

(** The handle leaves the observation alone. *)
Definition quiet_handle (seen : World R -> T) : FileTransfer (R := R) -> Prop :=
  observed seen (fun _ _ v => v) (fun v => v).

Lemma quiet_call seen t c w t' w' :
  quiet_handle seen t -> call_handle t c w = (t', w') -> quiet_handle seen t' /\ seen w' = seen w.
Proof.
  intros Ht E. apply (call_handle_spec seen (fun _ _ v => v) (fun v => v)) in E as (Ht' & _ & Hc); [|done].
  split; [done|]. unfold called in Hc. destruct (negb _ && _); [by destruct Hc|by destruct Hc].
Qed.

Section opening.
Context (seen : World R -> T) (I : World R -> Prop) (HQ : Quiet seen I) (p : nat) (HR : respected p I).

Lemma quiet_world_fs sc : fs_silent seen (world_fs sc).
Proof. split; intros; apply (q_remote _ _ HQ). Qed.

Lemma quiet_upload g s tid vp k sc :
  recorded seen (fun _ v => v) (fun v => v) (world_fs sc) (upload_options g p s tid vp k).
Proof.
  split; [apply quiet_world_fs|eexists; split; [done|]..].
  - intros r w. apply (q_report _ _ HQ).
  - apply (q_release _ _ HQ).
Qed.
Lemma quiet_download g s tid vp k sc :
  drecorded seen (fun _ v => v) (fun v => v) (world_fs sc) (download_options g p s tid vp k).
Proof.
  split; [apply quiet_world_fs|eexists; split; [done|]..].
  - intros r w. apply (q_report _ _ HQ).
  - apply (q_release _ _ HQ).
Qed.

(** What [GetHandle] returns is quiet. *)
Definition quietly (r : res (FileTransfer (R := R))) w : Prop :=
  I w /\ match r with Ok t => quiet_handle seen t | Err _ => True end.

Lemma quietly_refused (m : M (World R) unit) e :
  keeps I m -> triple I (do* m in ret (Err e)) quietly.
Proof. intros Hm. apply triple_keeps; [done|]. intros _. by apply triple_ret. Qed.

Lemma quiet_then {A B} (m : M (World R) A) (f : A -> M (World R) B) Q :
  silent seen m -> (forall a, triple I (f a) Q) -> triple I (bind m f) Q.
Proof. intros Hm. by apply triple_keeps, (q_keeps _ _ HQ). Qed.

Lemma quietly_NewUpload sc final o (f : res _ -> M (World R) _) :
  (forall e, triple I (f (Err e)) quietly) ->
  (forall u, Upload.fs u = world_fs sc -> Upload.opts u = o -> triple I (f (Ok u)) quietly) ->
  triple I (let* r := Upload.NewUpload (world_fs sc) final o in f r) quietly.
Proof.
  intros He Hu w Hw. unfold bind. pose proof (quiet_world_fs sc) as Hfs.
  assert (keeps I (Upload.NewUpload (world_fs sc) final o)) as Hk.
  { apply keeps_bindE; [destruct (negb _); [apply keeps_bind|]; try by intros; intros w'|].
    - by apply (q_keeps _ _ HQ), Hfs.
    - intros _. apply keeps_bindE; [|by intros ? w']. by apply (q_keeps _ _ HQ), Hfs. }
  specialize (Hk w Hw).
  destruct (Upload.NewUpload (world_fs sc) final o w) as [[u|e] w1] eqn:E; [|by apply He].
  apply bindE_inv_ok in E as (x & w2 & _ & (h & w3 & _ & [= <- _])%bindE_inv_ok). by apply Hu.
Qed.

Lemma quietly_beginUpload g sc vp rp fl e : triple I (beginUpload g p sc vp rp fl e) quietly.
Proof.
  unfold beginUpload. destruct (negb _); [by apply triple_ret|].
  apply quiet_then; [done|]. intros s.
  apply triple_audited; [done|by apply keeps_ret|done|]. intros _.
  apply quiet_then; [apply (q_acquire _ _ HQ)|]. intros []; simpl;
    [|by apply quietly_refused, keeps_audit].
  apply triple_keeps; [apply (q_alloc _ _ HQ)|]. intros k.
  apply quiet_then; [apply (q_flag _ _ HQ)|intros _].
  apply quiet_then; [apply (q_gauge _ _ HQ TransferActive); by left|intros _].
  apply quiet_then; [apply (q_total _ _ HQ)|intros _].
  apply quiet_then; [apply (q_gauge _ _ HQ TemporaryFilesPending); by right|intros _].
  apply triple_keeps; [by eapply keeps_on_ids|]. intros tid. apply quietly_NewUpload.
  - intros err. apply quiet_then; [apply (q_gauge _ _ HQ TemporaryFilesPending); by right|intros _].
    apply quiet_then; [apply (q_release _ _ HQ)|intros _].
    by apply quietly_refused, keeps_audit.
  - intros u Hf Ho. apply triple_ret. intros w Hw. split; [done|]. simpl. rewrite Hf, Ho.
    apply quiet_upload.
Qed.

Lemma quietly_beginDownload g sc vp rp e : triple I (beginDownload g p sc vp rp e) quietly.
Proof.
  unfold beginDownload. apply quiet_then; [done|]. intros s.
  apply triple_audited; [done|by apply keeps_ret|done|]. intros _.
  apply quiet_then; [apply (q_acquire _ _ HQ)|]. intros []; simpl;
    [|by apply quietly_refused, keeps_audit].
  apply triple_keeps; [apply (q_alloc _ _ HQ)|]. intros k.
  apply quiet_then; [apply (q_flag _ _ HQ)|intros _].
  apply quiet_then; [apply (q_gauge _ _ HQ TransferActive); by left|intros _].
  apply quiet_then; [apply (q_total _ _ HQ)|intros _].
  apply triple_keeps; [by eapply keeps_on_ids|]. intros tid w Hw. unfold bind.
  assert (keeps I (Download.NewDownload (world_fs sc) rp (download_options g p s tid vp k))) as Hk.
  { apply keeps_bindE; [|by intros ? w']. by apply (q_keeps _ _ HQ), quiet_world_fs. }
  specialize (Hk w Hw). destruct (Download.NewDownload _ _ _ w) as [[d|err] w1] eqn:E.
  - apply bindE_inv_ok in E as (h & w3 & _ & [= <- _]). split; [done|]. apply quiet_download.
  - pose proof (q_keeps _ _ HQ _ (q_release _ _ HQ k (Session.username s)) w1 Hk) as H2.
    destruct (release k (Session.username s) w1) as [x w2].
    by apply (quietly_refused _ err (keeps_audit p _ HR "RETR" vp (Some err))).
Qed.

Lemma quietly_GetHandle g name fl e : triple I (GetHandle g p name fl e) quietly.
Proof.
  unfold GetHandle.
  apply triple_audited; [done|by eapply keeps_remotePath|done|]. intros [vp rp].
  apply triple_audited; [done|by eapply keeps_SFTP|done|]. intros sc.
  destruct (negb _); [apply quietly_beginUpload|apply quietly_beginDownload].
Qed.
End opening.
End quiet.
