(* ===== verification/Connections.v ===== *)
(** * What connections and sessions hold

    In every reachable state of the gateway: the admission counter and its
    gauge are the connections that are open, never more than
    [maxConnections]; the SFTP gauge counts the sessions that hold an SFTP
    connection; the wait group counts the sessions that are not closed. *)
From S2P Require Import Prelude GoStrings GoPath Errors Filesystem Authorization Limiter Auth SftpLib MemServer SshDial SftpClient Metrics Observability Config Session Transfer UploadSpec TransferSpec DownloadSpec Gateway Driver Triples Accounting System Quiet.
Open Scope string_scope.
Open Scope list_scope.
Open Scope Z_scope.

Section connections.
Context {R : Type} {Lib : SftpLib R} {Ssh : SshLib R}.
Context (CompareHashAndPassword : string -> string -> option error) (dummyHash : string).
Abbreviation session := (Session (R := R) (C := userRuntime)).
Implicit Types (w : World R).

Record cview := MkCview {
  v_active : Z;
  v_ftp : Z;
  v_sftp : Z;
  v_sessions : Z;
  v_conns : gset Z;
  v_extras : gmap Z connState;
  v_heap : gmap nat session;
  v_fresh : nat;
}.

Definition cview_of w : cview :=
  MkCview (activeConnections w) (gval (metrics w) FTPConnectionsActive)
    (gval (metrics w) SFTPConnectionsActive) (sessions w) (conns w) (extras w) (heap w) (fresh w).

Definition connected (s : session) : bool := Session.IsConnected s.
Definition unclosed (s : session) : bool := negb (Session.closed s).

Record conns_inv (max : Z) (v : cview) : Prop := {
  ci_active : v_active v = Z.of_nat (size (v_conns v)) /\ v_active v <= max;
  ci_ftp : v_ftp v = v_active v;
  ci_sftp : v_sftp v = wrap64 (tally connected (v_heap v));
  ci_sessions : v_sessions v = tally unclosed (v_heap v);
  ci_admitted cc cs : v_extras v !! cc = Some cs -> admitted cs = true;
  ci_in cc : cc ∈ v_conns v -> is_Some (v_extras v !! cc);
  ci_sess cc cs p : cc ∈ v_conns v -> v_extras v !! cc = Some cs -> cs_sess cs = Some p ->
    exists s, v_heap v !! p = Some s /\ Session.closed s = false;
  ci_inj cc1 cc2 cs1 cs2 p : cc1 ∈ v_conns v -> cc2 ∈ v_conns v ->
    v_extras v !! cc1 = Some cs1 -> v_extras v !! cc2 = Some cs2 ->
    cs_sess cs1 = Some p -> cs_sess cs2 = Some p -> cc1 = cc2;
  ci_heap p s : v_heap v !! p = Some s ->
    (p < v_fresh v)%nat /\ (Session.closed s = true -> Session.sftp s = None);
}.

(** A session changes its connection, not whether it is closed. *)
Definition with_session (p : nat) (s : session) (n : Z) (v : cview) : cview :=
  MkCview (v_active v) (v_ftp v) n (v_sessions v) (v_conns v) (v_extras v)
    (<[p := s]> (v_heap v)) (v_fresh v).

Lemma conns_inv_session max v p s s' :
  conns_inv max v -> v_heap v !! p = Some s -> Session.closed s' = Session.closed s ->
  (Session.closed s' = true -> Session.sftp s' = None) ->
  conns_inv max (with_session p s'
    (wrap64 (v_sftp v - bit (connected s) + bit (connected s'))) v).
Proof.
  intros [Ha Hf Hs Hn Had Hi Hse Hinj Hh] Hp Hc Hcl. split; simpl; try done.
  - rewrite (tally_insert _ _ s) by done. rewrite Hs.
    rewrite <- (Z.add_opp_r (wrap64 _)), <- Z.add_assoc, wrap64_add_l.
    by rewrite Z.add_assoc.
  - rewrite (tally_insert _ _ s) by done. unfold unclosed at 2 3. rewrite Hc.
    by rewrite Z.sub_add.
  - intros cc cs q Hcc Hex Hq. destruct (Hse _ _ _ Hcc Hex Hq) as (sq & Hsq & Hclq).
    destruct (decide (q = p)) as [->|Hne].
    + exists s'. rewrite lookup_insert_eq. split; [done|]. congruence.
    + exists sq. by rewrite lookup_insert_ne.
  - intros q sq. rewrite lookup_insert_Some. intros [[<- <-]|[_ H]]; [|by apply Hh].
    split; [by apply Hh in Hp as []|done].
Qed.

Definition cinv max (p : nat) w : Prop :=
  conns_inv max (cview_of w) /\ is_Some (heap w !! p).

Lemma cview_remote {A} (m : M R A) : silent cview_of (on_remote m).
Proof. intros w. unfold on_remote, zoom. by destruct (m (remote w)). Qed.

Lemma keeps_cview {A} max p (m : M (World R) A) : silent cview_of m -> keeps (cinv max p) m.
Proof.
  intros Hm w [Hv Hp]. unfold cinv. rewrite Hm. split; [done|].
  specialize (Hm w). by injection Hm as _ _ _ _ _ _ -> _.
Qed.

Lemma cview_connector u w :
  cview_of (connector u w).2 = cview_of w /\ is_ok (connector u w).1 = false \/
  is_ok (connector u w).1 = true /\
  cview_of (connector u w).2 =
    MkCview (activeConnections w) (gval (metrics w) FTPConnectionsActive)
      (wrap64 (gval (metrics w) SFTPConnectionsActive + 1)) (sessions w) (conns w) (extras w) (heap w)
      (fresh w).
Proof.
  unfold connector, bind.
  pose proof (cview_remote (Dial (dial_config (rt_cfg u))) w) as H1.
  destruct (on_remote (Dial _) w) as [[ssh|e] w1]; simpl in H1; [|by left; rewrite <- H1].
  match goal with |- context [on_remote ?m w1] => pose proof (cview_remote m w1) as H2;
    destruct (on_remote m w1) as [[cl|e] w2] end; simpl in H2; rewrite <- H1, <- H2; [|by left].
  right. rewrite H1 in H2. injection H2 as ? ? ? ? ? ? ? ?. split; [done|]. unfold cview_of. simpl.
  congruence.
Qed.

Lemma cinv_SFTP max p : keeps (cinv max p) (sess_SFTP p).
Proof.
  intros w [Hv [s Hs]]. unfold cinv, sess_SFTP, get_session, bind, Session.SFTP.
  assert (session_at p w = s) as Hat by (unfold session_at; by rewrite Hs).
  assert (forall x w', x = s -> w' = w -> conns_inv max (cview_of (put_session p x w').2) /\
            is_Some (heap (put_session p x w').2 !! p)) as Hsame.
  { intros x w' -> ->. unfold cview_of. simpl. rewrite insert_id by done. by split; [|exists s]. }
  rewrite Hat. destruct (Session.closed s) eqn:Hc; [by apply Hsame|].
  destruct (Session.sftp s) as [c|] eqn:Hsf; [by apply Hsame|].
  unfold bind. pose proof (cview_connector (Session.connect s) w) as H.
  destruct (connector (Session.connect s) w) as [[c|e] w1]; simpl in H.
  - destruct H as [[_ ?]|[_ H]]; [done|].
    pose proof (conns_inv_session max _ p s (Session.set_sftp (Some c) s) Hv Hs) as Hn.
    simpl in Hn. specialize (Hn eq_refl ltac:(by rewrite Hc)).
    split; [|exists (Session.set_sftp (Some c) s); apply lookup_insert_eq].
    injection H as ? ? ? ? ? ? ? ?. unfold cview_of. simpl.
    unfold connected, Session.IsConnected in Hn. simpl in Hn. rewrite Hsf in Hn.
    unfold with_session in Hn. simpl in Hn. rewrite Z.sub_0_r in Hn. congruence.
  - destruct H as [[H _]|[? _]]; [|done]. injection H as ? ? ? ? ? ? ? ?.
    unfold cview_of. simpl. replace (heap w1) with (heap w) by congruence.
    rewrite insert_id by done. split; [|by exists s]. unfold cview_of in Hv. congruence.
Qed.

(** Dropping the connection of a session that has one. *)
Lemma cview_drop p s w :
  heap w !! p = Some s -> connected s = true ->
  cview_of ((do* sess_InvalidateSFTP p in count (Gauge_Dec SFTPConnectionsActive)) w).2
  = with_session p (Session.set_sftp None s) (wrap64 (gval (metrics w) SFTPConnectionsActive - 1))
      (cview_of w).
Proof.
  intros Hs Hc. unfold sess_InvalidateSFTP, get_session, bind, Session.InvalidateSFTP.
  unfold session_at. rewrite Hs. simpl. unfold connected, Session.IsConnected in Hc.
  destruct (Session.sftp s) as [c|] eqn:Hsf; [|done]. unfold bind.
  pose proof (cview_remote (SftpClient.Close c) w) as H.
  destruct (on_remote (SftpClient.Close c) w) as [x w1]. simpl in H.
  injection H as ? ? ? ? ? ? ? ?. unfold cview_of, with_session. simpl. congruence.
Qed.

Lemma cinv_maybeInvalidate max p e : keeps (cinv max p) (maybeInvalidate p e).
Proof.
  unfold maybeInvalidate. destruct e as [e|]; [|apply keeps_ret].
  assert (keeps (cinv max p) (let* connected := sess_IsConnected p in
    if connected then do* sess_InvalidateSFTP p in count (Gauge_Dec SFTPConnectionsActive)
    else ret tt)) as H.
  { intros w [Hv [s Hs]]. unfold sess_IsConnected, get_session. 
    unfold bind at 1, bind at 1. unfold session_at. rewrite Hs. simpl.
    destruct (Session.IsConnected s) eqn:Hc; [|by split; [|exists s]].
    unfold cinv. pose proof (cview_drop p s w Hs Hc) as Hd.
    destruct ((do* sess_InvalidateSFTP p in _) w) as [x w']. simpl in *. rewrite Hd.
    pose proof (conns_inv_session max _ p s (Session.set_sftp None s) Hv Hs eq_refl ltac:(done)) as Hn.
    split.
    - unfold connected in Hn. rewrite Hc in Hn. simpl in Hn. by rewrite Z.add_0_r in Hn.
    - injection Hd as _ _ _ _ _ _ -> _. exists (Session.set_sftp None s). apply lookup_insert_eq. }
  destruct (KindOf e); first [exact H | apply keeps_ret].
Qed.

Lemma cinv_respected max p : respected p (cinv max p).
Proof.
  split; intros.
  - by apply keeps_cview.
  - by apply keeps_cview.
  - apply keeps_cview. intros w. unfold on_ids, zoom. by destruct (m (fallbackCounter w)).
  - apply cinv_SFTP.
  - apply cinv_maybeInvalidate.
Qed.

(** ** Connecting, disconnecting and authenticating *)

Lemma cinv_ClientConnected g cc addr w :
  let max := ServerConfig.MaxConnections (Server (g_cfg g)) in
  0 <= max < max_int64 -> extras w !! cc = None ->
  conns_inv max (cview_of w) -> conns_inv max (cview_of (ClientConnected g cc addr w).2).
Proof.
  intros max Hmax Hcc Hv. unfold ClientConnected, bind, get. simpl.
  destruct (shuttingDown w); [done|]. simpl. fold max.
  pose proof Hv as [[Ha Hle] Hf Hs Hn Had Hi Hse Hinj Hh]. simpl in *.
  assert (0 <= activeConnections w) by (rewrite Ha; lia).
  rewrite wrap64_id by (unfold in_int64, min_int64, max_int64 in *; lia).
  assert (cc ∉ conns w) as Hnin by (intros [cs ?]%Hi; congruence).
  destruct (_ >? max) eqn:E; bool_to_prop; simpl.
  - rewrite Z.add_simpl_r, wrap64_id by (unfold in_int64, min_int64, max_int64 in *; lia). done.
  - unfold cview_of. simpl. split; simpl; try done.
    + rewrite size_union by set_solver. rewrite size_singleton. lia.
    + rewrite Hf, wrap64_id; [done|].
      unfold in_int64, min_int64, max_int64 in *. lia.
    + intros cc' cs. rewrite lookup_insert_Some. intros [[_ <-]|[_ H1]]; [done|by eapply Had].
    + intros cc' [->%elem_of_singleton|H1]%elem_of_union; [rewrite lookup_insert_eq; eauto|].
      rewrite lookup_insert_ne by set_solver. auto.
    + intros cc' cs p H1 H2 H3. destruct (decide (cc' = cc)) as [->|Hne].
      * rewrite lookup_insert_eq in H2. by injection H2 as <-.
      * rewrite lookup_insert_ne in H2 by done. eapply Hse; [|done..]. set_solver.
    + intros c1 c2 cs1 cs2 p H1 H2 H3 H4 H5 H6.
      destruct (decide (c1 = cc)) as [->|]; [rewrite lookup_insert_eq in H3; by injection H3 as <-|].
      destruct (decide (c2 = cc)) as [->|]; [rewrite lookup_insert_eq in H4; by injection H4 as <-|].
      rewrite lookup_insert_ne in H3, H4 by done. apply (Hinj c1 c2 cs1 cs2 p); [set_solver..|done|done|done|done].
Qed.

(** Closing the session of a connection that goes away. *)
Lemma conns_inv_leave max v cc :
  conns_inv max v -> cc ∈ v_conns v ->
  conns_inv max (MkCview (v_active v - 1) (v_ftp v - 1) (v_sftp v) (v_sessions v)
    (v_conns v ∖ {[cc]}) (v_extras v) (v_heap v) (v_fresh v)).
Proof.
  intros [[Ha Hle] Hf Hs Hn Had Hi Hse Hinj Hh] Hcc. split; simpl; try done.
  - rewrite size_difference by set_solver. rewrite size_singleton.
    assert (size (v_conns v) <> 0%nat) by (apply size_non_empty_iff; set_solver). lia.
  - lia.
  - set_solver.
  - intros cc' cs p H1. apply Hse. set_solver.
  - intros c1 c2 cs1 cs2 p H1 H2. apply Hinj; set_solver.
Qed.

Lemma conns_inv_end max v p s :
  conns_inv max v -> v_heap v !! p = Some s -> Session.closed s = false ->
  (forall cc cs, cc ∈ v_conns v -> v_extras v !! cc = Some cs -> cs_sess cs <> Some p) ->
  conns_inv max (MkCview (v_active v) (v_ftp v) (wrap64 (v_sftp v - bit (connected s)))
    (v_sessions v - 1) (v_conns v) (v_extras v)
    (<[p := Session.set_sftp None (Session.set_closed s)]> (v_heap v)) (v_fresh v)).
Proof.
  intros [[Ha Hle] Hf Hs Hn Had Hi Hse Hinj Hh] Hp Hcl Hnone. split; simpl; try done.
  - rewrite (tally_insert _ _ s) by done. simpl. rewrite Z.add_0_r, Hs. apply wrap64_sub_l.
  - rewrite (tally_insert _ _ s) by done. unfold unclosed at 2 3. rewrite Hcl. simpl.
    rewrite Z.add_0_r, Hn. done.
  - intros cc cs q H1 H2 H3. destruct (decide (q = p)) as [->|Hne]; [by destruct (Hnone cc cs)|].
    rewrite lookup_insert_ne by done. by eapply Hse.
  - intros q sq. rewrite lookup_insert_Some. intros [[<- <-]|[_ H]]; [|by apply Hh].
    split; [by apply Hh in Hp as []|done].
Qed.

Lemma cview_Close p s w :
  heap w !! p = Some s -> Session.closed s = false ->
  cview_of (sess_Close p w).2 =
  with_session p (Session.set_sftp None (Session.set_closed s))
    (gval (metrics w) SFTPConnectionsActive) (cview_of w).
Proof.
  intros Hs Hc. unfold sess_Close, get_session, bind, Session.Close, session_at. rewrite Hs. simpl.
  rewrite Hc. simpl. destruct (Session.sftp s) as [c|] eqn:Hsf; unfold bind.
  - pose proof (cview_remote (SftpClient.Close c) w) as H.
    destruct (on_remote (SftpClient.Close c) w) as [x w1]. simpl in H.
    injection H as ? ? ? ? ? ? ? ?. unfold cview_of, with_session. simpl. congruence.
  - replace (Session.set_sftp None (Session.set_closed s)) with (Session.set_closed s); [done|].
    unfold Session.set_closed, Session.set_sftp. simpl. by rewrite Hsf.
Qed.

(** What [ClientDisconnected] does after the connection table. *)
Lemma conns_inv_close max p s w :
  conns_inv max (cview_of w) -> heap w !! p = Some s -> Session.closed s = false ->
  (forall cc cs, cc ∈ conns w -> extras w !! cc = Some cs -> cs_sess cs <> Some p) ->
  conns_inv max (cview_of (
    (let* wasConnected := sess_IsConnected p in
     let* s := get_session p in
     let* err := sess_Close p in
     do* match err with
         | Err e => logger LevelWarn "error closing session SFTP connection"
                      [("sessionId", VString (Session.id s)); ("err", VString (Error e))]
         | Ok _ => ret tt
         end in
     do* (if wasConnected then count (Gauge_Dec SFTPConnectionsActive) else ret tt) in
     do* logger LevelInfo "session closed"
           [("sessionId", VString (Session.id s)); ("ftpUser", VString (Session.username s))] in
     sessions_Add (-1)) w).2).
Proof.
  intros Hv Hs Hc Hnone. pose proof (conns_inv_end _ _ _ _ Hv Hs Hc Hnone) as Hend.
  assert (wrap64 (gval (metrics w) SFTPConnectionsActive) = gval (metrics w) SFTPConnectionsActive) as Hw.
  { pose proof (ci_sftp _ _ Hv) as H. simpl in H. rewrite H. apply wrap64_idemp. }
  unfold sess_IsConnected, bind, get_session, ret. unfold session_at. rewrite Hs. simpl.
  pose proof (cview_Close p s w Hs Hc) as H. unfold connected in Hend.
  destruct (sess_Close p w) as [[x|e] w1]; simpl in H; injection H as ? ? ? ? ? ? ? ?;
    destruct (Session.IsConnected s); unfold cview_of in *; simpl in *;
    rewrite ?Z.sub_0_r, ?Hw in Hend; change (sessions w1 + -1) with (sessions w1 - 1); congruence.
Qed.

Lemma cinv_ClientDisconnected max cc w :
  0 <= max < max_int64 -> cc ∈ conns w \/ extras w !! cc = None ->
  conns_inv max (cview_of w) -> conns_inv max (cview_of (ClientDisconnected cc w).2).
Proof.
  intros Hmax Hcc Hv. unfold ClientDisconnected, bind at 1 2, get. simpl.
  destruct (extras w !! cc) as [cs|] eqn:Hex.
  2:{ unfold cview_of. simpl. assert (cc ∉ conns w) by (intros [? ?]%(ci_in _ _ Hv); simpl in *; congruence).
      replace (conns w ∖ {[cc]}) with (conns w) by set_solver. done. }
  destruct Hcc as [Hcc|]; [|done].
  rewrite (ci_admitted _ _ Hv cc cs Hex).
  pose proof (conns_inv_leave _ _ _ Hv Hcc) as Hl.
  pose proof Hv as [[Ha Hle] Hf _ _ _ _ _ _ _]. simpl in Ha, Hle, Hf.
  assert (size (conns w) <> 0%nat) by (apply size_non_empty_iff; set_solver).
  unfold bind at 1 2 3, get, set_active, count, modify.
  match goal with |- context [cview_of (match cs_sess cs with _ => _ end ?x).2] => set (w1 := x) end.
  assert (conns_inv max (cview_of w1)) as Hv1.
  { subst w1. unfold cview_of. simpl. unfold cview_of in Hl. simpl in Hl.
    rewrite wrap64_id by (unfold in_int64, min_int64, max_int64 in *; lia).
    rewrite wrap64_id by (unfold in_int64, min_int64, max_int64 in *; lia). done. }
  destruct (cs_sess cs) as [p|] eqn:Hp; [|done].
  destruct (ci_sess _ _ Hv cc cs p Hcc Hex Hp) as (s & Hs & Hc).
  apply (conns_inv_close max p s w1); [done..|].
  intros cc2 cs2 H2 Hex2 Hp2. subst w1. simpl in *.
  assert (cc2 = cc) as ->; [|set_solver].
  apply (ci_inj _ _ Hv cc2 cc cs2 cs p); simpl; [set_solver|done..].
Qed.

(** A new session: open, without a connection, under a new address. *)
Lemma cinv_AuthUser max g cc addr user pass t now e w :
  cc ∈ conns w -> conns_inv max (cview_of w) ->
  conns_inv max (cview_of (AuthUser CompareHashAndPassword dummyHash g cc addr user pass t now e w).2).
Proof.
  intros Hcc Hv. unfold AuthUser, bind. simpl. unfold on_authent, zoom. simpl.
  destruct (Authenticate _ _ _ _ _ _ _) as [[err|] au]; [by destruct (Is err KindRateLimited)|].
  destruct (g_users g !! user) as [rt|]; [|done].
  unfold on_ids, zoom. simpl. destruct (NewCorrelationID e _) as [id ids]. unfold alloc. simpl.
  destruct (ci_in _ _ Hv cc Hcc) as [cs Hex]. simpl in Hex. rewrite Hex. unfold cview_of. simpl.
  destruct Hv as [Ha Hf Hs Hn Had Hi Hse Hinj Hh]. simpl in *.
  assert (heap w !! fresh w = None) as Hnone.
  { apply eq_None_not_Some. intros [s H]. apply Hh in H as []. lia. }
  split; simpl; try done.
  - rewrite Hs, tally_fresh by done. simpl. by rewrite Z.add_0_r.
  - rewrite Hn, tally_fresh by done. done.
  - intros cc' cs'. rewrite lookup_insert_Some. intros [[_ <-]|[_ H1]]; [simpl|]; by eapply Had.
  - intros cc' H. rewrite lookup_insert_is_Some. destruct (decide (cc' = cc)); auto.
  - intros cc' cs' p H1. rewrite lookup_insert_Some. intros [[<- <-]|[Hne H2]] H3; simpl in H3.
    + injection H3 as <-. eexists. by rewrite lookup_insert_eq.
    + destruct (Hse cc' cs' p H1 H2 H3) as (s & H4 & H5). exists s.
      rewrite lookup_insert_ne; [done|]. intros <-. congruence.
  - intros c1 c2 cs1 cs2 p H1 H2. rewrite !lookup_insert_Some.
    intros [[<- <-]|[Hn1 H3]] [[<- <-]|[Hn2 H4]] H5 H6; simpl in *; [done|..].
    + injection H5 as <-. destruct (Hse _ _ _ H2 H4 H6) as (s & H7 & _). congruence.
    + injection H6 as <-. destruct (Hse _ _ _ H1 H3 H5) as (s & H7 & _). congruence.
    + by apply (Hinj c1 c2 cs1 cs2 p).
  - intros p s. rewrite lookup_insert_Some. intros [[<- <-]|[Hne H]]; [split; [lia|done]|].
    apply Hh in H as [? ?]. split; [lia|done].
Qed.

(** ** Transfers do not touch connections *)

Lemma cinv_quiet max p : Quiet cview_of (cinv max p).
Proof.
  split.
  - intros A m. apply keeps_cview.
  - intros w [Hv Hp]. split; [|done]. destruct Hv as [Ha Hf Hs Hn Had Hi Hse Hinj Hh].
    split; try done. intros q s H. apply Hh in H as [? ?]. simpl in *. split; [lia|done].
  - intros A m. apply cview_remote.
  - done.
  - by intros g n [-> | ->].
  - done.
  - intros c q r w. unfold recordTransfer, bind, get_session. destruct (c =? "STOR")%string; simpl;
      destruct (decide (Result.Phase r = PhaseFailed)); done.
  - intros k user w. unfold release, bind, get. simpl. by destruct (default _ _).
  - intros user w. unfold TryAcquire. destruct (gates w !! user) as [gt|]; [|done].
    by destruct (Gate.TryAcquire gt).
Qed.

(** ** Every reachable state *)

Definition conns_sys (max : Z) (s : Sys) : Prop :=
  conns_inv max (cview_of (sys_world s)) /\
  forall k t, transfers s !! k = Some t -> quiet_handle cview_of (t_handle t).

Lemma conns_sys_start cfg r ids :
  0 <= ServerConfig.MaxConnections (Server cfg) ->
  conns_sys (ServerConfig.MaxConnections (Server cfg)) (start cfg r ids).
Proof.
  intros Hmax. split; [|done]. unfold cview_of. simpl. split; simpl; done.
Qed.

Lemma conns_sys_step g s i :
  let max := ServerConfig.MaxConnections (Server (g_cfg g)) in
  0 <= max < max_int64 -> conns_sys max s -> allowed s i ->
  conns_sys max (sys_step CompareHashAndPassword dummyHash g s i).
Proof.
  intros max Hmax [Hv Hq] Hal.
  destruct i as [cc addr|cc|cc addr user pass t now e|p c|p name fl e|k c|]; simpl in *.
  - split; [|done]. by apply cinv_ClientConnected.
  - split; [|done]. by apply cinv_ClientDisconnected.
  - split; [|done]. by apply cinv_AuthUser.
  - split; [|done]. by apply (keeps_command g p _ c (cinv_respected max p)
      (fun A m => keeps_cview _ _ _ (cview_remote m)) (sys_world s) (conj Hv Hal)).
  - pose proof (quietly_GetHandle _ _ (cinv_quiet max p) p (cinv_respected max p) g name fl e
      (sys_world s) (conj Hv Hal)) as H.
    destruct (GetHandle g p name fl e (sys_world s)) as [[t|err] w']; destruct H as [[H _] Ht];
      (split; [done|]); [|done].
    intros k t'. simpl. rewrite lookup_insert_Some. intros [[_ <-]|[_ H']]; [done|by eapply Hq].
  - destruct (transfers s !! k) as [[user t]|] eqn:Hk; [|by split]. simpl.
    destruct (call_handle t c (sys_world s)) as [t' w'] eqn:E.
    apply (quiet_call cview_of) in E as [Ht Hw]; [|by apply Hq in Hk].
    split; [simpl; by rewrite Hw|].
    intros k' t2. simpl. rewrite lookup_insert_Some. intros [[_ <-]|[_ H']]; [done|by eapply Hq].
  - done.
Qed.

Lemma reachable_conns cfg r ids s :
  let max := ServerConfig.MaxConnections (Server cfg) in
  0 <= max < max_int64 -> reachable CompareHashAndPassword dummyHash cfg r ids s -> conns_sys max s.
Proof.
  intros max Hmax Hr.
  induction Hr; [apply conns_sys_start; subst max; lia|by apply (conns_sys_step (NewGateway cfg))].
Qed.

(** C6. Connections are accounted for exactly: in every reachable state the
    admission counter and [ftp_connections_active] are the connections that
    are open, never more than [maxConnections]; [sftp_connections_active]
    counts the sessions that hold an SFTP connection, which a closed one
    never does; and the wait group, which shutdown waits for, counts the
    sessions that are not closed. *)
Theorem connection_accounting cfg r ids s :
  let max := ServerConfig.MaxConnections (Server cfg) in
  0 <= max < max_int64 ->
  reachable CompareHashAndPassword dummyHash cfg r ids s ->
  let w := sys_world s in
  activeConnections w = Z.of_nat (size (conns w)) /\ activeConnections w <= max /\
  gval (metrics w) FTPConnectionsActive = activeConnections w /\
  gval (metrics w) SFTPConnectionsActive = wrap64 (tally Session.IsConnected (heap w)) /\
  (forall p x, heap w !! p = Some x -> Session.closed x = true -> Session.IsConnected x = false) /\
  sessions w = tally (fun x => negb (Session.closed x)) (heap w).
Proof.
  intros max Hmax [[[Ha Hle] Hf Hs Hn _ _ _ _ Hh] _]%reachable_conns; [|done].
  simpl in *. split_and!; try done.
  intros p x Hp Hc. apply Hh in Hp as [_ Hn']. unfold Session.IsConnected.
  apply bool_decide_eq_false. rewrite Hn' by done. by intros [].
Qed.
End connections.

Definition demo_visit : list input :=
  demo_login ++ [ICommand 0 (CMkdir "new"); IConnected 8 "10.0.0.8:4000"].

Lemma connection_accounting_witness :
  let w := sys_world (demo_system demo_visit) in
  activeConnections w = 2 /\ Z.of_nat (size (conns w)) = 2 /\
  tally Session.IsConnected (heap w) = 1 /\ sessions w = 1 /\
  tally (fun x => negb (Session.closed x)) (heap w) = 1.
Proof.
  intros w. assert (reachable plain_compare "" demo_gateway_config (mem_of [("/data", NDir)]) 0
    (demo_system demo_visit)) as Hr.
  { apply reach_run; [constructor|]. decided. }
  assert (0 <= ServerConfig.MaxConnections (Server demo_gateway_config) < max_int64) as Hmax by done.
  destruct (connection_accounting _ _ _ _ _ _ Hmax Hr) as (H1 & _ & _ & _ & _ & H2).
  split_and!; [by vm_compute|transitivity (activeConnections w); [done|by vm_compute]
              |by vm_compute|by vm_compute|].
  transitivity (sessions w); [done|by vm_compute].
Defined.

(** Authenticating twice on one connection leaves the first session open
    for good: after the connection is gone one session is still counted. *)
Example relogin_leaves_a_session :
  let w := sys_world (demo_system
    (demo_login ++ [IAuth 7 "10.0.0.9:4000" "ax" "$2a$" (readings_at 9) 9 demo_entropy; IDisconnected 7])) in
  activeConnections w = 0 /\ sessions w = 1.
Proof. vm_compute. done. Qed.
