(* ===== verification/SessionRace.v ===== *)
(** * The SFTP gauge when calls on a session overlap

    The methods of a session hold its mutex one at a time, but
    [maybeInvalidate] and [ClientDisconnected] ask [IsConnected] first, act
    next and count last, each under a lock of its own.  [System] runs every
    callback without interruption; here the calls on any number of sessions
    are cut at these operations and interleaved by a schedule.  The
    connections themselves are safe (each operation is atomic), the gauge
    [sftp_connections_active] is not: how far it is off is exactly what the
    calls found changed between their check and their act. *)
From S2P Require Import Prelude GoStrings GoPath Errors Filesystem Authorization Limiter Auth SftpLib MemServer SshDial SftpClient Metrics Observability Config Session Transfer UploadSpec TransferSpec DownloadSpec Gateway Driver Triples Accounting System Quiet Connections.
Open Scope string_scope.
Open Scope list_scope.
Open Scope Z_scope.

(** Where a call stands.  A use is one locked operation, dialling included;
    a drop is [maybeInvalidate] on a connection error; a goodbye is what
    [ClientDisconnected] does with the session. *)
Inductive session_call :=
  | Using
  | Dropping                      (** about to ask [IsConnected] *)
  | Invalidating                  (** was told yes *)
  | Discounting                   (** invalidated; about to decrement *)
  | Leaving                       (** about to ask [IsConnected] *)
  | Closing (wasConnected : bool)
  | Settling (wasConnected : bool) (** closed; about to decrement *)
  | Done.

Section race.
Context {R : Type} {Lib : SftpLib R} {Ssh : SshLib R}.
Implicit Types (w : World R) (s : Session (R := R) (C := userRuntime)).

(** One atomic operation of a call on session [p]: of [maybeInvalidate], ... *)
Definition drop_step (p : nat) (c : session_call) : M (World R) session_call :=
  match c with
  | Dropping => let* b := sess_IsConnected p in ret (if b then Invalidating else Done)
  | Invalidating => do* sess_InvalidateSFTP p in ret Discounting
  | Discounting => do* count (Gauge_Dec SFTPConnectionsActive) in ret Done
  | _ => ret c
  end.

(** ... of the end of [ClientDisconnected], ... *)
Definition leave_step (p : nat) (c : session_call) : M (World R) session_call :=
  match c with
  | Leaving => let* b := sess_IsConnected p in ret (Closing b)
  | Closing b =>
      let* s := get_session p in
      let* err := sess_Close p in
      do* match err with
          | Err e => logger LevelWarn "error closing session SFTP connection"
                       [("sessionId", VString (Session.id s)); ("err", VString (Error e))]
          | Ok _ => ret tt
          end in
      ret (Settling b)
  | Settling b =>
      do* (if b then count (Gauge_Dec SFTPConnectionsActive) else ret tt) in
      let* s := get_session p in
      do* logger LevelInfo "session closed"
            [("sessionId", VString (Session.id s)); ("ftpUser", VString (Session.username s))] in
      do* sessions_Add (-1) in
      ret Done
  | _ => ret c
  end.

(** ... or a use of the session. *)
Definition call_step (p : nat) (c : session_call) : M (World R) session_call :=
  match c with
  | Using => let* _ := sess_SFTP p in ret Done
  | Dropping | Invalidating | Discounting => drop_step p c
  | Leaving | Closing _ | Settling _ => leave_step p c
  | Done => ret Done
  end.

(** The calls in progress with their sessions; a schedule names who moves. *)
Definition move (k : nat) (cs : list (nat * session_call)) : M (World R) (list (nat * session_call)) :=
  match cs !! k with
  | None => ret cs
  | Some (p, c) => let* c := call_step p c in ret (<[k := (p, c)]> cs)
  end.

Fixpoint interleave (ks : list nat) (cs : list (nat * session_call)) : M (World R) (list (nat * session_call)) :=
  match ks with
  | [] => ret cs
  | k :: ks => let* cs := move k cs in interleave ks cs
  end.

(** A call alone is what the code runs. *)
Definition alone (p : nat) (c : session_call) : M (World R) session_call :=
  let* c := call_step p c in let* c := call_step p c in call_step p c.

Lemma maybeInvalidate_alone p e w :
  KindOf e ∈ [KindSSHConnection; KindTimeout; KindDisconnected] ->
  alone p Dropping w = (Done, (maybeInvalidate p (Some e) w).2).
Proof.
  intros He. assert (maybeInvalidate p (Some e) =
    let* connected := sess_IsConnected p in
    if connected then do* sess_InvalidateSFTP p in count (Gauge_Dec SFTPConnectionsActive) else ret tt) as ->.
  { unfold maybeInvalidate. by repeat (apply elem_of_cons in He as [->|He]; [done|]); apply elem_of_nil in He. }
  unfold alone, sess_IsConnected, get_session, bind. simpl. unfold bind, ret. simpl.
  destruct (Session.IsConnected _); simpl; [|done]. unfold bind.
  by destruct (sess_InvalidateSFTP p w) as [[] w1].
Qed.

(** Closing does not change whose session it is. *)
Lemma sess_Close_static p w : sess_static (session_at p (sess_Close p w).2) = sess_static (session_at p w).
Proof.
  unfold sess_Close, get_session, bind, Session.Close.
  destruct (Session.closed _); [unfold session_at at 1; simpl; by rewrite lookup_insert_eq|]. simpl.
  destruct (Session.sftp _) as [c|]; [|unfold session_at at 1; simpl; by rewrite lookup_insert_eq].
  unfold bind. destruct (on_remote (SftpClient.Close c) w) as [r w1].
  unfold session_at at 1; simpl; by rewrite lookup_insert_eq.
Qed.

(** [ClientDisconnected] on an admitted connection with a session: the
    connection table first, then a goodbye. *)
Lemma ClientDisconnected_alone cc cs p w :
  extras w !! cc = Some cs -> admitted cs = true -> cs_sess cs = Some p ->
  exists w0, heap w0 = heap w /\ alone p Leaving w0 = (Done, (ClientDisconnected cc w).2).
Proof.
  intros Hx Ha Hp.
  exists (MkWorld (remote w) (Gauge_Dec FTPConnectionsActive (metrics w)) (log w) (fallbackCounter w)
    (authent w) (gates w) (wrap64 (activeConnections w - 1)) (shuttingDown w) (sessions w)
    (conns w ∖ {[cc]}) (extras w) (paths w) (heap w) (flags w) (fresh w)).
  split; [done|]. unfold ClientDisconnected, bind, get. simpl. rewrite Hx, Ha, Hp. simpl.
  unfold alone, sess_IsConnected, get_session, call_step, leave_step, bind, ret. simpl.
  match goal with |- context [sess_Close p ?w1] => pose proof (sess_Close_static p w1) as Hs;
    destruct (sess_Close p w1) as [r w2] end.
  injection Hs as Hid Huser _ _ _ _. unfold session_at in *. simpl in *.
  destruct r; simpl; destruct (Session.IsConnected _); simpl; by rewrite Hid, Huser.
Qed.

(** ** What a step does to the ledger *)

Definition gauge w : Z := gval (metrics w) SFTPConnectionsActive.

(** Decrements still to come of calls that have let go of the connection. *)
Definition due (c : session_call) : Z :=
  match c with Discounting | Settling true => 1 | _ => 0 end.

(** A call that acts: one more than it will count, or one less. *)
Definition slip p (c : session_call) w : Z :=
  match c with
  | Invalidating => bit (connected (session_at p w)) - 1
  | Closing b => bit (connected (session_at p w)) - bit b
  | _ => 0
  end.

Definition tidy s : Prop := Session.closed s = true -> Session.sftp s = None.

(** From [w] to [w'] session [p] becomes [s'] and the gauge moves by [d]. *)
Definition effect p s' (d : Z) w w' : Prop :=
  heap w' = <[p := s']> (heap w) /\ tidy s' /\
  forall z, gauge w = wrap64 z -> gauge w' = wrap64 (z + d).

Lemma effect_none p s w : heap w !! p = Some s -> tidy s -> effect p s 0 w w.
Proof. intros Hs Ht. split; [by rewrite insert_id|]. split; [done|]. intros z ->. by rewrite Z.add_0_r. Qed.

Lemma effect_cview p s' n d w w' :
  cview_of w' = with_session p s' n (cview_of w) -> tidy s' ->
  (forall z, gauge w = wrap64 z -> n = wrap64 (z + d)) -> effect p s' d w w'.
Proof. intros H Ht Hn. injection H as _ _ Hg _ _ _ Hh _. split; [done|]. split; [done|]. intros z Hz. unfold gauge. rewrite Hg. by apply Hn. Qed.

Lemma effect_SFTP p s w :
  heap w !! p = Some s -> tidy s ->
  exists s', effect p s' (bit (connected s') - bit (connected s)) w (sess_SFTP p w).2.
Proof.
  intros Hs Ht. assert (session_at p w = s) as Hat by (unfold session_at; by rewrite Hs).
  assert (forall w1, cview_of w1 = cview_of w -> effect p s (bit (connected s) - bit (connected s)) w
    (put_session p s w1).2) as Hsame.
  { intros w1 E. rewrite Z.sub_diag. injection E as ? ? Hg ? ? ? Hh ?. split; [simpl; by rewrite Hh|].
    split; [done|]. intros z Hz. unfold gauge in *. simpl. by rewrite Hg, Hz, Z.add_0_r. }
  unfold sess_SFTP, get_session, bind, Session.SFTP. rewrite Hat.
  destruct (Session.closed s) eqn:Hc; [by exists s; apply Hsame|].
  destruct (Session.sftp s) as [c|] eqn:Hsf; [by exists s; apply Hsame|].
  unfold bind. pose proof (cview_connector (Session.connect s) w) as H.
  destruct (connector (Session.connect s) w) as [[c|e] w1]; simpl in H.
  - destruct H as [[_ ?]|[_ H]]; [done|]. exists (Session.set_sftp (Some c) s).
    injection H as ? ? Hg ? ? ? Hh ?. split; [simpl; by rewrite Hh|].
    split; [unfold tidy; simpl; by rewrite Hc|]. intros z Hz. unfold gauge in *. simpl. rewrite Hg, Hz.
    unfold connected, Session.IsConnected. rewrite Hsf. simpl. rewrite Z.sub_0_r. apply wrap64_add_l.
  - destruct H as [[H _]|[? _]]; [|done]. exists s. by apply Hsame.
Qed.

Lemma effect_Invalidate p s w :
  heap w !! p = Some s ->
  effect p (Session.set_sftp None s) 0 w (sess_InvalidateSFTP p w).2.
Proof.
  intros Hs. unfold sess_InvalidateSFTP, get_session, bind, Session.InvalidateSFTP, session_at.
  rewrite Hs. simpl. destruct (Session.sftp s) as [c|] eqn:Hsf; unfold bind.
  - pose proof (cview_remote (SftpClient.Close c) w) as H.
    destruct (on_remote (SftpClient.Close c) w) as [x w1]. simpl in H.
    injection H as ? ? Hg ? ? ? Hh ?. split; [simpl; by rewrite Hh|]. split; [done|].
    intros z Hz. unfold gauge in *. simpl. by rewrite Hg, Hz, Z.add_0_r.
  - replace (Session.set_sftp None s) with s by (unfold Session.set_sftp; destruct s; simpl in *; congruence).
    split; [done|]. split; [by intros _|]. intros z Hz. by rewrite Z.add_0_r.
Qed.

Lemma effect_Close p s w :
  heap w !! p = Some s -> tidy s ->
  exists s', connected s' = false /\ effect p s' 0 w (sess_Close p w).2.
Proof.
  intros Hs Ht. destruct (Session.closed s) eqn:Hc.
  - exists s. unfold connected, Session.IsConnected. rewrite (Ht Hc). split; [done|].
    assert ((sess_Close p w).2 = (put_session p s w).2) as ->.
    { unfold sess_Close, get_session, bind, Session.Close, session_at. rewrite Hs. simpl. by rewrite Hc. }
    split; [done|]. split; [done|]. intros z Hz. by rewrite Z.add_0_r.
  - exists (Session.set_sftp None (Session.set_closed s)). split; [done|].
    eapply effect_cview; [by apply cview_Close|done|]. intros z Hz. rewrite Z.add_0_r. exact Hz.
Qed.

(** The ledger entry of a step: the gauge moves with the session's
    connection, with what is still due, and with the slip. *)
Lemma call_step_effect p c s w c' w' :
  heap w !! p = Some s -> tidy s -> call_step p c w = (c', w') ->
  exists s', effect p s' (bit (connected s') - bit (connected s) + (due c' - due c) + slip p c w) w w'.
Proof.
  intros Hs Ht. assert (session_at p w = s) as Hat by (unfold session_at; by rewrite Hs).
  assert (forall d w1, heap w1 = heap w -> (forall z, gauge w = wrap64 z -> gauge w1 = wrap64 (z + d)) ->
    effect p s d w w1) as Hsame.
  { intros d w1 Hh Hg. split; [by rewrite Hh, insert_id|done]. }
  assert (forall d, d = 0 -> effect p s d w w) as Hstay by (intros d ->; by apply effect_none).
  assert (forall z, gauge w = wrap64 z -> wrap64 (gauge w - 1) = wrap64 (z + -1)) as Hdec.
  { intros z ->. exact (wrap64_add_l z (-1)). }
  unfold slip. rewrite Hat. destruct c as [| | | | |b|b|]; simpl.
  - intros (r & w1 & H & [= <- <-])%bind_inv. destruct (effect_SFTP p s w Hs Ht) as (s' & He).
    rewrite H in He. exists s'. by rewrite !Z.add_0_r.
  - intros [= <- <-]. exists s. apply Hstay. rewrite Hat. destruct (Session.IsConnected s); simpl; lia.
  - intros (r & w1 & H & [= <- <-])%bind_inv. pose proof (effect_Invalidate p s w Hs) as He.
    rewrite H in He. exists (Session.set_sftp None s). simpl. by replace (_ + _) with 0 by lia.
  - intros [= <- <-]. exists s. apply Hsame; [done|]. simpl. rewrite Z.sub_diag. exact Hdec.
  - intros [= <- <-]. exists s. apply Hstay. simpl. lia.
  - unfold get_session, bind. simpl. destruct (effect_Close p s w Hs Ht) as (s' & Hc & He).
    destruct (sess_Close p w) as [r w1]. intros E.
    assert (c' = Settling b /\ heap w' = heap w1 /\ gauge w' = gauge w1) as (-> & Hh & Hg)
      by (by destruct r; injection E as <- <-).
    exists s'. unfold effect in *. rewrite Hh, Hg. simpl. rewrite Hc. simpl.
    replace (_ + _) with 0; [done|]. destruct b; simpl; lia.
  - destruct b; intros [= <- <-]; exists s; simpl.
    + apply Hsame; [done|]. rewrite Z.sub_diag. exact Hdec.
    + apply Hsame; [done|]. rewrite Z.sub_diag. intros z Hz. unfold gauge in *. simpl. by rewrite Hz, Z.add_0_r.
  - intros [= <- <-]. exists s. apply Hstay. simpl. lia.
Qed.

(** ** Schedules *)

(** Every call is on a session there is, and a closed session holds nothing. *)
Definition settled_heap w : Prop := forall p s, heap w !! p = Some s -> tidy s.
Definition on_sessions (cs : list (nat * session_call)) w : Prop :=
  Forall (fun pc => is_Some (heap w !! pc.1)) cs.

Definition pending (cs : list (nat * session_call)) : Z := foldr (fun pc n => due pc.2 + n) 0 cs.

Lemma pending_insert cs k p c c' :
  cs !! k = Some (p, c) -> pending (<[k := (p, c')]> cs) = pending cs - due c + due c'.
Proof.
  revert k. induction cs as [|x cs IH]; intros [|k]; simpl; try done.
  - intros [= ->]. simpl. lia.
  - intros H. rewrite (IH _ H). lia.
Qed.

(** The slips of a whole run. *)
Definition slip_of (k : nat) (cs : list (nat * session_call)) w : Z :=
  match cs !! k with Some (p, c) => slip p c w | None => 0 end.
Fixpoint slips (ks : list nat) (cs : list (nat * session_call)) w : Z :=
  match ks with
  | [] => 0
  | k :: ks => let '(cs', w') := move k cs w in slip_of k cs w + slips ks cs' w'
  end.

(** The gauge is the connections held, the decrements due and the slips. *)
Definition ledger (n : Z) (cs : list (nat * session_call)) w : Prop :=
  settled_heap w /\ on_sessions cs w /\ gauge w = wrap64 (tally connected (heap w) + pending cs + n).

Lemma move_ledger n k cs w cs' w' :
  ledger n cs w -> move k cs w = (cs', w') -> ledger (n + slip_of k cs w) cs' w'.
Proof.
  intros (Ht & Hon & Hg). unfold move, slip_of. destruct (cs !! k) as [[p c]|] eqn:Hk.
  2:{ intros [= <- <-]. by rewrite Z.add_0_r. }
  intros (c' & w1 & H & [= <- <-])%bind_inv.
  destruct (Forall_lookup_1 _ _ _ _ Hon Hk) as [s Hs]. simpl in Hs.
  destruct (call_step_effect p c s w c' w1 Hs (Ht _ _ Hs) H) as (s' & Hh & Hs' & Hgz).
  split_and!.
  - intros q x. rewrite Hh, lookup_insert_Some. intros [[_ <-]|[_ Hq]]; [done|by eapply Ht].
  - unfold on_sessions in *. assert (forall q, is_Some (heap w !! q) -> is_Some (heap w1 !! q)) as Hkeep.
    { intros q Hq. rewrite Hh. by apply lookup_insert_is_Some'; right. }
    apply Forall_insert; [|apply Hkeep; by exists s].
    apply Forall_forall. intros x Hx. apply Hkeep. rewrite Forall_forall in Hon. by apply Hon.
  - rewrite (Hgz _ Hg), Hh, (pending_insert _ _ _ _ _ Hk), (tally_insert _ _ s) by done. f_equal. lia.
Qed.

Lemma interleave_ledger n ks cs w cs' w' :
  ledger n cs w -> interleave ks cs w = (cs', w') -> ledger (n + slips ks cs w) cs' w'.
Proof.
  revert n cs w. induction ks as [|k ks IH]; intros n cs w Hl; simpl.
  { intros [= <- <-]. by rewrite Z.add_0_r. }
  intros (cs1 & w1 & H1 & H2)%bind_inv. rewrite H1. rewrite Z.add_assoc. apply IH; [|done].
  by apply (move_ledger n k cs w).
Qed.

(** ** How far off the gauge can be *)

(** Calls that have yet to act on their session slip at most once each. *)
Definition to_act (c : session_call) : Z :=
  match c with Dropping | Invalidating | Leaving | Closing _ => 1 | _ => 0 end.
Definition actors (cs : list (nat * session_call)) : Z := foldr (fun pc n => to_act pc.2 + n) 0 cs.

Lemma actors_insert cs k p c c' :
  cs !! k = Some (p, c) -> actors (<[k := (p, c')]> cs) = actors cs - to_act c + to_act c'.
Proof.
  revert k. induction cs as [|x cs IH]; intros [|k]; simpl; try done.
  - intros [= ->]. simpl. lia.
  - intros H. rewrite (IH _ H). lia.
Qed.

Lemma actors_nonneg cs : 0 <= actors cs.
Proof. induction cs as [|[p []] cs IH]; simpl; lia. Qed.

Lemma call_step_acts p c w c' w' :
  call_step p c w = (c', w') -> Z.abs (slip p c w) <= to_act c - to_act c'.
Proof.
  destruct c as [| | | | |b|b|]; simpl.
  - by intros (x & w1 & _ & [= <- _])%bind_inv.
  - intros [= <- _]. by destruct (Session.IsConnected _).
  - intros (x & w1 & _ & [= <- _])%bind_inv. by destruct (connected _).
  - by intros [= <- _].
  - by intros [= <- _].
  - unfold get_session, bind. simpl. destruct (sess_Close p w) as [r w1]. intros E.
    assert (c' = Settling b) as -> by (by destruct r; injection E). by destruct (connected _), b.
  - by destruct b; intros [= <- _].
  - by intros [= <- _].
Qed.

Lemma slips_bound ks cs w : Z.abs (slips ks cs w) <= actors cs.
Proof.
  revert cs w. induction ks as [|k ks IH]; intros cs w; simpl; [apply actors_nonneg|].
  destruct (move k cs w) as [cs1 w1] eqn:E. specialize (IH cs1 w1).
  unfold move in E. unfold slip_of. destruct (cs !! k) as [[p c]|] eqn:Hk.
  2:{ injection E as <- _. simpl. lia. }
  apply bind_inv in E as (c' & w2 & H & [= <- <-]). apply call_step_acts in H.
  rewrite (actors_insert _ _ _ _ _ Hk) in IH. lia.
Qed.

(** *** One call at a time *)

Definition starting (c : session_call) : bool :=
  match c with Using | Dropping | Leaving | Done => true | _ => false end.

Lemma slips_app ks ks' cs w :
  slips (ks ++ ks') cs w =
  slips ks cs w + slips ks' (interleave ks cs w).1 (interleave ks cs w).2.
Proof.
  revert cs w. induction ks as [|k ks IH]; intros cs w; simpl; [done|].
  unfold bind. destruct (move k cs w) as [cs1 w1]. rewrite IH. lia.
Qed.

Lemma move_run k cs w p c :
  cs !! k = Some (p, c) ->
  move k cs w = (<[k := (p, (call_step p c w).1)]> cs, (call_step p c w).2) /\ slip_of k cs w = slip p c w.
Proof.
  intros H. unfold move, slip_of. rewrite H. split; [|done]. unfold bind. by destruct (call_step p c w).
Qed.

Lemma absent_slips ks cs w :
  Forall (fun k => cs !! k = None) ks -> slips ks cs w = 0 /\ interleave ks cs w = (cs, w).
Proof.
  induction ks as [|k ks IH]; intros Hks; simpl; [done|]. apply Forall_cons in Hks as [Hk Hks].
  unfold bind, move, slip_of. rewrite Hk. simpl. by destruct (IH Hks) as [-> ->].
Qed.

(** The three steps of a call, all of them its own. *)
Lemma run_alone k cs w p c :
  cs !! k = Some (p, c) ->
  let '(c1, w1) := call_step p c w in
  let '(c2, w2) := call_step p c1 w1 in
  let '(c3, w3) := call_step p c2 w2 in
  slips [k; k; k] cs w = slip p c w + (slip p c1 w1 + slip p c2 w2) /\
  interleave [k; k; k] cs w = (<[k := (p, c3)]> cs, w3).
Proof.
  intros Hk. simpl. unfold bind.
  assert (forall x, <[k := x]> cs !! k = Some x) as Hl
    by (intros; apply list_lookup_insert_eq; by eapply lookup_lt_Some).
  destruct (call_step p c w) as [c1 w1] eqn:E1, (call_step p c1 w1) as [c2 w2] eqn:E2,
    (call_step p c2 w2) as [c3 w3] eqn:E3.
  destruct (move_run k cs w p c Hk) as [-> ->]. rewrite E1. simpl.
  destruct (move_run k _ w1 p c1 (Hl _)) as [-> ->]. rewrite E2, list_insert_insert_eq. simpl.
  destruct (move_run k _ w2 p c2 (Hl _)) as [-> ->]. rewrite E3, list_insert_insert_eq. simpl.
  split; [lia|done].
Qed.

Lemma alone_slips k cs w :
  Forall (fun pc => starting pc.2 = true) cs ->
  slips [k; k; k] cs w = 0 /\
  Forall (fun pc => starting pc.2 = true) (interleave [k; k; k] cs w).1.
Proof.
  intros Hst. destruct (cs !! k) as [[p c]|] eqn:Hk.
  2:{ destruct (absent_slips [k; k; k] cs w) as [-> ->]; [by repeat constructor|done]. }
  pose proof (Forall_lookup_1 _ _ _ _ Hst Hk) as Hc. simpl in Hc.
  pose proof (run_alone k cs w p c Hk) as H. 
  assert (exists w1 w2 w3 c1 c2, call_step p c w = (c1, w1) /\ call_step p c1 w1 = (c2, w2) /\
    call_step p c2 w2 = (Done, w3) /\ slip p c w + (slip p c1 w1 + slip p c2 w2) = 0)
    as (w1 & w2 & w3 & c1 & c2 & E1 & E2 & E3 & Hs).
  { unfold slip, connected. destruct c; try done; simpl; unfold sess_IsConnected, get_session, bind; simpl.
    - destruct (sess_SFTP p w) as [r w1]. by repeat eexists.
    - destruct (Session.IsConnected (session_at p w)) eqn:Hcon; simpl; [|by repeat eexists].
      destruct (sess_InvalidateSFTP p w) as [r w1] eqn:E. exists w, w1. eexists. exists Invalidating, Discounting.
      split_and!; [done|simpl; unfold bind; by rewrite E|done|]. by rewrite Hcon.
    - set (b := Session.IsConnected (session_at p w)). set (w1 := (call_step p (Closing b) w).2).
      exists w, w1, (call_step p (Settling b) w1).2, (Closing b), (Settling b). split_and!; [done| |by destruct b|].
      { subst w1. simpl. unfold get_session, bind. destruct (sess_Close p w) as [r w1]. by destruct r. }
      fold b. lia.
    - by repeat eexists. }
  rewrite E1, E2, E3 in H. destruct H as [-> ->]. split; [done|]. by apply Forall_insert.
Qed.

Lemma serial_slips js cs w :
  Forall (fun pc => starting pc.2 = true) cs -> slips (concat (map (fun k => [k; k; k]) js)) cs w = 0.
Proof.
  revert cs w. induction js as [|k js IH]; intros cs w Hst; [done|]. cbn [map concat].
  rewrite slips_app. destruct (alone_slips k cs w Hst) as [-> Hst']. by rewrite IH.
Qed.

Lemma starting_pending cs : Forall (fun pc => starting pc.2 = true) cs -> pending cs = 0.
Proof. induction 1 as [|[p c] cs Hc _ IH]; simpl; [done|]. rewrite IH. by destruct c. Qed.

(** C17. The SFTP gauge under overlapping calls.  From any reachable state,
    whatever calls on whatever sessions are interleaved in whatever order,
    [sftp_connections_active] is the sessions that hold a connection, plus
    the decrements still to come, plus the slips: one up for each goodbye that
    closed a connection dialled after its check, one down for each drop or
    goodbye that found gone the connection its check had seen.  There are at
    most as many slips as drops and goodbyes, and none when the calls run one
    after the other, which is how [maybeInvalidate] and [ClientDisconnected]
    run when nothing interrupts them. *)
Theorem gauge_under_interleaving CompareHashAndPassword dummyHash cfg r ids (s : Sys) ks cs cs' w' :
  0 <= ServerConfig.MaxConnections (Server cfg) < max_int64 ->
  reachable CompareHashAndPassword dummyHash cfg r ids s ->
  let w := sys_world s in
  Forall (fun pc => is_Some (heap w !! pc.1) /\ starting pc.2 = true) cs ->
  interleave ks cs w = (cs', w') ->
  gauge w' = wrap64 (tally connected (heap w') + pending cs' + slips ks cs w) /\
  Z.abs (slips ks cs w) <= actors cs /\
  (forall js, ks = concat (map (fun k => [k; k; k]) js) -> slips ks cs w = 0) /\
  (forall p e w0, KindOf e ∈ [KindSSHConnection; KindTimeout; KindDisconnected] ->
     alone p Dropping w0 = (Done, (maybeInvalidate p (Some e) w0).2)) /\
  (forall cc c p w0, extras w0 !! cc = Some c -> admitted c = true -> cs_sess c = Some p ->
     exists w1, heap w1 = heap w0 /\ alone p Leaving w1 = (Done, (ClientDisconnected cc w0).2)).
Proof.
  intros Hmax Hr w Hcs E. apply reachable_conns in Hr as [[_ _ Hs _ _ _ _ _ Hh] _]; [|done].
  assert (Forall (fun pc => starting pc.2 = true) cs) as Hst by (eapply Forall_impl; [exact Hcs|]; by intros ? []).
  assert (ledger 0 cs w) as Hl.
  { split_and!.
    - intros p x Hp. by apply Hh in Hp as [_ ?].
    - eapply Forall_impl; [exact Hcs|]. by intros ? [].
    - rewrite (starting_pending _ Hst), !Z.add_0_r. exact Hs. }
  destruct (interleave_ledger _ _ _ _ _ _ Hl E) as (_ & _ & Hg). split_and!.
  - exact Hg.
  - apply slips_bound.
  - intros js ->. by apply serial_slips.
  - apply maybeInvalidate_alone.
  - intros cc c p w0. apply ClientDisconnected_alone.
Qed.
End race.

(** Two commands of one session fail on the same broken connection: both see
    it, both decrement, and the gauge says minus one. *)
Definition demo_drops : list (nat * session_call) := [(0%nat, Using); (0%nat, Dropping); (0%nat, Dropping)].
(** The client leaves while a command is dialling: the check sees nothing,
    the close finds a connection, and the gauge stays at one for good. *)
Definition demo_leave : list (nat * session_call) := [(0%nat, Leaving); (0%nat, Using)].

Lemma gauge_under_interleaving_witness :
  let w := sys_world (demo_system demo_login) in
  let dropped := interleave [0; 1; 2; 1; 1; 2; 2]%nat demo_drops w in
  let left := interleave [0; 1; 0; 0]%nat demo_leave w in
  (gauge dropped.2 = -1 /\ tally connected (heap dropped.2) = 0 /\
   gauge dropped.2 = wrap64 (tally connected (heap dropped.2) + pending dropped.1
                             + slips [0; 1; 2; 1; 1; 2; 2]%nat demo_drops w)) /\
  (gauge left.2 = 1 /\ tally connected (heap left.2) = 0 /\
   gauge left.2 = wrap64 (tally connected (heap left.2) + pending left.1
                          + slips [0; 1; 0; 0]%nat demo_leave w)).
Proof.
  intros w dropped left.
  assert (reachable plain_compare "" demo_gateway_config (mem_of [("/data", NDir)]) 0
    (demo_system demo_login)) as Hr.
  { apply reach_run; [constructor|]. decided. }
  assert (0 <= ServerConfig.MaxConnections (Server demo_gateway_config) < max_int64) as Hmax by done.
  assert (is_Some (heap w !! 0%nat)) as Hs.
  { assert ((if heap w !! 0%nat is Some _ then true else false) = true) as H by (vm_compute; reflexivity).
    destruct (heap w !! 0%nat) as [x|]; [by exists x|discriminate]. }
  split; (split; [vm_compute; reflexivity|]; split; [vm_compute; reflexivity|]).
  - refine (proj1 (gauge_under_interleaving _ _ _ _ _ _ _ demo_drops _ _ Hmax Hr _ (surjective_pairing dropped))).
    by repeat constructor.
  - refine (proj1 (gauge_under_interleaving _ _ _ _ _ _ _ demo_leave _ _ Hmax Hr _ (surjective_pairing left))).
    by repeat constructor.
Defined.
