(* ===== verification/DeadConnection.v ===== *)
(** * A session whose connection has died

    [maybeInvalidate] exists so that "the next command reconnects instead of
    repeatedly failing against a dead connection".  It looks at the kind of
    the error, and no error of the SFTP library but a timeout translates to
    a kind it looks for; transfers do not call it at all.  So a session whose
    connection is lost keeps it: every later request fails on it, and none
    dials again. *)
From S2P Require Import Prelude GoStrings GoPath Errors Filesystem Authorization Limiter Auth SftpLib MemServer SshDial SftpClient Metrics Observability Config Session Transfer UploadSpec TransferSpec DownloadSpec Gateway Driver Triples System.
Open Scope string_scope.
Open Scope list_scope.
Open Scope Z_scope.

(** An error of the library that is neither a timeout nor "does not exist",
    such as a lost connection or a closed pipe. *)
Definition lost (e : error) : Prop :=
  KindOf e = KindInternal /\ errors_Is e ErrNotExist = false /\
  errors_Is e DeadlineExceeded = false /\ As_Timeout e <> Some true.

(** The kinds [maybeInvalidate] acts on. *)
Definition is_broken (k : Kind) : bool :=
  match k with KindSSHConnection | KindTimeout | KindDisconnected => true | _ => false end.

Lemma lost_translated op e : lost e -> is_broken (KindOf (translateError op e)) = false.
Proof.
  intros (Hk & Hn & Hd & Ht). unfold translateError. rewrite Hn, Hd.
  destruct (errors_Is e EOF); [by rewrite Hk|]. destruct (errors_Is e ErrPermission); [done|].
  by destruct (As_Timeout e) as [[]|].
Qed.

Section dead.
Context {R : Type} {Lib : SftpLib R} {Ssh : SshLib R}.
Implicit Types (w : World R).

(** Over connection [c] the requests every operation begins with fail with
    [e]: the examination of a path, [Mkdir] and [OpenFile]. *)
Record Dead (c : option SftpConn) (e : error) : Prop := {
  dead_Lstat q r : (sftp_Lstat c q r).1 = Err e;
  dead_Mkdir q r : (sftp_Mkdir c q r).1 = Err e;
  dead_OpenFile q fl r : (sftp_OpenFile c q fl r).1 = Err e;
}.

Context (p : nat) (sc : Client R) (e : error) (HD : Dead (c_sftp sc) e) (He : lost e).

(** The session is open and holds this connection. *)
Definition holding w : Prop :=
  Session.closed (session_at p w) = false /\ Session.sftp (session_at p w) = Some sc.

(** Failing with an error [maybeInvalidate] ignores. *)
Definition fails {A} (m : M R (res A)) : Prop :=
  forall r, exists e', (m r).1 = Err e' /\ is_broken (KindOf e') = false.

Lemma fails_translated {A} op (m : M R (res A)) :
  (forall r, (m r).1 = Err e) -> fails (translated op m).
Proof.
  intros Hm r. exists (translateError op e). split; [|by apply lost_translated].
  unfold translated, bind. specialize (Hm r). destruct (m r) as [x r1]. simpl in *. by subst x.
Qed.

Lemma fails_bindE {A B} (m : M R (res A)) (k : A -> M R (res B)) : fails m -> fails (bindE m k).
Proof.
  intros Hm r. destruct (Hm r) as (e' & E & Hb). exists e'. split; [|done].
  unfold bindE, bind. destruct (m r) as [x r1]. simpl in *. by subst x.
Qed.

Lemma fails_check q : fails (checkNoEscapingSymlink sc q).
Proof.
  intros r. exists (translateError "sftpclient.checkNoEscapingSymlink" e). split; [|by apply lost_translated].
  unfold checkNoEscapingSymlink, bind. pose proof (dead_Lstat _ _ HD q r) as H.
  destruct (sftp_Lstat (c_sftp sc) q r) as [x r1]. simpl in *. subst x.
  destruct He as (_ & -> & _). done.
Qed.

(** Every operation of the client fails so. *)
Lemma fails_Mkdir q : fails (SftpClient.Mkdir sc q).
Proof. apply fails_translated, (dead_Mkdir _ _ HD). Qed.
Lemma fails_CreateTemp q : fails (CreateTemp sc q).
Proof. apply fails_translated. intros r. apply (dead_OpenFile _ _ HD). Qed.

(** ** The handlers *)

Lemma keeps_holding {A} (m : M (World R) A) : silent heap m -> keeps holding m.
Proof. intros Hm w Hw. unfold holding, session_at. rewrite Hm. exact Hw. Qed.

Lemma holding_audit c q x : keeps holding (audit p c q x).
Proof. apply keeps_holding. intros w. by destruct x. Qed.

Definition failed_holding {A} (r : res A) w : Prop := is_ok r = false /\ holding w.

Lemma holding_audited {A B} c q I (m : M (World R) (res A)) (k : A -> M (World R) (res B)) :
  triple holding m (fun r w => holding w /\ forall a, r = Ok a -> I a) ->
  (forall a, I a -> triple holding (k a) failed_holding) ->
  triple holding (audited p c q m k) failed_holding.
Proof.
  intros Hm Hk w Hw. unfold audited, bind. destruct (Hm w Hw) as [Hw1 HI].
  destruct (m w) as [[a|x] w1]; simpl in *; [by apply Hk; [apply HI|]|].
  pose proof (holding_audit c q (Some x) w1 Hw1) as Hw2.
  by destruct (audit p c q (Some x) w1) as [u w2].
Qed.

Lemma holding_quiet {A B} c q (m : M (World R) (res A)) (k : A -> M (World R) (res B)) :
  silent heap m -> (forall a, triple holding (k a) failed_holding) ->
  triple holding (audited p c q m k) failed_holding.
Proof.
  intros Hm Hk. apply holding_audited with (I := fun _ => True); [|by intros].
  intros w Hw. split; [by apply keeps_holding|done].
Qed.

Lemma heap_remotePath n : silent heap (remotePath p n).
Proof.
  intros w. unfold remotePath, resolveAndContain, bindE, bind, get_session, ret.
  repeat (case_match; simplify_eq/=; try done).
Qed.

(** The session hands out the dead connection again. *)
Lemma holding_SFTP {B} c q (k : Client R -> M (World R) (res B)) :
  triple holding (k sc) failed_holding -> triple holding (audited p c q (sess_SFTP p) k) failed_holding.
Proof.
  intros Hk. apply holding_audited with (I := fun x => x = sc); [|by intros _ ->].
  intros w [Hc Hs]. unfold sess_SFTP, get_session, bind, Session.SFTP. rewrite Hc, Hs. simpl.
  split; [|by intros a [= <-]]. unfold holding, session_at. simpl. by rewrite lookup_insert_eq.
Qed.

Lemma holding_remote_op {A} (m : M R (res A)) : fails m -> triple holding (remote_op p m) failed_holding.
Proof.
  intros Hm w Hw. unfold remote_op, bind, on_remote, zoom. destruct (Hm (remote w)) as (x & E & Hb).
  destruct (m (remote w)) as [r r1]. simpl in *. subst r. simpl.
  assert (forall w1, maybeInvalidate p (Some x) w1 = (tt, w1)) as Hinv.
  { intros w1. unfold maybeInvalidate. by destruct (KindOf x). }
  by rewrite Hinv.
Qed.

Lemma holding_op {A B} (m : M R (res A)) (k : res A -> M (World R) (res B)) :
  fails m -> (forall x, triple holding (k (Err x)) failed_holding) ->
  triple holding (let* r := remote_op p m in k r) failed_holding.
Proof.
  intros Hm Hk. apply triple_bind with (1 := holding_remote_op m Hm).
  intros [a|x] w [[=] Hw]. by apply Hk.
Qed.

Lemma holding_op_audited {A} c q (m : M R (res A)) :
  fails m -> triple holding (let* r := remote_op p m in do* audit p c q (err_of r) in ret r) failed_holding.
Proof.
  intros Hm. apply (holding_op m (fun r => do* audit p c q (err_of r) in ret r)); [done|]. intros x.
  apply triple_keeps; [apply holding_audit|]. intros _. by apply triple_ret.
Qed.

Lemma holding_simple c n check op :
  (forall q, fails (op sc q)) -> triple holding (simple_command p c n check op) failed_holding.
Proof.
  intros Hop. apply holding_quiet; [apply heap_remotePath|]. intros [v q].
  apply holding_quiet; [done|]. intros _. apply holding_SFTP. by apply holding_op_audited.
Qed.

(** File commands: none succeeds, none drops the connection. *)
Lemma holding_command g c :
  triple holding (run_command g p c) (fun r w => r <> None /\ holding w).
Proof.
  assert (forall A (m : M (World R) (res A)), triple holding m failed_holding ->
    triple holding (let* r := m in ret (err_of r)) (fun r w => r <> None /\ holding w)) as Hend.
  { intros A m Hm. apply triple_bind with (1 := Hm). by intros [a|x] w [[=] Hw]. }
  destruct c as [n|n|n|n|a b|n|c]; simpl; apply Hend.
  - apply holding_quiet; [apply heap_remotePath|]. intros [v q]. apply holding_SFTP.
    by apply holding_remote_op, fails_bindE, fails_check.
  - apply holding_simple, fails_Mkdir.
  - apply holding_simple. intros q. by apply fails_bindE, fails_check.
  - apply holding_simple. intros q. by apply fails_bindE, fails_check.
  - apply holding_quiet; [apply heap_remotePath|]. intros [va qa].
    apply holding_quiet; [apply heap_remotePath|]. intros [vb qb].
    apply triple_keeps; [by apply keeps_holding|]. intros pol.
    apply holding_quiet; [done|]. intros _. apply holding_SFTP.
    by apply holding_op_audited, fails_bindE, fails_check.
  - apply holding_quiet; [apply heap_remotePath|]. intros [v q]. apply holding_SFTP.
    apply triple_keeps; [by apply keeps_holding|]. intros s.
    apply (holding_op (SftpClient.ReadDir sc q _)); [by apply fails_bindE, fails_check|]. intros x.
    apply triple_keeps; [apply holding_audit|]. intros _. by apply triple_ret.
  - by intros w Hw.
Qed.

(** ** Transfers *)

Lemma heap_on_remote_m {A} (m : M R A) : silent heap (on_remote m).
Proof. intros w. unfold on_remote, zoom. by destruct (m (remote w)). Qed.

Lemma holding_fails {A} (m : M R (res A)) : fails m -> triple holding (on_remote m) failed_holding.
Proof.
  intros Hm w Hw. pose proof (keeps_holding _ (heap_on_remote_m m) w Hw) as Hw1. split; [|done].
  unfold on_remote, zoom in *. destruct (Hm (remote w)) as (x & E & _).
  destruct (m (remote w)) as [r r1]. simpl in *. by subst r.
Qed.

(** The first request of a transfer fails, and the slot is given back. *)
Lemma failed_bindE {A B} (m : M (World R) (res A)) (k : A -> M (World R) (res B)) :
  triple holding m failed_holding -> triple holding (bindE m k) failed_holding.
Proof. intros Hm. apply triple_bind with (1 := Hm). intros [a|x] w [[=] Hw]. done. Qed.

Lemma holding_NewUpload q o : triple holding (Upload.NewUpload (world_fs sc) q o) failed_holding.
Proof.
  unfold Upload.NewUpload. apply triple_bind with (J := fun _ => holding).
  - destruct (negb _); [|by intros w]. apply triple_keeps; [apply keeps_holding, heap_on_remote_m|].
    intros st. by apply triple_ret.
  - intros [x|x]; [|by intros w]. apply failed_bindE. apply holding_fails, fails_CreateTemp.
Qed.

Lemma holding_NewDownload q o : triple holding (Download.NewDownload (world_fs sc) q o) failed_holding.
Proof. by apply failed_bindE, holding_fails, fails_bindE, fails_check. Qed.

Lemma heap_on_ids {A} (m : M Z A) : silent heap (on_ids (R := R) m).
Proof. intros w. unfold on_ids, zoom. by destruct (m (fallbackCounter w)). Qed.
Lemma heap_TryAcquire user : silent heap (TryAcquire (R := R) user).
Proof. intros w. unfold TryAcquire. destruct (gates w !! user) as [gt|]; [|done]. by destruct (Gate.TryAcquire gt). Qed.
Lemma heap_release k user : silent heap (release (R := R) k user).
Proof. intros w. unfold release, bind, get. by destruct (default _ _). Qed.

Lemma refused_holding {A} (m : M (World R) unit) x :
  keeps holding m -> triple holding (do* m in ret (Err x)) (failed_holding (A := A)).
Proof. intros Hm. apply triple_keeps; [done|]. intros _. by apply triple_ret. Qed.

Lemma holding_beginUpload g v q fl en : triple holding (beginUpload g p sc v q fl en) failed_holding.
Proof.
  unfold beginUpload. destruct (negb _); [by apply triple_ret|].
  apply triple_keeps; [by apply keeps_holding|]. intros s.
  apply holding_quiet; [done|]. intros _.
  apply triple_keeps; [apply keeps_holding, heap_TryAcquire|]. intros []; simpl;
    [|apply refused_holding, holding_audit].
  do 5 (apply triple_keeps; [by apply keeps_holding|]; intros).
  apply triple_keeps; [apply keeps_holding, heap_on_ids|]. intros tid.
  apply triple_bind with (1 := holding_NewUpload q _). intros [u|x] w [[=] Hw]. revert w Hw.
  apply triple_keeps; [by apply keeps_holding|]. intros _.
  apply triple_keeps; [apply keeps_holding, heap_release|]. intros _. apply refused_holding, holding_audit.
Qed.

Lemma holding_beginDownload g v q en : triple holding (beginDownload g p sc v q en) failed_holding.
Proof.
  unfold beginDownload. apply triple_keeps; [by apply keeps_holding|]. intros s.
  apply holding_quiet; [done|]. intros _.
  apply triple_keeps; [apply keeps_holding, heap_TryAcquire|]. intros []; simpl;
    [|apply refused_holding, holding_audit].
  do 4 (apply triple_keeps; [by apply keeps_holding|]; intros).
  apply triple_keeps; [apply keeps_holding, heap_on_ids|]. intros tid.
  apply triple_bind with (1 := holding_NewDownload q _). intros [u|x] w [[=] Hw]. revert w Hw.
  apply triple_keeps; [apply keeps_holding, heap_release|]. intros _. apply refused_holding, holding_audit.
Qed.

Lemma holding_GetHandle g n fl en : triple holding (GetHandle g p n fl en) failed_holding.
Proof.
  apply holding_quiet; [apply heap_remotePath|]. intros [v q]. apply holding_SFTP.
  destruct (negb _); [apply holding_beginUpload|apply holding_beginDownload].
Qed.
End dead.

Section requests.
Context {R : Type} {Lib : SftpLib R} {Ssh : SshLib R}.
Implicit Types (w : World R).

(** What [maybeInvalidate] does to the connection, whatever the error. *)
Lemma maybeInvalidate_exact p x w :
  Session.sftp (session_at p (maybeInvalidate p (Some x) w).2) =
  if is_broken (KindOf x) then None else Session.sftp (session_at p w).
Proof.
  assert (Session.sftp (session_at p ((let* connected := sess_IsConnected p in
    if connected then do* sess_InvalidateSFTP p in count (Gauge_Dec SFTPConnectionsActive) else ret tt) w).2) = None) as H.
  { unfold bind, sess_IsConnected, sess_InvalidateSFTP, get_session, ret.
    unfold bind, Session.IsConnected, Session.InvalidateSFTP.
    destruct (Session.sftp (session_at p w)) as [c|] eqn:E; simpl; [|exact E]. rewrite E.
    unfold bind. destruct (on_remote (SftpClient.Close c) w) as [r w1].
    unfold session_at at 1. simpl. by rewrite lookup_insert_eq. }
  unfold maybeInvalidate. destruct (KindOf x); simpl; first [exact H|done].
Qed.

(** A request of the session: a file command, or opening a transfer. *)
Inductive request :=
  | RCommand (c : command)
  | RTransfer (name : string) (flags : Z) (en : Entropy).

Definition run_request g p (r : request) : M (World R) bool :=
  match r with
  | RCommand c => let* err := run_command g p c in ret (bool_decide (err = None))
  | RTransfer n fl en => let* t := GetHandle g p n fl en in ret (is_ok t)
  end.

(** Which of them succeeded. *)
Fixpoint run_requests g p (rs : list request) : M (World R) (list bool) :=
  match rs with
  | [] => ret []
  | r :: rs => let* ok := run_request g p r in let* oks := run_requests g p rs in ret (ok :: oks)
  end.

(** C16. A dead connection is kept.  The connection of a session is dropped
    exactly on errors of the kinds timeout, SSH connection and disconnected,
    and no error of the SFTP library but a timeout is translated to one of
    them.  So once the connection of an open session is lost, every command
    and every transfer of the session fails, however many there are, and the
    session holds the same connection after each: it never dials again. *)
Theorem dead_connection_kept g p sc e rs w :
  Dead (c_sftp sc) e -> lost e -> holding p sc w ->
  (forall x w0, Session.sftp (session_at p (maybeInvalidate p (Some x) w0).2) =
                if is_broken (KindOf x) then None else Session.sftp (session_at p w0)) /\
  (forall op, is_broken (KindOf (translateError op e)) = false) /\
  Forall (fun ok => ok = false) (run_requests g p rs w).1 /\ holding p sc (run_requests g p rs w).2.
Proof.
  intros HD He Hw. split_and!; [apply maybeInvalidate_exact|intros op; by apply lost_translated|..];
    revert w Hw; induction rs as [|r rs IH]; intros w Hw; simpl; [done| |done|].
  all: assert ((run_request g p r w).1 = false /\ holding p sc (run_request g p r w).2) as [H1 H2] by
    (destruct r as [c|n fl en]; simpl; unfold bind;
     [destruct (holding_command p sc e HD He g c w Hw) as [Hr Hh]; destruct (run_command g p c w) as [x w1];
      split; [by apply bool_decide_eq_false|done]
     |destruct (holding_GetHandle p sc e HD He g n fl en w Hw) as [Hr Hh]; by destruct (GetHandle g p n fl en w)]).
  all: unfold bind; destruct (run_request g p r w) as [ok w1]; simpl in H1, H2; specialize (IH w1 H2);
    destruct (run_requests g p rs w1) as [oks w2]; simpl in *; auto.
Qed.
End requests.

(** ** A server that is gone *)

(** Connecting still works, and every request after it fails. *)
Inductive Gone := TheServer.
Definition connection_lost : error := EOther "connection lost".
Definition gone {A} : M Gone (res A) := ret (Err connection_lost).

#[export] Instance GoneLib : SftpLib Gone := {
  SshClient := unit;
  SftpConn := unit;
  SftpFile := unit;
  sftp_NewClient c := ret (Ok c);
  ssh_Close _ := ret (Ok tt);
  sftp_Close _ := ret (Ok tt);
  sftp_HasExtension _ _ := true;
  sftp_Stat _ _ := gone;
  sftp_Lstat _ _ := gone;
  sftp_ReadLink _ _ := gone;
  sftp_ReadDirContext _ _ _ := gone;
  sftp_OpenFile _ _ _ := gone;
  sftp_Remove _ _ := gone;
  sftp_RemoveDirectory _ _ := gone;
  sftp_Mkdir _ _ := gone;
  sftp_Rename _ _ _ := gone;
  sftp_PosixRename _ _ _ := gone;
  file_Read _ _ := ret ([], Some connection_lost);
  file_Write _ _ := ret (0, Some connection_lost);
  file_Seek _ _ _ := ret (0, Some connection_lost);
  file_Close _ := gone;
}.

#[export] Instance GoneSsh : SshLib Gone := {
  HostKeyCallback := string;
  Signer := string;
  NetConn := unit;
  knownhosts_New f := ret (Ok f);
  os_ReadFile f := ret (Ok f);
  ssh_ParsePrivateKey := Ok;
  ssh_ParsePrivateKeyWithPassphrase k _ := Ok k;
  net_Dial _ _ := ret (Ok tt);
  conn_SetDeadline _ _ := ret tt;
  conn_Close _ := ret tt;
  ssh_NewClientConn _ _ _ := ret (Ok tt);
}.

(** The session has connected; then the server goes. *)
Definition gone_world : World Gone :=
  (sess_SFTP 0 (sys_world (sys_run plain_compare "" (NewGateway demo_gateway_config)
                             (start demo_gateway_config TheServer 0) demo_login))).2.
Definition gone_client : Client Gone := MkClient (Some tt) (Some tt) "/data".
Definition gone_requests : list request :=
  [RCommand (CStat "a"); RTransfer "a" O_WRONLY demo_entropy; RCommand (CMkdir "b");
   RTransfer "a" O_RDONLY demo_entropy; RCommand (CReadDir "/")].

Lemma dead_connection_kept_witness :
  (run_requests (NewGateway demo_gateway_config) 0 gone_requests gone_world).1
    = [false; false; false; false; false] /\
  holding 0 gone_client (run_requests (NewGateway demo_gateway_config) 0 gone_requests gone_world).2.
Proof.
  split; [vm_compute; reflexivity|].
  refine (proj2 (proj2 (proj2 (dead_connection_kept (NewGateway demo_gateway_config) 0 gone_client
    connection_lost gone_requests gone_world _ _ _)))).
  - by split.
  - by repeat split.
  - split; vm_compute; reflexivity.
Defined.
