(* ===== verification/Admission.v ===== *)
(** * Admission under concurrency

    The FTP library runs every connection in its own goroutine, so the
    callbacks of different connections interleave.  Here [ClientConnected]
    and [ClientDisconnected] are cut at their atomic operations (the load of
    [shuttingDown], [activeConnections.Add]) and any interleaving is a path of the
    step relation. *)
From S2P Require Import Prelude GoStrings GoPath Errors Filesystem Authorization Limiter Auth SftpLib MemServer SshDial SftpClient Metrics Observability Config Session Transfer Gateway.
Open Scope string_scope.
Open Scope list_scope.
Open Scope Z_scope.

(** Where the goroutine of a connection stands. *)
Inductive progress :=
  | Connecting  (** about to load [shuttingDown] *)
  | Counting    (** about to add one *)
  | Holding (ticket : Z)  (** added one and got [ticket] back *)
  | Inside (ticket : Z)
  | Refused
  | Gone.

Record Admission := MkAdmission {
  counter : Z;
  closing : bool;
  at_ : gmap Z progress;
}.

(** One atomic operation. *)
Inductive astep (max : Z) : Admission -> Admission -> Prop :=
  | a_arrive n b m cc :
      m !! cc = None ->
      astep max (MkAdmission n b m) (MkAdmission n b (<[cc := Connecting]> m))
  | a_load n b m cc :
      m !! cc = Some Connecting ->
      astep max (MkAdmission n b m)
        (MkAdmission n b (<[cc := if b then Refused else Counting]> m))
  | a_add n b m cc :
      m !! cc = Some Counting ->
      astep max (MkAdmission n b m)
        (MkAdmission (wrap64 (n + 1)) b (<[cc := Holding (wrap64 (n + 1))]> m))
  | a_accept n b m cc t :
      m !! cc = Some (Holding t) -> (t >? max) = false ->
      astep max (MkAdmission n b m) (MkAdmission n b (<[cc := Inside t]> m))
  | a_refuse n b m cc t :
      m !! cc = Some (Holding t) -> (t >? max) = true ->
      astep max (MkAdmission n b m) (MkAdmission (wrap64 (n - 1)) b (<[cc := Refused]> m))
  | a_leave n b m cc t :
      m !! cc = Some (Inside t) ->
      astep max (MkAdmission n b m) (MkAdmission (wrap64 (n - 1)) b (<[cc := Gone]> m))
  | a_shutdown n b m : astep max (MkAdmission n b m) (MkAdmission n true m).

Definition no_connections : Admission := MkAdmission 0 false ∅.

Definition ticket_of (p : progress) : option Z :=
  match p with Holding t | Inside t => Some t | _ => None end.
Definition is_admitted (p : progress) : bool :=
  match p with Inside _ => true | _ => false end.


Definition holders (m : gmap Z progress) : Z :=
  tally (fun p => bool_decide (is_Some (ticket_of p))) m.
(** Holders whose ticket is at most [k]. *)
Definition low (k : Z) (p : progress) : bool :=
  match ticket_of p with Some t => t <=? k | None => false end.

Definition admitted_count (m : gmap Z progress) : Z := tally is_admitted m.

(** The counter counts the holders, and of the holders with a ticket up to
    [k] there are at most [k]: a ticket is the number of holders when it was
    drawn, and holders only leave afterwards. *)
Record admission_inv (max : Z) (s : Admission) : Prop := {
  ai_counter : counter s = holders (at_ s);
  ai_low k : 0 <= k -> tally (low k) (at_ s) <= k;
  ai_ticket cc t : at_ s !! cc = Some (Inside t) -> t <= max;
}.

Lemma holders_size m : holders m <= Z.of_nat (size m).
Proof. apply tally_size. Qed.

(** Moving one connection on. *)
Lemma inv_move max n b b' m cc p q :
  admission_inv max (MkAdmission n b m) -> m !! cc = Some p ->
  (forall t, q = Inside t -> t <= max) ->
  (forall k, bit (low k q) <= bit (low k p)) ->
  admission_inv max (MkAdmission
    (n - bit (bool_decide (is_Some (ticket_of p))) + bit (bool_decide (is_Some (ticket_of q))))
    b' (<[cc := q]> m)).
Proof.
  intros [Hc Hl Ht] Hp Hq Hlow. split; simpl in *.
  - unfold holders. rewrite (tally_insert _ _ p) by done. by rewrite Hc.
  - intros k Hk. rewrite (tally_insert _ _ p) by done. specialize (Hl k Hk). specialize (Hlow k). lia.
  - intros cc' t. rewrite lookup_insert_Some. intros [[_ Hqt]|[_ H]]; [by apply Hq|by eapply Ht].
Qed.

(** Drawing a ticket. *)
Lemma inv_draw max n b m cc :
  admission_inv max (MkAdmission n b m) -> m !! cc = Some Counting ->
  admission_inv max (MkAdmission (n + 1) b (<[cc := Holding (n + 1)]> m)).
Proof.
  intros [Hc Hl Ht] Hp. split; simpl in *.
  - unfold holders. rewrite (tally_insert _ _ Counting) by done. simpl. rewrite Hc. unfold holders. lia.
  - intros k Hk. rewrite (tally_insert _ _ Counting) by done. specialize (Hl k Hk).
    unfold low at 2 3. simpl. destruct (n + 1 <=? k) eqn:E; bool_to_prop; simpl; [|lia].
    assert (tally (low k) m <= holders m); [|lia]. apply tally_le. intros p. unfold low.
    by destruct (ticket_of p).
  - intros cc' t. rewrite lookup_insert_Some. intros [[_ [=]]|[_ H]]. by eapply Ht.
Qed.

Lemma astep_size max s s' : astep max s s' -> (size (at_ s) <= size (at_ s'))%nat.
Proof.
  intros H. inversion H; subst; simpl; try lia; try (rewrite map_size_insert_Some by eauto; lia).
  rewrite map_size_insert_None by done. lia.
Qed.

Lemma astep_inv max s s' :
  astep max s s' -> Z.of_nat (size (at_ s')) < max_int64 -> admission_inv max s -> admission_inv max s'.
Proof.
  intros Hs Hsize Hi. pose proof (astep_size _ _ _ Hs) as Hle.
  assert (0 <= counter s <= Z.of_nat (size (at_ s))) as Hn.
  { rewrite (ai_counter _ _ Hi). split; [apply tally_nonneg|apply holders_size]. }
  assert (forall z, counter s - 1 <= z <= counter s + 1 -> wrap64 z = z) as Hwrap.
  { intros z Hz. apply wrap64_id. unfold in_int64, min_int64, max_int64 in *. lia. }
  destruct Hs as [n b m cc Hm|n b m cc Hm|n b m cc Hm|n b m cc t Hm Hle2|n b m cc t Hm Hgt|n b m cc t Hm|n b m];
    simpl in *; rewrite ?Hwrap by lia.
  - destruct Hi as [Hc Hl Ht]. split; simpl in *.
    + unfold holders. rewrite tally_fresh by done. by rewrite Z.add_0_r.
    + intros k Hk. rewrite tally_fresh by done. simpl. specialize (Hl k Hk). lia.
    + intros cc' t. rewrite lookup_insert_Some. intros [[_ [=]]|[_ H]]. by eapply Ht.
  - pose proof (inv_move _ _ _ b _ _ _ (if b then Refused else Counting) Hi Hm ltac:(by destruct b)
      ltac:(by destruct b)) as H. destruct b; simpl in H; by rewrite Z.sub_0_r, Z.add_0_r in H.
  - by apply inv_draw.
  - pose proof (inv_move _ _ _ b _ _ _ (Inside t) Hi Hm
      ltac:(intros t' [= <-]; bool_to_prop; lia) ltac:(done)) as H.
    simpl in H. by rewrite Z.sub_add in H.
  - pose proof (inv_move _ _ _ b _ _ _ Refused Hi Hm ltac:(done)
      ltac:(intros k; unfold low; simpl; destruct (t <=? k); simpl; lia)) as H.
    simpl in H. by rewrite Z.add_0_r in H.
  - pose proof (inv_move _ _ _ b _ _ _ Gone Hi Hm ltac:(done)
      ltac:(intros k; unfold low; simpl; destruct (t <=? k); simpl; lia)) as H.
    simpl in H. by rewrite Z.add_0_r in H.
  - by destruct Hi.
Qed.

Lemma admission_reach max s s' :
  rtc (astep max) s s' -> Z.of_nat (size (at_ s')) < max_int64 ->
  admission_inv max s -> admission_inv max s'.
Proof.
  intros H. induction H as [|s1 s2 s3 H12 H23 IH]; [done|]. intros Hsize Hi. apply IH; [done|].
  eapply astep_inv; [done| |done].
  assert (size (at_ s2) <= size (at_ s3))%nat; [|lia].
  clear -H23. induction H23 as [|a b c H _ IH]; [lia|]. apply astep_size in H. lia.
Qed.

(** Once shutdown has begun no connection gets past the flag. *)
Definition locked_out (cc : Z) (s : Admission) : Prop :=
  closing s = true /\ (at_ s !! cc = None \/ at_ s !! cc = Some Connecting \/ at_ s !! cc = Some Refused).

Lemma astep_locked_out max cc s s' : astep max s s' -> locked_out cc s -> locked_out cc s'.
Proof.
  intros Hs [Hb Hcc].
  destruct Hs as [n b m c Hm|n b m c Hm|n b m c Hm|n b m c t Hm Hle|n b m c t Hm Hgt|n b m c t Hm|n b m];
    (split; [done|]); simpl in *; subst; try done;
    (destruct (decide (c = cc)) as [->|]; [rewrite !lookup_insert_eq; naive_solver|
      by rewrite !lookup_insert_ne]).
Qed.

Section gateway.
Context {R : Type} {Lib : SftpLib R} {Ssh : SshLib R}.
Implicit Types (w : World R).

(** The handler, run without interruption, is a path of the relation. *)
Lemma ClientConnected_path g cc addr w m :
  let max := ServerConfig.MaxConnections (Server (g_cfg g)) in
  let '((_, err), w') := ClientConnected g cc addr w in
  in_int64 (activeConnections w) -> m !! cc = None ->
  exists m', rtc (astep max) (MkAdmission (activeConnections w) (shuttingDown w) m)
               (MkAdmission (activeConnections w') (shuttingDown w') m') /\
    (err = None <-> exists t, m' !! cc = Some (Inside t)).
Proof.
  intros max. destruct (ClientConnected g cc addr w) as [[msg err] w'] eqn:E. intros Hr Hm.
  unfold ClientConnected, bind, get in E. simpl in E.
  assert (forall q : progress, <[cc := q]> m !! cc = Some q) as Hl
    by (intros; apply lookup_insert_eq).
  destruct (shuttingDown w) eqn:Hsh.
  { injection E as _ <- <-. eexists. simpl. rewrite ?Hsh. split.
    - eapply rtc_l; [by apply (a_arrive _ _ _ _ cc)|]. eapply rtc_l; [by apply (a_load _ _ _ _ cc), Hl|]. done.
    - rewrite lookup_insert_eq. naive_solver. }
  simpl in E. fold max in E. set (t := wrap64 (activeConnections w + 1)) in *.
  assert (rtc (astep max) (MkAdmission (activeConnections w) false m)
    (MkAdmission t false (<[cc := Holding t]> (<[cc := Counting]> (<[cc := Connecting]> m))))) as Hpath.
  { eapply rtc_l; [by apply (a_arrive _ _ _ _ cc)|]. eapply rtc_l; [by apply (a_load _ _ _ _ cc), Hl|].
    eapply rtc_l; [by apply (a_add _ _ _ _ cc), lookup_insert_eq|]. done. }
  destruct (t >? max) eqn:Ht; injection E as _ <- <-; simpl; rewrite ?Hsh; eexists; split.
  - eapply rtc_r; [exact Hpath|]. by apply (a_refuse _ _ _ _ cc t); [apply lookup_insert_eq|].
  - rewrite lookup_insert_eq. naive_solver.
  - eapply rtc_r; [exact Hpath|]. by apply (a_accept _ _ _ _ cc t); [apply lookup_insert_eq|].
  - rewrite lookup_insert_eq. naive_solver.
Qed.

(** C14. [maxConnections] is never exceeded, however the goroutines of the
    connections interleave: at every point at most that many are admitted;
    the counter is exact whenever nobody is between drawing a ticket and
    acting on it; and once shutdown has begun, a connection that had not
    passed the flag never gets in.  [ClientConnected] itself is a path of
    these steps, admitted exactly when it returns no error. *)
Theorem admission_bound (g : Gateway) s :
  let max := ServerConfig.MaxConnections (Server (g_cfg g)) in
  0 <= max -> rtc (astep max) no_connections s -> Z.of_nat (size (at_ s)) < max_int64 ->
  admitted_count (at_ s) <= max /\
  ((forall cc t, at_ s !! cc <> Some (Holding t)) -> counter s = admitted_count (at_ s)) /\
  (forall cc s', locked_out cc s -> rtc (astep max) s s' -> locked_out cc s') /\
  (forall w cc addr m, in_int64 (activeConnections w) -> m !! cc = None ->
     let '((_, err), w') := ClientConnected g cc addr w in
     exists m', rtc (astep max) (MkAdmission (activeConnections w) (shuttingDown w) m)
                  (MkAdmission (activeConnections w') (shuttingDown w') m') /\
       (err = None <-> exists t, m' !! cc = Some (Inside t))).
Proof.
  intros max Hmax Hr Hsize.
  assert (admission_inv max s) as [Hc Hl Ht].
  { eapply admission_reach; [done..|]. split; simpl; [done| |done]. intros k Hk. by rewrite tally_empty. }
  split_and!.
  - assert (admitted_count (at_ s) <= tally (low max) (at_ s)) as H; [|specialize (Hl max Hmax); lia].
    apply tally_le_lookup. intros cc p Hp. unfold low. destruct p as [| | |t| |]; try done.
    intros _. simpl. apply Z.leb_le. by eapply Ht.
  - intros Hno. rewrite Hc. apply Z.le_antisymm; apply tally_le_lookup; intros cc p Hp.
    + destruct p as [| |t|t| |]; try done. by destruct (Hno cc t).
    + by destruct p.
  - intros cc s' Hlo Hrs. clear -Hlo Hrs. induction Hrs as [|a b c Hab _ IH]; [done|]. apply IH. by eapply astep_locked_out.
  - intros w cc addr m Hw Hm. pose proof (ClientConnected_path g cc addr w m) as H. simpl in H.
    destruct (ClientConnected g cc addr w) as [[msg err] w']. by apply H.
Qed.
End gateway.

(** Two connections race for one slot: both count themselves, the one with
    the second ticket backs out. *)
Definition demo_race : Admission :=
  MkAdmission 1 false (<[2 := Refused]> (<[1 := Inside 1]> (<[2 := Holding 2]> (<[1 := Holding 1]>
    (<[2 := Counting]> (<[1 := Counting]> (<[2 := Connecting]> (<[1 := Connecting]> ∅)))))))).

Lemma demo_race_path : rtc (astep 1) no_connections demo_race.
Proof.
  eapply rtc_l; [by apply (a_arrive _ _ _ _ 1)|]. eapply rtc_l; [by apply (a_arrive _ _ _ _ 2)|].
  eapply rtc_l; [by apply (a_load _ _ _ _ 1)|]. eapply rtc_l; [by apply (a_load _ _ _ _ 2)|].
  eapply rtc_l; [by apply (a_add _ _ _ _ 1)|]. eapply rtc_l; [by apply (a_add _ _ _ _ 2)|].
  eapply rtc_l; [by apply (a_accept _ _ _ _ 1 1)|].
  eapply rtc_l; [by apply (a_refuse _ _ _ _ 2 2)|]. done.
Qed.

Lemma admission_bound_witness : admitted_count (at_ demo_race) = 1 /\ admitted_count (at_ demo_race) <= 1.
Proof.
  split; [by vm_compute|].
  exact (proj1 (admission_bound (R := MemFS)
    (NewGateway (MkConfig (ServerConfig.Mk "" 21 "" 1 1 1 0 0 0) [] (TransferConfig.Mk 0 "" true)
       (ObservabilityConfig.Mk "" "") (HealthConfig.Mk "" false)))
    demo_race ltac:(done) demo_race_path ltac:(done))).
Defined.
