(* ===== verification/Confinement.v ===== *)
(** * Confinement of the whole gateway

    Every path the gateway names to a server, in any reachable state and by
    any callback, lies under the remote root of the user it works for. *)
From S2P Require Import Prelude GoStrings GoPath Errors Filesystem Authorization Limiter Auth SftpLib MemServer SshDial SftpClient Metrics Observability Config Session Transfer UploadSpec TransferSpec DownloadSpec Gateway Driver Trace Triples Accounting System.
Open Scope string_scope.
Open Scope list_scope.
Open Scope Z_scope.

Section client.
Context {R : Type} {Lib : SftpLib R} {Ssh : SshLib R} (names : R -> list string).
Context {HN : Named R names}.
Context (conf : string -> Prop) (l0 : list string).

(** Since [l0], only paths [conf] allows were named. *)
Definition confined_since (r : R) : Prop := exists new, names r = l0 ++ new /\ Forall conf new.

Lemma keeps_named {A} (m : M R A) ps :
  named names m ps -> Forall conf ps -> keeps confined_since m.
Proof.
  intros Hm Hps r (new & Hr & Hnew). exists (new ++ ps). rewrite Hm, Hr, <- (assoc_L app).
  split; [done|]. by apply Forall_app.
Qed.

Lemma keeps_unnamed {A} (m : M R A) : named names m [] -> keeps confined_since m.
Proof. intros Hm. by apply (keeps_named m []). Qed.

#[local] Hint Extern 2 (keeps _ _) => solve [apply keeps_unnamed; first
  [ apply nm_NewClient | apply nm_ssh_Close | apply nm_sftp_Close | apply nm_Read | apply nm_Write
  | apply nm_Seek | apply nm_Close | apply nm_knownhosts | apply nm_os_ReadFile | apply nm_net_Dial
  | apply nm_SetDeadline | apply nm_conn_Close | apply nm_NewClientConn ]] : keeps.
#[local] Hint Extern 3 (keeps _ _) => solve [eapply keeps_named;
  [ first [ apply nm_Stat | apply nm_Lstat | apply nm_ReadLink | apply nm_ReadDir | apply nm_OpenFile
          | apply nm_Remove | apply nm_RemoveDirectory | apply nm_Mkdir | apply nm_Rename
          | apply nm_PosixRename ]
  | by repeat constructor ]] : keeps.

Lemma names_guard c p : conf p -> keeps confined_since (checkNoEscapingSymlink c p).
Proof. intros Hp. unfold checkNoEscapingSymlink, translated. solve_keeps. Qed.
#[local] Hint Resolve names_guard : keeps.

Lemma names_Stat c p : conf p -> keeps confined_since (SftpClient.Stat c p).
Proof. intros Hp. unfold SftpClient.Stat, translated. solve_keeps. Qed.
Lemma names_OpenRead c p : conf p -> keeps confined_since (OpenRead c p).
Proof. intros Hp. unfold OpenRead, translated. solve_keeps. Qed.
Lemma names_CreateTemp c p : conf p -> keeps confined_since (CreateTemp c p).
Proof. intros Hp. unfold CreateTemp, translated. solve_keeps. Qed.
Lemma names_Commit c a b ow : conf a -> conf b -> keeps confined_since (Commit c a b ow).
Proof. intros Ha Hb. unfold Commit, rejectIfExists, translated. solve_keeps. Qed.
Lemma names_Remove c p : conf p -> keeps confined_since (SftpClient.Remove c p).
Proof. intros Hp. unfold SftpClient.Remove, translated. solve_keeps. Qed.
Lemma names_RemoveDirectory c p : conf p -> keeps confined_since (RemoveDirectory c p).
Proof. intros Hp. unfold RemoveDirectory, translated. solve_keeps. Qed.
Lemma names_Mkdir c p : conf p -> keeps confined_since (SftpClient.Mkdir c p).
Proof. intros Hp. unfold SftpClient.Mkdir, translated. solve_keeps. Qed.
Lemma names_Rename c a b ow : conf a -> conf b -> keeps confined_since (SftpClient.Rename c a b ow).
Proof. intros Ha Hb. unfold SftpClient.Rename, rejectIfExists, translated. solve_keeps. Qed.

Lemma names_safe_entries c p es :
  (forall n, good_comp n -> conf (Join2 p n)) -> Forall (fun e => good_comp (SftpLib.Name e)) es ->
  keeps confined_since (safe_entries c p es).
Proof.
  intros Hj Hes. induction Hes as [|e es He _ IH]; simpl; [apply keeps_ret|].
  apply keeps_bind; [destruct (is_symlink e)|intros k; apply keeps_bind]; solve_keeps; auto.
Qed.

Lemma names_ReadDir c p t :
  conf p -> (forall n, good_comp n -> conf (Join2 p n)) -> keeps confined_since (SftpClient.ReadDir c p t).
Proof.
  intros Hp Hj. unfold SftpClient.ReadDir. apply keeps_bindE; [auto with keeps|]. intros _ r Hr.
  unfold translated, bindE, bind.
  assert (keeps confined_since (sftp_ReadDirContext (c_sftp c) t p)) as Hk by auto with keeps.
  specialize (Hk r Hr). destruct (sftp_ReadDirContext (c_sftp c) t p r) as [[es|e] r1] eqn:E; [|done].
  apply (keeps_bind confined_since (safe_entries c p es) (fun safe => ret (Ok safe))); [|intros; apply keeps_ret|done].
  apply names_safe_entries; [done|]. by eapply nm_entries.
Qed.

Lemma names_New c root : keeps confined_since (SftpClient.New c root).
Proof. unfold SftpClient.New. solve_keeps. Qed.
Lemma names_Close c : keeps confined_since (SftpClient.Close c).
Proof. unfold SftpClient.Close. solve_keeps. Qed.
Lemma names_Dial cfg : keeps confined_since (Dial cfg).
Proof. unfold Dial, buildAuthMethods, loadSigner. solve_keeps. Qed.
End client.

(** A file of the root's own directory, named after the root, the suffix and
    a session. *)
Definition beside (root suffix : string) (q : string) : Prop :=
  exists rs b sess, Forall good_comp (rs ++ [b]) /\ ContainsByte sess slash = false /\
    root = abs_path (rs ++ [b]) /\ q = abs_path (rs ++ [b +:+ suffix +:+ "-" +:+ sess]).

(** Where a user's requests may go: under the remote root, or, for an upload
    onto the root itself, its temporary name beside it. *)
Definition may_touch (root suffix : string) (q : string) : Prop :=
  under root q \/ beside root suffix q.

(** Above "/" there is nothing: the temporary name of "/" is in it. *)
Lemma TempPath_top sess suffix :
  ContainsByte suffix slash = false -> ContainsByte sess slash = false ->
  TempPath (abs_path []) sess suffix = abs_path [suffix +:+ "-" +:+ sess] /\
  good_comp (suffix +:+ "-" +:+ sess).
Proof.
  intros Hsf Hss. set (n := suffix +:+ "-" +:+ sess).
  assert (ContainsByte n slash = false) as Hn by (subst n; by rewrite !ContainsByte_app, Hsf, Hss).
  assert (ContainsByte n dash = true) as Hd.
  { subst n. rewrite !ContainsByte_app. simpl. by rewrite orb_true_r. }
  assert (good_comp n) as Hg.
  { clearbody n. split_and!; [intros E; rewrite E in Hd; discriminate Hd..|done]. }
  split; [|done]. change (TempPath (abs_path []) sess suffix) with (Clean (String slash (String slash (String slash n)))).
  unfold Clean. change (IsAbs _) with true. cbn [negb].
  assert (Split (String slash (String slash (String slash n))) slash = [""; ""; ""; n]) as ->.
  { assert (forall t, Split (String slash t) slash = "" :: Split t slash) as Hsp
      by (intros t; exact (Split_app_sep "" t slash)).
    by rewrite !Hsp, Split_nosep. }
  unfold clean_comps. simpl. by rewrite clean_step_good.
Qed.

Lemma under_join root q n : under root q -> good_comp n -> under root (Join2 q n).
Proof.
  intros (rs & s & Hrs & Hs & -> & ->) Hn. exists rs, (s ++ [n]).
  assert (Forall good_comp (s ++ [n])) by (apply Forall_app; split; [done|by apply Forall_singleton]).
  split_and!; [done..|]. change n with (Join [n] "/") at 1.
  rewrite Join2_good; [by rewrite <- (assoc_L app)|by apply Forall_app|by apply Forall_singleton].
Qed.

Lemma TempPath_may_touch root suffix sess q :
  under root q -> ContainsByte suffix slash = false -> ContainsByte sess slash = false ->
  may_touch root suffix (TempPath q sess suffix).
Proof.
  intros (rs & s & Hrs & Hs & -> & ->) Hsf Hss. destruct (decide (s = [])) as [->|Hne].
  { rewrite app_nil_r. destruct rs as [|b rs _] using rev_ind.
    - destruct (TempPath_top sess suffix Hsf Hss) as [-> Hg].
      left. exists [], [suffix +:+ "-" +:+ sess]. split_and!; [done|by apply Forall_singleton|done..].
    - right. exists rs, b, sess. split_and!; [done..|]. by apply TempPath_abs_path. }
  left. destruct (exists_last Hne) as (s' & base & ->). rewrite (assoc_L app).
  assert (Forall good_comp ((rs ++ s') ++ [base])) as Hall by (rewrite <- (assoc_L app); by apply Forall_app).
  rewrite TempPath_abs_path by done. apply Forall_app in Hall as [Hall Hb].
  exists rs, (s' ++ [base +:+ suffix +:+ "-" +:+ sess]). rewrite (assoc_L app). split_and!; [done| |done..].
  apply Forall_app in Hall as [_ Hs']. apply Forall_app. split; [done|]. rewrite Forall_singleton in Hb.
  apply Forall_singleton. by apply good_comp_temp.
Qed.

(** What a handle will do keeps to [conf] too. *)
Section handles.
Context {R : Type} {Lib : SftpLib R} {Ssh : SshLib R}.
Context (conf : string -> Prop).
Abbreviation session := (Session (R := R) (C := userRuntime)).

(** The sessions and which connection has which. *)
Definition table (w : World R) : gmap nat session * gmap Z connState := (heap w, extras w).

Definition aside {A} (m : M (World R) A) : Prop := silent remote m /\ silent table m.

Definition in_place (t : FileTransfer (R := R)) : Prop :=
  match t with
  | AnUpload u =>
      (exists sc, Upload.fs u = world_fs sc) /\ conf (Upload.tempPath u) /\ conf (Upload.finalPath u) /\
      (forall f r, Upload.OnComplete (Upload.opts u) = Some f -> aside (f r)) /\
      (forall f, Upload.Release (Upload.opts u) = Some f -> aside f)
  | ADownload d =>
      (exists sc, Download.fs d = world_fs sc) /\
      (forall f r, Download.OnComplete (Download.opts d) = Some f -> aside (f r)) /\
      (forall f, Download.Release (Download.opts d) = Some f -> aside f)
  end.

Lemma aside_recordTransfer c p r : aside (recordTransfer (R := R) c p r).
Proof.
  split; intros w; unfold recordTransfer, bind, get_session; destruct (c =? "STOR")%string; simpl;
    destruct (decide (Result.Phase r = PhaseFailed)); done.
Qed.
Lemma aside_release k user : aside (release (R := R) k user).
Proof. split; intros w; unfold release, bind, get; simpl; by destruct (default _ _). Qed.

Context (names : R -> list string) {HN : Named R names} (l0 : list string).

Definition bounded_calls (h : gmap nat session * gmap Z connState) (w : World R) : Prop :=
  confined_since names conf l0 (remote w) /\ table w = h.

Lemma calls_remote {A} h (m : M R A) :
  keeps (confined_since names conf l0) m -> keeps (bounded_calls h) (on_remote m).
Proof.
  intros Hm w [Hw Hh]. specialize (Hm _ Hw). unfold on_remote, zoom. by destruct (m (remote w)).
Qed.

Lemma calls_aside {A} h (m : M (World R) A) : aside m -> keeps (bounded_calls h) m.
Proof. intros [Hr Hh] w [Hw Hw']. split; [by rewrite Hr|by rewrite Hh]. Qed.

Lemma calls_hook h (f : option (M (World R) unit)) :
  (forall m, f = Some m -> aside m) -> keeps (bounded_calls h) (call f).
Proof. intros Hf. destruct f as [m|]; [by apply calls_aside, Hf|apply keeps_ret]. Qed.

Lemma calls_upload h u c : in_place (AnUpload u) -> keeps (bounded_calls h) (call_handle (AnUpload u) c).
Proof.
  intros ((sc & Hfs) & Ht & Hf & Hc & Hr). apply keeps_bind; [|intros; apply keeps_ret].
  set (op := match c with TWrite p => _ | _ => _ end). clearbody op.
  destruct op as [[bs|e|n|o wh]|]; simpl; try apply keeps_ret.
  - apply keeps_bind; [|intros [? ?]; apply keeps_ret]. unfold Upload.Write.
    destruct (_ && _); [apply keeps_ret|]. rewrite Hfs. apply keeps_bind; [|intros [? ?]; apply keeps_ret].
    by apply calls_remote, keeps_unnamed, nm_Write.
  - apply keeps_bind; [|intros [? ?]; apply keeps_ret]. unfold Upload.Close.
    destruct (Upload.closed u); [apply keeps_ret|]. simpl.
    apply keeps_bind; [rewrite Hfs; by apply calls_remote, keeps_unnamed, nm_Close|].
    intros ce. set (u1 := match ce with Ok _ => _ | Err _ => _ end).
    assert (static u1 = static u) as (Hf1 & _ & Ht1 & Hp1 & Ho1)%static_inj by (subst u1; by destruct ce).
    clearbody u1. apply keeps_bind; [|intros err; apply keeps_bind; [|intros; apply keeps_ret]].
    + assert (forall ph err, keeps (bounded_calls h) (Upload.complete u1 ph err)) as Hcomp.
      { intros ph err. unfold Upload.complete. rewrite Ho1. apply calls_hook. intros m.
        destruct (Upload.OnComplete (Upload.opts u)) as [f|]; [|done]. intros [= <-]. by apply Hc. }
      unfold Upload.finalize. rewrite Hf1, Hfs, Ht1, Hp1. simpl.
      destruct (Upload.failed u1); apply keeps_bind.
      * by apply calls_remote, names_Remove.
      * intros _. apply keeps_bind; [apply Hcomp|intros; apply keeps_ret].
      * by apply calls_remote, names_Commit.
      * intros [x|e]; (apply keeps_bind; [|intros]).
        -- apply Hcomp.
        -- apply keeps_ret.
        -- by apply calls_remote, names_Remove.
        -- apply keeps_bind; [apply Hcomp|intros; apply keeps_ret].
    + rewrite Ho1. by apply calls_hook.
Qed.

Lemma calls_download h d c :
  in_place (ADownload d) -> keeps (bounded_calls h) (call_handle (ADownload d) c).
Proof.
  intros ((sc & Hfs) & Hc & Hr).
  destruct c as [bs|n|o wh|e|]; simpl; (apply keeps_bind; [|intros [? ?]; apply keeps_ret]).
  - apply keeps_ret.
  - unfold Download.Read. apply keeps_bind; [|intros [? ?]; apply keeps_ret].
    rewrite Hfs. by apply calls_remote, keeps_unnamed, nm_Read.
  - apply keeps_bind; [|intros; apply keeps_ret]. unfold Download.Seek. rewrite Hfs.
    by apply calls_remote, keeps_unnamed, nm_Seek.
  - apply keeps_ret.
  - unfold Download.Close. destruct (Download.closed d); [apply keeps_ret|]. simpl.
    apply keeps_bind; [rewrite Hfs; by apply calls_remote, keeps_unnamed, nm_Close|].
    intros ce. destruct (if Download.failed d then _ else _) as [ph err].
    apply keeps_bind; [|intros _; apply keeps_bind; [by apply calls_hook|intros; apply keeps_ret]].
    apply calls_hook. intros m. destruct (Download.OnComplete (Download.opts d)) as [f|]; [|done].
    intros [= <-]. by apply Hc.
Qed.

Lemma calls_handle h t c : in_place t -> keeps (bounded_calls h) (call_handle t c).
Proof. destruct t; [apply calls_upload|apply calls_download]. Qed.

(** A handle stays what it is. *)
Lemma in_place_stays t c w t' w' : in_place t -> call_handle t c w = (t', w') -> in_place t'.
Proof.
  destruct t as [u|d].
  - intros Hin (u' & w1 & H & [= <- <-])%bind_inv.
    assert (static u' = static u) as (Hf & _ & Ht & Hp & Ho)%static_inj.
    { set (op := match c with TWrite p => _ | _ => _ end) in H. clearbody op. destruct op as [op|].
      - by apply ustep_keeps in H as [? _].
      - apply bind_inv in H as ([r u2] & w2 & H & [= <- <-]). by apply Close_keeps in H as [? _]. }
    simpl in *. by rewrite Hf, Ht, Hp, Ho.
  - intros Hin.
    assert (forall d', Download.fs d' = Download.fs d -> Download.opts d' = Download.opts d ->
              in_place (ADownload d')) as Hsame by (intros d' H1 H2; simpl in *; by rewrite H1, H2).
    destruct c as [bs|n|o wh|e|]; simpl;
      intros ([be d'] & w1 & H & [= <- <-])%bind_inv; apply Hsame; clear Hsame Hin;
      try (by injection H as _ <- _).
    + by apply bind_inv in H as ([bs err] & w2 & _ & [= _ <- _]); destruct err as [e|]; [destruct (errors_Is e EOF)|]; destruct bs.
    + by apply bind_inv in H as ([bs err] & w2 & _ & [= _ <- _]); destruct err as [e|]; [destruct (errors_Is e EOF)|]; destruct bs.
    + by apply bind_inv in H as (x & w2 & _ & [= _ <- _]).
    + by apply bind_inv in H as (x & w2 & _ & [= _ <- _]).
    + by apply Download_Close_keeps in H as [? _].
    + by apply Download_Close_keeps in H as [_ ?].
Qed.
End handles.

Section driver.
Context {R : Type} {Lib : SftpLib R} {Ssh : SshLib R} (names : R -> list string).
Context {HN : Named R names}.
Context (conf : string -> Prop) (l0 : list string).
Context (p : nat) (s0 : Session (R := R) (C := userRuntime)).
Implicit Types (w : World R).

(** What is true of all sessions, and that connections have real ones. *)
Context (P : string * string * string * Mapper * Policy * userRuntime -> Prop).
Context (HP : P (sess_static s0)).

Definition well_tabled w : Prop :=
  (forall q x, heap w !! q = Some x -> P (sess_static x)) /\
  (forall cc cs q, extras w !! cc = Some cs -> cs_sess cs = Some q -> is_Some (heap w !! q)).

(** Session [p] is [s0] but for its connection, and only confined paths were named. *)
Definition bounded w : Prop :=
  confined_since names conf l0 (remote w) /\ sess_static (session_at p w) = sess_static s0 /\
  well_tabled w.

Lemma well_tabled_put s w :
  sess_static s = sess_static s0 -> well_tabled w -> well_tabled (put_session p s w).2.
Proof.
  intros Hs [H1 H2]. split; simpl.
  - intros q x. rewrite lookup_insert_Some. intros [[_ <-]|[_ H]]; [by rewrite Hs|by eapply H1].
  - intros cc cs q Hcc Hq. rewrite lookup_insert_is_Some. destruct (decide (p = q)); [by left|].
    right. split; [done|]. by eapply H2.
Qed.

Lemma bounded_remote {A} (m : M R A) :
  keeps (confined_since names conf l0) m -> keeps bounded (on_remote m).
Proof.
  intros Hm w [Hw Hs]. specialize (Hm _ Hw). unfold on_remote, zoom.
  by destruct (m (remote w)).
Qed.

Lemma bounded_silent {A} (m : M (World R) A) : aside m -> keeps bounded m.
Proof.
  intros [Hr Hh] w [Hw Hs]. specialize (Hh w). injection Hh as Hh He.
  split; [by rewrite Hr|]. unfold well_tabled, session_at in *. by rewrite Hh, He.
Qed.

Lemma bounded_indifferent : indifferent p bounded.
Proof.
  split; intros; try (by apply bounded_silent).
  - apply bounded_silent; split; intros w; unfold on_ids, zoom; by destruct (m (fallbackCounter w)).
  - destruct H as (Hw & Hs & Ht). split_and!; [done| |apply well_tabled_put; [by rewrite H0|done]].
    unfold session_at. simpl. rewrite lookup_insert_eq. simpl. by rewrite H0.
  - by apply bounded_remote, names_Dial.
  - by apply bounded_remote, names_New.
  - by apply bounded_remote, names_Close.
Qed.

Lemma bounded_respected : respected p bounded.
Proof. apply indifferent_respected, bounded_indifferent. Qed.
#[local] Hint Resolve bounded_respected : core.


Lemma bounded_session {A} (f : _ -> M (World R) A) (Q : A -> World R -> Prop) :
  (forall s, sess_static s = sess_static s0 -> triple bounded (f s) Q) ->
  triple bounded (let* s := get_session p in f s) Q.
Proof. intros Hf w Hw. apply (Hf (session_at p w)); [|done]. by destruct Hw as (_ & ? & _). Qed.

(** The session's mapper confines what the handlers resolve. *)
Context (HM : mapper_ok (Session.mapper s0)).
Context (HC : forall q, under (remoteRoot (Session.mapper s0)) q -> conf q).

Lemma bounded_remotePath n :
  triple bounded (remotePath p n) (fun r w => bounded w /\
    forall vq, r = Ok vq -> under (remoteRoot (Session.mapper s0)) vq.2).
Proof.
  intros w Hw. unfold remotePath, resolveAndContain, get_session, bindE, bind, ret. simpl.
  destruct (ResolveVirtual _ _ _) as [v|e]; [|by split].
  destruct (ToRemote (Session.mapper (session_at p w)) v) as [q|e] eqn:E; split; try done.
  intros vq [= <-]. simpl. destruct Hw as (_ & Hs & _). injection Hs as _ _ _ Hm _ _. rewrite Hm in E.
  by apply ToRemote_confined in E.
Qed.

Lemma bounded_op {A} (m : M R (res A)) :
  keeps (confined_since names conf l0) m -> keeps bounded (remote_op p m).
Proof. intros Hm. by apply keeps_remote_op, bounded_remote. Qed.

Lemma bounded_resolved {B} c q n (k : string * string -> M (World R) (res B)) :
  (forall vq, under (remoteRoot (Session.mapper s0)) vq.2 -> keeps bounded (k vq)) ->
  keeps bounded (audited p c q (remotePath p n) k).
Proof. intros Hk. eapply keeps_audited_ok; [done|apply bounded_remotePath|done]. Qed.

Lemma bounded_simple c n check op :
  (forall sc q, conf q -> keeps (confined_since names conf l0) (op sc q)) ->
  keeps bounded (simple_command p c n check op).
Proof.
  intros Hop. apply bounded_resolved. intros [v q] Hq.
  apply keeps_audited; [done|by apply keeps_bind; [apply keeps_get_policy|intros; apply keeps_checked]|].
  intros _. apply keeps_audited; [done|by apply keeps_SFTP|]. intros sc.
  apply keeps_bind; [by apply bounded_op, Hop, HC|]. intros r.
  apply keeps_bind; [by apply keeps_audit|intros; apply keeps_ret].
Qed.

Lemma bounded_command g c : keeps bounded (run_command g p c).
Proof.
  destruct c as [n|n|n|n|a b|n|c]; simpl; (apply keeps_bind; [|intros; apply keeps_ret]).
  - apply bounded_resolved. intros [v q] Hq. apply keeps_audited; [done|by apply keeps_SFTP|].
    intros sc. by apply bounded_op, names_Stat, HC.
  - apply bounded_simple. intros. by apply names_Mkdir.
  - apply bounded_simple. intros. by apply names_Remove.
  - apply bounded_simple. intros. by apply names_RemoveDirectory.
  - apply bounded_resolved. intros [va qa] Ha. apply bounded_resolved. intros [vb qb] Hb.
    apply keeps_bind; [by apply keeps_get_policy|]. intros pol.
    apply keeps_audited; [done|apply keeps_checked|]. intros _.
    apply keeps_audited; [done|by apply keeps_SFTP|]. intros sc.
    apply keeps_bind; [apply bounded_op, names_Rename; [done|by apply HC..]|]. intros r.
    apply keeps_bind; [by apply keeps_audit|intros; apply keeps_ret].
  - apply bounded_resolved. intros [v q] Hq. apply keeps_audited; [done|by apply keeps_SFTP|].
    intros sc. apply keeps_bind; [by intros w|]. intros s.
    apply keeps_bind; [apply bounded_op, names_ReadDir; [done|by apply HC|]|].
    { intros n' Hn. by apply HC, under_join. }
    intros r. apply keeps_bind; [by apply keeps_audit|]. intros _. destruct r; apply keeps_ret.
  - by intros w.
Qed.

(** ** Opening a transfer *)
Context (suffix : string).
Context (HT : forall q, under (remoteRoot (Session.mapper s0)) q ->
  conf (TempPath q (Session.id s0) suffix)).

Definition placed (r : res (FileTransfer (R := R))) w : Prop :=
  bounded w /\ forall t, r = Ok t -> in_place conf t.

Lemma placed_refused (m : M (World R) unit) e :
  keeps bounded m -> triple bounded (do* m in ret (Err e)) placed.
Proof. intros Hm. apply triple_keeps; [done|]. intros _. by apply triple_ret. Qed.

Lemma bounded_aside {A B} (m : M (World R) A) (f : A -> M (World R) B) Q :
  aside m -> (forall a, triple bounded (f a) Q) -> triple bounded (bind m f) Q.
Proof. intros Hm. by apply triple_keeps, bounded_silent. Qed.

Lemma aside_TryAcquire user : aside (R := R) (TryAcquire user).
Proof.
  split; intros w; unfold TryAcquire; destruct (gates w !! user) as [gt|]; try done;
    by destruct (Gate.TryAcquire gt).
Qed.

Lemma placed_NewUpload sc q (o : Upload.UploadOptions (World R)) (f : res _ -> M (World R) _) :
  under (remoteRoot (Session.mapper s0)) q -> Upload.SessionID o = Session.id s0 ->
  Upload.TemporarySuffix o = suffix ->
  (forall e, triple bounded (f (Err e)) placed) ->
  (forall u, Upload.fs u = world_fs sc -> Upload.opts u = o -> conf (Upload.tempPath u) ->
     conf (Upload.finalPath u) -> triple bounded (f (Ok u)) placed) ->
  triple bounded (let* r := Upload.NewUpload (world_fs sc) q o in f r) placed.
Proof.
  intros Hq Hid Hsf He Hu w Hw. unfold bind.
  assert (conf (TempPath q (Upload.SessionID o) (Upload.TemporarySuffix o))) as Ht
    by (rewrite Hid, Hsf; by apply HT).
  assert (keeps bounded (Upload.NewUpload (world_fs sc) q o)) as Hk.
  { apply keeps_bindE; [destruct (negb _); [apply keeps_bind|]; try by intros; intros w'|].
    - by apply bounded_remote, names_Stat, HC.
    - intros _. apply keeps_bindE; [|by intros ? w']. by apply bounded_remote, names_CreateTemp. }
  specialize (Hk w Hw).
  destruct (Upload.NewUpload (world_fs sc) q o w) as [[u|e] w1] eqn:E; [|by apply He].
  apply bindE_inv_ok in E as (x & w2 & _ & (h & w3 & _ & [= <- _])%bindE_inv_ok).
  by apply Hu; [| | |apply HC|].
Qed.

Lemma placed_beginUpload g sc v q fl e :
  TransferConfig.TemporarySuffix (Config.Transfer (g_cfg g)) = suffix ->
  under (remoteRoot (Session.mapper s0)) q ->
  triple bounded (beginUpload g p sc v q fl e) placed.
Proof.
  intros Hsf Hq. unfold beginUpload. destruct (negb _); [by apply triple_ret|].
  apply bounded_session. intros s Hs. injection Hs as Hid _ _ _ _ _.
  apply triple_audited; [done|apply keeps_ret|done|]. intros _.
  apply bounded_aside; [apply aside_TryAcquire|]. intros []; simpl;
    [|by apply placed_refused, keeps_audit].
  apply bounded_aside; [done|]. intros k.
  do 4 (apply bounded_aside; [done|intros _]).
  apply triple_keeps; [by apply (keeps_on_ids p)|]. intros tid. apply placed_NewUpload; [done..| |].
  - intros err. apply bounded_aside; [done|intros _]. apply bounded_aside; [apply aside_release|intros _].
    by apply placed_refused, keeps_audit.
  - intros u Hf Ho Ht Hfin. apply triple_ret. intros w Hw. split; [done|]. intros t [= <-].
    split_and!; [by eexists|done|done| |]; rewrite Ho; simpl.
    + intros f r [= <-]. apply aside_recordTransfer.
    + intros f [= <-]. apply aside_release.
Qed.

Lemma placed_beginDownload g sc v q e :
  under (remoteRoot (Session.mapper s0)) q ->
  triple bounded (beginDownload g p sc v q e) placed.
Proof.
  intros Hq. unfold beginDownload. apply bounded_session. intros s Hs.
  apply triple_audited; [done|apply keeps_ret|done|]. intros _.
  apply bounded_aside; [apply aside_TryAcquire|]. intros []; simpl;
    [|by apply placed_refused, keeps_audit].
  apply bounded_aside; [done|]. intros k.
  do 3 (apply bounded_aside; [done|intros _]).
  apply triple_keeps; [by apply (keeps_on_ids p)|]. intros tid w Hw. unfold bind.
  assert (keeps bounded (Download.NewDownload (world_fs sc) q (download_options g p s tid v k))) as Hk.
  { apply keeps_bindE; [|by intros ? w']. by apply bounded_remote, names_OpenRead, HC. }
  specialize (Hk w Hw). destruct (Download.NewDownload _ _ _ w) as [[d|err] w1] eqn:E.
  - apply bindE_inv_ok in E as (h & w3 & _ & [= <- _]). split; [done|]. intros t [= <-].
    split_and!; [by eexists| |]; simpl.
    + intros f r [= <-]. apply aside_recordTransfer.
    + intros f [= <-]. apply aside_release.
  - pose proof (bounded_silent _ (aside_release (R := R) k (Session.username s)) w1 Hk) as H2.
    destruct (release k (Session.username s) w1) as [x w2].
    by apply (placed_refused (audit p "RETR" v (Some err)) err
      (keeps_audit _ _ bounded_respected _ _ _)).
Qed.

Lemma placed_GetHandle g name fl e :
  TransferConfig.TemporarySuffix (Config.Transfer (g_cfg g)) = suffix ->
  triple bounded (GetHandle g p name fl e) placed.
Proof.
  intros Hsf. unfold GetHandle. eapply triple_audited_ok; [done|apply bounded_remotePath|done|].
  intros [v q] Hq. apply triple_audited; [done|by apply keeps_SFTP|done|]. intros sc.
  destruct (negb _); [by apply placed_beginUpload|by apply placed_beginDownload].
Qed.
End driver.

Section system.
Context {R : Type} {Lib : SftpLib R} {Ssh : SshLib R} (names : R -> list string).
Context {HN : Named R names}.
Context (CompareHashAndPassword : string -> string -> option error) (dummyHash : string).
Context (cfg : Config).
Abbreviation g := (NewGateway cfg).
Abbreviation suffix := (TransferConfig.TemporarySuffix (Config.Transfer cfg)).

(** The configuration a user works under. *)
Definition runs (user : string) (rt : userRuntime) : Prop := g_users g !! user = Some rt.

Definition user_may_touch (user : string) (q : string) : Prop :=
  exists rt, runs user rt /\ may_touch (remoteRoot (rt_mapper rt)) suffix q.

(** A session is that of a configured user. *)
Definition of_user (st : string * string * string * Mapper * Policy * userRuntime) : Prop :=
  let '(id, user, _, mapper, policy, connect) := st in
  runs user connect /\ mapper = rt_mapper connect /\ policy = rt_policy connect /\
  ContainsByte id slash = false.

(** Whose request a callback serves. *)
Definition actor (s : Sys) (i : input) : option string :=
  match i with
  | ICommand p _ | IGetHandle p _ _ _ => Some (Session.username (session_at p (sys_world s)))
  | ICall k _ => t_user <$> transfers s !! k
  | _ => None
  end.

Definition actor_may_touch (s : Sys) (i : input) (q : string) : Prop :=
  exists user, actor s i = Some user /\ user_may_touch user q.

Record conf_inv (s : Sys) : Prop := {
  cf_table : well_tabled of_user (sys_world s);
  cf_handles k t : transfers s !! k = Some t -> in_place (user_may_touch (t_user t)) (t_handle t);
}.

Lemma users_mapper_ok user rt : runs user rt -> mapper_ok (rt_mapper rt).
Proof.
  unfold runs. simpl. unfold users_of. induction (Users cfg) as [|u us IH] using rev_ind; [done|].
  rewrite foldl_snoc, lookup_insert_Some. intros [[_ <-]|[_ H]]; [apply NewMapper_ok|by apply IH].
Qed.

(** What a session may name, as the lemmas on its handlers want it. *)
Lemma session_conf x :
  of_user (sess_static x) -> ContainsByte suffix slash = false ->
  mapper_ok (Session.mapper x) /\
  (forall q, under (remoteRoot (Session.mapper x)) q -> user_may_touch (Session.username x) q) /\
  (forall q, under (remoteRoot (Session.mapper x)) q ->
     user_may_touch (Session.username x) (TempPath q (Session.id x) suffix)).
Proof.
  intros (Hu & Hm & _ & Hid) Hsf. rewrite Hm. split_and!.
  - by eapply users_mapper_ok.
  - intros q Hq. exists (Session.connect x). split; [done|by left].
  - intros q Hq. exists (Session.connect x). split; [done|by apply TempPath_may_touch].
Qed.

Lemma bounded_start p x w :
  well_tabled of_user w -> heap w !! p = Some x ->
  bounded names (user_may_touch (Session.username x)) (names (remote w)) p x of_user w.
Proof.
  intros Ht Hp. split_and!; [|by unfold session_at; rewrite Hp|done].
  exists []. by rewrite app_nil_r.
Qed.

(** ** The steps *)

Definition stepped (s : Sys) (i : input) (s' : Sys) : Prop :=
  conf_inv s' /\ confined_since names (actor_may_touch s i) (names (remote (sys_world s))) (remote (sys_world s')).

Lemma stepped_only s i w' :
  conf_inv s -> well_tabled of_user w' -> names (remote w') = names (remote (sys_world s)) ->
  stepped s i (MkSys w' (transfers s)).
Proof.
  intros [_ Hh] Ht Hn. split; [by split|]. exists []. by rewrite app_nil_r.
Qed.

Lemma confined_actor s i user l r :
  actor s i = Some user -> confined_since names (user_may_touch user) l r ->
  confined_since names (actor_may_touch s i) l r.
Proof.
  intros Ha (new & Hn & Hf). exists new. split; [done|].
  eapply Forall_impl; [done|]. intros q Hq. by exists user.
Qed.

Lemma step_command s p c :
  ContainsByte suffix slash = false -> conf_inv s -> is_Some (heap (sys_world s) !! p) ->
  stepped s (ICommand p c) (sys_step CompareHashAndPassword dummyHash g s (ICommand p c)).
Proof.
  intros Hsf Hi [x Hx]. pose proof Hi as [Ht Hh].
  destruct (session_conf x (proj1 Ht _ _ Hx) Hsf) as (Hm & Hc & _).
  pose proof (bounded_start p x _ Ht Hx) as Hb.
  apply (bounded_command names _ _ p x of_user (proj1 Ht _ _ Hx) Hm Hc g c) in Hb as (Hn & Hs & Ht').
  split; [by split|]. eapply confined_actor; [|exact Hn]. simpl. unfold session_at. by rewrite Hx.
Qed.

Lemma step_GetHandle s p name fl e :
  ContainsByte suffix slash = false -> conf_inv s -> is_Some (heap (sys_world s) !! p) ->
  stepped s (IGetHandle p name fl e)
    (sys_step CompareHashAndPassword dummyHash g s (IGetHandle p name fl e)).
Proof.
  intros Hsf Hi [x Hx]. pose proof Hi as [Ht Hh].
  destruct (session_conf x (proj1 Ht _ _ Hx) Hsf) as (Hm & Hc & Htmp).
  pose proof (bounded_start p x _ Ht Hx) as Hb.
  apply (placed_GetHandle names _ _ p x of_user (proj1 Ht _ _ Hx) Hm Hc suffix Htmp g name fl e eq_refl) in Hb
    as [(Hn & Hs & Ht') Hpl].
  unfold stepped. simpl.
  assert (Session.username (session_at p (sys_world s)) = Session.username x) as Hux
    by (unfold session_at; by rewrite Hx).
  destruct (GetHandle g p name fl e (sys_world s)) as [[t|err] w'];
    (split; [|eapply confined_actor; [simpl; by rewrite Hux|done]]); [|by split].
  split; [done|]. intros k t'. simpl. rewrite lookup_insert_Some. intros [[_ <-]|[_ H]]; [|by eapply Hh].
  simpl. unfold who. injection Hs as _ -> _ _ _ _. by apply Hpl.
Qed.

Lemma step_call s k c :
  conf_inv s -> stepped s (ICall k c) (sys_step CompareHashAndPassword dummyHash g s (ICall k c)).
Proof.
  intros Hi. pose proof Hi as [Ht Hh]. simpl. destruct (transfers s !! k) as [[user t]|] eqn:Hk.
  2:{ split; [done|]. exists []. by rewrite app_nil_r. }
  simpl. pose proof (Hh _ _ Hk) as Hin. simpl in Hin.
  assert (bounded_calls (user_may_touch user) names (names (remote (sys_world s)))
            (table (sys_world s)) (sys_world s)) as Hb.
  { split; [|done]. exists []. by rewrite app_nil_r. }
  apply (calls_handle _ _ _ _ t c Hin) in Hb as [Hn Htab].
  destruct (call_handle t c (sys_world s)) as [t' w'] eqn:E. simpl in *.
  apply in_place_stays with (conf := user_may_touch user) in E; [|done].
  split; [|eapply confined_actor; [simpl; by rewrite Hk|done]]. split; simpl.
  - injection Htab as H1 H2. unfold well_tabled. by rewrite H1, H2.
  - intros k' t2. rewrite lookup_insert_Some. intros [[_ <-]|[_ H]]; [done|by eapply Hh].
Qed.

(** The callbacks of connections name nothing. *)
Lemma tabled_ClientConnected cc addr w :
  well_tabled of_user w ->
  well_tabled of_user (ClientConnected g cc addr w).2 /\ remote (ClientConnected g cc addr w).2 = remote w.
Proof.
  intros [H1 H2]. unfold ClientConnected, bind, get. simpl. destruct (shuttingDown w); [done|]. simpl.
  destruct (_ >? _); [done|]. split; [|done]. split; simpl; [done|].
  intros cc' cs q. rewrite lookup_insert_Some. intros [[_ <-]|[_ H]]; [done|by eapply H2].
Qed.

Lemma tabled_AuthUser cc addr user pass t now e w :
  well_tabled of_user w ->
  let w' := (AuthUser CompareHashAndPassword dummyHash g cc addr user pass t now e w).2 in
  well_tabled of_user w' /\ remote w' = remote w.
Proof.
  intros [H1 H2]. unfold AuthUser, bind. simpl. unfold on_authent, zoom. simpl.
  destruct (Authenticate _ _ _ _ _ _ _) as [[err|] au]; [by destruct (Is err KindRateLimited)|].
  destruct (users_of (Users cfg) !! user) as [rt|] eqn:Hu; [|done].
  unfold on_ids, zoom. simpl. pose proof (NewCorrelationID_no_slash e (fallbackCounter w)) as Hid.
  destruct (NewCorrelationID e _) as [id ids]. simpl in Hid. unfold alloc. simpl.
  assert (well_tabled of_user (put_session (fresh w) (Session.New id user (hostOnly addr) now
            (rt_mapper rt) (rt_policy rt) rt) w).2) as [H3 H4].
  { split; simpl.
    - intros q x. rewrite lookup_insert_Some. intros [[_ <-]|[_ H]]; [done|by eapply H1].
    - intros cc' cs q Hcc Hq. rewrite lookup_insert_is_Some.
      destruct (decide (fresh w = q)); [by left|]. right. split; [done|]. by eapply H2. }
  destruct (extras w !! cc) as [cs|] eqn:Hcs; simpl in *; (split; [|done]); split; simpl; try done.
  intros cc' cs' q. rewrite lookup_insert_Some.
  intros [[_ <-]|[_ H]] Hq; [|by eapply H4]. injection Hq as <-. by rewrite lookup_insert_eq.
Qed.

Lemma confined_nothing l r : confined_since names (fun _ => False) l r <-> names r = l.
Proof.
  split; [|intros <-; exists []; by rewrite app_nil_r].
  intros (new & -> & Hf). destruct new; [by rewrite app_nil_r|by inversion Hf].
Qed.

Lemma tabled_Close p w :
  well_tabled of_user w -> is_Some (heap w !! p) ->
  well_tabled of_user (sess_Close p w).2 /\ names (remote (sess_Close p w).2) = names (remote w).
Proof.
  intros Ht [x Hx]. unfold sess_Close, get_session, bind, Session.Close, session_at. rewrite Hx. simpl.
  assert (forall x' w', sess_static x' = sess_static x -> table w' = table w ->
    well_tabled of_user (put_session p x' w').2) as Hput.
  { intros x' w' Hx' Hw'. injection Hw' as Hh He. apply (well_tabled_put _ x); [|done|].
    - by eapply (proj1 Ht).
    - unfold well_tabled. by rewrite Hh, He. }
  destruct (Session.closed x); [by split; [apply Hput|]|].
  simpl. destruct (Session.sftp x) as [c|]; [|by split; [apply Hput|]]. unfold bind.
  pose proof (names_Close names (fun _ => False) (names (remote w)) c (remote w)
    (proj2 (confined_nothing _ _) eq_refl)) as Hn.
  unfold on_remote, zoom. destruct (SftpClient.Close c (remote w)) as [r rm]. simpl in *.
  split; [by apply Hput|by apply confined_nothing].
Qed.

Lemma tabled_ClientDisconnected cc w :
  well_tabled of_user w ->
  well_tabled of_user (ClientDisconnected cc w).2 /\
  names (remote (ClientDisconnected cc w).2) = names (remote w).
Proof.
  intros Ht. unfold ClientDisconnected, bind, get, set_conns, modify. simpl.
  destruct (extras w !! cc) as [cs|] eqn:Hcs; [|exact (conj Ht eq_refl)].
  match goal with |- context [let '(_, w') := ?m in _] =>
    assert (table m.2 = table w /\ remote m.2 = remote w) as [Htab Hrm];
      [by destruct (admitted cs)|destruct m as [[] w1]] end.
  simpl in Htab, Hrm. injection Htab as Hh He.
  assert (well_tabled of_user w1) as Ht1 by (unfold well_tabled; by rewrite Hh, He).
  destruct (cs_sess cs) as [p|] eqn:Hp; [|by rewrite <- Hrm].
  assert (is_Some (heap w1 !! p)) as Hs by (rewrite Hh; by eapply (proj2 Ht)).
  unfold sess_IsConnected, bind, get_session, ret. rewrite <- Hrm.
  destruct (tabled_Close p w1 Ht1 Hs) as [H1 H2].
  destruct (sess_Close p w1) as [[x|e] w2]; destruct (Session.IsConnected _); by split.
Qed.

Lemma confined_step s i :
  ContainsByte suffix slash = false -> conf_inv s -> allowed s i ->
  stepped s i (sys_step CompareHashAndPassword dummyHash g s i).
Proof.
  intros Hsf Hi Hal. pose proof Hi as [Ht Hh].
  destruct i as [cc addr|cc|cc addr user pass t now e|p c|p name fl e|k c|].
  - destruct (tabled_ClientConnected cc addr _ Ht) as [H1 H2].
    apply stepped_only; [done..|]. by rewrite H2.
  - destruct (tabled_ClientDisconnected cc _ Ht) as [H1 H2]. by apply stepped_only.
  - destruct (tabled_AuthUser cc addr user pass t now e _ Ht) as [H1 H2].
    apply stepped_only; [done..|]. by rewrite H2.
  - by apply step_command.
  - by apply step_GetHandle.
  - by apply step_call.
  - by apply stepped_only.
Qed.

Lemma reachable_conf r ids s :
  ContainsByte suffix slash = false ->
  reachable CompareHashAndPassword dummyHash cfg r ids s -> conf_inv s.
Proof.
  intros Hsf Hr. induction Hr as [|s i _ IH Hal]; [by repeat split|].
  exact (proj1 (confined_step s i Hsf IH Hal)).
Qed.

(** C7. The gateway never leaves a user's root.  In any reachable state,
    every path any callback names to a server lies under the remote root
    configured for the user the callback serves (the session's user, or the
    user a transfer was opened for); the only exception is an upload onto the
    root itself, whose temporary file is named beside it, in the root's own
    directory under the root's name and the suffix.  Callbacks that serve no
    user name nothing.  The configured temporary suffix must have no "/". *)
Theorem gateway_confined r ids s i :
  ContainsByte suffix slash = false ->
  reachable CompareHashAndPassword dummyHash cfg r ids s -> allowed s i ->
  exists new,
    names (remote (sys_world (sys_step CompareHashAndPassword dummyHash g s i))) =
      names (remote (sys_world s)) ++ new /\
    Forall (fun q => exists user rt, actor s i = Some user /\ g_users g !! user = Some rt /\
      (under (remoteRoot (rt_mapper rt)) q \/ beside (remoteRoot (rt_mapper rt)) suffix q)) new.
Proof.
  intros Hsf Hr Hal. pose proof (reachable_conf r ids s Hsf Hr) as Hi.
  destruct (confined_step s i Hsf Hi Hal) as [_ (new & Hn & Hf)]. exists new. split; [done|].
  eapply Forall_impl; [done|]. intros q (user & Ha & rt & Hrt & Hq). by exists user, rt.
Qed.
End system.

(** The demo gateway on a server that records. *)
#[export] Instance demo_lib : SftpLib (MemFS * list string) := traced_lib MemLib.
#[export] Instance demo_ssh : SshLib (MemFS * list string) := traced_ssh MemLib MemSsh.
#[export] Instance demo_named : Named (MemFS * list string) snd := traced_named MemLib MemSsh.

Definition traced_start : MemFS * list string := (mem_of [("/data", NDir)], []).
Definition traced_system (ins : list input) : Sys (R := MemFS * list string) :=
  sys_run plain_compare "" (NewGateway demo_gateway_config) (start demo_gateway_config traced_start 0) ins.
Definition traced_names (ins : list input) : list string := snd (remote (sys_world (traced_system ins))).

Definition demo_climb : input := IGetHandle 0 "/in/../../../etc/passwd" O_WRONLY demo_entropy.

Example climb_is_confined :
  traced_names (demo_login ++ [demo_climb]) = ["/data/etc/passwd.part-f11"].
Proof. vm_compute. done. Qed.

(** The exception: an upload named "/" puts a temporary file beside the root. *)
Example upload_onto_root_leaves_it :
  traced_names (demo_login ++ [IGetHandle 0 "/" O_WRONLY demo_entropy]) = ["/data.part-f11"].
Proof. vm_compute. done. Qed.

Lemma gateway_confined_witness :
  exists new, traced_names (demo_login ++ [demo_climb]) = traced_names demo_login ++ new /\
    new = ["/data/etc/passwd.part-f11"] /\
    Forall (fun q => exists user rt,
      actor (traced_system demo_login) demo_climb = Some user /\
      g_users (NewGateway demo_gateway_config) !! user = Some rt /\
      (under (remoteRoot (rt_mapper rt)) q \/ beside (remoteRoot (rt_mapper rt)) ".part" q)) new.
Proof.
  assert (reachable plain_compare "" demo_gateway_config traced_start 0 (traced_system demo_login)) as Hr.
  { apply reach_run; [constructor|]. decided. }
  assert (allowed (traced_system demo_login) demo_climb) as Hal
    by decided.
  destruct (gateway_confined snd plain_compare "" demo_gateway_config traced_start 0
    (traced_system demo_login) demo_climb eq_refl Hr Hal) as (new & Hn & Hf).
  exists new. split_and!; [exact Hn| |exact Hf].
  assert (traced_names (demo_login ++ [demo_climb]) = traced_names demo_login ++ new) as H by exact Hn.
  assert (traced_names (demo_login ++ [demo_climb]) = ["/data/etc/passwd.part-f11"]) as H1 by (by vm_compute).
  assert (traced_names demo_login = []) as H2 by (by vm_compute).
  rewrite H1, H2 in H. by symmetry.
Defined.
