(* ===== verification/Permissions.v ===== *)
(** * Permissions of the whole gateway

    Every session works under the policy and the mapper configured for the
    user who authenticated, and what that policy refuses is refused before
    anything is asked of the server. *)
From S2P Require Import Prelude GoStrings GoPath Errors Filesystem Authorization Limiter Auth SftpLib MemServer SshDial SftpClient Metrics Observability Config Session Transfer UploadSpec TransferSpec DownloadSpec Gateway Driver Trace Triples Accounting System Confinement.
Open Scope string_scope.
Open Scope list_scope.
Open Scope Z_scope.

(** What a policy lets a connection ask for. *)
Definition permitted (pol : Policy) (c : command) : bool :=
  match c with
  | CStat _ | CReadDir _ => true
  | CMkdir _ => AllowMkdir pol
  | CRemove _ | CRemoveDir _ => AllowDelete pol
  | CRename _ _ => AllowRename pol
  | CRefuse _ => false
  end.

Definition transfer_permitted (pol : Policy) (fl : Z) : bool :=
  if Z.land fl O_WRONLY =? 0 then AllowDownload pol
  else AllowUpload pol && (Z.land fl O_APPEND =? 0).

Lemma resolve_refusal m cwd arg v e :
  (ResolveVirtual m cwd arg = Err e \/ ToRemote m v = Err e) -> KindOf e = KindInvalidPath.
Proof.
  intros [H|H]; [by eapply ResolveVirtual_err|].
  unfold ToRemote in H. repeat case_match; inv_pair; done.
Qed.

Section refused.
Context {R : Type} {Lib : SftpLib R} {Ssh : SshLib R} (names : R -> list string).
Context {HN : Named R names} (l0 : list string).
Context (p : nat) (s0 : Session (R := R) (C := userRuntime)).
Context (P : string * string * string * Mapper * Policy * userRuntime -> Prop).
Context (HP : P (sess_static s0)) (HM : mapper_ok (Session.mapper s0)).
Implicit Types (w : World R).

(** Nothing was named, and the session is as it was. *)
Abbreviation untouched := (bounded names (fun _ => False) l0 p s0 P).

Lemma untouched_names w : untouched w -> names (remote w) = l0.
Proof. intros [H _]. by apply confined_nothing in H. Qed.

Definition refusal (e : error) : Prop :=
  KindOf e ∈ [KindInvalidPath; KindAuthorization; KindUnsupportedCommand].

Definition refused {A} (r : res A) w : Prop := untouched w /\ exists e, r = Err e /\ refusal e.

Lemma untouched_respected : respected p untouched.
Proof. by apply bounded_respected. Qed.

Lemma refused_audit {A} c q e :
  refusal e -> triple untouched (do* audit p c q (Some e) in ret (Err e)) (refused (A := A)).
Proof.
  intros He. apply triple_keeps; [apply keeps_audit, untouched_respected|]. intros _.
  apply triple_ret. intros w Hw. split; [done|]. by exists e.
Qed.

(** Resolving either refuses or goes on. *)
Lemma refused_resolved {B} c q n (k : string * string -> M (World R) (res B)) :
  (forall vq, triple untouched (k vq) refused) ->
  triple untouched (audited p c q (remotePath p n) k) refused.
Proof.
  intros Hk w Hw. unfold audited, bind.
  assert (forall e, (remotePath p n w).1 = Err e -> KindOf e = KindInvalidPath) as He.
  { unfold remotePath, resolveAndContain, get_session, bindE, bind, ret. intros e. simpl.
    destruct (ResolveVirtual _ _ _) as [v|e'] eqn:E1.
    - destruct (ToRemote _ v) as [x|e'] eqn:E2; [done|]. intros [= <-].
      apply (resolve_refusal (Session.mapper (session_at p w)) "/" n v). by right.
    - intros [= <-]. apply (resolve_refusal (Session.mapper (session_at p w)) "/" n n). by left. }
  pose proof (keeps_remotePath p untouched n w Hw) as Hw1.
  destruct (remotePath p n w) as [[vq|e] w1]; [by apply Hk|].
  apply (refused_audit c q e); [|done]. unfold refusal. rewrite (He e eq_refl). set_solver.
Qed.

(** A check that fails. *)
Lemma refused_check {B} c q (m : M (World R) (res unit)) (e : error)
  (k : unit -> M (World R) (res B)) :
  refusal e -> triple untouched m (fun r w => r = Err e /\ untouched w) ->
  triple untouched (audited p c q m k) refused.
Proof.
  intros He Hm. unfold audited. apply triple_bind with (1 := Hm).
  intros r w [-> Hw]. by apply (refused_audit c q e).
Qed.

Lemma untouched_policy (check : Policy -> option error) e :
  check (Session.policy s0) = Some e ->
  triple untouched (let* pol := get_policy p in checked (check pol)) (fun r w => r = Err e /\ untouched w).
Proof.
  intros Hc. apply triple_bind with (J := fun pol w => untouched w /\ pol = Session.policy s0).
  - unfold get_policy. apply bounded_session. intros s Hs. apply triple_ret.
    intros w Hw. by injection Hs as _ _ _ _ -> _.
  - intros pol w [Hw ->]. unfold checked. by rewrite Hc.
Qed.

Lemma refused_simple c n check op e :
  refusal e -> check (Session.policy s0) = Some e ->
  triple untouched (simple_command p c n check op) refused.
Proof.
  intros He Hc. apply refused_resolved. intros [v q].
  apply refused_check with (e := e); [done|]. by apply untouched_policy.
Qed.

Lemma refused_Rename a b :
  AllowRename (Session.policy s0) = false -> triple untouched (Rename p a b) refused.
Proof.
  intros Hr. apply refused_resolved. intros [va qa]. apply refused_resolved. intros [vb qb].
  apply triple_bind with (J := fun pol w => untouched w /\ pol = Session.policy s0).
  - unfold get_policy. apply bounded_session. intros s Hs. apply triple_ret.
    intros w Hw. by injection Hs as _ _ _ _ -> _.
  - intros pol w [Hw ->]. revert w Hw.
    apply refused_check with (e := Errors.New KindAuthorization opDenied "renombrado no autorizado").
    + unfold refusal. set_solver.
    + intros w Hw. unfold checked, CheckRename. by rewrite Hr.
Qed.

(** What a command answers. *)
Definition answered (r : option error) w : Prop := untouched w /\ exists e, r = Some e /\ refusal e.

Lemma answered_by {A} (m : M (World R) (res A)) :
  triple untouched m refused -> triple untouched (let* r := m in ret (err_of r)) answered.
Proof.
  intros Hm. apply triple_bind with (1 := Hm). intros r w [Hw (e & -> & He)]. split; [done|]. by exists e.
Qed.

Lemma refused_command g c :
  permitted (Session.policy s0) c = false -> triple untouched (run_command g p c) answered.
Proof.
  intros Hc. destruct c as [n|n|n|n|a b|n|c]; simpl in Hc; try done; apply answered_by.
  - eapply refused_simple; [|unfold CheckMkdir; by rewrite Hc]. unfold refusal. set_solver.
  - eapply refused_simple; [|unfold CheckDelete; by rewrite Hc]. unfold refusal. set_solver.
  - eapply refused_simple; [|unfold CheckDelete; by rewrite Hc]. unfold refusal. set_solver.
  - by apply refused_Rename.
  - intros w Hw. split; [done|]. eexists. split; [done|]. unfold refusal. set_solver.
Qed.

(** Transfers connect before they check, so they may also fail to connect. *)
Definition no_transfer (r : res (FileTransfer (R := R))) w : Prop := untouched w /\ is_ok r = false.

Lemma no_transfer_begin g sc v q fl e :
  transfer_permitted (Session.policy s0) fl = false ->
  triple untouched (if negb (Z.land fl O_WRONLY =? 0) then beginUpload g p sc v q fl e
                    else beginDownload g p sc v q e) no_transfer.
Proof.
  unfold transfer_permitted. intros Hp. pose proof untouched_respected as HR.
  assert (forall c (check : option error) e' k, check = Some e' ->
    triple untouched (audited p c v (checked check) k) no_transfer) as Hcheck.
  { intros c check e' k ->. unfold audited, checked. intros w Hw. unfold bind, ret.
    pose proof (keeps_audit p _ HR c v (Some e') w Hw) as Ha.
    by destruct (audit p c v (Some e') w). }
  destruct (Z.land fl O_WRONLY =? 0); simpl.
  - unfold beginDownload. apply bounded_session. intros s Hs. injection Hs as _ _ _ _ Hpol _.
    eapply Hcheck. unfold CheckDownload. by rewrite Hpol, Hp.
  - unfold beginUpload. destruct (Z.land fl O_APPEND =? 0); simpl; [|by apply triple_ret].
    rewrite andb_true_r in Hp. apply bounded_session. intros s Hs. injection Hs as _ _ _ _ Hpol _.
    eapply Hcheck. unfold CheckUpload. by rewrite Hpol, Hp.
Qed.

Lemma no_transfer_GetHandle g name fl e :
  transfer_permitted (Session.policy s0) fl = false ->
  triple untouched (GetHandle g p name fl e) no_transfer.
Proof.
  intros Hp. pose proof untouched_respected as HR. unfold GetHandle.
  apply triple_audited; [done|by apply keeps_remotePath|done|]. intros [v q].
  apply triple_audited; [done|by apply keeps_SFTP|done|]. intros sc. by apply no_transfer_begin.
Qed.
End refused.

(** A user's runtime and gate come from the same entry of the configuration. *)
Lemma users_and_gates us user rt :
  users_of us !! user = Some rt ->
  exists u, u ∈ us /\ UserConfig.Username u = user /\ rt = runtime_of u /\
    gates_of us !! user = Some (Gate.NewConcurrencyGate (UserConfig.MaxConcurrentTransfers u)).
Proof.
  unfold users_of, gates_of. induction us as [|x us IH] using rev_ind; [done|].
  rewrite !foldl_snoc, lookup_insert_Some. intros [[<- <-]|[Hne H]].
  - exists x. rewrite lookup_insert_eq. split_and!; [set_solver|done..].
  - destruct (IH H) as (u & Hu & ? & ? & ?). exists u. rewrite lookup_insert_ne by done.
    split_and!; [set_solver|done..].
Qed.

Lemma users_of_elem us user rt :
  users_of us !! user = Some rt ->
  exists u, u ∈ us /\ UserConfig.Username u = user /\ rt = runtime_of u.
Proof. intros (u & ? & ? & ? & _)%users_and_gates. by exists u. Qed.

Section system.
Context {R : Type} {Lib : SftpLib R} {Ssh : SshLib R} (names : R -> list string).
Context {HN : Named R names}.
Context (CompareHashAndPassword : string -> string -> option error) (dummyHash : string).
Context (cfg : Config).
Abbreviation g := (NewGateway cfg).

(** C8. Permissions are those of the configuration.  In any reachable state
    a session works under the mapper and the policy of the configured user
    it authenticated as; a command that policy does not permit is answered
    with a refusal and a transfer it does not permit is not opened, in both
    cases without naming a single path to the server. *)
Theorem policy_enforced r ids s p x :
  ContainsByte (TransferConfig.TemporarySuffix (Config.Transfer cfg)) slash = false ->
  reachable CompareHashAndPassword dummyHash cfg r ids s ->
  let w := sys_world s in
  heap w !! p = Some x ->
  exists u, u ∈ Users cfg /\ UserConfig.Username u = Session.username x /\
    Session.mapper x = NewMapper (UserConfig.VirtualRoot u) (SFTPTargetConfig.RootPath (UserConfig.SFTP u)) /\
    Session.policy x = policy_of u /\
    (forall c, permitted (policy_of u) c = false ->
       (exists e, (run_command g p c w).1 = Some e /\
          KindOf e ∈ [KindInvalidPath; KindAuthorization; KindUnsupportedCommand]) /\
       names (remote (run_command g p c w).2) = names (remote w)) /\
    (forall name fl e, transfer_permitted (policy_of u) fl = false ->
       is_ok (GetHandle g p name fl e w).1 = false /\
       names (remote (GetHandle g p name fl e w).2) = names (remote w)).
Proof.
  intros Hsf Hr w Hx. destruct (reachable_conf names _ _ _ r ids s Hsf Hr) as [Ht _].
  pose proof (proj1 Ht _ _ Hx) as Hof. pose proof Hof as (Hu & Hm & Hpol & _).
  destruct (session_conf cfg x Hof Hsf) as (Hmok & _).
  apply users_of_elem in Hu as (u & Hin & Hn & Hrt). rewrite Hrt in Hm, Hpol. simpl in Hm, Hpol.
  exists u. split_and!; [done..| |]; rewrite <- Hpol.
  - intros c Hc.
    assert (bounded names (fun _ => False) (names (remote w)) p x (of_user cfg) w) as Hb.
    { split_and!; [by apply confined_nothing|unfold session_at; by rewrite Hx|done]. }
    apply (refused_command names _ p x (of_user cfg) Hof Hmok g c Hc) in Hb as [Hb (e & He & Hk)].
    split; [by exists e|]. by apply untouched_names in Hb.
  - intros name fl e Hf.
    assert (bounded names (fun _ => False) (names (remote w)) p x (of_user cfg) w) as Hb.
    { split_and!; [by apply confined_nothing|unfold session_at; by rewrite Hx|done]. }
    apply (no_transfer_GetHandle names _ p x (of_user cfg) Hof g name fl e Hf) in Hb as [Hb He].
    split; [done|]. by apply untouched_names in Hb.
Qed.
End system.

(** The demo user without any permission. *)
Definition demo_locked_config : Config :=
  let s := UserConfig.SFTP demo_user in
  applyDefaults (MkConfig (Server demo_config)
    [UserConfig.Mk "ax" "$2a$" "/" s (PermissionsConfig.Mk false false false false false false) 100 0]
    (Config.Transfer demo_config) (Config.Observability demo_config) (Config.Health demo_config)).
Definition demo_locked : Sys (R := MemFS * list string) :=
  sys_run plain_compare "" (NewGateway demo_locked_config) (start demo_locked_config traced_start 0) demo_login.

Lemma policy_enforced_witness :
  let w := sys_world demo_locked in
  exists e, (run_command (NewGateway demo_locked_config) 0 (CRemove "a") w).1 = Some e /\
    KindOf e ∈ [KindInvalidPath; KindAuthorization; KindUnsupportedCommand].
Proof.
  intros w. assert (reachable plain_compare "" demo_locked_config traced_start 0 demo_locked) as Hr.
  { apply reach_run; [constructor|]. decided. }
  assert (is_Some (heap w !! 0%nat)) as [x Hx] by decided.
  destruct (policy_enforced snd plain_compare "" demo_locked_config traced_start 0 demo_locked 0 x
    eq_refl Hr Hx) as (u & Hin & _ & _ & _ & Hc & _).
  apply (Hc (CRemove "a")). assert (u = UserConfig.Mk "ax" "$2a$" "/"
    (UserConfig.SFTP (default demo_user (head (Users demo_locked_config))))
    (PermissionsConfig.Mk false false false false false false) 100
    (UserConfig.MaxConcurrentTransfers u)) as -> by (by apply list_elem_of_singleton in Hin as ->).
  reflexivity.
Defined.
