(* ===== verification/WellFormed.v ===== *)
(** * Every reachable state is well formed

    The model reads sessions, gates and flags through addresses and names and
    has a default where Go would dereference nil.  In a reachable state no
    default is used: what an address or a name stands for is there, and is
    what the configuration says. *)
From S2P Require Import Prelude GoStrings GoPath Errors Filesystem Authorization Limiter Auth SftpLib MemServer SshDial SftpClient Metrics Observability Config Session Transfer UploadSpec TransferSpec DownloadSpec Gateway Driver Trace Triples Accounting System Connections Confinement Permissions.
Open Scope string_scope.
Open Scope list_scope.
Open Scope Z_scope.

Section well_formed.
Context {R : Type} {Lib : SftpLib R} {Ssh : SshLib R}.
Implicit Types (w : World R) (s : Sys (R := R)).

(** A session is that of a configured user, under its mapper and policy, and
    the user's gate is there. *)
Definition session_typed (cfg : Config) w (x : Session (R := R) (C := userRuntime)) : Prop :=
  exists u gt, u ∈ Users cfg /\ UserConfig.Username u = Session.username x /\
    Session.connect x = runtime_of u /\
    Session.mapper x = rt_mapper (runtime_of u) /\ Session.policy x = policy_of u /\
    ContainsByte (Session.id x) slash = false /\
    gates w !! Session.username x = Some gt /\
    Gate.capacity gt = UserConfig.MaxConcurrentTransfers u /\ Gate.gate_ok gt.

Record well_formed (cfg : Config) s : Prop := {
  (** sessions: allocated, typed, and without a connection once closed *)
  wf_session p x : heap (sys_world s) !! p = Some x ->
    (p < fresh (sys_world s))%nat /\ session_typed cfg (sys_world s) x /\
    (Session.closed x = true -> Session.sftp x = None);
  (** open connections: known, admitted, and with an open session if any *)
  wf_conn cc : cc ∈ conns (sys_world s) ->
    exists cs, extras (sys_world s) !! cc = Some cs /\ admitted cs = true /\
      forall p, cs_sess cs = Some p ->
        exists x, heap (sys_world s) !! p = Some x /\ Session.closed x = false;
  (** ... of their own *)
  wf_own cc1 cc2 cs1 cs2 p :
    cc1 ∈ conns (sys_world s) -> cc2 ∈ conns (sys_world s) ->
    extras (sys_world s) !! cc1 = Some cs1 -> extras (sys_world s) !! cc2 = Some cs2 ->
    cs_sess cs1 = Some p -> cs_sess cs2 = Some p -> cc1 = cc2;
  (** no dangling session, even of a connection that is gone *)
  wf_dangling cc cs p : extras (sys_world s) !! cc = Some cs -> cs_sess cs = Some p ->
    is_Some (heap (sys_world s) !! p);
  (** a transfer that is open has its flag, and the flag is not yet set *)
  wf_transfer k t : transfers s !! k = Some t -> t_live t = true ->
    flags (sys_world s) !! k = Some false /\ (k < fresh (sys_world s))%nat;
}.

Context (names : R -> list string) {Nm : Named R names}.
Context (CompareHashAndPassword : string -> string -> option error) (dummyHash : string).

(** C22. The state is well typed.  In every reachable state every session is
    one of a configured user, with that user's mapper, policy and gate;
    every open connection is admitted and its session, its own, is there and
    open; a closed session holds no connection; the flag of every open
    transfer is allocated and unset.  So no lookup of a handler ever meets a
    missing entry. *)
Theorem state_well_formed cfg r ids s :
  0 <= ServerConfig.MaxConnections (Server cfg) < max_int64 ->
  Forall (fun u => 0 <= UserConfig.MaxConcurrentTransfers u) (Users cfg) ->
  ContainsByte (TransferConfig.TemporarySuffix (Config.Transfer cfg)) slash = false ->
  reachable CompareHashAndPassword dummyHash cfg r ids s -> well_formed cfg s.
Proof.
  intros Hmax Hcap Hsf Hr.
  destruct (reachable_conf names _ _ _ _ _ _ Hsf Hr) as [[Hof Hext] _].
  destruct (reachable_conns _ _ _ _ _ _ Hmax Hr) as [[_ _ _ _ Had Hin Hse Hinj Hh] _].
  destruct (reachable_transfers_inv _ _ _ _ _ _ Hcap Hr) as [_ [Hfl Hfr Hcaps Hg _ _]].
  simpl in *. split.
  - intros p x Hp. destruct (Hh _ _ Hp) as [Hlt Hcl]. split_and!; [done| |done].
    pose proof (Hof _ _ Hp) as (Hu & Hm & Hpol & Hid).
    apply users_and_gates in Hu as (u & Hu & Hn & Hrt & Hgt). rewrite Hrt in Hm, Hpol.
    specialize (Hcaps (Session.username x)). unfold caps_of in Hcaps.
    rewrite lookup_fmap, Hgt in Hcaps. simpl in Hcaps.
    destruct (gates (sys_world s) !! Session.username x) as [gt|] eqn:E; [|done].
    injection Hcaps as Hc. exists u, gt. split_and!; try done. by apply (Hg _ _ E).
  - intros cc Hcc. destruct (Hin _ Hcc) as [cs Hcs]. exists cs. split_and!; [done|by eapply Had|].
    intros p Hp. by eapply Hse.
  - exact Hinj.
  - exact Hext.
  - intros k t Hk Hl.
    assert (flags (sys_world s) !! k = Some false) as Hflag.
    { apply Hfl. rewrite lookup_omap, Hk. simpl. unfold held_by. by rewrite Hl. }
    split; [done|]. destruct (decide (k < fresh (sys_world s))%nat); [done|].
    rewrite Hfr in Hflag by lia. done.
Qed.
End well_formed.

Lemma state_well_formed_witness :
  let w := sys_world (traced_system demo_login) in
  exists x, heap w !! 0%nat = Some x /\ session_typed demo_gateway_config w x.
Proof.
  intros w.
  assert (reachable plain_compare "" demo_gateway_config traced_start 0 (traced_system demo_login)) as Hr.
  { apply reach_run; [constructor|]. decided. }
  assert (is_Some (heap w !! 0%nat)) as [x Hx] by decided.
  assert (0 <= ServerConfig.MaxConnections (Server demo_gateway_config) < max_int64) as Hmax by done.
  exists x. split; [exact Hx|].
  exact (proj1 (proj2 (wf_session _ _ (state_well_formed snd plain_compare "" _ _ _ _ Hmax
    demo_capacities eq_refl Hr) _ _ Hx))).
Defined.
