(* ===== verification/RoundTrip.v ===== *)
(** * What is stored can be retrieved

    The layers put together: a file stored through [GetHandle] by one session
    and retrieved through [GetHandle] by another comes back byte for byte,
    through driver, transfer handles, SFTP client and any server that behaves
    as documented. *)
From S2P Require Import Prelude GoStrings GoPath Errors Filesystem Authorization Limiter Auth SftpLib MemServer SshDial SftpClient SftpClientSpec Metrics Observability Config Session Transfer UploadSpec TransferSpec DownloadSpec Gateway Driver Triples Accounting System.
Open Scope string_scope.
Open Scope list_scope.
Open Scope Z_scope.

(** ** Further behaviour of the server *)

(** Connecting leaves files, links and open writers alone. *)
Class ConnectLaws (R : Type) {Lib : SftpLib R} {Ssh : SshLib R} `{Observe R SftpFile} : Prop := {
  cl_knownhosts f : quiet (knownhosts_New f);
  cl_ReadFile f : quiet (os_ReadFile f);
  cl_Dial t a : quiet (net_Dial t a);
  cl_SetDeadline c d : quiet (conn_SetDeadline c d);
  cl_conn_Close c : quiet (conn_Close c);
  cl_NewClientConn c a cfg : quiet (ssh_NewClientConn c a cfg);
  cl_NewClient c : quiet (sftp_NewClient c);
  cl_ssh_Close c : quiet (ssh_Close c);
}.
#[export] Hint Resolve cl_knownhosts cl_ReadFile cl_Dial cl_SetDeadline cl_conn_Close
  cl_NewClientConn : go.

(** A file opened for reading gives its contents from the start, in order,
    and the end of file only at their end. *)
Class ServesFiles (R : Type) {Lib : SftpLib R} `{Observe R SftpFile}
  (unread : SftpFile -> R -> bytes) : Prop := {
  sf_open c p w h w' bs :
    sftp_OpenFile c p O_RDONLY w = (Ok h, w') -> content w p = Some bs -> unread h w' = bs;
  sf_chunk h n w bs e w' :
    file_Read h n w = ((bs, e), w') ->
    (forall x, e = Some x -> errors_Is x EOF = true) -> unread h w = bs ++ unread h w';
  sf_eof h n w bs e w' :
    file_Read h n w = ((bs, Some e), w') -> errors_Is e EOF = true -> unread h w' = [];
}.

Section lifting.
Context {R : Type} {Lib : SftpLib R} {Ssh : SshLib R} {Obs : Observe R SftpFile}.
Implicit Types (w : World R).

(** ** The gateway's world shows the remote files *)

#[export] Instance world_observe : Observe (World R) SftpFile := {
  content w := content (remote w);
  is_link w := is_link (remote w);
  writer_at w := writer_at (remote w);
}.

Lemma on_remote_inv {A} (m : M R A) w a w' :
  on_remote m w = (a, w') -> m (remote w) = (a, remote w').
Proof. unfold on_remote, zoom. destruct (m (remote w)) as [x r]. by intros [= <- <-]. Qed.

Lemma quiet_remote {A} (m : M R A) : quiet m -> quiet (on_remote m).
Proof.
  intros Hm w. unfold on_remote, zoom. specialize (Hm (remote w)). by destruct (m (remote w)).
Qed.

Lemma quiet_aside {A} (m : M (World R) A) : silent remote m -> quiet m.
Proof.
  intros Hm w. specialize (Hm w). unfold frame, same_writers, no_new_links. simpl. rewrite Hm.
  split_and!; [by intros p _|by intros h|by intros p].
Qed.

#[export] Instance world_fs_laws `{!SftpLaws R} sc : RemoteFSLaws (world_fs sc).
Proof.
  pose proof (client_fs_laws sc) as L. split; simpl.
  - intros p. apply quiet_remote, (rl_Stat (fs := client_fs sc) p).
  - intros p w r w' Hl H%on_remote_inv. by apply (rl_CreateTemp (fs := client_fs sc) p (remote w)).
  - intros h bs w n e w' p H%on_remote_inv. by apply (rl_Write (fs := client_fs sc) h bs (remote w)).
  - intros h w r w' H%on_remote_inv. by apply (rl_Close (fs := client_fs sc) h (remote w) r).
  - intros p w r w' H%on_remote_inv. by apply (rl_Remove (fs := client_fs sc) p (remote w) r).
  - intros t f ow w r w' Hne H%on_remote_inv. by apply (rl_Commit (fs := client_fs sc) t f ow (remote w)).
Qed.

Lemma world_read_laws unread `{!ServesFiles R unread} sc :
  ReadLaws (world_fs sc) (fun h w => unread h (remote w)).
Proof.
  split; simpl; intros h n w bs e w' H%on_remote_inv.
  - by eapply sf_chunk.
  - by eapply sf_eof.
Qed.
End lifting.

Section roundtrip.
Context {R : Type} {Lib : SftpLib R} {Ssh : SshLib R} {Obs : Observe R SftpFile}.
Context {Laws : SftpLaws R} {Conn : ConnectLaws R}.
Implicit Types (w : World R).

(** ** What the handlers leave alone *)

Lemma quiet_Dial cfg : quiet (Dial cfg).
Proof.
  assert (forall k f, quiet (loadSigner k f)) as Hload.
  { intros k f. unfold loadSigner. apply quiet_bind; [auto with go|]. intros [key|e]; [|auto with go].
    case_match; [auto with go|]. apply quiet_bind; auto with go. }
  assert (quiet (buildAuthMethods cfg)) as Hauth.
  { unfold buildAuthMethods. case_match; [|case_match; auto with go].
    apply quiet_bindE; [done|auto with go]. }
  unfold Dial. apply quiet_bind; [auto with go|]. intros [cb|e]; [|auto with go].
  apply quiet_bindE; [done|]. intros auth. apply quiet_bind; [auto with go|].
  intros [conn|e]; [|auto with go]. apply quiet_bind; [auto with go|]. intros _.
  apply quiet_bind; [auto with go|]. intros [client|e]; apply quiet_bind; auto with go.
Qed.

Lemma quiet_New c root : quiet (SftpClient.New c root).
Proof.
  unfold SftpClient.New. apply quiet_bind; [apply cl_NewClient|].
  intros [raw|e]; [auto with go|]. apply quiet_bind; [apply cl_ssh_Close|auto with go].
Qed.

Lemma quiet_connector u : quiet (connector u).
Proof.
  unfold connector. apply quiet_bind; [apply quiet_remote, quiet_Dial|].
  intros [c|e]; [|apply quiet_bind; [by apply quiet_aside|auto with go]].
  apply quiet_bind; [apply quiet_remote, quiet_New|].
  intros [cl|e]; apply quiet_bind; auto with go; by apply quiet_aside.
Qed.

Lemma quiet_sess_SFTP p : quiet (sess_SFTP p).
Proof.
  unfold sess_SFTP. apply quiet_bind; [by apply quiet_aside|]. intros s.
  apply quiet_bind; [|intros [r s']; apply quiet_bind; [by apply quiet_aside|auto with go]].
  unfold Session.SFTP. repeat case_match; auto with go.
  apply quiet_bind; [apply quiet_connector|]. intros []; auto with go.
Qed.

Lemma remote_on_ids {A} (m : M Z A) : silent remote (on_ids (R := R) m).
Proof. intros w. unfold on_ids, zoom. by destruct (m (fallbackCounter w)). Qed.

Lemma remote_remotePath p n : silent remote (remotePath p n).
Proof.
  intros w. unfold remotePath, resolveAndContain, bindE, bind, get_session, ret.
  repeat (case_match; simplify_eq/=; try done).
Qed.

Lemma remote_TryAcquire user : silent remote (TryAcquire (R := R) user).
Proof.
  intros w. unfold TryAcquire. destruct (gates w !! user) as [gt|]; [|done].
  by destruct (Gate.TryAcquire gt).
Qed.

Lemma quiet_recordTransfer c p r : quiet (recordTransfer c p r).
Proof.
  apply quiet_aside. intros w. unfold recordTransfer, bind, get_session.
  destruct (c =? "STOR")%string; simpl; destruct (decide (Result.Phase r = PhaseFailed)); done.
Qed.

Lemma quiet_release k user : quiet (release k user).
Proof. apply quiet_aside. intros w. unfold release, bind, get. simpl. by destruct (default _ _). Qed.

Lemma upload_options_quiet g p s tid vp k : hooks_quiet (upload_options g p s tid vp k).
Proof.
  split; [intros f r [= <-]; apply quiet_recordTransfer|intros f [= <-]; apply quiet_release].
Qed.

(** ** What a granted [GetHandle] did *)

(** From [w] to [w'] files, links and writers are as they were. *)
Definition untouched w w' : Prop := frame [] w w' /\ no_new_links w w'.

Lemma untouched_trans w1 w2 w3 : untouched w1 w2 -> untouched w2 w3 -> untouched w1 w3.
Proof.
  intros [Hf1 Hl1] [Hf2 Hl2]. split; [by eapply frame_trans|]. intros p H. by apply Hl1, Hl2.
Qed.

Lemma untouched_run {A} (m : M (World R) A) w a w' : quiet m -> m w = (a, w') -> untouched w w'.
Proof. intros Hm E. by destruct (quiet_run _ _ _ _ Hm E) as (? & _ & ?). Qed.

(** The next computation leaves the remote side alone. *)
Ltac pass H Hw x :=
  let w1 := fresh "w" in let Hx := fresh "Hx" in
  apply bind_inv in H as (x & w1 & Hx & H);
  apply untouched_run in Hx;
  [apply (untouched_trans _ _ _ Hw) in Hx; clear Hw; rename Hx into Hw
  |first [by apply quiet_aside|apply quiet_aside, remote_on_ids|apply quiet_aside, remote_TryAcquire]].

Lemma GetHandle_ready g p name fl e w t w' :
  GetHandle g p name fl e w = (Ok t, w') ->
  exists v q sc w1, untouched w w1 /\
    (if negb (Z.land fl O_WRONLY =? 0) then beginUpload g p sc v q fl e
     else beginDownload g p sc v q e) w1 = (Ok t, w').
Proof.
  unfold GetHandle. intros ([v q] & w1 & H1 & (sc & w2 & H2 & H)%audited_ok)%audited_ok.
  exists v, q, sc, w2. split; [|done].
  eapply untouched_trans; eapply untouched_run; [..|exact H2]; [|exact H1|].
  - apply quiet_aside, remote_remotePath.
  - apply quiet_sess_SFTP.
Qed.

Lemma untouched_refl w : untouched w w.
Proof. split; [apply frame_refl|by intros q]. Qed.

Lemma beginUpload_ok g p sc v q fl e w t w' :
  beginUpload g p sc v q fl e w = (Ok t, w') ->
  exists u o w1, t = AnUpload u /\ untouched w w1 /\ hooks_quiet o /\
    Upload.NewUpload (world_fs sc) q o w1 = (Ok u, w').
Proof.
  unfold beginUpload. destruct (negb _); [done|]. pose proof (untouched_refl w) as Hw. intros H.
  pass H Hw s. apply audited_ok in H as (y & w2 & [= _ <-] & H).
  pass H Hw acquired. destruct acquired; simpl in H; [|by apply bind_inv in H as (? & ? & _ & [=])].
  pass H Hw flag. do 4 (pass H Hw y'; clear y'). pass H Hw tid.
  apply bind_inv in H as ([u|err] & wu & H1 & H2).
  - injection H2 as <- <-. do 3 eexists. split_and!; [done|exact Hw| |exact H1].
    apply upload_options_quiet.
  - by repeat apply bind_inv in H2 as (? & ? & _ & H2).
Qed.

Lemma beginDownload_ok g p sc v q e w t w' :
  beginDownload g p sc v q e w = (Ok t, w') ->
  exists d o w1, t = ADownload d /\ untouched w w1 /\
    Download.NewDownload (world_fs sc) q o w1 = (Ok d, w').
Proof.
  unfold beginDownload. pose proof (untouched_refl w) as Hw. intros H.
  pass H Hw s. apply audited_ok in H as (y & w2 & [= _ <-] & H).
  pass H Hw acquired. destruct acquired; simpl in H; [|by apply bind_inv in H as (? & ? & _ & [=])].
  pass H Hw flag. do 3 (pass H Hw y'; clear y'). pass H Hw tid.
  apply bind_inv in H as ([d|err] & wd & H1 & H2).
  - injection H2 as <- <-. do 3 eexists. split_and!; [done|exact Hw|exact H1].
  - by repeat apply bind_inv in H2 as (? & ? & _ & H2).
Qed.

(** Storing, then retrieving. *)
Definition store g p name fl e os : M (World R) (res (string * string * option error)) :=
  try* t := GetHandle g p name fl e in
  match t with
  | AnUpload u =>
      let* u := urun u os in
      let* (err, _) := Upload.Close u in
      ret (Ok (Upload.tempPath u, Upload.finalPath u, err))
  | ADownload _ => ret (Err errNotImplemented)
  end.

Definition retrieve g p name fl e lens : M (World R) (res (string * (bytes * option error))) :=
  try* t := GetHandle g p name fl e in
  match t with
  | AnUpload _ => ret (Err errNotImplemented)
  | ADownload d =>
      let* (be, _) := read_all d lens in
      ret (Ok (Download.remotePath d, be))
  end.

Lemma urun_static {W F : Type} (u : Upload.UploadHandle W F) os (w : W) u' (w' : W) :
  urun u os w = (u', w') -> static u' = static u.
Proof.
  revert u w. induction os as [|o os IH]; intros u w; simpl; [by intros [= <- <-]|].
  intros (u1 & w1 & [H1 _]%ustep_keeps & H2)%bind_inv. by rewrite (IH _ _ H2).
Qed.

Lemma NewUpload_names {W F : Type} (fs : RemoteFS W F) final o (w : W) u (w' : W) :
  Upload.NewUpload fs final o w = (Ok u, w') ->
  Upload.finalPath u = final /\
  Upload.tempPath u = TempPath final (Upload.SessionID o) (Upload.TemporarySuffix o).
Proof.
  unfold Upload.NewUpload. by intros (x & w1 & _ & (h & w2 & _ & [= <- _])%bindE_inv_ok)%bindE_inv_ok.
Qed.

Lemma store_ok g p name fl e os w temp final w' :
  errors_given os -> temp <> final -> ~ is_link w temp ->
  store g p name fl e os w = (Ok (temp, final, None), w') ->
  content w' final = Some (payload os).
Proof.
  intros He Hne Hl. unfold store.
  intros (t & w1 & (v & q & sc & w0 & Hw & H)%GetHandle_ready & H2)%bindE_inv_ok.
  destruct (negb _).
  2:{ apply beginDownload_ok in H as (d & o & wd & -> & _). done. }
  apply beginUpload_ok in H as (u & o & wu & -> & Hu & Ho & Hnew).
  apply bind_inv in H2 as (u1 & w2 & H2 & ([err u2] & w3 & H3 & [= H4 H5 -> <-])%bind_inv).
  destruct (NewUpload_names _ _ _ _ _ _ Hnew) as [Hf Ht].
  pose proof (urun_static _ _ _ _ _ H2) as Hst. injection Hst as _ _ Hst Hsf _.
  assert (upload (world_fs sc) q o os wu = (Ok None, w3)) as Hup.
  { unfold upload. rewrite (bindE_ok _ _ _ _ _ Hnew), (bind_run _ _ _ _ _ H2).
    by rewrite (bind_run _ _ _ _ _ H3). }
  apply upload_spec in Hup as (_ & Hok & _); [|apply _|done|..|done].
  - rewrite <- H5, Hsf, Hf. by apply Hok.
  - congruence.
  - intros Hl'. apply Hl. replace temp with (TempPath q (Upload.SessionID o) (Upload.TemporarySuffix o)) by congruence.
    by apply Hw, Hu.
Qed.

(** Opening a file that is there delivers it from the start. *)
Lemma NewDownload_reads unread `{!ServesFiles R unread} sc q o w d w' bs :
  Download.NewDownload (world_fs sc) q o w = (Ok d, w') -> content w q = Some bs ->
  Download.fs d = world_fs sc /\ Download.remotePath d = q /\ unread (Download.file d) (remote w') = bs.
Proof.
  intros (h & w1 & H1%on_remote_inv & [= <- <-])%bindE_inv_ok Hc. split_and!; [done..|]. simpl.
  apply bindE_inv_ok in H1 as (x & r1 & H1 & H2).
  apply quiet_run in H1 as (Hf & _); [|apply check_quiet].
  apply translated_inv in H2 as (r & H2 & Hr). destruct Hr as [_ Hr]. rewrite (Hr h eq_refl) in H2.
  eapply sf_open; [exact H2|]. by rewrite (frame_nil _ _ _ Hf).
Qed.

(** C12. What a client stores it can retrieve.  If storing [name] through any
    session succeeded, and later (whatever ran in between, as long as the
    file is as it was) retrieving through any session resolves to the same
    remote file and reads up to the end of file, what is read is exactly what
    was sent, whatever the chunks: through driver, transfer handles, SFTP
    client, on any server that behaves as documented. *)
Theorem stored_is_retrieved unread g p name fl e os w temp final w1 g' p' name' fl' e' lens w2 bs x w3 :
  ServesFiles R unread ->
  errors_given os -> temp <> final -> ~ is_link w temp ->
  store g p name fl e os w = (Ok (temp, final, None), w1) ->
  content w2 final = content w1 final ->
  retrieve g' p' name' fl' e' lens w2 = (Ok (final, (bs, Some x)), w3) -> errors_Is x EOF = true ->
  bs = payload os.
Proof.
  intros Hsf He Hne Hl Hst Hsame Hre Hx. apply store_ok in Hst; [|done..].
  unfold retrieve in Hre.
  apply bindE_inv_ok in Hre as (t & wt & (v & q & sc & w0 & [Hw _] & H)%GetHandle_ready & Hre).
  destruct (negb _).
  { by apply beginUpload_ok in H as (u & o & wu & -> & _). }
  apply beginDownload_ok in H as (d & o & wd & -> & [Hu _] & Hnew).
  apply bind_inv in Hre as ([be d'] & wr & Hread & [= Hp -> _]).
  destruct (bindE_inv_ok _ _ _ _ _ Hnew) as (h & wh & _ & [= Hd _]).
  assert (q = final) as -> by (by rewrite <- Hp, <- Hd).
  apply (NewDownload_reads unread _ _ _ _ _ _ (payload os)) in Hnew as (Hfs & _ & Hun).
  2:{ rewrite (frame_nil _ _ _ Hu), (frame_nil _ _ _ Hw). by rewrite Hsame. }
  rewrite <- Hun. by eapply (read_all_complete (world_fs sc) _ d lens wt bs (Some x) d' wr (world_read_laws unread sc)).
Qed.
End roundtrip.

(** ** On the in-memory server *)

#[export] Instance mem_connect_laws : ConnectLaws MemFS.
Proof. split; intros; by apply mem_readonly_quiet. Qed.

#[export] Instance mem_serves : ServesFiles MemFS mem_unread.
Proof.
  split.
  - intros c p w h w' bs. simpl. unfold mem_open, mem_unread.
    destruct (files w !! p) as [[b| |]|] eqn:Hp; [|done..]. rewrite follow_nolink.
    2:{ simpl. rewrite Hp. by intros [t [=]]. }
    change (Z.land O_RDONLY O_WRONLY =? 0) with true. cbv iota. rewrite Hp.
    destruct (handles w !! next w); [done|].
    intros [= <- <-] [= ->]. simpl. by rewrite lookup_insert_eq, Hp, drop_0.
  - intros h n w bs e w' H. exact (read_chunk _ _ (mem_read_laws (mem_client true "/data")) h n w bs e w' H).
  - intros h n w bs e w' H. exact (read_eof _ _ (mem_read_laws (mem_client true "/data")) h n w bs e w' H).
Qed.

Definition demo_session : World MemFS := sys_world (demo_system demo_login).
Definition demo_sent : list uop := [UWrite (chars "abc"); UWrite (chars "d")].
Definition demo_gateway : Gateway := NewGateway demo_gateway_config.

Lemma stored_is_retrieved_witness :
  let stored := store demo_gateway 0 "a" O_WRONLY demo_entropy demo_sent demo_session in
  let retrieved := retrieve demo_gateway 0 "/a" O_RDONLY demo_entropy [3; 3; 3] stored.2 in
  stored.1 = Ok ("/data/a.part-f11", "/data/a", None) /\
  retrieved.1 = Ok ("/data/a", (chars "abcd", Some (ESentinel EOF))) /\
  chars "abcd" = payload demo_sent.
Proof.
  intros stored retrieved.
  assert (stored.1 = Ok ("/data/a.part-f11", "/data/a", None)) as H1 by (vm_compute; reflexivity).
  assert (retrieved.1 = Ok ("/data/a", (chars "abcd", Some (ESentinel EOF)))) as H2
    by (vm_compute; reflexivity).
  split_and!; [exact H1|exact H2|]. subst stored retrieved.
  assert (~ is_link demo_session "/data/a.part-f11") as Hl.
  { assert (files (remote demo_session) !! "/data/a.part-f11" = None) as Hn by (vm_compute; reflexivity).
    simpl. rewrite Hn. by intros [t [=]]. }
  destruct (store _ _ _ _ _ _ _) as [r1 w1] eqn:Hst. simpl in *. subst r1.
  destruct (retrieve _ _ _ _ _ _ _) as [r2 w2] eqn:Hre. simpl in *. subst r2.
  refine (stored_is_retrieved mem_unread _ _ _ _ _ _ _ _ _ _ _ _ _ _ _ _ _ _ _ _ _ _ _ Hl Hst eq_refl Hre eq_refl).
  - by repeat constructor.
  - done.
Defined.
