(* ===== verification/Success.v ===== *)
(** * Servers in working order

    What makes a permitted transfer succeed: [succeeds] is the triple of a
    computation that returns a value, [TakesUploads] and [GivesDownloads] say
    request by request what a server in working order does, and [TakesUpload]
    is the same promise at the transfer layer's interface, which the SFTP
    client discharges.  An upload handle then goes from [NewUpload] to a
    [Close] without an error.  The in-memory server is in working order. *)
From S2P Require Import Prelude GoStrings GoPath Errors Filesystem SftpLib MemServer SftpClient SftpClientSpec Transfer UploadSpec TransferSpec DownloadSpec Triples.
Open Scope string_scope.
Open Scope list_scope.
Open Scope Z_scope.

(** ** Computations that succeed *)
Section succeeds.
Context {W : Type}.

(** From [I], [m] returns a value, of which [Q] holds. *)
Definition succeeds {E A} (I : W -> Prop) (m : M W (result E A)) (Q : A -> W -> Prop) : Prop :=
  triple I m (fun r w => exists a, r = Ok a /\ Q a w).

Lemma succeeds_run {E A} I (m : M W (result E A)) Q w :
  succeeds I m Q -> I w -> exists a w', m w = (Ok a, w') /\ Q a w'.
Proof.
  intros Hm Hw. destruct (Hm w Hw) as (a & H1 & H2). exists a, (m w).2. split; [|done].
  rewrite <- H1. apply surjective_pairing.
Qed.

Lemma succeeds_ret {E A} (I : W -> Prop) (a : A) (Q : A -> W -> Prop) :
  (forall w, I w -> Q a w) -> succeeds I (ret (@Ok E A a)) Q.
Proof. intros H w Hw. exists a. split; [done|by apply H]. Qed.

Lemma succeeds_bindE {E A B} I (m : M W (result E A)) J (k : A -> M W (result E B)) Q :
  succeeds I m J -> (forall a, succeeds (J a) (k a) Q) -> succeeds I (bindE m k) Q.
Proof. intros Hm Hk. apply triple_bind with (1 := Hm). intros r w (a & -> & Hw). by apply Hk. Qed.

Lemma succeeds_then {E A B} I J (m : M W (result E A)) (k : A -> M W (result E B)) Q :
  succeeds I m (fun _ => J) -> (forall a, succeeds J (k a) Q) -> succeeds I (bindE m k) Q.
Proof. apply succeeds_bindE. Qed.

Lemma succeeds_consequence {E A} I J (m : M W (result E A)) (Q Q' : A -> W -> Prop) :
  succeeds J m Q' -> (forall w, I w -> J w) -> (forall a w, Q' a w -> Q a w) -> succeeds I m Q.
Proof. intros Hm HI HQ w Hw. destruct (Hm w (HI w Hw)) as (a & -> & Ha). exists a. eauto. Qed.

(** A condition that the computation is known to preserve can be carried. *)
Lemma succeeds_also {E A} I (m : M W (result E A)) Q (P : A -> W -> Prop) :
  succeeds I m Q -> (forall w a w', I w -> m w = (Ok a, w') -> P a w') ->
  succeeds I m (fun a w => Q a w /\ P a w).
Proof.
  intros Hm HP w Hw. destruct (succeeds_run _ _ _ _ Hm Hw) as (a & w' & E1 & Ha).
  unfold succeeds. rewrite E1. exists a. split_and!; [done..|]. by eapply HP.
Qed.
End succeeds.

(** ** A file system that takes an upload *)
Section uploading.
Context {W F : Type} `{Obs : Observe W F}.
Import Upload.

(** [accepts] is kept by every request of an upload to [temp] that is to
    become [final], and under it they succeed. *)
Class TakesUpload (fs : RemoteFS W F) (temp final : string) (accepts : W -> Prop) : Prop := {
  ta_Stat : triple accepts (fs_Stat fs final) (fun r w => accepts w /\
    match r with Ok _ => content w final <> None | Err e => isNotFound e = true end);
  ta_CreateTemp : succeeds accepts (fs_CreateTemp fs temp) (fun _ => accepts);
  ta_Write h bs :
    triple (fun w => accepts w /\ writer_at w h = Some temp /\ content w temp <> None)
      (f_Write fs h bs) (fun r w => r = (Z.of_nat (length bs), None) /\ accepts w);
  ta_Close h : succeeds accepts (f_Close fs h) (fun _ => accepts);
  ta_Commit ow :
    succeeds (fun w => accepts w /\ content w temp <> None /\ (ow = true \/ content w final = None))
      (fs_Commit fs temp final ow) (fun _ _ => True);
}.

(** The FTP library reports no failure of its own. *)
Definition untroubled (os : list uop) : Prop :=
  Forall (fun o => if o is UTransferError _ then False else True) os.

Lemma untroubled_given os : untroubled os -> errors_given os.
Proof. intros H. eapply Forall_impl; [exact H|]. by intros []. Qed.

(** The size limit, where there is one. *)
Definition within (limit : Z) (data : bytes) : Prop :=
  0 < limit -> Z.of_nat (length data) <= limit <= max_int64.

Lemma within_prefix limit data more : within limit (data ++ more) -> within limit data.
Proof. unfold within. rewrite length_app. lia. Qed.

Section run.
Context (fs : RemoteFS W F) {Laws : RemoteFSLaws fs} (temp final : string) (accepts : W -> Prop).
Context {HT : TakesUpload fs temp final accepts} (o : UploadOptions W).
Context (Htemp : TempPath final (SessionID o) (TemporarySuffix o) = temp) (Hne : temp <> final).

(** The final name may be taken over. *)
Definition vacant (w : W) : Prop := Overwrite o = true \/ content w final = None.

(** An upload that goes well, [data] of it written. *)
Definition sound (data : bytes) (u : UploadHandle W F) (w : W) : Prop :=
  uinv data w u /\ failed u = false /\ Upload.fs u = fs /\ tempPath u = temp /\
  finalPath u = final /\ opts u = o /\ accepts w /\ vacant w.

Lemma NewUpload_sound :
  succeeds (fun w => accepts w /\ ~ is_link w temp /\ vacant w) (NewUpload fs final o) (sound []).
Proof.
  intros w (Ha & Hl & Hv).
  assert (exists u w', NewUpload fs final o w = (Ok u, w') /\ accepts w') as (u & w' & E & Ha').
  { unfold NewUpload. rewrite Htemp.
    assert (exists w1, (if negb (Overwrite o) then
      let* st := fs_Stat fs final in
      ret (match st with
           | Ok _ => Err (Errors.New KindConflict "transfer.NewUpload" "el archivo destino ya existe")
           | Err err => if negb (isNotFound err) then Err err else Ok tt
           end) else ret (Ok tt)) w = (Ok tt, w1) /\ accepts w1) as (w1 & E1 & Ha1).
    { destruct Hv as [->|Hc]; [by exists w|]. destruct (Overwrite o); [by exists w|]. simpl.
      unfold bind. pose proof (ta_Stat w Ha) as Hs. pose proof (rl_Stat (fs := fs) final w) as (Hf & _).
      destruct (fs_Stat fs final w) as [[fi|e] w1]; simpl in *; destruct Hs as [Ha1 Hs].
      - by rewrite (frame_nil _ _ _ Hf) in Hs.
      - exists w1. by rewrite Hs. }
    rewrite (bindE_ok _ _ _ _ _ E1).
    destruct (succeeds_run _ _ _ _ ta_CreateTemp Ha1) as (h & w2 & E2 & Ha2).
    rewrite (bindE_ok _ _ _ _ _ E2). by do 2 eexists. }
  rewrite E. exists u. split; [done|]. simpl.
  destruct (NewUpload_inv _ _ _ _ _ _ Laws ltac:(by intros q ->; rewrite Htemp) E)
    as (Hi & Hfr & Hfs & Ht & Hfi & Ho & Hf).
  rewrite Htemp in *. split_and!; try done.
  destruct Hv as [?|Hc]; [by left|]. right. rewrite <- Hc. apply Hfr. set_solver.
Qed.

Lemma ustep_sound data x :
  untroubled [x] -> within (MaxSize o) (data ++ payload1 x) ->
  forall u, triple (sound data u) (ustep u x) (fun u' => sound (data ++ payload1 x) u').
Proof.
  intros Hx Hfit u w (Hi & Hf & Hfs & Ht & Hfi & Ho & Ha & Hv).
  pose proof (ustep_inv data w u x (ustep u x w).1 (ustep u x w).2) as Hs.
  rewrite Hfs in Hs. destruct (Hs Laws Hi (surjective_pairing _)) as (Hi' & Hfr & Hst & _).
  destruct (static_inj _ _ Hst) as (Hfs' & _ & Ht' & Hfi' & Ho'). rewrite Ht in Hfr.
  assert (failed (ustep u x w).1 = false /\ accepts (ustep u x w).2) as [Hf' Ha'].
  { unfold untroubled in Hx. rewrite Forall_singleton in Hx. destruct x as [bs|e|len|off wh]; [|done..].
    destruct Hi as (_ & Hw & Hd). destruct (Hd Hf) as (_ & Hct & Hwr & _). rewrite Ht in Hw, Hct.
    assert (over_limit u bs = false) as Hov.
    { unfold over_limit. rewrite Hwr, wrap64_add_l, Ho. destruct (MaxSize o >? 0) eqn:Hm; [|done].
      simpl in *. apply Z.gtb_lt in Hm. destruct (Hfit Hm) as [H1 H2]. rewrite length_app in H1.
      rewrite Z.gtb_ltb. apply Z.ltb_ge. rewrite wrap64_id; [lia|]. unfold in_int64, min_int64. lia. }
    destruct (ta_Write (fs := fs) (file u) bs w) as [E1 Ha1]; [split_and!; [done..|by rewrite Hct]|].
    destruct (f_Write fs (file u) bs w) as [r w1] eqn:E. simpl in E1, Ha1. subst r.
    rewrite (ustep_write u bs w (Z.of_nat (length bs)) None w1); [done..|by rewrite Hfs]. }
  split_and!; try congruence.
  destruct Hv as [?|Hc]; [by left|]. right. rewrite <- Hc. apply Hfr. set_solver.
Qed.

Lemma urun_sound os : untroubled os -> forall data,
  within (MaxSize o) (data ++ payload os) ->
  forall u, triple (sound data u) (urun u os) (fun u' => sound (data ++ payload os) u').
Proof.
  unfold payload. induction os as [|x os IH]; intros Hos data Hfit u; simpl.
  { rewrite app_nil_r. by intros w. }
  apply Forall_cons in Hos as [Hx Hos]. simpl in Hfit. rewrite (assoc_L app) in *.
  apply triple_bind with (J := fun u' => sound (data ++ payload1 x) u').
  - apply ustep_sound; [by apply Forall_singleton|]. by eapply within_prefix.
  - intros u'. by apply IH.
Qed.

Lemma Close_sound data u : triple (sound data u) (Close u) (fun r _ => r.1 = None).
Proof.
  intros w (Hi & Hf & Hfs & Ht & Hfi & Ho & Ha & Hv). destruct Hi as (Hc & _ & Hd).
  destruct (Hd Hf) as (_ & Hct & _). unfold Close. rewrite Hc. simpl. rewrite Hfs.
  destruct (succeeds_run _ _ _ _ (ta_Close (file u)) Ha) as (x & w1 & E1 & Ha1).
  rewrite (bind_run _ _ _ _ _ E1). pose proof (rl_Close (fs := fs) _ _ _ _ E1) as Hfr.
  unfold finalize. simpl. rewrite Hf, Hfs, Ht, Hfi, Ho. rewrite Ht in Hct.
  destruct (succeeds_run _ _ _ w1 (ta_Commit (Overwrite o))) as (y & w2 & E2 & _).
  { split_and!; [done|by rewrite (frame_nil _ _ _ Hfr), Hct|]. by rewrite (frame_nil _ _ _ Hfr). }
  unfold bind. rewrite E2. destruct (complete _ _ _ w2) as [z w3]. simpl. by destruct (call (Release o) w3).
Qed.
End run.
End uploading.

(** ** A server that takes uploads *)

Definition plain (r : res FileInfo) : Prop :=
  match r with Ok fi => is_symlink fi = false | Err e => errors_Is e ErrNotExist = true end.

(** A failure that says "does not exist", and nothing else. *)
Definition not_exist (e : error) : Prop :=
  errors_Is e ErrNotExist = true /\ errors_Is e EOF = false /\ errors_Is e DeadlineExceeded = false.

(** [accepts c t f]: over connection [c] the server is ready for an upload to
    [t] that is renamed to [f]; neither is a link or a directory. *)
Class TakesUploads (R : Type) {Lib : SftpLib R} `{Observe R SftpFile}
  (accepts : option SftpConn -> string -> string -> R -> Prop) : Prop := {
  tk_Lstat c t f : triple (accepts c t f) (sftp_Lstat c f) (fun r w => accepts c t f w /\ plain r);
  tk_Stat c t f : triple (accepts c t f) (sftp_Stat c f) (fun r w => accepts c t f w /\
    match r with Ok _ => content w f <> None | Err e => not_exist e /\ content w f = None end);
  tk_Open c t f :
    succeeds (accepts c t f) (sftp_OpenFile c t (Z.lor O_WRONLY (Z.lor O_CREATE O_TRUNC)))
      (fun _ => accepts c t f);
  tk_Write c t f h bs :
    triple (fun w => accepts c t f w /\ writer_at w h = Some t /\ content w t <> None)
      (file_Write h bs) (fun r w => r = (Z.of_nat (length bs), None) /\ accepts c t f w);
  tk_Close c t f h : succeeds (accepts c t f) (file_Close h) (fun _ => accepts c t f);
  tk_Remove c t f :
    succeeds (fun w => accepts c t f w /\ content w f <> None) (sftp_Remove c f)
      (fun _ => accepts c t f);
  tk_PosixRename c t f : sftp_HasExtension c posixRenameExtension = true ->
    succeeds (fun w => accepts c t f w /\ content w t <> None) (sftp_PosixRename c t f)
      (fun _ _ => True);
  tk_Rename c t f :
    succeeds (fun w => accepts c t f w /\ content w t <> None /\ content w f = None)
      (sftp_Rename c t f) (fun _ _ => True);
}.

Section client.
Context {R : Type} {Lib : SftpLib R} {Obs : Observe R SftpFile} {Laws : SftpLaws R}.
Context (accepts : option SftpConn -> string -> string -> R -> Prop) {HT : TakesUploads R accepts}.
Implicit Types (c : Client R).

Lemma succeeds_translated {A} op I (m : M R (res A)) Q :
  succeeds I m Q -> succeeds I (translated op m) Q.
Proof.
  intros Hm w Hw. destruct (succeeds_run _ _ _ _ Hm Hw) as (a & w' & E & Ha).
  rewrite (translated_run _ _ _ _ _ E). by exists a.
Qed.

Lemma isNotFound_translated op e : not_exist e -> isNotFound (translateError op e) = true.
Proof. intros (H1 & H2 & H3). unfold translateError, isNotFound. by rewrite H2, H3, H1. Qed.

(** A path that is no link passes the guard. *)
Lemma check_plain I c q :
  triple I (sftp_Lstat (c_sftp c) q) (fun r w => I w /\ plain r) ->
  succeeds I (checkNoEscapingSymlink c q) (fun _ => I).
Proof.
  intros Hm w Hw. unfold checkNoEscapingSymlink, bind. specialize (Hm w Hw).
  destruct (sftp_Lstat (c_sftp c) q w) as [[fi|e] w1]; simpl in Hm; destruct Hm as [Hw1 ->];
    by exists tt.
Qed.

Section names.
Context (c : Client R) (t f : string) (Hne : t <> f).
Abbreviation ok := (accepts (c_sftp c) t f).

(** The conditions under which [Commit] renames. *)
Definition written_temp (w : R) : Prop := ok w /\ content w t <> None.
Definition may_commit (ow : bool) (w : R) : Prop :=
  written_temp w /\ (ow = true \/ content w f = None).

(** They are about what a computation that leaves the files alone keeps. *)
Lemma keeps_may_commit {A} ow (m : M R A) :
  keeps ok m -> quiet m -> keeps (may_commit ow) m.
Proof.
  intros Hk Hq w [[Hw Ht] Hv]. destruct (Hq w) as (Hf & _). unfold may_commit, written_temp.
  rewrite !(frame_nil _ _ _ Hf). split_and!; [by apply Hk|done..].
Qed.

Lemma check_may_commit ow : succeeds (may_commit ow) (checkNoEscapingSymlink c f) (fun _ => may_commit ow).
Proof.
  intros w Hw. pose proof (keeps_may_commit ow (checkNoEscapingSymlink c f)) as Hk.
  assert (succeeds ok (checkNoEscapingSymlink c f) (fun _ => ok)) as Hs by apply check_plain, tk_Lstat.
  destruct (Hs w) as (x & E & _); [by apply Hw|]. exists x. split; [done|].
  apply Hk; [|apply check_quiet|done]. intros w' Hw'. by destruct (Hs w' Hw') as (y & _ & Hy).
Qed.

(** [Stat] of the final name, when it may be replaced or is free. *)
Lemma Stat_may_commit ow :
  triple (may_commit ow) (sftp_Stat (c_sftp c) f) (fun r w => may_commit ow w /\
    is_ok r = bool_decide (is_Some (content w f))).
Proof.
  intros w Hw. split.
  - apply keeps_may_commit; [|apply law_Stat|done]. intros w' Hw'.
    by destruct (tk_Stat (c_sftp c) t f w' Hw').
  - destruct (tk_Stat (c_sftp c) t f w) as [_ Hr]; [by apply Hw|].
    destruct (sftp_Stat (c_sftp c) f w) as [[fi|e] w1]; simpl in *.
    + symmetry. apply bool_decide_eq_true. by apply not_eq_None_Some.
    + destruct Hr as [_ ->]. symmetry. apply bool_decide_eq_false. by intros [].
Qed.

Lemma Commit_posix ow :
  HasPosixRename c = true -> succeeds (may_commit ow) (Commit c t f ow) (fun _ _ => True).
Proof.
  intros Hp. unfold Commit. rewrite Hp. eapply succeeds_then; [apply check_may_commit|]. intros _.
  apply succeeds_then with (J := may_commit ow).
  - destruct ow; [by apply succeeds_ret|]. simpl. unfold rejectIfExists.
    apply triple_bind with (1 := Stat_may_commit false). intros r w [Hw Hr].
    destruct Hw as [Hw [[=]|Hn]]. rewrite Hr, Hn. exists tt. split; [done|]. by split; [|right].
  - intros _. apply succeeds_translated. eapply succeeds_consequence; [by apply tk_PosixRename| |done].
    by intros w [[Hw Ht] _].
Qed.

Lemma Remove_may_commit :
  succeeds (fun w => written_temp w /\ content w f <> None) (sftp_Remove (c_sftp c) f)
    (fun _ w => written_temp w /\ content w f = None).
Proof.
  intros w [[Hw Ht] Hf].
  destruct (succeeds_run _ _ _ _ (tk_Remove (c_sftp c) t f) (conj Hw Hf)) as (x & w1 & E & Hw1).
  rewrite E. exists x. simpl. destruct (law_Remove _ _ _ _ _ E) as (Hfr & _ & Hn).
  split_and!; [done|split; [done|]|by apply Hn]. by rewrite Hfr by set_solver.
Qed.

Lemma Commit_plain ow :
  HasPosixRename c = false -> succeeds (may_commit ow) (Commit c t f ow) (fun _ _ => True).
Proof.
  intros Hp. unfold Commit. rewrite Hp. eapply succeeds_then; [apply check_may_commit|]. intros _.
  apply triple_bind with (1 := Stat_may_commit ow). intros st w [[Hw Hv] Hst].
  assert (is_ok st && negb ow = false) as ->.
  { rewrite Hst. destruct Hv as [-> | ->]; [by rewrite andb_false_r|done]. }
  pose proof (conj Hw Hst) as H. clear Hw Hv Hst. revert w H.
  refine (succeeds_then (fun w => written_temp w /\ is_ok st = bool_decide (is_Some (content w f)))
    (fun w => written_temp w /\ content w f = None) _ _ (fun _ _ => True) _ _).
  - intros w [Hw Hst]. symmetry in Hst. destruct (is_ok st).
    + eapply (succeeds_translated _ _ _ _ Remove_may_commit). split; [done|].
      apply not_eq_None_Some. by apply (bool_decide_eq_true_1 _ Hst).
    + exists tt. split_and!; [done..|]. apply eq_None_not_Some. by apply (bool_decide_eq_false_1 _ Hst).
  - intros _. apply succeeds_translated. eapply succeeds_consequence; [by apply tk_Rename| |done].
    by intros w' [[Hw' Ht] Hn].
Qed.

(** The SFTP client passes the server's promise on. *)
Lemma client_takes_upload : TakesUpload (client_fs c) t f ok.
Proof.
  split; simpl.
  - unfold Stat. apply triple_bind with (J := fun r w => r = Ok tt /\ ok w).
    + intros w Hw. destruct (check_plain ok c f) with (w := w) as ([] & -> & Hw'); [apply tk_Lstat|done..].
    + intros r w [-> Hw]. unfold translated, bind. pose proof (tk_Stat (c_sftp c) t f w Hw) as [Hw' Hr].
      destruct (sftp_Stat (c_sftp c) f w) as [[fi|e] w1]; simpl in *; [done|].
      split; [done|]. apply isNotFound_translated, Hr.
  - apply succeeds_translated, tk_Open.
  - intros h bs. apply tk_Write.
  - intros h. apply tk_Close.
  - intros ow. eapply succeeds_consequence with (J := may_commit ow); [|by intros w (? & ? & ?)|done].
    destruct (HasPosixRename c) eqn:Hp; [by apply Commit_posix|by apply Commit_plain].
Qed.
End names.
End client.

(** ** A server that gives downloads *)

(** [offers c q]: over connection [c] the file [q], no link, can be opened
    for reading; [ready]: an open file can be read. *)
Class GivesDownloads (R : Type) {Lib : SftpLib R}
  (offers : option SftpConn -> string -> R -> Prop) (ready : SftpFile -> R -> Prop) : Prop := {
  gd_Lstat c q : triple (offers c q) (sftp_Lstat c q) (fun r w => offers c q w /\ plain r);
  gd_Open c q : succeeds (offers c q) (sftp_OpenFile c q O_RDONLY) ready;
  gd_Read c : Responsive (client_fs c) ready;
}.

(** ** On the in-memory server *)

(** No file handle beyond those given out; nothing but a regular file at [p]. *)
Definition mem_counted (w : MemFS) : Prop := forall h, (next w <= h)%nat -> handles w !! h = None.
Definition mem_plain (w : MemFS) (p : string) : Prop :=
  match files w !! p with None | Some (NFile _) => True | _ => False end.
Definition mem_accepts (_ : option bool) (t f : string) (w : MemFS) : Prop :=
  mem_counted w /\ mem_plain w t /\ mem_plain w f.
Definition mem_offers (_ : option bool) (p : string) (w : MemFS) : Prop :=
  mem_counted w /\ exists bs, files w !! p = Some (NFile bs).

Lemma mem_plain_nolink w p : mem_plain w p -> follow 8 w p = p.
Proof. intros H. apply follow_nolink. intros [t Ht]. unfold mem_plain in H. by rewrite Ht in H. Qed.

Lemma mem_plain_insert w p q bs n h :
  mem_plain w p -> mem_plain (MkMemFS (<[q := NFile bs]> (files w)) h n) p.
Proof.
  unfold mem_plain. simpl. destruct (decide (q = p)) as [->|]; [by rewrite lookup_insert_eq|].
  by rewrite lookup_insert_ne.
Qed.

(** Opening takes the next handle. *)
Lemma mem_counted_opened w f p :
  mem_counted w -> mem_counted (MkMemFS f (<[next w := (p, 0%nat)]> (handles w)) (S (next w))).
Proof. intros H h Hh. simpl in *. rewrite lookup_insert_ne by lia. apply H. lia. Qed.

#[export] Instance mem_takes_uploads : TakesUploads MemFS mem_accepts.
Proof.
  split.
  - intros c t f w (Hn & Ht & Hf). split; [done|]. simpl. unfold mem_plain in Hf.
    destruct (files w !! f) as [[]|]; done.
  - intros c t f w (Hn & Ht & Hf).
    assert (sftp_Stat c f w = mem_lstat f w) as ->
      by exact (f_equal (fun q => mem_lstat q w) (mem_plain_nolink w f Hf)).
    split; [done|]. simpl. unfold mem_plain in Hf.
    by destruct (files w !! f) as [[]|].
  - intros c t f w (Hn & Ht & Hf). simpl. unfold mem_open. rewrite mem_plain_nolink by done.
    change (Z.land _ O_WRONLY =? 0) with false. cbv iota. rewrite Hn by done.
    assert (mem_accepts c t f (MkMemFS (<[t := NFile []]> (files w))
      (<[next w := (t, 0%nat)]> (handles w)) (S (next w)))) as Ha
      by (split_and!; [by apply mem_counted_opened|by apply mem_plain_insert..]).
    exists (next w). unfold mem_plain in Ht. by destruct (files w !! t) as [[]|].
  - intros c t f h bs w ((Hn & Ht & Hf) & Hw & Hc). simpl in *. unfold mem_write.
    destruct (handles w !! h) as [[q off]|]; [|done]. injection Hw as ->.
    destruct (files w !! t) as [[old| |]|] eqn:E; try done.
    split; [done|]. split_and!; [done|by apply mem_plain_insert..].
  - intros c t f h w Hw. by exists tt.
  - intros c t f w ((Hn & Ht & Hf) & Hc). simpl in *. unfold mem_remove, mem_plain in *.
    destruct (files w !! f) as [[old| |]|] eqn:E; try done. exists tt. split; [done|]. simpl.
    split_and!; [done|unfold mem_plain; simpl..].
    + destruct (decide (f = t)) as [->|]; [by rewrite lookup_delete_eq|by rewrite lookup_delete_ne].
    + by rewrite lookup_delete_eq.
  - intros c t f _ w ((Hn & Ht & Hf) & Hc). simpl in *. unfold mem_rename.
    destruct (files w !! t) as [[]|]; try done. by exists tt.
  - intros c t f w ((Hn & Ht & Hf) & Hc & Hfree). simpl in *. unfold mem_rename.
    destruct (files w !! t) as [[]|]; try done. unfold mem_plain in Hf.
    destruct (files w !! f) as [[]|]; try done. by exists tt.
Qed.

#[export] Instance mem_gives_downloads : GivesDownloads MemFS mem_offers mem_ready.
Proof.
  split.
  - intros c q w (Hn & bs & E). split; [by split; [|exists bs]|]. simpl. by rewrite E.
  - intros c q w (Hn & bs & E). simpl. unfold mem_open.
    rewrite mem_plain_nolink by (unfold mem_plain; by rewrite E).
    change (Z.land O_RDONLY O_WRONLY =? 0) with true. cbv iota. rewrite E, Hn by done.
    exists (next w). split; [done|]. exists q, 0%nat, bs. simpl. by rewrite lookup_insert_eq.
  - intros c. apply mem_responsive.
Qed.
