(* ===== verification/Service.v ===== *)
(** * What is permitted is served

    The other half of [Permissions]: a transfer the policy allows, on a server
    in working order ([Success]), is carried out, from the name the FTP client
    gave to the bytes at their place.  Everything here is total: the handlers
    return, with the result stated. *)
From S2P Require Import Prelude GoStrings GoPath Errors Filesystem Authorization Limiter Auth SftpLib MemServer SshDial SftpClient SftpClientSpec Metrics Observability Config Session Transfer UploadSpec TransferSpec DownloadSpec Gateway Driver Triples Accounting System Transparency RoundTrip Success.
Open Scope string_scope.
Open Scope list_scope.
Open Scope Z_scope.

(** ** The handlers *)

Lemma triple_pure {W A} (φ : Prop) (I : W -> Prop) (m : M W A) Q :
  (φ -> triple I m Q) -> triple (fun w => φ /\ I w) m Q.
Proof. intros H w [Hφ Hw]. by apply H. Qed.

Section handlers.
Context {R : Type} {Lib : SftpLib R} {Ssh : SshLib R} {Obs : Observe R SftpFile}.
Context {Laws : SftpLaws R} {Conn : ConnectLaws R}.
Implicit Types (w : World R) (P : R -> Prop).

(** [P] of the remote side. *)
Definition remotely P w : Prop := P (remote w).

Lemma triple_remote {A} P (m : M R A) Q :
  triple P m Q -> triple (remotely P) (on_remote m) (fun a => remotely (Q a)).
Proof.
  intros Hm w Hw. specialize (Hm (remote w) Hw). unfold on_remote, zoom.
  by destruct (m (remote w)) as [a r].
Qed.

Lemma keeps_remotely {A} P (m : M (World R) A) : silent remote m -> keeps (remotely P) m.
Proof. intros Hm w Hw. unfold remotely. by rewrite Hm. Qed.

#[export] Instance world_takes_upload sc t f P :
  TakesUpload (client_fs sc) t f P -> TakesUpload (world_fs sc) t f (remotely P).
Proof.
  intros [Hst Hcr Hwr Hcl Hco]. split; simpl; intros.
  - exact (triple_remote _ _ _ Hst).
  - exact (triple_remote _ _ _ Hcr).
  - exact (triple_remote _ _ _ (Hwr h bs)).
  - exact (triple_remote _ _ _ (Hcl h)).
  - exact (triple_remote _ _ _ (Hco ow)).
Qed.

(** *** What the session of the request is, and may *)
Definition resolves_to p name w (final : string) : Prop :=
  exists v, ResolveVirtual (Session.mapper (session_at p w)) "/" name = Ok v /\
            ToRemote (Session.mapper (session_at p w)) v = Ok final.

Definition free_slot p w : Prop :=
  exists gt, gates w !! Session.username (session_at p w) = Some gt /\
             Gate.InUse gt < Gate.capacity gt.

Definition policy_at p w : Policy := Session.policy (session_at p w).

Lemma remotePath_run p name w final :
  resolves_to p name w final -> exists v, remotePath p name w = (Ok (v, final), w).
Proof.
  intros (v & H1 & H2). exists v. unfold remotePath, resolveAndContain, bindE, bind, get_session, ret.
  by rewrite H1, H2.
Qed.

Lemma audited_run {A B} (p : nat) c q (m : M (World R) (res A)) (k : A -> M (World R) (res B)) w a w' :
  m w = (Ok a, w') -> audited p c q m k w = k a w'.
Proof. unfold audited, bind. by intros ->. Qed.

Lemma triple_checked {B} I (p : nat) c q check (k : unit -> M (World R) (res B)) Q :
  check = None -> triple I (k tt) Q -> triple I (audited p c q (checked check) k) Q.
Proof. by intros ->. Qed.

(** Connecting changes neither whose session it is nor the gates. *)
Lemma sess_SFTP_around p w r w1 :
  sess_SFTP p w = (r, w1) ->
  sess_static (session_at p w1) = sess_static (session_at p w) /\ gates w1 = gates w.
Proof.
  intros E. pose proof (sess_SFTP_static p w) as Hs.
  pose proof (keeps_SFTP p _ (view_respected p (view p w)) w eq_refl) as Hv. unfold at_view in Hv.
  rewrite E in Hs, Hv. split; [done|]. by injection Hv.
Qed.

Lemma GetHandle_run g p name fl e w final sc w1 :
  resolves_to p name w final -> sess_SFTP p w = (Ok sc, w1) ->
  exists v, GetHandle g p name fl e w =
    (if negb (Z.land fl O_WRONLY =? 0) then beginUpload g p sc v final fl e
     else beginDownload g p sc v final e) w1.
Proof.
  intros (v & E1)%remotePath_run E2. exists v. unfold GetHandle.
  rewrite (audited_run _ _ _ _ _ _ _ _ E1). by rewrite (audited_run _ _ _ _ _ _ _ _ E2).
Qed.

(** A gate with a free slot admits. *)
Lemma TryAcquire_free P user gt :
  Gate.InUse gt < Gate.capacity gt ->
  triple (fun w => gates w !! user = Some gt /\ remotely P w) (TryAcquire (R := R) user)
    (fun b w => b = true /\ remotely P w).
Proof.
  intros Hlt w [Hg Hw]. unfold TryAcquire, Gate.TryAcquire. rewrite Hg.
  unfold Gate.InUse in Hlt. by rewrite (proj2 (Z.ltb_lt _ _) Hlt).
Qed.

(** *** Uploads *)
Section storing.
Context (accepts : option SftpConn -> string -> string -> R -> Prop) {HT : TakesUploads R accepts}.
Context (g : Gateway) (p : nat) (s : Session (R := R) (C := userRuntime)) (sc : Client R) (final : string).
Abbreviation pol := (Session.policy s).
Abbreviation temp :=
  (TempPath final (Session.id s) (TransferConfig.TemporarySuffix (Config.Transfer (g_cfg g)))).
Context (Hne : temp <> final).
Abbreviation ok := (accepts (c_sftp sc) temp final).

#[local] Instance session_takes_upload : TakesUpload (world_fs sc) temp final (remotely ok).
Proof. by apply world_takes_upload, client_takes_upload. Qed.

(** The remote side an upload starts from. *)
Definition open_for_upload (r : R) : Prop :=
  ok r /\ ~ is_link r temp /\ (AllowOverwrite pol = true \/ content r final = None).

(** A handle over [data], as [GetHandle] builds it. *)
Definition taken (data : bytes) (u : Upload.UploadHandle (World R) SftpFile) w : Prop :=
  exists tid v flag,
    sound (world_fs sc) temp final (remotely ok) (upload_options g p s tid v flag) data u w.

Lemma beginUpload_succeeds v fl e gt :
  Z.land fl O_APPEND = 0 -> AllowUpload pol = true -> Gate.InUse gt < Gate.capacity gt ->
  succeeds (fun w => session_at p w = s /\ gates w !! Session.username s = Some gt /\
                     remotely open_for_upload w)
    (beginUpload g p sc v final fl e) (fun t w => exists u, t = AnUpload u /\ taken [] u w).
Proof.
  intros Hfl Hpol Hgt. unfold beginUpload. rewrite Hfl. simpl.
  apply triple_bind with (J := fun s' w => s' = s /\ gates w !! Session.username s = Some gt /\
                                           remotely open_for_upload w).
  { by intros w (<- & Hg & Hw). }
  intros s'. apply triple_pure. intros ->.
  apply triple_checked; [unfold CheckUpload; by rewrite Hpol|].
  apply triple_bind with (1 := TryAcquire_free _ _ _ Hgt). intros b. apply triple_pure. intros ->.
  simpl. apply triple_keeps; [by apply keeps_remotely|]. intros flag.
  do 4 (apply triple_keeps; [by apply keeps_remotely|]; intros []).
  apply triple_keeps; [by apply keeps_remotely, remote_on_ids|]. intros tid.
  set (o := upload_options g p s tid v flag).
  assert (succeeds (remotely open_for_upload) (Upload.NewUpload (world_fs sc) final o)
    (sound (world_fs sc) temp final (remotely ok) o [])) as Hnew.
  { exact (NewUpload_sound (world_fs sc) temp final (remotely ok) o eq_refl Hne). }
  apply triple_bind with (1 := Hnew). intros r w (u & -> & Hu). exists (AnUpload u).
  split; [done|]. exists u. split; [done|]. by exists tid, v, flag.
Qed.

Lemma taken_run os :
  untroubled os -> within (MaxFileSize pol) (payload os) ->
  forall u, triple (taken [] u) (urun u os) (taken (payload os)).
Proof.
  intros Hos Hfit u w (tid & v & flag & Hu). exists tid, v, flag.
  by apply (urun_sound (world_fs sc) temp final (remotely ok)
    (upload_options g p s tid v flag) eq_refl Hne os Hos []).
Qed.

Lemma taken_Close data u : triple (taken data u) (Upload.Close u) (fun r _ => r.1 = None).
Proof.
  intros w (tid & v & flag & Hu).
  exact (Close_sound (world_fs sc) temp final (remotely ok)
    (upload_options g p s tid v flag) data u w Hu).
Qed.
(** Writing everything and closing. *)
Lemma store_run os u w :
  untroubled os -> within (MaxFileSize pol) (payload os) -> taken [] u w ->
  exists w', (let* u := urun u os in
              let* (err, _) := Upload.Close u in
              ret (Ok (E := error) (Upload.tempPath u, Upload.finalPath u, err))) w
             = (Ok (temp, final, None), w').
Proof.
  intros Hos Hfit Hu. unfold bind. pose proof (taken_run os Hos Hfit u w Hu) as H1.
  destruct (urun u os w) as [u1 w1]. simpl in H1. pose proof (taken_Close _ _ _ H1) as H2.
  destruct (Upload.Close u1 w1) as [[err u2] w2]. simpl in H2. subst err. exists w2.
  by destruct H1 as (tid & v & flag & _ & _ & _ & -> & -> & _).
Qed.
End storing.

(** C9. A permitted upload is carried out.  If a session may upload and has a
    free slot, the name resolves, the SFTP connection is there or can be
    made, the server is ready for the two names, the target is free or may
    be overwritten, and the data fit the size limit, then storing ends with
    success, and the file is there with exactly the data sent. *)
Theorem permitted_upload_served accepts g p name fl e os w sc w1 final :
  TakesUploads R accepts ->
  let s := session_at p w in
  let temp := TempPath final (Session.id s) (TransferConfig.TemporarySuffix (Config.Transfer (g_cfg g))) in
  resolves_to p name w final -> temp <> final ->
  Z.land fl O_WRONLY <> 0 -> Z.land fl O_APPEND = 0 ->
  AllowUpload (policy_at p w) = true -> free_slot p w ->
  AllowOverwrite (policy_at p w) = true \/ content w final = None ->
  untroubled os -> within (MaxFileSize (policy_at p w)) (payload os) ->
  sess_SFTP p w = (Ok sc, w1) -> accepts (c_sftp sc) temp final (remote w1) -> ~ is_link w temp ->
  exists w', store g p name fl e os w = (Ok (temp, final, None), w') /\
             content w' final = Some (payload os).
Proof.
  intros HT s temp Hres Hne Hwr Happ Hpol (gt & Hg & Hgt) How Hos Hfit Hconn Hacc Hl.
  assert (exists w', store g p name fl e os w = (Ok (temp, final, None), w')) as [w' E].
  2:{ exists w'. split; [done|]. eapply store_ok; [..|exact E]; [by apply untroubled_given|done..]. }
  destruct (sess_SFTP_around _ _ _ _ Hconn) as [Hst Hgates].
  destruct (quiet_run _ _ _ _ (quiet_sess_SFTP p) Hconn) as (Hfr & _ & Hnl).
  unfold policy_at in *. fold s in Hpol, How, Hfit, Hg. set (s1 := session_at p w1).
  assert (Session.id s1 = Session.id s /\ Session.username s1 = Session.username s /\
          Session.policy s1 = Session.policy s) as (Hid & Huser & Hpols).
  { by injection Hst. }
  destruct (GetHandle_run g p name fl e w final sc w1 Hres Hconn) as (v & EG).
  apply Z.eqb_neq in Hwr. rewrite Hwr in EG. simpl in EG.
  assert (open_for_upload accepts g s1 sc final (remote w1)) as Hopen.
  { unfold open_for_upload. rewrite Hid, Hpols. fold temp. split_and!; [done|by intros ?%Hnl|].
    by rewrite (frame_nil _ _ _ Hfr : content (remote w1) final = content w final). }
  assert (temp = TempPath final (Session.id s1) (TransferConfig.TemporarySuffix (Config.Transfer (g_cfg g)))) as Htemp
    by (by rewrite Hid).
  rewrite Htemp in Hne.
  destruct (succeeds_run _ _ _ w1 (beginUpload_succeeds accepts g p s1 sc final Hne v fl e gt Happ
    ltac:(congruence) Hgt)) as (t & w2 & E2 & u & -> & Hu).
  { split_and!; [done| |done]. by rewrite Hgates, Huser. }
  unfold store. rewrite (bindE_ok _ _ _ _ _ (eq_trans EG E2)). rewrite Htemp.
  apply (store_run accepts g p s1 sc final Hne os u w2); [done|by rewrite Hpols|done].
Qed.

(** *** Downloads *)
Section retrieving.
Context (unread : SftpFile -> R -> bytes) {HS : ServesFiles R unread}.
Context (offers : option SftpConn -> string -> R -> Prop) (ready : SftpFile -> R -> Prop).
Context {HG : GivesDownloads R offers ready}.
Context (g : Gateway) (p : nat) (s : Session (R := R) (C := userRuntime)) (sc : Client R).
Context (final : string) (bs : bytes).

Lemma OpenRead_succeeds : succeeds (offers (c_sftp sc) final) (OpenRead sc final) ready.
Proof.
  unfold OpenRead. eapply succeeds_then; [by apply check_plain, gd_Lstat|]. intros _.
  apply succeeds_translated, gd_Open.
Qed.

(** The remote side a download starts from. *)
Definition holds_file (r : R) : Prop := offers (c_sftp sc) final r /\ content r final = Some bs.

(** A handle on all of [bs], as [GetHandle] builds it. *)
Definition given (d : Download.DownloadHandle (World R) SftpFile) w : Prop :=
  Download.fs d = world_fs sc /\ Download.remotePath d = final /\
  ready (Download.file d) (remote w) /\ unread (Download.file d) (remote w) = bs.

Lemma NewDownload_given o : succeeds (remotely holds_file) (Download.NewDownload (world_fs sc) final o) given.
Proof.
  intros w [Ho Hc]. destruct (triple_remote _ _ _ OpenRead_succeeds w Ho) as (h & E & Hr).
  assert (exists d w', Download.NewDownload (world_fs sc) final o w = (Ok d, w') /\
    ready (Download.file d) (remote w')) as (d & w' & En & Hd).
  { unfold Download.NewDownload, bindE, bind. simpl.
    destruct (on_remote (OpenRead sc final) w) as [r w1]. simpl in E. subst r. by do 2 eexists. }
  rewrite En. exists d. split; [done|]. simpl.
  by destruct (NewDownload_reads unread sc final o w d w' bs En Hc) as (? & ? & ?).
Qed.

Lemma beginDownload_succeeds v e gt :
  AllowDownload (Session.policy s) = true -> Gate.InUse gt < Gate.capacity gt ->
  succeeds (fun w => session_at p w = s /\ gates w !! Session.username s = Some gt /\
                     remotely holds_file w)
    (beginDownload g p sc v final e) (fun t w => exists d, t = ADownload d /\ given d w).
Proof.
  intros Hpol Hgt. unfold beginDownload.
  apply triple_bind with (J := fun s' w => s' = s /\ gates w !! Session.username s = Some gt /\
                                           remotely holds_file w).
  { by intros w (<- & Hg & Hw). }
  intros s'. apply triple_pure. intros ->.
  apply triple_checked; [unfold CheckDownload; by rewrite Hpol|].
  apply triple_bind with (1 := TryAcquire_free _ _ _ Hgt). intros b. apply triple_pure. intros ->.
  simpl. apply triple_keeps; [by apply keeps_remotely|]. intros flag.
  do 3 (apply triple_keeps; [by apply keeps_remotely|]; intros []).
  apply triple_keeps; [by apply keeps_remotely, remote_on_ids|]. intros tid.
  apply triple_bind with (1 := NewDownload_given _). intros r w (d & -> & Hd).
  exists (ADownload d). split; [done|]. by exists d.
Qed.

(** Reading up to the end of file. *)
Lemma given_read d lens w :
  given d w -> Forall (fun len => 0 < len) lens -> (length bs < length lens)%nat ->
  exists x d' w', read_all d lens w = (((bs, Some x), d'), w') /\ errors_Is x EOF = true.
Proof.
  intros (Hfs & _ & Hr & Hu) Hpos Hlen. rewrite <- Hu in *.
  apply (read_all_terminates (world_fs sc) (fun h w => unread h (remote w))
    (fun h w => ready h (remote w))); [by apply world_read_laws| |done..].
  intros h n v b e' v' Hv Hn E%on_remote_inv. exact (gd_Read sc h n _ b e' _ Hv Hn E).
Qed.
End retrieving.

(** C10. A permitted download is carried out.  If a session may download and
    has a free slot, the name resolves, the SFTP connection is there or can
    be made, and the server offers the file, then retrieving it into enough
    buffers that are not empty comes to the end of file, and delivers the
    file, whole and in order. *)
Theorem permitted_download_served unread offers ready g p name fl e lens w sc w1 final bs :
  ServesFiles R unread -> GivesDownloads R offers ready ->
  resolves_to p name w final -> Z.land fl O_WRONLY = 0 ->
  AllowDownload (policy_at p w) = true -> free_slot p w ->
  sess_SFTP p w = (Ok sc, w1) -> offers (c_sftp sc) final (remote w1) ->
  content w final = Some bs ->
  Forall (fun len => 0 < len) lens -> (length bs < length lens)%nat ->
  exists x w', retrieve g p name fl e lens w = (Ok (final, (bs, Some x)), w') /\
               errors_Is x EOF = true.
Proof.
  intros HS HG Hres Hwr Hpol (gt & Hg & Hgt) Hconn Hoff Hc Hpos Hlen.
  destruct (sess_SFTP_around _ _ _ _ Hconn) as [Hst Hgates].
  destruct (quiet_run _ _ _ _ (quiet_sess_SFTP p) Hconn) as (Hfr & _).
  destruct (GetHandle_run g p name fl e w final sc w1 Hres Hconn) as (v & EG).
  rewrite Hwr in EG. simpl in EG. unfold policy_at in Hpol. injection Hst as _ Huser _ _ Hpols _.
  rewrite <- (frame_nil _ _ _ Hfr) in Hc.
  destruct (succeeds_run _ _ _ w1 (beginDownload_succeeds unread offers ready g p (session_at p w1)
    sc final bs v e gt ltac:(congruence) Hgt)) as (t & w2 & E2 & d & -> & Hd).
  { split_and!; [done|by rewrite Hgates, Huser|done]. }
  destruct (given_read unread offers ready sc final bs d lens w2 Hd Hpos Hlen) as (x & d' & w3 & E3 & Hx).
  exists x, w3. split; [|done]. unfold retrieve. rewrite (bindE_ok _ _ _ _ _ (eq_trans EG E2)).
  rewrite (bind_run _ _ _ _ _ E3). by destruct Hd as (_ & -> & _).
Qed.
End handlers.

(** ** On the in-memory server *)

(** Counting from the listing of the open handles. *)
Lemma mem_handles w l :
  map_to_list (handles w) = l -> Forall (fun kx => (kx.1 < next w)%nat) l -> mem_counted w.
Proof.
  intros <- Hl h Hh. apply eq_None_not_Some. intros [x Hx%elem_of_map_to_list].
  rewrite Forall_forall in Hl. specialize (Hl _ Hx). simpl in Hl. lia.
Qed.

Lemma permitted_upload_served_witness :
  exists w', store demo_gateway 0 "a" O_WRONLY demo_entropy demo_sent demo_session
             = (Ok ("/data/a.part-f11", "/data/a", None), w') /\
             content w' "/data/a" = Some (chars "abcd").
Proof.
  assert (is_ok (sess_SFTP 0 demo_session).1 = true) as Hr by (vm_compute; reflexivity).
  assert (map_to_list (handles (remote (sess_SFTP 0 demo_session).2)) = []) as Hh by (vm_compute; reflexivity).
  assert (files (remote (sess_SFTP 0 demo_session).2) !! "/data/a.part-f11" = None) as Ht by (vm_compute; reflexivity).
  assert (files (remote (sess_SFTP 0 demo_session).2) !! "/data/a" = None) as Hf by (vm_compute; reflexivity).
  assert (files (remote demo_session) !! "/data/a.part-f11" = None) as Hn by (vm_compute; reflexivity).
  destruct (sess_SFTP 0 demo_session) as [[sc|e] w1] eqn:E; simpl in Hr, Hh, Ht, Hf; [|discriminate].
  refine (permitted_upload_served mem_accepts demo_gateway 0 "a" O_WRONLY demo_entropy demo_sent
    demo_session sc w1 "/data/a" _ _ _ _ _ _ _ _ _ _ E _ _).
  - exists "/a". split; vm_compute; reflexivity.
  - vm_compute. discriminate.
  - vm_compute. discriminate.
  - reflexivity.
  - vm_compute. reflexivity.
  - exists (Gate.MkGate 4 0). split; vm_compute; reflexivity.
  - right. vm_compute. reflexivity.
  - by repeat constructor.
  - vm_compute. intros _. split; discriminate.
  - split_and!; [by apply mem_handles with (l := [])| |unfold mem_plain; by rewrite Hf].
    change (mem_plain (remote w1) "/data/a.part-f11"). unfold mem_plain. by rewrite Ht.
  - change (~ is_link demo_session "/data/a.part-f11"). intros [t Hl]. by rewrite Hn in Hl.
Defined.

Lemma permitted_download_served_witness :
  let stored := (store demo_gateway 0 "a" O_WRONLY demo_entropy demo_sent demo_session).2 in
  exists x w', retrieve demo_gateway 0 "/a" O_RDONLY demo_entropy [3; 1; 3; 3; 3] stored
               = (Ok ("/data/a", (chars "abcd", Some x)), w') /\ errors_Is x EOF = true.
Proof.
  intros stored.
  assert (is_ok (sess_SFTP 0 stored).1 = true) as Hr by (vm_compute; reflexivity).
  assert (map_to_list (handles (remote (sess_SFTP 0 stored).2)) = [(0%nat, ("/data/a.part-f11", 0%nat))]) as Hh
    by (vm_compute; reflexivity).
  assert (next (remote (sess_SFTP 0 stored).2) = 1%nat) as Hnext by (vm_compute; reflexivity).
  assert (files (remote (sess_SFTP 0 stored).2) !! "/data/a" = Some (NFile (chars "abcd"))) as Hf
    by (vm_compute; reflexivity).
  assert (content stored "/data/a" = Some (chars "abcd")) as Hc by (vm_compute; reflexivity).
  assert (resolves_to 0 "/a" stored "/data/a") as Hres by (exists "/a"; split; vm_compute; reflexivity).
  assert (AllowDownload (policy_at 0 stored) = true) as Hpol by (vm_compute; reflexivity).
  assert (gates stored !! Session.username (session_at 0 stored) = Some (Gate.MkGate 4 0)) as Hg
    by (vm_compute; reflexivity).
  clearbody stored.
  destruct (sess_SFTP 0 stored) as [[sc|e] w1] eqn:E; simpl in Hr, Hh, Hf, Hnext; [|discriminate].
  refine (permitted_download_served mem_unread mem_offers mem_ready demo_gateway 0 "/a" O_RDONLY
    demo_entropy [3; 1; 3; 3; 3] stored sc w1 "/data/a" _ _ _ Hres _ Hpol _ E _ Hc _ _).
  - reflexivity.
  - by exists (Gate.MkGate 4 0).
  - split; [|by exists (chars "abcd")]. apply (mem_handles _ _ Hh). rewrite Hnext. by repeat constructor.
  - by repeat constructor.
  - vm_compute. lia.
Defined.
