(* ===== verification/Main.v ===== *)
(** * Start and stop ([cmd/ftp2sftp/main.go])

    [run] up to the point where the servers are up, as a function to an exit
    code or a running process; the container's health check; and [shutdown],
    whose goroutines (the deadline's timer, the two of [WaitForSessions] and
    the main one) interleave with the callbacks of the FTP library. *)
From S2P Require Import Prelude GoStrings GoPath Errors GoNet Filesystem Authorization Limiter Auth SftpLib MemServer SshDial SftpClient Metrics Observability Config Session Transfer UploadSpec TransferSpec DownloadSpec Gateway Driver Triples Accounting System Quiet Health Cli.
Open Scope string_scope.
Open Scope list_scope.
Open Scope Z_scope.

(** ** Starting *)

(** What is printed before there is a logger, and by the health check. *)
Inductive complaint :=
  | BadConfig (err : error) | BadListenAddress (err : error)
  | Unreachable (err : error) | BadStatus (code : Z).

Section main.
Context {R : Type} {Lib : SftpLib R} {Ssh : SshLib R}.
Context (CompareHashAndPassword : string -> string -> option error) (dummyHash : string).

(** The process once its servers are up. *)
Record Process := MkProcess {
  gateway : Gateway;
  system : Sys (R := R);
  healthSrv : Health.Server (R := R);
}.

Definition on_world (m : M (World R) unit) (s : Sys (R := R)) : Sys (R := R) :=
  MkSys (m (sys_world s)).2 (transfers s).
Definition on_gateway (m : M (World R) unit) (p : Process) : Process :=
  MkProcess (gateway p) (on_world m (system p)) (healthSrv p).
Definition set_alive (b : bool) (p : Process) : Process :=
  MkProcess (gateway p) (system p) (SetAlive b (healthSrv p)).

(** A callback of the FTP library, while the process serves. *)
Definition callback (p : Process) (i : input) : Process :=
  MkProcess (gateway p) (sys_step CompareHashAndPassword dummyHash (gateway p) (system p) i) (healthSrv p).
Definition serves (p p' : Process) : Prop := exists i, allowed (system p) i /\ p' = callback p i.

Section startup.
Context (Quote : string -> string) (bcrypt_Cost : string -> option error)
        (os_Stat : string -> res bool) (os_ReadFile : string -> res string)
        (yaml_Unmarshal : string -> res Config).
Context (Getenv : string -> string) (ParseDuration : string -> res Z).
(** [GET] of a URL, for the status; binding the FTP listener, for its address;
    [ctx.Err()] of a request to the health server. *)
Context (http_Get : string -> res Z) (srv_Listen : res string)
        (ctx_Err : M R (option error)).
Abbreviation load := (Load Quote bcrypt_Cost os_Stat os_ReadFile yaml_Unmarshal).

Definition healthcheck_url (host port : string) : string :=
  let host := if (host =? "")%string || (host =? "0.0.0.0")%string then "127.0.0.1" else host in
  "http://" +:+ JoinHostPort host port +:+ "/healthz".

Definition runHealthcheck (configPath : string) : Z * option complaint :=
  match load configPath with
  | Err err => (1, Some (BadConfig err))
  | Ok cfg =>
      match SplitHostPort (HealthConfig.ListenAddress (Health cfg)) with
      | Err err => (1, Some (BadListenAddress err))
      | Ok (host, port) =>
          match http_Get (healthcheck_url host port) with
          | Err err => (1, Some (Unreachable err))
          | Ok status =>
              if negb (status =? StatusOK) then (1, Some (BadStatus status)) else (0, None)
          end
      end
  end.

Inductive started := Exit (code : Z) (said : option complaint) | Serving (p : Process).

Definition run_flags : list (string * flag_kind) := [("healthcheck", FBool); ("config", FString)].

(** [run] up to its [select]; the remote side and the identifiers it starts
    from are given. *)
Definition run (args : list string) (r : R) (ids : Z) : started :=
  match Parse ParseDuration run_flags ∅ args with
  | BadUsage => Exit 2 None
  | HelpAsked => Exit 0 None
  | Parsed values =>
      let configPath := config_path Getenv values in
      if default false (is_true <$> values !! "healthcheck") then
        let '(code, said) := runHealthcheck configPath in Exit code said
      else
        match load configPath with
        | Err err => Exit 1 (Some (BadConfig err))
        | Ok cfg =>
            let g := NewGateway cfg in
            let w := initial cfg r NewMetrics ids in
            let w := (logger LevelInfo "starting ftp2sftp"
              [("configPath", VString configPath); ("users", VInt (Z.of_nat (length (Users cfg))))] w).2 in
            let h := NewServer (HealthConfig.ReadinessRequiresSFTP (Health cfg))
                       (Some (readinessCheck ctx_Err cfg)) in
            match srv_Listen with
            | Err _ => Exit 1 None
            | Ok addr =>
                let p := on_gateway (logger LevelInfo "FTP listener bound" [("addr", VString addr)])
                           (MkProcess g (MkSys w ∅) h) in
                let p := set_alive true p in
                Serving (on_gateway (logger LevelInfo "health server listening"
                  [("addr", VString (HealthConfig.ListenAddress (Health cfg)))]) p)
            end
        end
  end.

(** [main]: the operator commands, or the gateway. *)
Context (GenerateFromPassword : string -> res string) (stdin : Stdin).

Inductive program :=
  | Operator (code : Z) (left : R) (printed : list line)
  | TheGateway (s : started).

Definition main (args : list string) (r : R) (ids : Z) : program :=
  match args with
  | sub :: rest =>
      if (sub =? "config")%string then
        let '(code, (r, out)) :=
          runConfigCommand Quote bcrypt_Cost os_Stat os_ReadFile yaml_Unmarshal Getenv ParseDuration
            GenerateFromPassword stdin rest (r, []) in
        Operator code r out
      else TheGateway (run args r ids)
  | [] => TheGateway (run args r ids)
  end.
End startup.

(** What ends the wait of [run]. *)
Inductive wakeup :=
  | Signalled (sig : string)
  | FTPStopped (err : option error)
  | HealthStopped (err : option error).

Definition log_err (lvl : Level) (msg : string) (err : option error) : M (World R) unit :=
  match err with Some e => logger lvl msg [("err", VString (Error e))] | None => ret tt end.

Definition woken (wk : wakeup) (p : Process) : Process :=
  match wk with
  | Signalled sig => on_gateway (logger LevelInfo "shutdown signal received" [("signal", VString sig)]) p
  | FTPStopped err => set_alive false (on_gateway (log_err LevelError "FTP server stopped unexpectedly" err) p)
  | HealthStopped err => on_gateway (log_err LevelError "health server stopped unexpectedly" err) p
  end.

(** ** Stopping *)

(** Where the main goroutine stands in [shutdown]: at its [select], waiting
    for [drained] after forcing the connections closed, before stopping the
    health server, or done. *)
Inductive position := Draining | Forcing | Stopping | Exited (code : Z).

#[export] Instance position_eq : EqDecision position.
Proof. solve_decision. Defined.

(** The three channels as whether they are closed. *)
Record Shutdown := MkShutdown {
  proc : Process;
  pos : position;
  deadlineCh : bool;
  finished : bool;
  drained : bool;
}.

Definition world_of (d : Shutdown) : World R := sys_world (system (proc d)).

(** ** The shutting-down flag stays *)

Definition is_closing (b : bool) (w : World R) : Prop := shuttingDown w = b.

Lemma closing_silent b {A} (m : M (World R) A) : silent shuttingDown m -> keeps (is_closing b) m.
Proof. intros Hm w Hw. unfold is_closing. by rewrite Hm. Qed.

Lemma closing_remote {A} (m : M R A) : silent shuttingDown (on_remote m).
Proof. intros w. unfold on_remote, zoom. by destruct (m (remote w)). Qed.

Lemma closing_quiet b : Quiet shuttingDown (is_closing b).
Proof.
  split; try done.
  - intros A m. apply closing_silent.
  - by apply closing_silent.
  - intros A m. apply closing_remote.
  - intros c p r w. unfold recordTransfer, bind, get_session. destruct (c =? "STOR")%string; simpl;
      destruct (decide (Result.Phase r = PhaseFailed)); done.
  - intros k user w. unfold release, bind, get. simpl. by destruct (default _ _).
  - intros user w. unfold TryAcquire. destruct (gates w !! user) as [gt|]; [|done].
    by destruct (Gate.TryAcquire gt).
Qed.

Lemma closing_respected b p : respected p (is_closing b).
Proof.
  apply indifferent_respected. split; intros; try (by apply closing_silent);
    try (apply closing_silent, closing_remote); try done.
  apply closing_silent. intros w. unfold on_ids, zoom. by destruct (m (fallbackCounter w)).
Qed.

Lemma closing_sess_Close p : silent shuttingDown (sess_Close p).
Proof.
  intros w. unfold sess_Close, get_session, bind, Session.Close.
  destruct (Session.closed _); [done|]. destruct (Session.sftp _) as [c|]; [|done].
  unfold bind. pose proof (closing_remote (SftpClient.Close c) w) as H.
  by destruct (on_remote (SftpClient.Close c) w) as [r w'].
Qed.

Lemma closing_ClientConnected g cc addr : silent shuttingDown (ClientConnected g cc addr).
Proof.
  intros w. unfold ClientConnected, bind, get. simpl. destruct (shuttingDown w) eqn:E; [done|].
  by destruct (_ >? _).
Qed.

Lemma closing_ClientDisconnected cc : silent shuttingDown (ClientDisconnected cc).
Proof.
  intros w. unfold ClientDisconnected, bind, get. simpl.
  destruct (extras w !! cc) as [cs|]; [|done].
  destruct (admitted cs), (cs_sess cs) as [p|]; try done; simpl;
    match goal with |- context [sess_Close p ?w1] => pose proof (closing_sess_Close p w1) as H;
      destruct (sess_Close p w1) as [[x|e] w2] end; simpl in H;
    by destruct (Session.IsConnected _).
Qed.

Lemma closing_AuthUser g cc addr user pass t now e :
  silent shuttingDown (AuthUser CompareHashAndPassword dummyHash g cc addr user pass t now e).
Proof.
  intros w. unfold AuthUser, bind. simpl. unfold on_authent, zoom. simpl.
  destruct (Authenticate _ _ _ _ _ _ _) as [[err|] au]; [by destruct (Is err KindRateLimited)|].
  destruct (g_users g !! user) as [rt|]; [|done].
  unfold on_ids, zoom. simpl. destruct (NewCorrelationID e _) as [id ids]. unfold alloc. simpl.
  by destruct (extras w !! cc).
Qed.

(** Every open transfer leaves the flag alone. *)
Definition closing_sys (b : bool) (s : Sys) : Prop :=
  shuttingDown (sys_world s) = b /\
  forall k t, transfers s !! k = Some t -> quiet_handle shuttingDown (t_handle t).

Lemma closing_step g b s i :
  closing_sys b s ->
  closing_sys (b || match i with IPrepareShutdown => true | _ => false end)
    (sys_step CompareHashAndPassword dummyHash g s i).
Proof.
  intros [Hb Hq].
  destruct i as [cc addr|cc|cc addr user pass t now e|p c|p name fl e|k c|];
    rewrite ?orb_false_r, ?orb_true_r; simpl.
  - split; [|done]. simpl. by rewrite closing_ClientConnected.
  - split; [|done]. simpl. by rewrite closing_ClientDisconnected.
  - split; [|done]. simpl. by rewrite closing_AuthUser.
  - split; [|done]. apply (keeps_command g p _ c (closing_respected b p)); [|done].
    intros A m. apply closing_silent, closing_remote.
  - pose proof (quietly_GetHandle _ _ (closing_quiet b) p (closing_respected b p) g name fl e
      (sys_world s) Hb) as H.
    destruct (GetHandle g p name fl e (sys_world s)) as [[t|err] w']; destruct H as [H Ht];
      (split; [done|]); [|done].
    intros k t'. simpl. rewrite lookup_insert_Some. intros [[_ <-]|[_ H']]; [done|by eapply Hq].
  - destruct (transfers s !! k) as [[user t]|] eqn:Hk; [|by split]. simpl.
    destruct (call_handle t c (sys_world s)) as [t' w'] eqn:E.
    apply (quiet_call shuttingDown) in E as [Ht Hw]; [|by apply Hq in Hk].
    split; [simpl; by rewrite Hw|].
    intros k' t2. simpl. rewrite lookup_insert_Some. intros [[_ <-]|[_ H']]; [done|by eapply Hq].
  - done.
Qed.

Lemma closing_serves p p' :
  rtc serves p p' -> (exists b, closing_sys b (system p)) -> exists b, closing_sys b (system p').
Proof.
  induction 1 as [|p p1 p2 (i & _ & ->) _ IH]; [done|]. intros [b Hb]. apply IH.
  eexists. by apply closing_step.
Qed.

(** [srv.Stop()], the order in which a map is iterated, [cc.Close()] and
    [time.Duration.String]. *)
Context (srv_Stop : option error) (iteration : gset Z -> list Z) (cc_Close : Z -> option error)
        (Duration_String : Z -> string).

(** [shutdown] up to its [select]. *)
Definition shutdown (p : Process) : Shutdown :=
  let p := set_alive false p in
  let p := on_gateway PrepareShutdown p in
  let p := on_gateway (log_err LevelWarn "error stopping FTP listener" srv_Stop) p in
  let deadline := ServerConfig.ShutdownTimeout (Config.Server (g_cfg (gateway p))) in
  let p := on_gateway (logger LevelInfo "draining active sessions"
             [("timeout", VString (Duration_String deadline))]) p in
  MkShutdown p Draining false false false.

Definition close_all : M (World R) unit :=
  do* logger LevelWarn "shutdown deadline reached with sessions still active; forcing close" [] in
  CloseAllConnections (fun cc => ret (cc_Close cc)) iteration.

Inductive thread := Library | Timer | Finisher | Waiter | Main.

Definition at_pos (q : position) (m : M (World R) unit) (d : Shutdown) : Shutdown :=
  MkShutdown (on_gateway m (proc d)) q (deadlineCh d) (finished d) (drained d).

(** One atomic step of a goroutine.  The library's callbacks go on; the
    timer closes [deadlineCh]; [WaitForSessions] closes [finished] once no
    session is left, and returns once either is closed, after which [drained]
    is closed; the main goroutine takes either ready case of its [select]. *)
Inductive move : thread -> Shutdown -> Shutdown -> Prop :=
  | m_callback d i :
      allowed (system (proc d)) i ->
      move Library d
        (MkShutdown (callback (proc d) i) (pos d) (deadlineCh d) (finished d) (drained d))
  | m_deadline d :
      deadlineCh d = false ->
      move Timer d (MkShutdown (proc d) (pos d) true (finished d) (drained d))
  | m_finished d :
      finished d = false -> Wait_returns (world_of d) = true ->
      move Finisher d (MkShutdown (proc d) (pos d) (deadlineCh d) true (drained d))
  | m_drained d :
      drained d = false -> WaitForSessions_returns (finished d) (deadlineCh d) = true ->
      move Waiter d (MkShutdown (proc d) (pos d) (deadlineCh d) (finished d) true)
  | m_clean d :
      pos d = Draining -> drained d = true ->
      move Main d (at_pos Stopping (logger LevelInfo "all sessions drained cleanly" []) d)
  | m_force d :
      pos d = Draining -> deadlineCh d = true ->
      move Main d (at_pos Forcing close_all d)
  | m_forced d :
      pos d = Forcing -> drained d = true -> move Main d (at_pos Stopping (ret tt) d)
  | m_exit d err :
      pos d = Stopping ->
      move Main d (at_pos (Exited 0)
        (do* log_err LevelWarn "error stopping health server" err in
         logger LevelInfo "shutdown complete" []) d).

(** The process ends with its main goroutine. *)
Definition running (d : Shutdown) : bool :=
  match pos d with Exited _ => false | _ => true end.
Definition step (l : thread) (d d' : Shutdown) : Prop := running d = true /\ move l d d'.

Definition enabled (l : thread) (d : Shutdown) : bool :=
  running d &&
  match l with
  | Library => true
  | Timer => negb (deadlineCh d)
  | Finisher => negb (finished d) && Wait_returns (world_of d)
  | Waiter => negb (drained d) && WaitForSessions_returns (finished d) (deadlineCh d)
  | Main =>
      match pos d with
      | Draining => drained d || deadlineCh d
      | Forcing => drained d
      | _ => true
      end
  end.

(** ** Properties *)

Lemma enabled_iff l d : l <> Library -> enabled l d = true <-> exists d', step l d d'.
Proof.
  intros Hl. unfold enabled, step. rewrite andb_true_iff. split.
  - intros [Hr He]. destruct l; bool_to_prop; [done|eexists; split; [done|by constructor]..|].
    destruct (pos d) eqn:Hp.
    + apply orb_prop in He as [H|H]; eexists; (split; [done|]); [by apply m_clean|by apply m_force].
    + eexists. split; [done|]. by apply m_forced.
    + eexists. split; [done|]. by apply (m_exit d None).
    + unfold running in Hr. by rewrite Hp in Hr.
  - intros (d' & Hr & Hm). split; [done|]. inversion Hm; subst; simpl; try done.
    + by rewrite negb_true_iff.
    + by rewrite H, H0.
    + by rewrite H, H0.
    + by rewrite H, H0.
    + rewrite H, H0. apply orb_true_r.
    + by rewrite H, H0.
    + by rewrite H.
Qed.

(** *** Invariant *)

Record shutting (d : Shutdown) : Prop := {
  sh_sys : closing_sys true (system (proc d));
  sh_alive : alive (healthSrv (proc d)) = false;
  sh_drained : drained d = true -> finished d || deadlineCh d = true;
  sh_end : match pos d with
           | Stopping => drained d = true
           | Exited code => code = 0 /\ drained d = true
           | _ => True
           end;
}.

Lemma closing_on_world b m s :
  silent shuttingDown m -> closing_sys b s -> closing_sys b (on_world m s).
Proof. intros Hm [Hb Hq]. split; [|done]. simpl. by rewrite Hm. Qed.

Lemma closing_log_err lvl msg err : silent shuttingDown (log_err lvl msg err).
Proof. by destruct err. Qed.

Lemma closing_close_each ids :
  silent shuttingDown (close_each (fun cc => ret (cc_Close cc)) ids).
Proof.
  induction ids as [|cc ids IH]; intros w; [done|]. simpl. unfold bind, ret.
  destruct (cc_Close cc); simpl; by rewrite IH.
Qed.

Lemma closing_close_all : silent shuttingDown close_all.
Proof. intros w. unfold close_all, CloseAllConnections, bind, get. simpl. by rewrite closing_close_each. Qed.

Lemma shutting_start b p : closing_sys b (system p) -> shutting (shutdown p).
Proof.
  intros [_ Hq]. split; try done. simpl. apply closing_on_world; [done|].
  apply closing_on_world; [apply closing_log_err|]. by split.
Qed.

Lemma shutting_step l d d' : step l d d' -> shutting d -> shutting d'.
Proof.
  intros [Hr Hm] [Hs Ha Hd He].
  inversion Hm as [d0 i Hi|d0 H1|d0 H1 H2|d0 H1 H2|d0 H1 H2|d0 H1 H2|d0 H1 H2|d0 err H1]; subst;
    split; simpl in *; try done; try (apply closing_on_world; [|done]).
  - by apply (closing_step (gateway (proc d)) true _ i).
  - intros _. apply orb_true_r.
  - destruct (pos d); try done. by destruct He.
  - apply closing_close_all.
  - intros w. unfold bind. by destruct err.
  - by rewrite H1 in He.
Qed.

(** *** Fair runs *)

(** How many steps of the main goroutine are left at most. *)
Definition rank (q : position) : nat :=
  match q with Draining => 3 | Forcing => 2 | Stopping => 1 | Exited _ => 0 end.

Lemma rank_step l d d' :
  step l d d' -> (rank (pos d') <= rank (pos d))%nat /\ (l = Main -> (rank (pos d') < rank (pos d))%nat).
Proof. intros [_ Hm]. inversion Hm; subst; simpl; rewrite ?H; simpl; split; intros; try lia; done. Qed.

(** An infinite run, stuttering included, in which no goroutine of
    [shutdown] is passed over for ever: again and again it is stepped or has
    nothing to do. *)
Record fair_run (σ : nat -> Shutdown) : Prop := {
  fr_step n : σ (S n) = σ n \/ exists l, step l (σ n) (σ (S n));
  fr_fair l n : l <> Library ->
    exists m, (n <= m)%nat /\ (step l (σ m) (σ (S m)) \/ enabled l (σ m) = false);
}.

Section run.
Context (σ : nat -> Shutdown) (Hσ : fair_run σ).

Lemma run_stable (X : Shutdown -> Prop) :
  (forall l d d', step l d d' -> X d -> X d') ->
  forall n m, (n <= m)%nat -> X (σ n) -> X (σ m).
Proof.
  intros HX n m. induction 1 as [|m _ IH]; [done|]. intros Hn. specialize (IH Hn).
  destruct (fr_step _ Hσ m) as [->|[l H]]; [done|by eapply HX].
Qed.

(** The process has exited, or what follows has happened. *)
Definition over_or (X : Shutdown -> Prop) (d : Shutdown) : Prop := running d = false \/ X d.

Lemma over_or_stable X :
  (forall l d d', step l d d' -> X d -> X d') ->
  forall l d d', step l d d' -> over_or X d -> over_or X d'.
Proof. intros HX l d d' Hs [Hr|H]; [destruct Hs; congruence|right; by eapply HX]. Qed.

(** A goroutine that is ready once [X] holds makes [Y] hold. *)
Lemma run_leads (X Y : Shutdown -> Prop) l n :
  l <> Library ->
  (forall l d d', step l d d' -> X d -> X d') ->
  (forall d d', X d -> step l d d' -> over_or Y d') ->
  (forall d, X d -> running d = true -> enabled l d = false -> Y d) ->
  over_or X (σ n) -> exists m, over_or Y (σ m).
Proof.
  intros Hl HX Hstep Hdis Hn.
  destruct (fr_fair _ Hσ l n Hl) as (m & Hle & Hm).
  pose proof (run_stable _ (over_or_stable X HX) n m Hle Hn) as [Hr|Hx]; [by exists m; left|].
  destruct Hm as [Hs|He].
  - exists (S m). by eapply Hstep.
  - exists m. destruct (running (σ m)) eqn:Hr; [right; by apply Hdis|by left].
Qed.

Definition late (d : Shutdown) : Prop := deadlineCh d = true.
Definition late_drained (k : nat) (d : Shutdown) : Prop :=
  deadlineCh d = true /\ drained d = true /\ (rank (pos d) <= k)%nat.

Lemma flags_step l d d' :
  step l d d' ->
  (deadlineCh d = true -> deadlineCh d' = true) /\ (drained d = true -> drained d' = true).
Proof. intros [_ Hm]. by inversion Hm; subst. Qed.

Lemma late_drained_stable k l d d' : step l d d' -> late_drained k d -> late_drained k d'.
Proof.
  intros Hs (H1 & H2 & H3). pose proof (flags_step _ _ _ Hs) as [? ?].
  pose proof (rank_step _ _ _ Hs) as [? _]. split_and!; auto. lia.
Qed.

Lemma run_exits : exists n, running (σ n) = false.
Proof.
  assert (exists n, over_or late (σ n)) as [n1 H1].
  { apply (run_leads (fun _ => True) late Timer 0); try done; [..|by right].
    - intros d d' _ [_ Hm]. right. by inversion Hm.
    - intros d _ Hr He. unfold enabled in He. rewrite Hr in He. by apply negb_false_iff in He. }
  assert (exists n, over_or (late_drained 3) (σ n)) as [n2 H2].
  { apply (run_leads late (late_drained 3) Waiter n1); try done.
    - intros l d d' Hs. apply (flags_step _ _ _ Hs).
    - intros d d' Hd [_ Hm]. right. inversion Hm; subst. split_and!; [done..|].
      simpl. destruct (pos d); simpl; lia.
    - intros d Hd Hr He. unfold enabled in He. rewrite Hr, Hd, orb_true_r, andb_true_r in He.
      apply negb_false_iff in He. split_and!; [done..|]. destruct (pos d); simpl; lia. }
  assert (forall k n, over_or (late_drained k) (σ n) -> exists m, running (σ m) = false) as Hk.
  { clear - Hσ. intros k. induction k as [|k IH]; intros n Hn.
    - exists n. destruct Hn as [Hn|(_ & _ & Hn)]; [done|]. unfold running.
      destruct (pos (σ n)); simpl in Hn; lia || done.
    - destruct (run_leads (late_drained (S k)) (late_drained k) Main n) as [m Hm]; [done|..|done|by eapply IH].
      + apply late_drained_stable.
      + intros d d' Hd Hs. right. pose proof (late_drained_stable _ _ _ _ Hs Hd) as (? & ? & _).
        destruct Hd as (_ & _ & Hd). split_and!; [done..|].
        pose proof (proj2 (rank_step _ _ _ Hs) eq_refl). lia.
      + intros d (H1 & H2 & _) Hr He. unfold enabled in He. rewrite Hr, H1, H2 in He.
        by destruct (pos d). }
  by eapply Hk.
Qed.

Lemma run_shutting n : shutting (σ 0) -> shutting (σ n).
Proof. apply (run_stable _ shutting_step). lia. Qed.

Lemma finished_step l d d' :
  step l d d' -> finished d' = true -> finished d = true \/ sessions (world_of d) = 0.
Proof. intros [_ Hm]. inversion Hm; subst; simpl; auto. right. by apply Z.eqb_eq. Qed.

(** [finished] is only closed when no session is left. *)
Lemma run_finished n :
  finished (σ 0) = false -> finished (σ n) = true ->
  exists m, (m <= n)%nat /\ sessions (world_of (σ m)) = 0.
Proof.
  intros H0. induction n as [|n IH]; [congruence|]. intros Hn.
  assert (finished (σ n) = true \/ sessions (world_of (σ n)) = 0) as [H|H].
  { destruct (fr_step _ Hσ n) as [Heq|[l Hs]]; [by rewrite <- Heq; left|by eapply finished_step]. }
  - destruct (IH H) as (m & ? & ?). exists m. split; [lia|done].
  - exists n. split; [lia|done].
Qed.
End run.

Lemma closing_woken b wk p : closing_sys b (system p) -> closing_sys b (system (woken wk p)).
Proof. intros H. destruct wk; simpl; apply closing_on_world; done || apply closing_log_err. Qed.

Section life.
Context (Quote : string -> string) (bcrypt_Cost : string -> option error)
        (os_Stat : string -> res bool) (os_ReadFile : string -> res string)
        (yaml_Unmarshal : string -> res Config).
Context (Getenv : string -> string) (ParseDuration : string -> res Z).
Context (http_Get : string -> res Z) (srv_Listen : res string) (ctx_Err : M R (option error)).
Abbreviation load := (Load Quote bcrypt_Cost os_Stat os_ReadFile yaml_Unmarshal).
Abbreviation launch := (run Quote bcrypt_Cost os_Stat os_ReadFile yaml_Unmarshal Getenv ParseDuration
  http_Get srv_Listen ctx_Err).

(** The process only serves a configuration that loads, with an empty
    gateway, alive; otherwise it ends with a code other than 0, but for the
    health check and a plea for help. *)
Lemma run_started args r ids :
  match launch args r ids with
  | Serving p =>
      (exists values cfg, Parse ParseDuration run_flags ∅ args = Parsed values /\
         load (config_path Getenv values) = Ok cfg /\ gateway p = NewGateway cfg) /\
      closing_sys false (system p) /\ alive (healthSrv p) = true
  | Exit code said => code <> 0 \/ said = None
  end.
Proof.
  unfold run. destruct (Parse _ _ _ args) as [values| |] eqn:Hp; [|by left|by right].
  destruct (default false _).
  - unfold runHealthcheck. destruct (load _) as [cfg|e]; [|by left].
    destruct (SplitHostPort _) as [[host port]|e]; [|by left].
    destruct (http_Get _) as [status|e]; [|by left].
    destruct (negb _); [by left|by right].
  - destruct (load (config_path Getenv values)) as [cfg|e] eqn:Hl; [|by left].
    destruct srv_Listen as [addr|e]; [|by left]. split_and!; [by exists values, cfg|split; done|done].
Qed.

(** The container's health check passes exactly when the configuration loads,
    its health address parses, and [/healthz] of that port, asked over
    loopback if the server listens everywhere, answers 200. *)
Lemma runHealthcheck_exact path :
  (runHealthcheck Quote bcrypt_Cost os_Stat os_ReadFile yaml_Unmarshal http_Get path).1 = 0 <->
  exists cfg host port, load path = Ok cfg /\
    SplitHostPort (HealthConfig.ListenAddress (Health cfg)) = Ok (host, port) /\
    http_Get (healthcheck_url host port) = Ok StatusOK.
Proof.
  unfold runHealthcheck. split.
  - destruct (load path) as [cfg|e]; [|done].
    destruct (SplitHostPort _) as [[host port]|e] eqn:Hs; [|done].
    destruct (http_Get _) as [status|e] eqn:Hg; [|done].
    destruct (status =? StatusOK) eqn:E; [|done]. bool_to_prop. subst. by exists cfg, host, port.
  - by intros (cfg & host & port & -> & -> & ->).
Qed.

(** C13. Shutting down ends, and is orderly.  Whatever happened while the
    process served, and however the goroutines of [shutdown] and the
    callbacks of the library interleave, provided only that none of its own
    goroutines is starved, the process exits, with code 0.  All along, new
    connections are refused and [/healthz] answers 503; and it does not exit
    before the deadline unless at some moment of the shutdown no session was
    left. *)
Theorem shutdown_completes args r ids p0 p wk σ :
  launch args r ids = Serving p0 -> rtc serves p0 p ->
  σ 0%nat = shutdown (woken wk p) -> fair_run σ ->
  (exists n, pos (σ n) = Exited 0) /\
  forall n,
    (forall g cc addr, (ClientConnected g cc addr (world_of (σ n))).1 =
       (msgShuttingDown, Some errShuttingDown)) /\
    StatusCode (handleHealthz (healthSrv (proc (σ n)))) = StatusServiceUnavailable /\
    (forall code, pos (σ n) = Exited code ->
       code = 0 /\
       (deadlineCh (σ n) = true \/
        exists m, (m <= n)%nat /\ sessions (world_of (σ m)) = 0)).
Proof.
  intros Hr Hp H0 Hf. pose proof (run_started args r ids) as Hs. rewrite Hr in Hs.
  destruct Hs as (_ & Hb & _).
  destruct (closing_serves _ _ Hp (ex_intro (fun b => closing_sys b (system p0)) _ Hb)) as [b Hb'].
  assert (forall n, shutting (σ n)) as Hsh.
  { intros n. apply (run_shutting _ Hf). rewrite H0. by eapply shutting_start, closing_woken. }
  split.
  - destruct (run_exits _ Hf) as [n Hn]. exists n. pose proof (sh_end _ (Hsh n)) as He.
    unfold running in Hn. destruct (pos (σ n)); [done..|]. by destruct He as [-> _].
  - intros n. destruct (Hsh n) as [[Hc _] Ha Hd He]. split_and!.
    + intros g cc addr. unfold ClientConnected, bind, get, count, modify. simpl.
      change (shuttingDown (sys_world (system (proc (σ n))))) with (shuttingDown (world_of (σ n))) in Hc.
      unfold world_of in *. by rewrite Hc.
    + unfold handleHealthz. by rewrite Ha.
    + intros code Hq. rewrite Hq in He. destruct He as [-> He]. split; [done|].
      apply Hd, orb_prop in He as [He|He]; [right|by left].
      apply (run_finished _ Hf); [by rewrite H0|done].
Qed.
End life.
End main.

(** ** A shutdown that runs into its deadline *)

Definition demo_started : started (R := MemFS) :=
  run (fun s => s) (fun _ => None) (fun _ => Ok false) (fun _ => Ok "") (fun _ => Ok demo_config) (fun _ => "")
    demo_duration (fun _ => Ok 200) (Ok "[::]:21") (ret None) ["-config"; "c"]
    (mem_of [("/data", NDir)]) 0.

(** Where it stands when a client has logged in. *)
Definition demo_served (ins : list input) : Process (R := MemFS) :=
  match demo_started with
  | Serving p => foldl (callback plain_compare "") p ins
  | Exit _ _ => MkProcess (NewGateway demo_config) demo_start (NewServer false None)
  end.
Definition demo_process : Process (R := MemFS) := woken (Signalled "terminated") (demo_served demo_login).

Abbreviation demo_step := (step plain_compare "" (fun cs => elements cs) (fun _ => None)).

(** A client is logged in; the deadline passes, its connection is forced
    closed, the library reports it gone, and the process exits. *)
Definition demo_run (n : nat) : Shutdown (R := MemFS) :=
  let d0 := shutdown None (fun _ => "10s") demo_process in
  let d1 := MkShutdown (proc d0) Draining true false false in
  let d2 := at_pos Forcing (close_all (fun cs => elements cs) (fun _ => None)) d1 in
  let d3 := MkShutdown (callback plain_compare "" (proc d2) (IDisconnected 7)) Forcing true false false in
  let d4 := MkShutdown (proc d3) Forcing true true false in
  let d5 := MkShutdown (proc d4) Forcing true true true in
  let d6 := at_pos Stopping (ret tt) d5 in
  let d7 := at_pos (Exited 0)
    (do* log_err LevelWarn "error stopping health server" None in
     logger LevelInfo "shutdown complete" []) d6 in
  match n with
  | 0%nat => d0 | 1%nat => d1 | 2%nat => d2 | 3%nat => d3 | 4%nat => d4 | 5%nat => d5 | 6%nat => d6
  | _ => d7
  end.

Lemma demo_run_fair : fair_run plain_compare "" (fun cs => elements cs) (fun _ => None) demo_run.
Proof.
  split.
  - intros n. destruct n as [|[|[|[|[|[|[|n]]]]]]].
    + right. exists Timer. split; [done|]. by apply (m_deadline _ _ _ _ (demo_run 0)).
    + right. exists Main. split; [done|]. by apply (m_force _ _ _ _ (demo_run 1)).
    + right. exists Library. split; [done|]. apply (m_callback _ _ _ _ (demo_run 2) (IDisconnected 7)).
      decided.
    + right. exists Finisher. split; [done|]. apply (m_finished _ _ _ _ (demo_run 3)); [done|]. by vm_compute.
    + right. exists Waiter. split; [done|]. by apply (m_drained _ _ _ _ (demo_run 4)).
    + right. exists Main. split; [done|]. by apply (m_forced _ _ _ _ (demo_run 5)).
    + right. exists Main. split; [done|]. by apply (m_exit _ _ _ _ (demo_run 6) None).
    + by left.
  - intros l n Hl. exists (n + 7)%nat. split; [lia|]. right.
    replace (n + 7)%nat with (S (S (S (S (S (S (S n))))))) by lia. done.
Qed.

Lemma shutdown_completes_witness :
  sessions (world_of (demo_run 0)) = 1 /\ (exists n, pos (demo_run n) = Exited 0) /\
  (ClientConnected (gateway demo_process) 9 "10.0.0.8:4000" (world_of (demo_run 2))).1 =
    (msgShuttingDown, Some errShuttingDown).
Proof.
  split; [by vm_compute|].
  assert (rtc (serves plain_compare "") (demo_served []) (demo_served demo_login)) as Hp.
  { eapply rtc_l; [exists (IConnected 7 "10.0.0.9:4000")|apply rtc_once; eexists]; (split; [|reflexivity]);
      decided. }
  assert (demo_started = Serving (demo_served [])) as Hr by reflexivity.
  destruct (shutdown_completes _ _ _ _ _ _ _ _ _ _ _ _ _ _ _ _ _ _ _ _ _ (Signalled "terminated")
    demo_run Hr Hp eq_refl demo_run_fair) as [He Hn].
  split; [exact He|]. exact (proj1 (Hn 2%nat) (gateway demo_process) 9 "10.0.0.8:4000").
Defined.

(** Once the deadline has passed, [WaitForSessions] returns too, so both cases
    of the [select] can be ready and the clean one may be taken: the process
    then exits as if drained, with a session still open and no connection
    closed by force. *)
Example drained_after_the_deadline :
  exists d, rtc (fun d d' => exists l, demo_step l d d')
              (shutdown None (fun _ => "10s") demo_process) d /\
    pos d = Exited 0 /\ sessions (world_of d) = 1 /\ finished d = false /\
    "all sessions drained cleanly" ∈ Message <$> log (world_of d).
Proof.
  set (d0 := shutdown None (fun _ => "10s") demo_process).
  set (d1 := MkShutdown (proc d0) Draining true false false).
  set (d2 := MkShutdown (proc d1) Draining true false true).
  set (d3 := at_pos Stopping (logger LevelInfo "all sessions drained cleanly" []) d2).
  eexists. split; [|split_and!].
  - apply (rtc_l _ _ d1); [exists Timer; split; [done|by apply (m_deadline _ _ _ _ d0)]|].
    apply (rtc_l _ _ d2); [exists Waiter; split; [done|by apply (m_drained _ _ _ _ d1)]|].
    apply (rtc_l _ _ d3); [exists Main; split; [done|by apply (m_clean _ _ _ _ d2)]|].
    apply rtc_once. exists Main. split; [done|]. by apply (m_exit _ _ _ _ d3 None).
  - done.
  - by vm_compute.
  - done.
  - decided.
Qed.
